(** * Verification of the device-certification engine

    Shallow embedding of [packages/engine/src/device-certify.ts]: the frame
    codec, the numeric command synthesizer, the policy resolver, the semantic
    parsers, the case builders and the execution loop, followed by the
    properties stated for them.

    Conventions of the embedding.
    - A JavaScript [number] that the engine uses as an integer (bytes, indices,
      codes, synthesized values) is a [Z]; the 32-bit bit operators are written
      out with their wrap-around.  Numbers that come from user input and may be
      fractional, infinite or NaN are a [JsNumber].
    - A [number[]] is a [list Z]; [bytes[i]] is [js_get], which is [None] for
      the JavaScript [undefined].
    - A string is a [string] of 8-bit characters that holds the UTF-8
      encoding of the JavaScript string.  [trim], [toUpperCase] and
      [toLowerCase] work on its code points, with the white space of
      ECMAScript and the case mappings of Unicode 14.
    - [null] and [undefined] are [None].
    - A thrown exception is the [Throw] outcome of [result].  [process.exit]
      abandons the computation in the same way without being an exception:
      it is [Throw (ProcessExit status)].
    - The socket is a script of the exchanges the environment will give: each
      request is answered by a reply or a time-out, or its send fails.  The
      observable effects of a run are the [Event]s it appends to a trace.
      Console output, wall-clock timestamps and the sleeps between cases are
      not part of the model. *)

From Stdlib Require Import ZArith List String Ascii Bool Lia QArith Qround DecimalString.
Import ListNotations.
Local Open Scope string_scope.
Local Open Scope list_scope.
Local Open Scope Z_scope.

Infix "+++" := String.append (at level 60, right associativity).

(** ** Exceptions *)

Inductive Error : Type :=
| InvalidHexToken (token : string)
| MissingManualIndex (setCode : string)
| ManualIndexOutOfBounds (setCode : string) (requestLength : Z)
| ChecksumIndexNotLast (setCode : string)
| UnknownSingleSelector (selector : string)
| NoCommandForSetCode (selector : string)
| NumericRequiresValue (selector : string)
| ValueNotValidForNonNumeric (selector : string)
| SanityRowMissing (what : string)
| OptionError (message : string)
| TypeError (what : string)
| SocketError (message : string)
| ProcessExit (status : Z).

Inductive result (A : Type) : Type :=
| Ok (a : A)
| Throw (e : Error).
Arguments Ok {A} a.
Arguments Throw {A} e.

Definition bind {A B : Type} (m : result A) (k : A -> result B) : result B :=
  match m with
  | Ok a => k a
  | Throw e => Throw e
  end.

Notation "x <- m ;; k" := (bind m (fun x => k))
  (at level 61, m at next level, right associativity).

Definition is_ok {A : Type} (m : result A) : bool :=
  match m with Ok _ => true | Throw _ => false end.

Fixpoint mapM {A B : Type} (f : A -> result B) (l : list A) : result (list B) :=
  match l with
  | [] => Ok []
  | a :: rest =>
      b <- f a ;;
      bs <- mapM f rest ;;
      Ok (b :: bs)
  end.

(** ** JavaScript strings *)

Module Js.

Definition char_code (c : ascii) : Z := Z.of_N (N_of_ascii c).
Definition char_of (z : Z) : ascii := ascii_of_N (Z.to_N z).

Definition is_upper (c : ascii) : bool := (65 <=? char_code c) && (char_code c <=? 90).
Definition is_lower (c : ascii) : bool := (97 <=? char_code c) && (char_code c <=? 122).
Definition is_digit (c : ascii) : bool := (48 <=? char_code c) && (char_code c <=? 57).

(** The class [[0-9A-Fa-f]]. *)
Definition is_hex (c : ascii) : bool :=
  is_digit c
  || ((65 <=? char_code c) && (char_code c <=? 70))
  || ((97 <=? char_code c) && (char_code c <=? 102)).

(** The white space among the ASCII characters. *)
Definition is_space (c : ascii) : bool :=
  let n := char_code c in
  (n =? 32) || ((9 <=? n) && (n <=? 13)).

Definition lower_char (c : ascii) : ascii :=
  if is_upper c then char_of (char_code c + 32) else c.
Definition upper_char (c : ascii) : ascii :=
  if is_lower c then char_of (char_code c - 32) else c.

Fixpoint map_chars (f : ascii -> ascii) (s : string) : string :=
  match s with
  | EmptyString => EmptyString
  | String c rest => String (f c) (map_chars f rest)
  end.

Fixpoint filter_chars (p : ascii -> bool) (s : string) : string :=
  match s with
  | EmptyString => EmptyString
  | String c rest => if p c then String c (filter_chars p rest) else filter_chars p rest
  end.


Definition startsWith (s prefix : string) : bool := String.prefix prefix s.

(** [s.includes(sub)] *)
Fixpoint includes (s sub : string) : bool :=
  String.prefix sub s
  || match s with
     | EmptyString => false
     | String _ rest => includes rest sub
     end.

Fixpoint rev_string (s acc : string) : string :=
  match s with
  | EmptyString => acc
  | String c rest => rev_string rest (String c acc)
  end.

(** *** Code points

    The operations below depend on the characters of a text and not only on
    its bytes. *)

Definition is_continuation (b : Z) : bool := (0x80 <=? b) && (b <=? 0xBF).

(** The code point of the multi-byte sequence that starts with the byte
    [b0] and goes on in [r0], and what follows the sequence: two bytes for
    U+0080..U+07FF, three for U+0800..U+FFFF without the surrogates, four for
    U+10000..U+10FFFF. *)
Definition multi_byte (b0 : Z) (r0 : string) : option (Z * string) :=
  match r0 with
  | EmptyString => None
  | String c1 r1 =>
      let b1 := char_code c1 in
      if negb (is_continuation b1) then None
      else if (0xC2 <=? b0) && (b0 <=? 0xDF)
      then Some ((b0 - 0xC0) * 64 + (b1 - 0x80), r1)
      else
        match r1 with
        | EmptyString => None
        | String c2 r2 =>
            let b2 := char_code c2 in
            if negb (is_continuation b2) then None
            else if (0xE0 <=? b0) && (b0 <=? 0xEF)
            then
              let cp := (b0 - 0xE0) * 4096 + (b1 - 0x80) * 64 + (b2 - 0x80) in
              if (0x800 <=? cp) && negb ((0xD800 <=? cp) && (cp <=? 0xDFFF))
              then Some (cp, r2) else None
            else
              match r2 with
              | EmptyString => None
              | String c3 r3 =>
                  let b3 := char_code c3 in
                  let cp := (b0 - 0xF0) * 262144 + (b1 - 0x80) * 4096
                            + (b2 - 0x80) * 64 + (b3 - 0x80) in
                  if is_continuation b3 && (0xF0 <=? b0) && (b0 <=? 0xF4)
                     && (0x10000 <=? cp) && (cp <=? 0x10FFFF)
                  then Some (cp, r3) else None
              end
        end
  end.

(** The first code point of a text and the rest of the text.  A byte that
    does not start a well-formed sequence is kept as the negative number
    [- b], which [encode] writes back as the byte. *)
Definition next_code_point (s : string) : option (Z * string) :=
  match s with
  | EmptyString => None
  | String c0 r0 =>
      let b0 := char_code c0 in
      if b0 <? 0x80 then Some (b0, r0)
      else match multi_byte b0 r0 with
           | Some next => Some next
           | None => Some (- b0, r0)
           end
  end.

(** Every round consumes a byte at least, so [fuel] = the length of the
    text is enough. *)
Fixpoint decode_loop (fuel : nat) (s : string) : list Z :=
  match fuel with
  | O => []
  | S k =>
      match next_code_point s with
      | None => []
      | Some (cp, rest) => cp :: decode_loop k rest
      end
  end.

Definition decode (s : string) : list Z := decode_loop (String.length s) s.

Definition encode_code_point (cp : Z) : string :=
  if cp <? 0 then String (char_of (- cp)) EmptyString
  else if cp <? 0x80 then String (char_of cp) EmptyString
  else if cp <? 0x800 then
    String (char_of (0xC0 + cp / 64)) (String (char_of (0x80 + cp mod 64)) EmptyString)
  else if cp <? 0x10000 then
    String (char_of (0xE0 + cp / 4096))
      (String (char_of (0x80 + (cp / 64) mod 64))
         (String (char_of (0x80 + cp mod 64)) EmptyString))
  else
    String (char_of (0xF0 + cp / 262144))
      (String (char_of (0x80 + (cp / 4096) mod 64))
         (String (char_of (0x80 + (cp / 64) mod 64))
            (String (char_of (0x80 + cp mod 64)) EmptyString))).

Fixpoint encode (cps : list Z) : string :=
  match cps with
  | [] => EmptyString
  | cp :: rest => encode_code_point cp +++ encode rest
  end.

(** *** White space

    [WhiteSpace] and [LineTerminator] of ECMAScript: what [trim] strips. *)
Definition is_white_space (cp : Z) : bool :=
  ((9 <=? cp) && (cp <=? 13))
  || (cp =? 0x20) || (cp =? 0xA0) || (cp =? 0x1680)
  || ((0x2000 <=? cp) && (cp <=? 0x200A))
  || (cp =? 0x2028) || (cp =? 0x2029) || (cp =? 0x202F) || (cp =? 0x205F)
  || (cp =? 0x3000) || (cp =? 0xFEFF).

Fixpoint drop_white_space (cps : list Z) : list Z :=
  match cps with
  | [] => []
  | cp :: rest => if is_white_space cp then drop_white_space rest else cps
  end.

(** [s.trim()] *)
Definition trim (s : string) : string :=
  encode (rev (drop_white_space (rev (drop_white_space (decode s))))).

(** *** Case mappings

    The tables are those of Unicode 14: the one-character mappings of
    [UnicodeData.txt] in ranges, the unconditional mappings of
    [SpecialCasing.txt], and the properties [Cased] and [Case_Ignorable] for
    the final sigma. *)

(** Code points with a one-character upper-case form: from the first to the
    second bound in steps of the third, each moved by the fourth. *)
Definition upper_ranges : list (Z * Z * Z * Z) :=
  [
    (0x61, 0x7A, 1, (-32)); (0xB5, 0xB5, 1, 743); (0xE0, 0xF6, 1, (-32));
    (0xF8, 0xFE, 1, (-32)); (0xFF, 0xFF, 1, 121); (0x101, 0x12F, 2, (-1));
    (0x131, 0x131, 1, (-232)); (0x133, 0x137, 2, (-1)); (0x13A, 0x148, 2, (-1));
    (0x14B, 0x177, 2, (-1)); (0x17A, 0x17E, 2, (-1)); (0x17F, 0x17F, 1, (-300));
    (0x180, 0x180, 1, 195); (0x183, 0x185, 2, (-1)); (0x188, 0x188, 1, (-1));
    (0x18C, 0x18C, 1, (-1)); (0x192, 0x192, 1, (-1)); (0x195, 0x195, 1, 97);
    (0x199, 0x199, 1, (-1)); (0x19A, 0x19A, 1, 163); (0x19E, 0x19E, 1, 130);
    (0x1A1, 0x1A5, 2, (-1)); (0x1A8, 0x1A8, 1, (-1)); (0x1AD, 0x1AD, 1, (-1));
    (0x1B0, 0x1B0, 1, (-1)); (0x1B4, 0x1B6, 2, (-1)); (0x1B9, 0x1B9, 1, (-1));
    (0x1BD, 0x1BD, 1, (-1)); (0x1BF, 0x1BF, 1, 56); (0x1C5, 0x1C5, 1, (-1));
    (0x1C6, 0x1C6, 1, (-2)); (0x1C8, 0x1C8, 1, (-1)); (0x1C9, 0x1C9, 1, (-2));
    (0x1CB, 0x1CB, 1, (-1)); (0x1CC, 0x1CC, 1, (-2)); (0x1CE, 0x1DC, 2, (-1));
    (0x1DD, 0x1DD, 1, (-79)); (0x1DF, 0x1EF, 2, (-1)); (0x1F2, 0x1F2, 1, (-1));
    (0x1F3, 0x1F3, 1, (-2)); (0x1F5, 0x1F5, 1, (-1)); (0x1F9, 0x21F, 2, (-1));
    (0x223, 0x233, 2, (-1)); (0x23C, 0x23C, 1, (-1)); (0x23F, 0x240, 1, 10815);
    (0x242, 0x242, 1, (-1)); (0x247, 0x24F, 2, (-1)); (0x250, 0x250, 1, 10783);
    (0x251, 0x251, 1, 10780); (0x252, 0x252, 1, 10782); (0x253, 0x253, 1, (-210));
    (0x254, 0x254, 1, (-206)); (0x256, 0x257, 1, (-205)); (0x259, 0x259, 1, (-202));
    (0x25B, 0x25B, 1, (-203)); (0x25C, 0x25C, 1, 42319); (0x260, 0x260, 1, (-205));
    (0x261, 0x261, 1, 42315); (0x263, 0x263, 1, (-207)); (0x265, 0x265, 1, 42280);
    (0x266, 0x266, 1, 42308); (0x268, 0x268, 1, (-209)); (0x269, 0x269, 1, (-211));
    (0x26A, 0x26A, 1, 42308); (0x26B, 0x26B, 1, 10743); (0x26C, 0x26C, 1, 42305);
    (0x26F, 0x26F, 1, (-211)); (0x271, 0x271, 1, 10749); (0x272, 0x272, 1, (-213));
    (0x275, 0x275, 1, (-214)); (0x27D, 0x27D, 1, 10727); (0x280, 0x280, 1, (-218));
    (0x282, 0x282, 1, 42307); (0x283, 0x283, 1, (-218)); (0x287, 0x287, 1, 42282);
    (0x288, 0x288, 1, (-218)); (0x289, 0x289, 1, (-69)); (0x28A, 0x28B, 1, (-217));
    (0x28C, 0x28C, 1, (-71)); (0x292, 0x292, 1, (-219)); (0x29D, 0x29D, 1, 42261);
    (0x29E, 0x29E, 1, 42258); (0x345, 0x345, 1, 84); (0x371, 0x373, 2, (-1));
    (0x377, 0x377, 1, (-1)); (0x37B, 0x37D, 1, 130); (0x3AC, 0x3AC, 1, (-38));
    (0x3AD, 0x3AF, 1, (-37)); (0x3B1, 0x3C1, 1, (-32)); (0x3C2, 0x3C2, 1, (-31));
    (0x3C3, 0x3CB, 1, (-32)); (0x3CC, 0x3CC, 1, (-64)); (0x3CD, 0x3CE, 1, (-63));
    (0x3D0, 0x3D0, 1, (-62)); (0x3D1, 0x3D1, 1, (-57)); (0x3D5, 0x3D5, 1, (-47));
    (0x3D6, 0x3D6, 1, (-54)); (0x3D7, 0x3D7, 1, (-8)); (0x3D9, 0x3EF, 2, (-1));
    (0x3F0, 0x3F0, 1, (-86)); (0x3F1, 0x3F1, 1, (-80)); (0x3F2, 0x3F2, 1, 7);
    (0x3F3, 0x3F3, 1, (-116)); (0x3F5, 0x3F5, 1, (-96)); (0x3F8, 0x3F8, 1, (-1));
    (0x3FB, 0x3FB, 1, (-1)); (0x430, 0x44F, 1, (-32)); (0x450, 0x45F, 1, (-80));
    (0x461, 0x481, 2, (-1)); (0x48B, 0x4BF, 2, (-1)); (0x4C2, 0x4CE, 2, (-1));
    (0x4CF, 0x4CF, 1, (-15)); (0x4D1, 0x52F, 2, (-1)); (0x561, 0x586, 1, (-48));
    (0x10D0, 0x10FA, 1, 3008); (0x10FD, 0x10FF, 1, 3008); (0x13F8, 0x13FD, 1, (-8));
    (0x1C80, 0x1C80, 1, (-6254)); (0x1C81, 0x1C81, 1, (-6253)); (0x1C82, 0x1C82, 1, (-6244));
    (0x1C83, 0x1C84, 1, (-6242)); (0x1C85, 0x1C85, 1, (-6243)); (0x1C86, 0x1C86, 1, (-6236));
    (0x1C87, 0x1C87, 1, (-6181)); (0x1C88, 0x1C88, 1, 35266); (0x1D79, 0x1D79, 1, 35332);
    (0x1D7D, 0x1D7D, 1, 3814); (0x1D8E, 0x1D8E, 1, 35384); (0x1E01, 0x1E95, 2, (-1));
    (0x1E9B, 0x1E9B, 1, (-59)); (0x1EA1, 0x1EFF, 2, (-1)); (0x1F00, 0x1F07, 1, 8);
    (0x1F10, 0x1F15, 1, 8); (0x1F20, 0x1F27, 1, 8); (0x1F30, 0x1F37, 1, 8);
    (0x1F40, 0x1F45, 1, 8); (0x1F51, 0x1F57, 2, 8); (0x1F60, 0x1F67, 1, 8);
    (0x1F70, 0x1F71, 1, 74); (0x1F72, 0x1F75, 1, 86); (0x1F76, 0x1F77, 1, 100);
    (0x1F78, 0x1F79, 1, 128); (0x1F7A, 0x1F7B, 1, 112); (0x1F7C, 0x1F7D, 1, 126);
    (0x1FB0, 0x1FB1, 1, 8); (0x1FBE, 0x1FBE, 1, (-7205)); (0x1FD0, 0x1FD1, 1, 8);
    (0x1FE0, 0x1FE1, 1, 8); (0x1FE5, 0x1FE5, 1, 7); (0x214E, 0x214E, 1, (-28));
    (0x2170, 0x217F, 1, (-16)); (0x2184, 0x2184, 1, (-1)); (0x24D0, 0x24E9, 1, (-26));
    (0x2C30, 0x2C5F, 1, (-48)); (0x2C61, 0x2C61, 1, (-1)); (0x2C65, 0x2C65, 1, (-10795));
    (0x2C66, 0x2C66, 1, (-10792)); (0x2C68, 0x2C6C, 2, (-1)); (0x2C73, 0x2C73, 1, (-1));
    (0x2C76, 0x2C76, 1, (-1)); (0x2C81, 0x2CE3, 2, (-1)); (0x2CEC, 0x2CEE, 2, (-1));
    (0x2CF3, 0x2CF3, 1, (-1)); (0x2D00, 0x2D25, 1, (-7264)); (0x2D27, 0x2D27, 1, (-7264));
    (0x2D2D, 0x2D2D, 1, (-7264)); (0xA641, 0xA66D, 2, (-1)); (0xA681, 0xA69B, 2, (-1));
    (0xA723, 0xA72F, 2, (-1)); (0xA733, 0xA76F, 2, (-1)); (0xA77A, 0xA77C, 2, (-1));
    (0xA77F, 0xA787, 2, (-1)); (0xA78C, 0xA78C, 1, (-1)); (0xA791, 0xA793, 2, (-1));
    (0xA794, 0xA794, 1, 48); (0xA797, 0xA7A9, 2, (-1)); (0xA7B5, 0xA7C3, 2, (-1));
    (0xA7C8, 0xA7CA, 2, (-1)); (0xA7D1, 0xA7D1, 1, (-1)); (0xA7D7, 0xA7D9, 2, (-1));
    (0xA7F6, 0xA7F6, 1, (-1)); (0xAB53, 0xAB53, 1, (-928)); (0xAB70, 0xABBF, 1, (-38864));
    (0xFF41, 0xFF5A, 1, (-32)); (0x10428, 0x1044F, 1, (-40)); (0x104D8, 0x104FB, 1, (-40));
    (0x10597, 0x105BB, 2, (-39)); (0x10598, 0x105A0, 2, (-39)); (0x105A4, 0x105B0, 2, (-39));
    (0x105B4, 0x105B8, 2, (-39)); (0x105BC, 0x105BC, 1, (-39)); (0x10CC0, 0x10CF2, 1, (-64));
    (0x118C0, 0x118DF, 1, (-32)); (0x16E60, 0x16E7F, 1, (-32)); (0x1E922, 0x1E943, 1, (-34)) ].

(** Code points whose upper-case form has several characters. *)
Definition upper_special : list (Z * list Z) :=
  [
    (0xDF, [0x53; 0x53]); (0x149, [0x2BC; 0x4E]); (0x1F0, [0x4A; 0x30C]);
    (0x390, [0x399; 0x308; 0x301]); (0x3B0, [0x3A5; 0x308; 0x301]); (0x587, [0x535; 0x552]);
    (0x1E96, [0x48; 0x331]); (0x1E97, [0x54; 0x308]); (0x1E98, [0x57; 0x30A]);
    (0x1E99, [0x59; 0x30A]); (0x1E9A, [0x41; 0x2BE]); (0x1F50, [0x3A5; 0x313]);
    (0x1F52, [0x3A5; 0x313; 0x300]); (0x1F54, [0x3A5; 0x313; 0x301]); (0x1F56, [0x3A5; 0x313; 0x342]);
    (0x1F80, [0x1F08; 0x399]); (0x1F81, [0x1F09; 0x399]); (0x1F82, [0x1F0A; 0x399]);
    (0x1F83, [0x1F0B; 0x399]); (0x1F84, [0x1F0C; 0x399]); (0x1F85, [0x1F0D; 0x399]);
    (0x1F86, [0x1F0E; 0x399]); (0x1F87, [0x1F0F; 0x399]); (0x1F88, [0x1F08; 0x399]);
    (0x1F89, [0x1F09; 0x399]); (0x1F8A, [0x1F0A; 0x399]); (0x1F8B, [0x1F0B; 0x399]);
    (0x1F8C, [0x1F0C; 0x399]); (0x1F8D, [0x1F0D; 0x399]); (0x1F8E, [0x1F0E; 0x399]);
    (0x1F8F, [0x1F0F; 0x399]); (0x1F90, [0x1F28; 0x399]); (0x1F91, [0x1F29; 0x399]);
    (0x1F92, [0x1F2A; 0x399]); (0x1F93, [0x1F2B; 0x399]); (0x1F94, [0x1F2C; 0x399]);
    (0x1F95, [0x1F2D; 0x399]); (0x1F96, [0x1F2E; 0x399]); (0x1F97, [0x1F2F; 0x399]);
    (0x1F98, [0x1F28; 0x399]); (0x1F99, [0x1F29; 0x399]); (0x1F9A, [0x1F2A; 0x399]);
    (0x1F9B, [0x1F2B; 0x399]); (0x1F9C, [0x1F2C; 0x399]); (0x1F9D, [0x1F2D; 0x399]);
    (0x1F9E, [0x1F2E; 0x399]); (0x1F9F, [0x1F2F; 0x399]); (0x1FA0, [0x1F68; 0x399]);
    (0x1FA1, [0x1F69; 0x399]); (0x1FA2, [0x1F6A; 0x399]); (0x1FA3, [0x1F6B; 0x399]);
    (0x1FA4, [0x1F6C; 0x399]); (0x1FA5, [0x1F6D; 0x399]); (0x1FA6, [0x1F6E; 0x399]);
    (0x1FA7, [0x1F6F; 0x399]); (0x1FA8, [0x1F68; 0x399]); (0x1FA9, [0x1F69; 0x399]);
    (0x1FAA, [0x1F6A; 0x399]); (0x1FAB, [0x1F6B; 0x399]); (0x1FAC, [0x1F6C; 0x399]);
    (0x1FAD, [0x1F6D; 0x399]); (0x1FAE, [0x1F6E; 0x399]); (0x1FAF, [0x1F6F; 0x399]);
    (0x1FB2, [0x1FBA; 0x399]); (0x1FB3, [0x391; 0x399]); (0x1FB4, [0x386; 0x399]);
    (0x1FB6, [0x391; 0x342]); (0x1FB7, [0x391; 0x342; 0x399]); (0x1FBC, [0x391; 0x399]);
    (0x1FC2, [0x1FCA; 0x399]); (0x1FC3, [0x397; 0x399]); (0x1FC4, [0x389; 0x399]);
    (0x1FC6, [0x397; 0x342]); (0x1FC7, [0x397; 0x342; 0x399]); (0x1FCC, [0x397; 0x399]);
    (0x1FD2, [0x399; 0x308; 0x300]); (0x1FD3, [0x399; 0x308; 0x301]); (0x1FD6, [0x399; 0x342]);
    (0x1FD7, [0x399; 0x308; 0x342]); (0x1FE2, [0x3A5; 0x308; 0x300]); (0x1FE3, [0x3A5; 0x308; 0x301]);
    (0x1FE4, [0x3A1; 0x313]); (0x1FE6, [0x3A5; 0x342]); (0x1FE7, [0x3A5; 0x308; 0x342]);
    (0x1FF2, [0x1FFA; 0x399]); (0x1FF3, [0x3A9; 0x399]); (0x1FF4, [0x38F; 0x399]);
    (0x1FF6, [0x3A9; 0x342]); (0x1FF7, [0x3A9; 0x342; 0x399]); (0x1FFC, [0x3A9; 0x399]);
    (0xFB00, [0x46; 0x46]); (0xFB01, [0x46; 0x49]); (0xFB02, [0x46; 0x4C]);
    (0xFB03, [0x46; 0x46; 0x49]); (0xFB04, [0x46; 0x46; 0x4C]); (0xFB05, [0x53; 0x54]);
    (0xFB06, [0x53; 0x54]); (0xFB13, [0x544; 0x546]); (0xFB14, [0x544; 0x535]);
    (0xFB15, [0x544; 0x53B]); (0xFB16, [0x54E; 0x546]); (0xFB17, [0x544; 0x53D]) ].

(** Code points with a one-character lower-case form. *)
Definition lower_ranges : list (Z * Z * Z * Z) :=
  [
    (0x41, 0x5A, 1, 32); (0xC0, 0xD6, 1, 32); (0xD8, 0xDE, 1, 32);
    (0x100, 0x12E, 2, 1); (0x132, 0x136, 2, 1); (0x139, 0x147, 2, 1);
    (0x14A, 0x176, 2, 1); (0x178, 0x178, 1, (-121)); (0x179, 0x17D, 2, 1);
    (0x181, 0x181, 1, 210); (0x182, 0x184, 2, 1); (0x186, 0x186, 1, 206);
    (0x187, 0x187, 1, 1); (0x189, 0x18A, 1, 205); (0x18B, 0x18B, 1, 1);
    (0x18E, 0x18E, 1, 79); (0x18F, 0x18F, 1, 202); (0x190, 0x190, 1, 203);
    (0x191, 0x191, 1, 1); (0x193, 0x193, 1, 205); (0x194, 0x194, 1, 207);
    (0x196, 0x196, 1, 211); (0x197, 0x197, 1, 209); (0x198, 0x198, 1, 1);
    (0x19C, 0x19C, 1, 211); (0x19D, 0x19D, 1, 213); (0x19F, 0x19F, 1, 214);
    (0x1A0, 0x1A4, 2, 1); (0x1A6, 0x1A6, 1, 218); (0x1A7, 0x1A7, 1, 1);
    (0x1A9, 0x1A9, 1, 218); (0x1AC, 0x1AC, 1, 1); (0x1AE, 0x1AE, 1, 218);
    (0x1AF, 0x1AF, 1, 1); (0x1B1, 0x1B2, 1, 217); (0x1B3, 0x1B5, 2, 1);
    (0x1B7, 0x1B7, 1, 219); (0x1B8, 0x1B8, 1, 1); (0x1BC, 0x1BC, 1, 1);
    (0x1C4, 0x1C4, 1, 2); (0x1C5, 0x1C5, 1, 1); (0x1C7, 0x1C7, 1, 2);
    (0x1C8, 0x1C8, 1, 1); (0x1CA, 0x1CA, 1, 2); (0x1CB, 0x1DB, 2, 1);
    (0x1DE, 0x1EE, 2, 1); (0x1F1, 0x1F1, 1, 2); (0x1F2, 0x1F4, 2, 1);
    (0x1F6, 0x1F6, 1, (-97)); (0x1F7, 0x1F7, 1, (-56)); (0x1F8, 0x21E, 2, 1);
    (0x220, 0x220, 1, (-130)); (0x222, 0x232, 2, 1); (0x23A, 0x23A, 1, 10795);
    (0x23B, 0x23B, 1, 1); (0x23D, 0x23D, 1, (-163)); (0x23E, 0x23E, 1, 10792);
    (0x241, 0x241, 1, 1); (0x243, 0x243, 1, (-195)); (0x244, 0x244, 1, 69);
    (0x245, 0x245, 1, 71); (0x246, 0x24E, 2, 1); (0x370, 0x372, 2, 1);
    (0x376, 0x376, 1, 1); (0x37F, 0x37F, 1, 116); (0x386, 0x386, 1, 38);
    (0x388, 0x38A, 1, 37); (0x38C, 0x38C, 1, 64); (0x38E, 0x38F, 1, 63);
    (0x391, 0x3A1, 1, 32); (0x3A3, 0x3AB, 1, 32); (0x3CF, 0x3CF, 1, 8);
    (0x3D8, 0x3EE, 2, 1); (0x3F4, 0x3F4, 1, (-60)); (0x3F7, 0x3F7, 1, 1);
    (0x3F9, 0x3F9, 1, (-7)); (0x3FA, 0x3FA, 1, 1); (0x3FD, 0x3FF, 1, (-130));
    (0x400, 0x40F, 1, 80); (0x410, 0x42F, 1, 32); (0x460, 0x480, 2, 1);
    (0x48A, 0x4BE, 2, 1); (0x4C0, 0x4C0, 1, 15); (0x4C1, 0x4CD, 2, 1);
    (0x4D0, 0x52E, 2, 1); (0x531, 0x556, 1, 48); (0x10A0, 0x10C5, 1, 7264);
    (0x10C7, 0x10C7, 1, 7264); (0x10CD, 0x10CD, 1, 7264); (0x13A0, 0x13EF, 1, 38864);
    (0x13F0, 0x13F5, 1, 8); (0x1C90, 0x1CBA, 1, (-3008)); (0x1CBD, 0x1CBF, 1, (-3008));
    (0x1E00, 0x1E94, 2, 1); (0x1E9E, 0x1E9E, 1, (-7615)); (0x1EA0, 0x1EFE, 2, 1);
    (0x1F08, 0x1F0F, 1, (-8)); (0x1F18, 0x1F1D, 1, (-8)); (0x1F28, 0x1F2F, 1, (-8));
    (0x1F38, 0x1F3F, 1, (-8)); (0x1F48, 0x1F4D, 1, (-8)); (0x1F59, 0x1F5F, 2, (-8));
    (0x1F68, 0x1F6F, 1, (-8)); (0x1F88, 0x1F8F, 1, (-8)); (0x1F98, 0x1F9F, 1, (-8));
    (0x1FA8, 0x1FAF, 1, (-8)); (0x1FB8, 0x1FB9, 1, (-8)); (0x1FBA, 0x1FBB, 1, (-74));
    (0x1FBC, 0x1FBC, 1, (-9)); (0x1FC8, 0x1FCB, 1, (-86)); (0x1FCC, 0x1FCC, 1, (-9));
    (0x1FD8, 0x1FD9, 1, (-8)); (0x1FDA, 0x1FDB, 1, (-100)); (0x1FE8, 0x1FE9, 1, (-8));
    (0x1FEA, 0x1FEB, 1, (-112)); (0x1FEC, 0x1FEC, 1, (-7)); (0x1FF8, 0x1FF9, 1, (-128));
    (0x1FFA, 0x1FFB, 1, (-126)); (0x1FFC, 0x1FFC, 1, (-9)); (0x2126, 0x2126, 1, (-7517));
    (0x212A, 0x212A, 1, (-8383)); (0x212B, 0x212B, 1, (-8262)); (0x2132, 0x2132, 1, 28);
    (0x2160, 0x216F, 1, 16); (0x2183, 0x2183, 1, 1); (0x24B6, 0x24CF, 1, 26);
    (0x2C00, 0x2C2F, 1, 48); (0x2C60, 0x2C60, 1, 1); (0x2C62, 0x2C62, 1, (-10743));
    (0x2C63, 0x2C63, 1, (-3814)); (0x2C64, 0x2C64, 1, (-10727)); (0x2C67, 0x2C6B, 2, 1);
    (0x2C6D, 0x2C6D, 1, (-10780)); (0x2C6E, 0x2C6E, 1, (-10749)); (0x2C6F, 0x2C6F, 1, (-10783));
    (0x2C70, 0x2C70, 1, (-10782)); (0x2C72, 0x2C72, 1, 1); (0x2C75, 0x2C75, 1, 1);
    (0x2C7E, 0x2C7F, 1, (-10815)); (0x2C80, 0x2CE2, 2, 1); (0x2CEB, 0x2CED, 2, 1);
    (0x2CF2, 0x2CF2, 1, 1); (0xA640, 0xA66C, 2, 1); (0xA680, 0xA69A, 2, 1);
    (0xA722, 0xA72E, 2, 1); (0xA732, 0xA76E, 2, 1); (0xA779, 0xA77B, 2, 1);
    (0xA77D, 0xA77D, 1, (-35332)); (0xA77E, 0xA786, 2, 1); (0xA78B, 0xA78B, 1, 1);
    (0xA78D, 0xA78D, 1, (-42280)); (0xA790, 0xA792, 2, 1); (0xA796, 0xA7A8, 2, 1);
    (0xA7AA, 0xA7AA, 1, (-42308)); (0xA7AB, 0xA7AB, 1, (-42319)); (0xA7AC, 0xA7AC, 1, (-42315));
    (0xA7AD, 0xA7AD, 1, (-42305)); (0xA7AE, 0xA7AE, 1, (-42308)); (0xA7B0, 0xA7B0, 1, (-42258));
    (0xA7B1, 0xA7B1, 1, (-42282)); (0xA7B2, 0xA7B2, 1, (-42261)); (0xA7B3, 0xA7B3, 1, 928);
    (0xA7B4, 0xA7C2, 2, 1); (0xA7C4, 0xA7C4, 1, (-48)); (0xA7C5, 0xA7C5, 1, (-42307));
    (0xA7C6, 0xA7C6, 1, (-35384)); (0xA7C7, 0xA7C9, 2, 1); (0xA7D0, 0xA7D0, 1, 1);
    (0xA7D6, 0xA7D8, 2, 1); (0xA7F5, 0xA7F5, 1, 1); (0xFF21, 0xFF3A, 1, 32);
    (0x10400, 0x10427, 1, 40); (0x104B0, 0x104D3, 1, 40); (0x10570, 0x10594, 2, 39);
    (0x10571, 0x10579, 2, 39); (0x1057D, 0x10589, 2, 39); (0x1058D, 0x10591, 2, 39);
    (0x10595, 0x10595, 1, 39); (0x10C80, 0x10CB2, 1, 64); (0x118A0, 0x118BF, 1, 32);
    (0x16E40, 0x16E5F, 1, 32); (0x1E900, 0x1E921, 1, 34) ].

(** Code points whose lower-case form has several characters. *)
Definition lower_special : list (Z * list Z) :=
  [
    (0x130, [0x69; 0x307]) ].

(** The case-ignorable code points. *)
Definition case_ignorable_ranges : list (Z * Z) :=
  [
    (0x27, 0x27); (0x2E, 0x2E); (0x3A, 0x3A); (0x5E, 0x5E); (0x60, 0x60);
    (0xA8, 0xA8); (0xAD, 0xAD); (0xAF, 0xAF); (0xB4, 0xB4); (0xB7, 0xB8);
    (0x2B0, 0x36F); (0x374, 0x375); (0x37A, 0x37A); (0x384, 0x385); (0x387, 0x387);
    (0x483, 0x489); (0x559, 0x559); (0x55F, 0x55F); (0x591, 0x5BD); (0x5BF, 0x5BF);
    (0x5C1, 0x5C2); (0x5C4, 0x5C5); (0x5C7, 0x5C7); (0x5F4, 0x5F4); (0x600, 0x605);
    (0x610, 0x61A); (0x61C, 0x61C); (0x640, 0x640); (0x64B, 0x65F); (0x670, 0x670);
    (0x6D6, 0x6DD); (0x6DF, 0x6E8); (0x6EA, 0x6ED); (0x70F, 0x70F); (0x711, 0x711);
    (0x730, 0x74A); (0x7A6, 0x7B0); (0x7EB, 0x7F5); (0x7FA, 0x7FA); (0x7FD, 0x7FD);
    (0x816, 0x82D); (0x859, 0x85B); (0x888, 0x888); (0x890, 0x891); (0x898, 0x89F);
    (0x8C9, 0x902); (0x93A, 0x93A); (0x93C, 0x93C); (0x941, 0x948); (0x94D, 0x94D);
    (0x951, 0x957); (0x962, 0x963); (0x971, 0x971); (0x981, 0x981); (0x9BC, 0x9BC);
    (0x9C1, 0x9C4); (0x9CD, 0x9CD); (0x9E2, 0x9E3); (0x9FE, 0x9FE); (0xA01, 0xA02);
    (0xA3C, 0xA3C); (0xA41, 0xA42); (0xA47, 0xA48); (0xA4B, 0xA4D); (0xA51, 0xA51);
    (0xA70, 0xA71); (0xA75, 0xA75); (0xA81, 0xA82); (0xABC, 0xABC); (0xAC1, 0xAC5);
    (0xAC7, 0xAC8); (0xACD, 0xACD); (0xAE2, 0xAE3); (0xAFA, 0xAFF); (0xB01, 0xB01);
    (0xB3C, 0xB3C); (0xB3F, 0xB3F); (0xB41, 0xB44); (0xB4D, 0xB4D); (0xB55, 0xB56);
    (0xB62, 0xB63); (0xB82, 0xB82); (0xBC0, 0xBC0); (0xBCD, 0xBCD); (0xC00, 0xC00);
    (0xC04, 0xC04); (0xC3C, 0xC3C); (0xC3E, 0xC40); (0xC46, 0xC48); (0xC4A, 0xC4D);
    (0xC55, 0xC56); (0xC62, 0xC63); (0xC81, 0xC81); (0xCBC, 0xCBC); (0xCBF, 0xCBF);
    (0xCC6, 0xCC6); (0xCCC, 0xCCD); (0xCE2, 0xCE3); (0xD00, 0xD01); (0xD3B, 0xD3C);
    (0xD41, 0xD44); (0xD4D, 0xD4D); (0xD62, 0xD63); (0xD81, 0xD81); (0xDCA, 0xDCA);
    (0xDD2, 0xDD4); (0xDD6, 0xDD6); (0xE31, 0xE31); (0xE34, 0xE3A); (0xE46, 0xE4E);
    (0xEB1, 0xEB1); (0xEB4, 0xEBC); (0xEC6, 0xEC6); (0xEC8, 0xECD); (0xF18, 0xF19);
    (0xF35, 0xF35); (0xF37, 0xF37); (0xF39, 0xF39); (0xF71, 0xF7E); (0xF80, 0xF84);
    (0xF86, 0xF87); (0xF8D, 0xF97); (0xF99, 0xFBC); (0xFC6, 0xFC6); (0x102D, 0x1030);
    (0x1032, 0x1037); (0x1039, 0x103A); (0x103D, 0x103E); (0x1058, 0x1059); (0x105E, 0x1060);
    (0x1071, 0x1074); (0x1082, 0x1082); (0x1085, 0x1086); (0x108D, 0x108D); (0x109D, 0x109D);
    (0x10FC, 0x10FC); (0x135D, 0x135F); (0x1712, 0x1714); (0x1732, 0x1733); (0x1752, 0x1753);
    (0x1772, 0x1773); (0x17B4, 0x17B5); (0x17B7, 0x17BD); (0x17C6, 0x17C6); (0x17C9, 0x17D3);
    (0x17D7, 0x17D7); (0x17DD, 0x17DD); (0x180B, 0x180F); (0x1843, 0x1843); (0x1885, 0x1886);
    (0x18A9, 0x18A9); (0x1920, 0x1922); (0x1927, 0x1928); (0x1932, 0x1932); (0x1939, 0x193B);
    (0x1A17, 0x1A18); (0x1A1B, 0x1A1B); (0x1A56, 0x1A56); (0x1A58, 0x1A5E); (0x1A60, 0x1A60);
    (0x1A62, 0x1A62); (0x1A65, 0x1A6C); (0x1A73, 0x1A7C); (0x1A7F, 0x1A7F); (0x1AA7, 0x1AA7);
    (0x1AB0, 0x1ACE); (0x1B00, 0x1B03); (0x1B34, 0x1B34); (0x1B36, 0x1B3A); (0x1B3C, 0x1B3C);
    (0x1B42, 0x1B42); (0x1B6B, 0x1B73); (0x1B80, 0x1B81); (0x1BA2, 0x1BA5); (0x1BA8, 0x1BA9);
    (0x1BAB, 0x1BAD); (0x1BE6, 0x1BE6); (0x1BE8, 0x1BE9); (0x1BED, 0x1BED); (0x1BEF, 0x1BF1);
    (0x1C2C, 0x1C33); (0x1C36, 0x1C37); (0x1C78, 0x1C7D); (0x1CD0, 0x1CD2); (0x1CD4, 0x1CE0);
    (0x1CE2, 0x1CE8); (0x1CED, 0x1CED); (0x1CF4, 0x1CF4); (0x1CF8, 0x1CF9); (0x1D2C, 0x1D6A);
    (0x1D78, 0x1D78); (0x1D9B, 0x1DFF); (0x1FBD, 0x1FBD); (0x1FBF, 0x1FC1); (0x1FCD, 0x1FCF);
    (0x1FDD, 0x1FDF); (0x1FED, 0x1FEF); (0x1FFD, 0x1FFE); (0x200B, 0x200F); (0x2018, 0x2019);
    (0x2024, 0x2024); (0x2027, 0x2027); (0x202A, 0x202E); (0x2060, 0x2064); (0x2066, 0x206F);
    (0x2071, 0x2071); (0x207F, 0x207F); (0x2090, 0x209C); (0x20D0, 0x20F0); (0x2C7C, 0x2C7D);
    (0x2CEF, 0x2CF1); (0x2D6F, 0x2D6F); (0x2D7F, 0x2D7F); (0x2DE0, 0x2DFF); (0x2E2F, 0x2E2F);
    (0x3005, 0x3005); (0x302A, 0x302D); (0x3031, 0x3035); (0x303B, 0x303B); (0x3099, 0x309E);
    (0x30FC, 0x30FE); (0xA015, 0xA015); (0xA4F8, 0xA4FD); (0xA60C, 0xA60C); (0xA66F, 0xA672);
    (0xA674, 0xA67D); (0xA67F, 0xA67F); (0xA69C, 0xA69F); (0xA6F0, 0xA6F1); (0xA700, 0xA721);
    (0xA770, 0xA770); (0xA788, 0xA78A); (0xA7F2, 0xA7F4); (0xA7F8, 0xA7F9); (0xA802, 0xA802);
    (0xA806, 0xA806); (0xA80B, 0xA80B); (0xA825, 0xA826); (0xA82C, 0xA82C); (0xA8C4, 0xA8C5);
    (0xA8E0, 0xA8F1); (0xA8FF, 0xA8FF); (0xA926, 0xA92D); (0xA947, 0xA951); (0xA980, 0xA982);
    (0xA9B3, 0xA9B3); (0xA9B6, 0xA9B9); (0xA9BC, 0xA9BD); (0xA9CF, 0xA9CF); (0xA9E5, 0xA9E6);
    (0xAA29, 0xAA2E); (0xAA31, 0xAA32); (0xAA35, 0xAA36); (0xAA43, 0xAA43); (0xAA4C, 0xAA4C);
    (0xAA70, 0xAA70); (0xAA7C, 0xAA7C); (0xAAB0, 0xAAB0); (0xAAB2, 0xAAB4); (0xAAB7, 0xAAB8);
    (0xAABE, 0xAABF); (0xAAC1, 0xAAC1); (0xAADD, 0xAADD); (0xAAEC, 0xAAED); (0xAAF3, 0xAAF4);
    (0xAAF6, 0xAAF6); (0xAB5B, 0xAB5F); (0xAB69, 0xAB6B); (0xABE5, 0xABE5); (0xABE8, 0xABE8);
    (0xABED, 0xABED); (0xFB1E, 0xFB1E); (0xFBB2, 0xFBC2); (0xFE00, 0xFE0F); (0xFE13, 0xFE13);
    (0xFE20, 0xFE2F); (0xFE52, 0xFE52); (0xFE55, 0xFE55); (0xFEFF, 0xFEFF); (0xFF07, 0xFF07);
    (0xFF0E, 0xFF0E); (0xFF1A, 0xFF1A); (0xFF3E, 0xFF3E); (0xFF40, 0xFF40); (0xFF70, 0xFF70);
    (0xFF9E, 0xFF9F); (0xFFE3, 0xFFE3); (0xFFF9, 0xFFFB); (0x101FD, 0x101FD); (0x102E0, 0x102E0);
    (0x10376, 0x1037A); (0x10780, 0x10785); (0x10787, 0x107B0); (0x107B2, 0x107BA); (0x10A01, 0x10A03);
    (0x10A05, 0x10A06); (0x10A0C, 0x10A0F); (0x10A38, 0x10A3A); (0x10A3F, 0x10A3F); (0x10AE5, 0x10AE6);
    (0x10D24, 0x10D27); (0x10EAB, 0x10EAC); (0x10F46, 0x10F50); (0x10F82, 0x10F85); (0x11001, 0x11001);
    (0x11038, 0x11046); (0x11070, 0x11070); (0x11073, 0x11074); (0x1107F, 0x11081); (0x110B3, 0x110B6);
    (0x110B9, 0x110BA); (0x110BD, 0x110BD); (0x110C2, 0x110C2); (0x110CD, 0x110CD); (0x11100, 0x11102);
    (0x11127, 0x1112B); (0x1112D, 0x11134); (0x11173, 0x11173); (0x11180, 0x11181); (0x111B6, 0x111BE);
    (0x111C9, 0x111CC); (0x111CF, 0x111CF); (0x1122F, 0x11231); (0x11234, 0x11234); (0x11236, 0x11237);
    (0x1123E, 0x1123E); (0x112DF, 0x112DF); (0x112E3, 0x112EA); (0x11300, 0x11301); (0x1133B, 0x1133C);
    (0x11340, 0x11340); (0x11366, 0x1136C); (0x11370, 0x11374); (0x11438, 0x1143F); (0x11442, 0x11444);
    (0x11446, 0x11446); (0x1145E, 0x1145E); (0x114B3, 0x114B8); (0x114BA, 0x114BA); (0x114BF, 0x114C0);
    (0x114C2, 0x114C3); (0x115B2, 0x115B5); (0x115BC, 0x115BD); (0x115BF, 0x115C0); (0x115DC, 0x115DD);
    (0x11633, 0x1163A); (0x1163D, 0x1163D); (0x1163F, 0x11640); (0x116AB, 0x116AB); (0x116AD, 0x116AD);
    (0x116B0, 0x116B5); (0x116B7, 0x116B7); (0x1171D, 0x1171F); (0x11722, 0x11725); (0x11727, 0x1172B);
    (0x1182F, 0x11837); (0x11839, 0x1183A); (0x1193B, 0x1193C); (0x1193E, 0x1193E); (0x11943, 0x11943);
    (0x119D4, 0x119D7); (0x119DA, 0x119DB); (0x119E0, 0x119E0); (0x11A01, 0x11A0A); (0x11A33, 0x11A38);
    (0x11A3B, 0x11A3E); (0x11A47, 0x11A47); (0x11A51, 0x11A56); (0x11A59, 0x11A5B); (0x11A8A, 0x11A96);
    (0x11A98, 0x11A99); (0x11C30, 0x11C36); (0x11C38, 0x11C3D); (0x11C3F, 0x11C3F); (0x11C92, 0x11CA7);
    (0x11CAA, 0x11CB0); (0x11CB2, 0x11CB3); (0x11CB5, 0x11CB6); (0x11D31, 0x11D36); (0x11D3A, 0x11D3A);
    (0x11D3C, 0x11D3D); (0x11D3F, 0x11D45); (0x11D47, 0x11D47); (0x11D90, 0x11D91); (0x11D95, 0x11D95);
    (0x11D97, 0x11D97); (0x11EF3, 0x11EF4); (0x13430, 0x13438); (0x16AF0, 0x16AF4); (0x16B30, 0x16B36);
    (0x16B40, 0x16B43); (0x16F4F, 0x16F4F); (0x16F8F, 0x16F9F); (0x16FE0, 0x16FE1); (0x16FE3, 0x16FE4);
    (0x1AFF0, 0x1AFF3); (0x1AFF5, 0x1AFFB); (0x1AFFD, 0x1AFFE); (0x1BC9D, 0x1BC9E); (0x1BCA0, 0x1BCA3);
    (0x1CF00, 0x1CF2D); (0x1CF30, 0x1CF46); (0x1D167, 0x1D169); (0x1D173, 0x1D182); (0x1D185, 0x1D18B);
    (0x1D1AA, 0x1D1AD); (0x1D242, 0x1D244); (0x1DA00, 0x1DA36); (0x1DA3B, 0x1DA6C); (0x1DA75, 0x1DA75);
    (0x1DA84, 0x1DA84); (0x1DA9B, 0x1DA9F); (0x1DAA1, 0x1DAAF); (0x1E000, 0x1E006); (0x1E008, 0x1E018);
    (0x1E01B, 0x1E021); (0x1E023, 0x1E024); (0x1E026, 0x1E02A); (0x1E130, 0x1E13D); (0x1E2AE, 0x1E2AE);
    (0x1E2EC, 0x1E2EF); (0x1E8D0, 0x1E8D6); (0x1E944, 0x1E94B); (0x1F3FB, 0x1F3FF); (0xE0001, 0xE0001);
    (0xE0020, 0xE007F); (0xE0100, 0xE01EF) ].

(** The cased code points that are not case-ignorable. *)
Definition cased_ranges : list (Z * Z) :=
  [
    (0x41, 0x5A); (0x61, 0x7A); (0xAA, 0xAA); (0xB5, 0xB5); (0xBA, 0xBA);
    (0xC0, 0xD6); (0xD8, 0xF6); (0xF8, 0x1BA); (0x1BC, 0x1BF); (0x1C4, 0x293);
    (0x295, 0x2AF); (0x370, 0x373); (0x376, 0x377); (0x37B, 0x37D); (0x37F, 0x37F);
    (0x386, 0x386); (0x388, 0x38A); (0x38C, 0x38C); (0x38E, 0x3A1); (0x3A3, 0x3F5);
    (0x3F7, 0x481); (0x48A, 0x52F); (0x531, 0x556); (0x560, 0x588); (0x10A0, 0x10C5);
    (0x10C7, 0x10C7); (0x10CD, 0x10CD); (0x10D0, 0x10FA); (0x10FD, 0x10FF); (0x13A0, 0x13F5);
    (0x13F8, 0x13FD); (0x1C80, 0x1C88); (0x1C90, 0x1CBA); (0x1CBD, 0x1CBF); (0x1D00, 0x1D2B);
    (0x1D6B, 0x1D77); (0x1D79, 0x1D9A); (0x1E00, 0x1F15); (0x1F18, 0x1F1D); (0x1F20, 0x1F45);
    (0x1F48, 0x1F4D); (0x1F50, 0x1F57); (0x1F59, 0x1F59); (0x1F5B, 0x1F5B); (0x1F5D, 0x1F5D);
    (0x1F5F, 0x1F7D); (0x1F80, 0x1FB4); (0x1FB6, 0x1FBC); (0x1FBE, 0x1FBE); (0x1FC2, 0x1FC4);
    (0x1FC6, 0x1FCC); (0x1FD0, 0x1FD3); (0x1FD6, 0x1FDB); (0x1FE0, 0x1FEC); (0x1FF2, 0x1FF4);
    (0x1FF6, 0x1FFC); (0x2102, 0x2102); (0x2107, 0x2107); (0x210A, 0x2113); (0x2115, 0x2115);
    (0x2119, 0x211D); (0x2124, 0x2124); (0x2126, 0x2126); (0x2128, 0x2128); (0x212A, 0x212D);
    (0x212F, 0x2134); (0x2139, 0x2139); (0x213C, 0x213F); (0x2145, 0x2149); (0x214E, 0x214E);
    (0x2160, 0x217F); (0x2183, 0x2184); (0x24B6, 0x24E9); (0x2C00, 0x2C7B); (0x2C7E, 0x2CE4);
    (0x2CEB, 0x2CEE); (0x2CF2, 0x2CF3); (0x2D00, 0x2D25); (0x2D27, 0x2D27); (0x2D2D, 0x2D2D);
    (0xA640, 0xA66D); (0xA680, 0xA69B); (0xA722, 0xA76F); (0xA771, 0xA787); (0xA78B, 0xA78E);
    (0xA790, 0xA7CA); (0xA7D0, 0xA7D1); (0xA7D3, 0xA7D3); (0xA7D5, 0xA7D9); (0xA7F5, 0xA7F6);
    (0xA7FA, 0xA7FA); (0xAB30, 0xAB5A); (0xAB60, 0xAB68); (0xAB70, 0xABBF); (0xFB00, 0xFB06);
    (0xFB13, 0xFB17); (0xFF21, 0xFF3A); (0xFF41, 0xFF5A); (0x10400, 0x1044F); (0x104B0, 0x104D3);
    (0x104D8, 0x104FB); (0x10570, 0x1057A); (0x1057C, 0x1058A); (0x1058C, 0x10592); (0x10594, 0x10595);
    (0x10597, 0x105A1); (0x105A3, 0x105B1); (0x105B3, 0x105B9); (0x105BB, 0x105BC); (0x10C80, 0x10CB2);
    (0x10CC0, 0x10CF2); (0x118A0, 0x118DF); (0x16E40, 0x16E7F); (0x1D400, 0x1D454); (0x1D456, 0x1D49C);
    (0x1D49E, 0x1D49F); (0x1D4A2, 0x1D4A2); (0x1D4A5, 0x1D4A6); (0x1D4A9, 0x1D4AC); (0x1D4AE, 0x1D4B9);
    (0x1D4BB, 0x1D4BB); (0x1D4BD, 0x1D4C3); (0x1D4C5, 0x1D505); (0x1D507, 0x1D50A); (0x1D50D, 0x1D514);
    (0x1D516, 0x1D51C); (0x1D51E, 0x1D539); (0x1D53B, 0x1D53E); (0x1D540, 0x1D544); (0x1D546, 0x1D546);
    (0x1D54A, 0x1D550); (0x1D552, 0x1D6A5); (0x1D6A8, 0x1D6C0); (0x1D6C2, 0x1D6DA); (0x1D6DC, 0x1D6FA);
    (0x1D6FC, 0x1D714); (0x1D716, 0x1D734); (0x1D736, 0x1D74E); (0x1D750, 0x1D76E); (0x1D770, 0x1D788);
    (0x1D78A, 0x1D7A8); (0x1D7AA, 0x1D7C2); (0x1D7C4, 0x1D7CB); (0x1DF00, 0x1DF09); (0x1DF0B, 0x1DF1E);
    (0x1E900, 0x1E943); (0x1F130, 0x1F149); (0x1F150, 0x1F169); (0x1F170, 0x1F189) ].

(** The ranges are in the order of their first bound. *)
Fixpoint shift_of (cp : Z) (ranges : list (Z * Z * Z * Z)) : option Z :=
  match ranges with
  | [] => None
  | (first, last, step, shift) :: rest =>
      if cp <? first then None
      else if (cp <=? last) && ((cp - first) mod step =? 0) then Some shift
      else shift_of cp rest
  end.

Fixpoint special_of (cp : Z) (table : list (Z * list Z)) : option (list Z) :=
  match table with
  | [] => None
  | (key, mapped) :: rest => if cp =? key then Some mapped else special_of cp rest
  end.

Fixpoint in_ranges (cp : Z) (ranges : list (Z * Z)) : bool :=
  match ranges with
  | [] => false
  | (first, last) :: rest =>
      if cp <? first then false
      else if cp <=? last then true
      else in_ranges cp rest
  end.

Definition map_code_point (ranges : list (Z * Z * Z * Z)) (special : list (Z * list Z))
    (cp : Z) : list Z :=
  match special_of cp special with
  | Some mapped => mapped
  | None =>
      match shift_of cp ranges with
      | Some shift => [cp + shift]
      | None => [cp]
      end
  end.

Definition upper_code_point : Z -> list Z := map_code_point upper_ranges upper_special.
Definition lower_code_point : Z -> list Z := map_code_point lower_ranges lower_special.

(** [s.toUpperCase()] *)
Definition toUpperCase (s : string) : string :=
  encode (flat_map upper_code_point (decode s)).

(** The text goes on with case-ignorable characters and then a cased
    letter. *)
Fixpoint cased_letter_follows (cps : list Z) : bool :=
  match cps with
  | [] => false
  | cp :: rest =>
      if in_ranges cp case_ignorable_ranges then cased_letter_follows rest
      else in_ranges cp cased_ranges
  end.

(** The lower-case forms of [cps]; [after_cased] tells that a cased letter
    and then only case-ignorable characters stand before [cps].  A capital
    sigma between such a beginning and an end that does not go on with a cased
    letter becomes the final sigma. *)
Fixpoint lower_code_points (after_cased : bool) (cps : list Z) : list Z :=
  match cps with
  | [] => []
  | cp :: rest =>
      (if cp =? 0x3A3
       then [if after_cased && negb (cased_letter_follows rest) then 0x3C2 else 0x3C3]
       else lower_code_point cp)
      ++ lower_code_points
           (if in_ranges cp case_ignorable_ranges then after_cased
            else in_ranges cp cased_ranges)
           rest
  end.

(** [s.toLowerCase()] *)
Definition toLowerCase (s : string) : string :=
  encode (lower_code_points false (decode s)).

Fixpoint repeat_char (c : ascii) (n : nat) : string :=
  match n with
  | O => EmptyString
  | S k => String c (repeat_char c k)
  end.

(** [s.padStart(n, c)] for a one-character filler. *)
Definition padStart (n : nat) (c : ascii) (s : string) : string :=
  repeat_char c (n - String.length s) +++ s.

(** [s.split(sep)] for a one-character separator. *)
Fixpoint split_acc (sep : ascii) (s : string) (cur : string) : list string :=
  match s with
  | EmptyString => [rev_string cur EmptyString]
  | String c rest =>
      if Ascii.eqb c sep
      then rev_string cur EmptyString :: split_acc sep rest EmptyString
      else split_acc sep rest (String c cur)
  end.
Definition split (sep : ascii) (s : string) : list string := split_acc sep s EmptyString.

(** [parts.join(sep)] *)
Fixpoint join (sep : string) (parts : list string) : string :=
  match parts with
  | [] => EmptyString
  | [p] => p
  | p :: rest => p +++ sep +++ join sep rest
  end.

(** A string used as a condition: the empty string is falsy. *)
Definition truthy (s : string) : bool := negb (String.eqb s EmptyString).
Definition truthy_opt (o : option string) : bool :=
  match o with Some s => truthy s | None => false end.

(** [a || b] on strings. *)
Definition or_else (a b : string) : string := if truthy a then a else b.

(** [String(n)] and [`${n}`] for an integer. *)
Definition of_int (z : Z) : string := NilZero.string_of_int (Z.to_int z).

Definition hex_digit (d : Z) : ascii :=
  if d <? 10 then char_of (48 + d) else char_of (87 + d).

Fixpoint hex_digits (fuel : nat) (z : Z) (acc : string) : string :=
  match fuel with
  | O => String (hex_digit (z mod 16)) acc
  | S k =>
      if z <? 16 then String (hex_digit z) acc
      else hex_digits k (z / 16) (String (hex_digit (z mod 16)) acc)
  end.

(** [n.toString(16)] for an integer: lower-case digits, a sign for negatives. *)
Definition toString16 (z : Z) : string :=
  if z <? 0
  then String "-"%char (hex_digits (Z.to_nat (Z.log2 (- z))) (- z) EmptyString)
  else hex_digits (Z.to_nat (Z.log2 z)) z EmptyString.

Definition hex_value (c : ascii) : option Z :=
  let n := char_code c in
  if is_digit c then Some (n - 48)
  else if (65 <=? n) && (n <=? 70) then Some (n - 55)
  else if (97 <=? n) && (n <=? 102) then Some (n - 87)
  else None.

(** [Number.parseInt(token, 16)] on a token without sign, prefix or white
    space: the longest run of leading hex digits, [None] (NaN) when the token
    does not start with one. *)
Fixpoint parseInt16_acc (s : string) (acc : Z) : Z :=
  match s with
  | EmptyString => acc
  | String c rest =>
      match hex_value c with
      | Some d => parseInt16_acc rest (16 * acc + d)
      | None => acc
      end
  end.
Definition parseInt16 (s : string) : option Z :=
  match s with
  | EmptyString => None
  | String c _ =>
      match hex_value c with
      | Some _ => Some (parseInt16_acc s 0)
      | None => None
      end
  end.

(** *** 32-bit integer operators *)

Definition to_uint32 (z : Z) : Z := z mod 2 ^ 32.
Definition to_int32 (z : Z) : Z :=
  let u := to_uint32 z in if u <? 2 ^ 31 then u else u - 2 ^ 32.

(** [a & b], [a | b], [a << n] and [a >>> 0]. *)
Definition band (a b : Z) : Z := to_int32 (Z.land (to_int32 a) (to_int32 b)).
Definition bor (a b : Z) : Z := to_int32 (Z.lor (to_int32 a) (to_int32 b)).
Definition shl (a n : Z) : Z := to_int32 (Z.shiftl (to_int32 a) (n mod 32)).
Definition ushr0 (a : Z) : Z := to_uint32 a.

(** *** Arrays of numbers *)

(** [arr[i]]; [None] is [undefined]. *)
Definition js_get {A : Type} (arr : list A) (i : Z) : option A :=
  if i <? 0 then None else nth_error arr (Z.to_nat i).

(** An [undefined] operand of a bit operator converts to 0. *)
Definition int_of (o : option Z) : Z :=
  match o with Some z => z | None => 0 end.

(** [arr[i] === v] *)
Definition get_is (arr : list Z) (i v : Z) : bool :=
  match js_get arr i with
  | Some b => b =? v
  | None => false
  end.

Definition len {A : Type} (arr : list A) : Z := Z.of_nat (List.length arr).

(** [arr.slice(start, end)] with JavaScript's treatment of negative and
    out-of-range positions. *)
Definition slice_pos (n k : Z) : Z :=
  if k <? 0 then Z.max (n + k) 0 else Z.min k n.
Definition slice {A : Type} (arr : list A) (start stop : Z) : list A :=
  let a := slice_pos (len arr) start in
  let b := slice_pos (len arr) stop in
  firstn (Z.to_nat (b - a)) (skipn (Z.to_nat a) arr).

Fixpoint replace_at {A : Type} (arr : list A) (i : nat) (v : A) : list A :=
  match arr, i with
  | [], _ => []
  | _ :: rest, O => v :: rest
  | x :: rest, S k => x :: replace_at rest k v
  end.

(** [arr[i] = v] at a position inside the array.  The engine only writes at
    the value and checksum positions of a numeric template, and
    [deriveNumericSpecs] throws unless both lie inside it, so the growth of a
    JavaScript array on a write past its end is never exercised; this model
    leaves the array unchanged there. *)
Definition js_set {A : Type} (arr : list A) (i : Z) (v : A) : list A :=
  if (0 <=? i) && (i <? len arr) then replace_at arr (Z.to_nat i) v else arr.

(** *** Numbers from user input *)

Inductive JsNumber : Type :=
| NaN
| Infinite (negative : bool)
| Finite (q : Q).

Definition isFinite (n : JsNumber) : bool :=
  match n with Finite _ => true | _ => false end.

(** [n < k] and [n > k] against an integer constant; false on NaN. *)
Definition lt_int (n : JsNumber) (k : Z) : bool :=
  match n with
  | NaN => false
  | Infinite negative => negative
  | Finite q => negb (Qle_bool (inject_Z k) q)
  end.
Definition gt_int (n : JsNumber) (k : Z) : bool :=
  match n with
  | NaN => false
  | Infinite negative => negb negative
  | Finite q => negb (Qle_bool q (inject_Z k))
  end.

(** [Math.round] of a finite number: the nearest integer, ties upward. *)
Definition round (q : Q) : Z := Qfloor (Qplus q (1 # 2)).

Definition number_eqb (a b : JsNumber) : bool :=
  match a, b with
  | NaN, NaN => true
  | Infinite x, Infinite y => Bool.eqb x y
  | Finite p, Finite q => Qeq_bool p q
  | _, _ => false
  end.

End Js.

Definition opt_string_eqb (a b : option string) : bool :=
  match a, b with
  | Some x, Some y => String.eqb x y
  | None, None => true
  | _, _ => false
  end.

(** A JavaScript [Map] or [Set] keyed by strings, in insertion order. *)
Module JsMap.

Definition t (V : Type) : Type := list (string * V).

Fixpoint get {V : Type} (m : t V) (k : string) : option V :=
  match m with
  | [] => None
  | (k', v) :: rest => if String.eqb k' k then Some v else get rest k
  end.

Definition has {V : Type} (m : t V) (k : string) : bool :=
  match get m k with Some _ => true | None => false end.

Fixpoint set {V : Type} (m : t V) (k : string) (v : V) : t V :=
  match m with
  | [] => [(k, v)]
  | (k', v') :: rest =>
      if String.eqb k' k then (k', v) :: rest else (k', v') :: set rest k v
  end.

Definition size {V : Type} (m : t V) : nat := List.length m.

End JsMap.

Definition set_has (s : list string) (k : string) : bool :=
  existsb (String.eqb k) s.

(** ** Data model *)

Inductive RunMode : Type := single | suite | sanity | issues.
Inductive ProfileName : Type := exview_aio | generic.
Inductive ValidationMode : Type :=
  STRICT_EXACT | STRUCTURE_ONLY | PARSED_RANGE | EXPECTED_NO_REPLY.
Inductive TransportStatus : Type := REPLY | TS_NO_REPLY.
Inductive StatusColor : Type := GREEN | YELLOW | RED | GRAY.
Inductive ResultStatus : Type := PASS | FAIL | NO_REPLY | SKIPPED.
Inductive Stage : Type := AUTO | POWER_MANUAL.
Inductive CaseSource : Type := from_truth | generated | from_sanity.

Definition RunMode_eqb (a b : RunMode) : bool :=
  match a, b with
  | single, single | suite, suite | sanity, sanity | issues, issues => true
  | _, _ => false
  end.

Definition ValidationMode_eqb (a b : ValidationMode) : bool :=
  match a, b with
  | STRICT_EXACT, STRICT_EXACT | STRUCTURE_ONLY, STRUCTURE_ONLY
  | PARSED_RANGE, PARSED_RANGE | EXPECTED_NO_REPLY, EXPECTED_NO_REPLY => true
  | _, _ => false
  end.

(** The text a validation mode has as a match type. *)
Definition ValidationMode_text (m : ValidationMode) : string :=
  match m with
  | STRICT_EXACT => "STRICT_EXACT"
  | STRUCTURE_ONLY => "STRUCTURE_ONLY"
  | PARSED_RANGE => "PARSED_RANGE"
  | EXPECTED_NO_REPLY => "EXPECTED_NO_REPLY"
  end.

Record TruthCommandRow : Type := {
  row_rowNumber : Z;
  row_commandKey : string;
  row_category : string;
  row_description : string;
  row_requestHex : string;
  row_replyHex : option string;
  row_setCommandCode : option string;
  row_replyCommandCode : option string;
  row_instruction : string;
  row_remark : string;
  row_transport : option string;
  row_excludedReason : option string
}.

Record SuiteExclusionEntry : Type := {
  excl_code : option string;
  excl_reason : option string
}.

Record IssueRecord : Type := {
  issue_commandKey : option string;
  issue_setCode : option string;
  issue_command : option string;
  issue_value : option Js.JsNumber;
  issue_status : option string;
  issue_matchType : option string
}.

Record NumericSpec : Type := {
  spec_setCode : string;
  spec_valueIndex : Z;
  spec_checksumIndex : Z;
  spec_baseRow : TruthCommandRow;
  spec_queryCode : option string;
  spec_queryRow : option TruthCommandRow
}.

Record CertifyCase : Type := {
  case_id : string;
  case_stage : Stage;
  case_source : CaseSource;
  case_category : string;
  case_description : string;
  case_commandKey : string;
  case_setCode : option string;
  case_replyCode : option string;
  case_txBytes : list Z;
  case_expectedReplyBytes : option (list Z);
  case_generatedValue : option Z;
  case_serialOnly : bool;
  case_isSetCommand : bool;
  case_isModeChangeCommand : bool;
  case_isPowerCommand : bool;
  case_isDisruptiveCommand : bool;
  case_closedLoopQueryRow : option TruthCommandRow;
  case_expectedQueryValue : option Z
}.

(** The values a parser stores in its [parsed] object. *)
Inductive JsVal : Type :=
| VUndefined
| VNum (n : Z)
| VStr (s : string)
| VNums (l : list Z)
| VStrs (l : list string).

Definition JsObject : Type := list (string * JsVal).

Definition val_of (o : option Z) : JsVal :=
  match o with Some n => VNum n | None => VUndefined end.

Fixpoint obj_get (o : JsObject) (k : string) : option JsVal :=
  match o with
  | [] => None
  | (k', v) :: rest => if String.eqb k' k then Some v else obj_get rest k
  end.

Record CertifyRecord : Type := {
  rec_stage : Stage;
  rec_source : CaseSource;
  rec_category : string;
  rec_command : string;
  rec_variant : string;
  rec_commandKey : string;
  rec_setCode : option string;
  rec_replyCode : option string;
  rec_txHex : option string;
  rec_rxHex : option string;
  rec_expectedHex : option string;
  rec_latencyMs : option Z;
  rec_transportStatus : TransportStatus;
  rec_status : ResultStatus;
  rec_statusColor : StatusColor;
  rec_validationMode : ValidationMode;
  rec_matchType : string;
  rec_meaning : option string;
  rec_parsed : option JsObject;
  rec_note : option string;
  rec_skipReason : option string;
  rec_value : option Z;
  rec_queryTxHex : option string;
  rec_queryRxHex : option string;
  rec_queryLatencyMs : option Z;
  rec_queryTransportStatus : option TransportStatus;
  rec_queryValue : option Z;
  rec_expectedValue : option Z;
  rec_notes : list string
}.

Record SendResult : Type := {
  rxBytes : option (list Z);
  latencyMs : option Z
}.

Record PayloadDecode : Type := {
  markerIndex : Z;
  dataLength : Z;
  data : list Z;
  ambiguous : bool
}.

Record ReplyDecode : Type := {
  replyCode : option string;
  replyCodeIndex : option Z;
  payload : option PayloadDecode
}.

Record ParseResult : Type := {
  ok : bool;
  parsed : option JsObject;
  meaning : string;
  value : option Z;
  note : option string
}.

Record CommandPolicy : Type := {
  cp_validationMode : ValidationMode;
  cp_parserCode : option string;
  cp_note : option string;
  cp_acceptAnyReplyCode : option bool;
  cp_allowNoReplyQuirk : option bool;
  cp_allowedReplyCodes : option (list string)
}.

Record ResolvedPolicy : Type := {
  validationMode : ValidationMode;
  parserCode : option string;
  policy_note : option string;
  acceptAnyReplyCode : bool;
  allowNoReplyQuirk : bool;
  allowedReplyCodes : list string
}.

(** ** Static tables *)

Definition DISRUPTIVE_SET_CODES : list string := ["C003"; "C007"; "C009"].

Definition NUMERIC_SET_CODES : list string :=
  ["C203"; "C21F"; "C217"; "C223"; "C227"; "C22B"; "C259"; "C262"].

Definition NUMERIC_VALUE_INDEX_BY_SET : JsMap.t (Z * Z) :=
  [ ("C203", (38, 39));
    ("C21F", (38, 39));
    ("C217", (38, 39));
    ("C223", (38, 39));
    ("C227", (38, 39));
    ("C22B", (38, 39));
    ("C259", (38, 39));
    ("C262", (38, 39)) ].

Definition CLOSED_LOOP_QUERY_BY_SET : JsMap.t string :=
  [ ("C203", "C201");
    ("C21F", "C21D");
    ("C217", "C215");
    ("C223", "C221");
    ("C227", "C225");
    ("C22B", "C229");
    ("C259", "C257");
    ("C262", "C264");
    ("C20F", "C20D") ].

Definition FORMULA_CHECKSUM_BASE : JsMap.t Z :=
  [ ("C203", 0x5b); ("C21F", 0x77) ].

Definition ACK_STATUS_MEANING (statusCode : Z) : option string :=
  if statusCode =? 0x0001 then Some "Success"
  else if statusCode =? 0x0002 then Some "Failure: unspecified reason"
  else if statusCode =? 0x0003 then Some "Failure: serial port not found"
  else if statusCode =? 0x0004 then Some "Failure: no response"
  else if statusCode =? 0x8001 then Some "Failure: busy"
  else if statusCode =? 0x8002 then Some "Failure: occupied"
  else None.

Definition ISSUE_STATUSES : list string := ["FAIL"; "NO_REPLY"; "SKIPPED"].

Definition EnumTable : Type := list (Z * string).

Fixpoint enum_get (table : EnumTable) (k : Z) : option string :=
  match table with
  | [] => None
  | (k', text) :: rest => if k' =? k then Some text else enum_get rest k
  end.

Definition VIDEO_SOURCE_ENUM : EnumTable :=
  [ (0, "Android"); (1, "Windows"); (2, "HDMI1"); (3, "HDMI2"); (4, "HDMI3"); (6, "HDMI4") ].

Definition SCENE_MODE_ENUM : EnumTable :=
  [ (0, "Meeting"); (1, "Standard"); (2, "Soft"); (3, "Custom"); (5, "Cinema") ].

Definition DISPLAY_MODE_ENUM : EnumTable :=
  [ (1, "4:3"); (2, "16:9"); (3, "Full"); (4, "Original"); (7, "1:1") ].

Definition COLOR_TEMP_ENUM : EnumTable :=
  [ (1, "Standard"); (2, "Warm"); (3, "Cool"); (4, "User") ].

Definition TRUE_STANDBY_ENUM : EnumTable :=
  [ (0, "TrueStandby"); (1, "NormalOperation") ].

Definition parsed_range (parser : string) : CommandPolicy :=
  {| cp_validationMode := PARSED_RANGE; cp_parserCode := Some parser; cp_note := None;
     cp_acceptAnyReplyCode := None; cp_allowNoReplyQuirk := None;
     cp_allowedReplyCodes := None |}.

Definition COMMAND_POLICY_BY_CODE : JsMap.t CommandPolicy :=
  [ ("C201", parsed_range "C201");
    ("C215", parsed_range "C215");
    ("C221", parsed_range "C221");
    ("C211", parsed_range "C211");
    ("C225", parsed_range "C221");
    ("C229", parsed_range "C221");
    ("C21D", parsed_range "C201");
    ("C257", parsed_range "C201");
    ("C264", parsed_range "C201");
    ("C243", parsed_range "C243");
    ("C25B", parsed_range "C25B");
    ("C241", parsed_range "C241");
    ("C131", {| cp_validationMode := STRUCTURE_ONLY; cp_parserCode := Some "C131";
                cp_note := None; cp_acceptAnyReplyCode := Some true;
                cp_allowNoReplyQuirk := None;
                cp_allowedReplyCodes := Some ["C332"] |});
    ("C33D", parsed_range "C33D");
    ("C005", {| cp_validationMode := EXPECTED_NO_REPLY; cp_parserCode := Some "C005";
                cp_note := Some "Known device quirk around standby/wake transitions; no reply can be expected.";
                cp_acceptAnyReplyCode := None;
                cp_allowNoReplyQuirk := Some true;
                cp_allowedReplyCodes := None |}) ].

(** ** Codes and hex text *)

Definition is_x (c : ascii) : bool := Ascii.eqb c "x" || Ascii.eqb c "X".

(** [input.replace(/^0x/i, '')] *)
Definition strip_leading_0x (s : string) : string :=
  match s with
  | String "0" (String c rest) => if is_x c then rest else s
  | _ => s
  end.

Definition normalizeCode (input : option string) : option string :=
  match input with
  | None => None
  | Some input =>
      if negb (Js.truthy input) then None
      else
        let normalized :=
          Js.toUpperCase (Js.filter_chars Js.is_hex (strip_leading_0x input)) in
        if negb (Js.truthy normalized) then None
        else Some (Js.padStart 4 "0" normalized)
  end.

Definition toCode (code : option string) : option string :=
  match normalizeCode code with
  | Some normalized => Some ("0x" +++ normalized)
  | None => None
  end.

(** [input.replace(/0x/gi, '')] *)
Fixpoint remove_all_0x (s : string) : string :=
  match s with
  | EmptyString => EmptyString
  | String c1 tl =>
      match tl with
      | String c2 rest =>
          if Ascii.eqb c1 "0" && is_x c2 then remove_all_0x rest
          else String c1 (remove_all_0x tl)
      | EmptyString => s
      end
  end.

(** [text.replace(/\s+/g, ' ')] on the text that [normalizeHex] gives it,
    which holds hex digits and spaces only; [in_run] tells that the previous
    character was white space already replaced. *)
Fixpoint collapse_spaces (in_run : bool) (s : string) : string :=
  match s with
  | EmptyString => EmptyString
  | String c rest =>
      if Js.is_space c
      then if in_run then collapse_spaces true rest
           else String " " (collapse_spaces true rest)
      else String c (collapse_spaces false rest)
  end.

(** Every character that is no hex digit becomes a space.  A character of
    several bytes gives a space for each byte; [trim] and the collapse of
    white space leave the same text as for one space. *)
Definition normalizeHex (input : string) : string :=
  Js.toUpperCase
    (collapse_spaces false
       (Js.trim
          (Js.map_chars (fun c => if Js.is_hex c then c else " "%char)
             (remove_all_0x input)))).

Definition parseHexToken (token : string) : result Z :=
  if negb (Nat.eqb (String.length token) 2) then Throw (InvalidHexToken token)
  else match Js.parseInt16 token with
       | Some value => Ok value
       | None => Throw (InvalidHexToken token)
       end.

Definition parseHexBytes (input : string) : result (list Z) :=
  let normalized := normalizeHex input in
  if negb (Js.truthy normalized) then Ok []
  else mapM parseHexToken (Js.split " " normalized).

Definition byteToHex (byte : Z) : string :=
  Js.toUpperCase (Js.padStart 2 "0" (Js.toString16 byte)).

Definition bytesToHex (bytes : list Z) : string :=
  Js.join " " (map byteToHex bytes).

(** ** Frame codec *)

(** One round of [sum = (sum + bytes[index]) & 0xff]; adding [undefined]
    gives NaN, which [&] turns into 0. *)
Definition checksumStep (sum : Z) (byte : option Z) : Z :=
  match byte with
  | Some b => Js.band (sum + b) 0xff
  | None => 0
  end.

Fixpoint checksumLoop (bytes : list Z) (index : Z) (steps : nat) (sum : Z) : Z :=
  match steps with
  | O => sum
  | S k => checksumLoop bytes (index + 1) k (checksumStep sum (Js.js_get bytes index))
  end.

(** The loop [for (index = 8; index <= bytes.length - 2; index += 1)] runs
    [bytes.length - 9] times. *)
Definition computePdfChecksum (bytes : list Z) : Z :=
  if Js.len bytes <? 10 then 0
  else checksumLoop bytes 8 (Z.to_nat (Js.len bytes - 2 - 8 + 1)) 0.

Definition opt_Z_eqb (a b : option Z) : bool :=
  match a, b with
  | Some x, Some y => x =? y
  | None, None => true
  | _, _ => false
  end.

(** [for (index = start; index < start + steps; index += 1)
       if (a[index] !== b[index]) return false;
     return true] *)
Fixpoint equalLoop (a b : list Z) (index : Z) (steps : nat) : bool :=
  match steps with
  | O => true
  | S k =>
      if negb (opt_Z_eqb (Js.js_get a index) (Js.js_get b index)) then false
      else equalLoop a b (index + 1) k
  end.

Definition equalBytes (a b : list Z) : bool :=
  if negb (Js.len a =? Js.len b) then false
  else equalLoop a b 0 (Z.to_nat (Js.len a)).

Definition equalIgnoringChecksum (a b : list Z) : bool :=
  if negb (Js.len a =? Js.len b) || (Js.len a =? 0) then false
  else equalLoop a b 0 (Z.to_nat (Js.len a - 1)).

Fixpoint all_0x55 (bytes : list Z) (index : Z) (steps : nat) : bool :=
  match steps with
  | O => true
  | S k =>
      if negb (Js.get_is bytes index 0x55) then false
      else all_0x55 bytes (index + 1) k
  end.

Definition isUdpLike (bytes : list Z) : bool :=
  if Js.len bytes <? 10 then false else all_0x55 bytes 0 7.

(** *** Payload extraction *)

Record Candidate : Type := {
  cand_index : Z;
  cand_length : Z;
  cand_data : list Z
}.

(** The body of the backward scan at one [index]: the candidate it pushes, if
    any, and the positions of [bytes] it has read, in the order of the reads. *)
Definition tailScanStep (bytes : list Z) (index : Z) : list Candidate * list Z :=
  if negb (Js.get_is bytes index 0x00) then ([], [index])
  else if negb (Js.get_is bytes (index + 2) 0x00) then ([], [index; index + 2])
  else
    let reads := [index; index + 2; index + 1] in
    match Js.js_get bytes (index + 1) with
    | None => ([], reads)
    | Some length =>
        let start := index + 3 in
        let checksumIndex := start + length in
        if negb (checksumIndex =? Js.len bytes - 1) then ([], reads)
        else ([ {| cand_index := index; cand_length := length;
                   cand_data := Js.slice bytes start checksumIndex |} ], reads)
    end.

(** [for (index = minIndex + steps - 1; index >= minIndex; index -= 1)]:
    the candidates in the order they are pushed, and the reads. *)
Fixpoint tailScan (bytes : list Z) (minIndex : Z) (steps : nat) : list Candidate * list Z :=
  match steps with
  | O => ([], [])
  | S k =>
      let here := tailScanStep bytes (minIndex + Z.of_nat k) in
      let below := tailScan bytes minIndex k in
      (fst here ++ fst below, snd here ++ snd below)
  end.

(** [extractTailPayload] together with the positions it has read. *)
Definition extractTailPayload_traced (bytes : list Z) : option PayloadDecode * list Z :=
  if Js.len bytes <? 6 then (None, [])
  else
    let minIndex := Z.max 0 (Js.len bytes - 96) in
    let scan := tailScan bytes minIndex (Z.to_nat (Js.len bytes - 4 - minIndex + 1)) in
    match fst scan with
    | [] => (None, snd scan)
    | selected :: others =>
        (Some {| markerIndex := cand_index selected;
                 dataLength := cand_length selected;
                 data := cand_data selected;
                 ambiguous := 1 <? Js.len (selected :: others) |},
         snd scan)
    end.

Definition extractTailPayload (bytes : list Z) : option PayloadDecode :=
  fst (extractTailPayload_traced bytes).

(** *** Reply code *)

Record ReplyCodeDecode : Type := {
  rc_code : option string;
  rc_index : option Z
}.

(** [x.toString(16).padStart(2, '0')]; calling a method of [undefined]
    throws. *)
Definition hex2 (what : string) (x : option Z) : result string :=
  match x with
  | Some x => Ok (Js.padStart 2 "0" (Js.toString16 x))
  | None => Throw (TypeError what)
  end.

(** [for (index = ...; steps more rounds; index += 1)] of [decodeReplyCode]. *)
Fixpoint replyCodeScan (bytes : list Z) (index : Z) (steps : nat) : result ReplyCodeDecode :=
  match steps with
  | O => Ok {| rc_code := None; rc_index := None |}
  | S k =>
      if negb (Js.get_is bytes index 0xd0) then replyCodeScan bytes (index + 1) k
      else
        let low := Js.js_get bytes (index + 1) in
        let high := Js.js_get bytes (index + 2) in
        h <- hex2 "high" high ;;
        l <- hex2 "low" low ;;
        Ok {| rc_code := Some (Js.toUpperCase (h +++ l)); rc_index := Some index |}
  end.

Definition decodeReplyCode (bytes : list Z) : result ReplyCodeDecode :=
  let maxScan := Z.min (Js.len bytes - 3) 40 in
  replyCodeScan bytes 8 (Z.to_nat (maxScan - 8 + 1)).

Definition decodeReply (bytes : list Z) : result ReplyDecode :=
  code <- decodeReplyCode bytes ;;
  let payload := extractTailPayload bytes in
  Ok {| replyCode := rc_code code;
        replyCodeIndex := rc_index code;
        payload := payload |}.

Definition parseAckStatus (decoded : option ReplyDecode) : option Z :=
  match decoded with
  | None => None
  | Some decoded =>
      match payload decoded with
      | None => None
      | Some p =>
          if Js.len (data p) <? 2 then None
          else Some (Js.bor (Js.int_of (Js.js_get (data p) 0))
                            (Js.shl (Js.int_of (Js.js_get (data p) 1)) 8))
      end
  end.

Definition ackMeaning (statusCode : option Z) : option string :=
  match statusCode with
  | None => None
  | Some statusCode =>
      match ACK_STATUS_MEANING statusCode with
      | Some text => Some text
      | None =>
          Some ("Status 0x" +++ Js.padStart 4 "0" (Js.toUpperCase (Js.toString16 statusCode)))
      end
  end.

(** ** Classification of truth rows *)

Definition opt_text (o : option string) : string :=
  match o with Some s => s | None => "" end.

Definition isSetCommand (row : TruthCommandRow) : bool :=
  Js.startsWith (Js.toLowerCase (row_category row)) "set ".

Definition isModeChangeCommand (row : TruthCommandRow) : bool :=
  let text :=
    Js.toLowerCase (row_category row +++ " " +++ row_description row +++ " " +++ row_instruction row) in
  Js.includes text "video source"
  || Js.includes text "screen display"
  || Js.includes text "split screen"
  || (Js.includes text "set " && Js.includes text "mode").

Definition isPowerCommand (row : TruthCommandRow) : bool :=
  match normalizeCode (row_setCommandCode row) with
  | None => false
  | Some code => set_has DISRUPTIVE_SET_CODES code
  end.

Definition isDisruptiveCommand (row : TruthCommandRow) : bool :=
  let text :=
    Js.toLowerCase (row_category row +++ " " +++ row_description row +++ " " +++ row_remark row) in
  Js.includes text "sleep" || Js.includes text "standby"
  || Js.includes text "restart" || Js.includes text "power off".

Definition isSerialOnly (row : TruthCommandRow) (txBytes : list Z) : bool :=
  let transport := Js.toUpperCase (opt_text (row_transport row)) in
  if Js.includes transport "SERIAL" then true
  else
    let combined :=
      Js.toLowerCase (row_remark row +++ " " +++ row_instruction row +++ " "
                      +++ opt_text (row_excludedReason row)) in
    if Js.includes combined "serial only" || Js.includes combined "serial-only" then true
    else if Js.includes combined "does not support udp" then true
    else if Js.includes combined "excluded" && Js.includes combined "serial" then true
    else if negb (isUdpLike txBytes) then true
    else false.

(** ** Indexing the truth rows (the first loop of [run]) *)

Definition indexRow (maps : JsMap.t TruthCommandRow * JsMap.t (list TruthCommandRow))
    (row : TruthCommandRow) : JsMap.t TruthCommandRow * JsMap.t (list TruthCommandRow) :=
  let byKey := JsMap.set (fst maps) (row_commandKey row) row in
  match normalizeCode (row_setCommandCode row) with
  | None => (byKey, snd maps)
  | Some setCode =>
      let existing :=
        match JsMap.get (snd maps) setCode with Some rows => rows | None => [] end in
      (byKey, JsMap.set (snd maps) setCode (existing ++ [row]))
  end.

Definition indexRows (rows : list TruthCommandRow)
    : JsMap.t TruthCommandRow * JsMap.t (list TruthCommandRow) :=
  fold_left indexRow rows ([], []).

Definition rows_of (bySetCode : JsMap.t (list TruthCommandRow)) (setCode : string)
    : list TruthCommandRow :=
  match JsMap.get bySetCode setCode with Some rows => rows | None => [] end.

(** ** Numeric command specs *)

(** One round of the loop of [deriveNumericSpecs]. *)
Definition deriveNumericSpec (bySetCode : JsMap.t (list TruthCommandRow))
    (specs : JsMap.t NumericSpec) (setCode : string) : result (JsMap.t NumericSpec) :=
  match rows_of bySetCode setCode with
  | [] => Ok specs
  | baseRow :: _ =>
      match JsMap.get NUMERIC_VALUE_INDEX_BY_SET setCode with
      | None => Throw (MissingManualIndex setCode)
      | Some (valueIndex, checksumIndex) =>
          txBytes <- parseHexBytes (row_requestHex baseRow) ;;
          if (Js.len txBytes <=? valueIndex) || (Js.len txBytes <=? checksumIndex)
          then Throw (ManualIndexOutOfBounds setCode (Js.len txBytes))
          else if negb (checksumIndex =? Js.len txBytes - 1)
          then Throw (ChecksumIndexNotLast setCode)
          else
            let queryCode := JsMap.get CLOSED_LOOP_QUERY_BY_SET setCode in
            let queryRow :=
              match queryCode with
              | Some q => if Js.truthy q then hd_error (rows_of bySetCode q) else None
              | None => None
              end in
            Ok (JsMap.set specs setCode
                  {| spec_setCode := setCode;
                     spec_valueIndex := valueIndex;
                     spec_checksumIndex := checksumIndex;
                     spec_baseRow := baseRow;
                     spec_queryCode := queryCode;
                     spec_queryRow := queryRow |})
      end
  end.

Fixpoint deriveNumericLoop (bySetCode : JsMap.t (list TruthCommandRow))
    (codes : list string) (specs : JsMap.t NumericSpec) : result (JsMap.t NumericSpec) :=
  match codes with
  | [] => Ok specs
  | setCode :: rest =>
      specs' <- deriveNumericSpec bySetCode specs setCode ;;
      deriveNumericLoop bySetCode rest specs'
  end.

Definition deriveNumericSpecs (bySetCode : JsMap.t (list TruthCommandRow))
    : result (JsMap.t NumericSpec) :=
  deriveNumericLoop bySetCode NUMERIC_SET_CODES [].

(** ** Case builders *)

Definition valueLabel (setCode : option string) : string :=
  match normalizeCode setCode with
  | None => "value"
  | Some normalized =>
      if String.eqb normalized "C203" then "volume"
      else if String.eqb normalized "C21F" then "brightness"
      else if String.eqb normalized "C217" then "contrast"
      else if String.eqb normalized "C223" then "redGain"
      else if String.eqb normalized "C227" then "greenGain"
      else if String.eqb normalized "C22B" then "blueGain"
      else if String.eqb normalized "C259" then "saturation"
      else if String.eqb normalized "C262" then "hue"
      else "value"
  end.

(** [hex ? parseHexBytes(hex) : null] *)
Definition parseOptionalHex (hex : option string) : result (option (list Z)) :=
  match hex with
  | Some text =>
      if Js.truthy text then (bytes <- parseHexBytes text ;; Ok (Some bytes)) else Ok None
  | None => Ok None
  end.

Definition buildGeneratedNumericCase (spec : NumericSpec) (value : Z) (source : CaseSource)
    : result CertifyCase :=
  parsedBytes <- parseHexBytes (row_requestHex (spec_baseRow spec)) ;;
  let withValue := Js.js_set parsedBytes (spec_valueIndex spec) (Js.band value 0xff) in
  let txBytes :=
    match JsMap.get FORMULA_CHECKSUM_BASE (spec_setCode spec) with
    | Some formulaBase =>
        Js.js_set withValue (spec_checksumIndex spec) (Js.band (formulaBase + value) 0xff)
    | None =>
        Js.js_set withValue (spec_checksumIndex spec) (computePdfChecksum withValue)
    end in
  expectedReplyBytes <- parseOptionalHex (row_replyHex (spec_baseRow spec)) ;;
  Ok {| case_id := row_commandKey (spec_baseRow spec) +++ ":gen-" +++ Js.of_int value;
        case_stage := if set_has DISRUPTIVE_SET_CODES (spec_setCode spec)
                      then POWER_MANUAL else AUTO;
        case_source := source;
        case_category := row_category (spec_baseRow spec);
        case_description :=
          valueLabel (toCode (Some (spec_setCode spec))) +++ "=" +++ Js.of_int value;
        case_commandKey := row_commandKey (spec_baseRow spec) +++ ":gen-" +++ Js.of_int value;
        case_setCode := toCode (Some (spec_setCode spec));
        case_replyCode := row_replyCommandCode (spec_baseRow spec);
        case_txBytes := txBytes;
        case_expectedReplyBytes := expectedReplyBytes;
        case_generatedValue := Some value;
        case_serialOnly := false;
        case_isSetCommand := true;
        case_isModeChangeCommand := isModeChangeCommand (spec_baseRow spec);
        case_isPowerCommand := false;
        case_isDisruptiveCommand := false;
        case_closedLoopQueryRow := spec_queryRow spec;
        case_expectedQueryValue := Some value |}.

Definition buildCaseFromTruthRow (row : TruthCommandRow) (source : CaseSource)
    : result CertifyCase :=
  txBytes <- parseHexBytes (row_requestHex row) ;;
  let setCode := normalizeCode (row_setCommandCode row) in
  let expectedQueryValue :=
    if opt_string_eqb setCode (Some "C20F") && (38 <? Js.len txBytes)
    then Js.js_get txBytes 38 else None in
  expectedReplyBytes <- parseOptionalHex (row_replyHex row) ;;
  Ok {| case_id := row_commandKey row;
        case_stage := if isPowerCommand row then POWER_MANUAL else AUTO;
        case_source := source;
        case_category := row_category row;
        case_description :=
          Js.or_else (row_description row) (Js.or_else (row_remark row) (row_commandKey row));
        case_commandKey := row_commandKey row;
        case_setCode := row_setCommandCode row;
        case_replyCode := row_replyCommandCode row;
        case_txBytes := txBytes;
        case_expectedReplyBytes := expectedReplyBytes;
        case_generatedValue := None;
        case_serialOnly := isSerialOnly row txBytes;
        case_isSetCommand := isSetCommand row;
        case_isModeChangeCommand := isModeChangeCommand row;
        case_isPowerCommand := isPowerCommand row;
        case_isDisruptiveCommand := isDisruptiveCommand row;
        case_closedLoopQueryRow := None;
        case_expectedQueryValue := expectedQueryValue |}.

(** The values of [for (let value = 0; value <= 100; value += 1)]. *)
Definition sweepValues : list Z := map Z.of_nat (seq 0 101).

(** [normal] first, then [power], each in its original order. *)
Definition powerLast (cases : list CertifyCase) : list CertifyCase :=
  filter (fun item => negb (case_isPowerCommand item)) cases
  ++ filter (fun item => case_isPowerCommand item) cases.

(** The loop of [buildSuiteCases]: the cases pushed for [rows], given the set
    codes already generated. *)
Fixpoint suiteLoop (numericSpecs : JsMap.t NumericSpec) (rows : list TruthCommandRow)
    (generatedSetCodes : list string) : result (list CertifyCase) :=
  match rows with
  | [] => Ok []
  | row :: rest =>
      let setCode := normalizeCode (row_setCommandCode row) in
      match setCode with
      | Some code =>
          match JsMap.get numericSpecs code with
          | Some spec =>
              if negb (set_has generatedSetCodes code) then
                sweep <- mapM (fun value => buildGeneratedNumericCase spec value generated)
                           sweepValues ;;
                later <- suiteLoop numericSpecs rest (code :: generatedSetCodes) ;;
                Ok (sweep ++ later)
              else suiteLoop numericSpecs rest generatedSetCodes
          | None =>
              item <- buildCaseFromTruthRow row from_truth ;;
              later <- suiteLoop numericSpecs rest generatedSetCodes ;;
              Ok (item :: later)
          end
      | None =>
          item <- buildCaseFromTruthRow row from_truth ;;
          later <- suiteLoop numericSpecs rest generatedSetCodes ;;
          Ok (item :: later)
      end
  end.

Definition buildSuiteCases (rows : list TruthCommandRow) (numericSpecs : JsMap.t NumericSpec)
    : result (list CertifyCase) :=
  cases <- suiteLoop numericSpecs rows [] ;;
  Ok (powerLast cases).

Definition buildSingleCase (byKey : JsMap.t TruthCommandRow)
    (bySetCode : JsMap.t (list TruthCommandRow)) (numericSpecs : JsMap.t NumericSpec)
    (selector : string) (value : option Z) : result CertifyCase :=
  match JsMap.get byKey selector with
  | Some rowByKey =>
      match normalizeCode (row_setCommandCode rowByKey), value with
      | Some setCode, Some v =>
          match JsMap.get numericSpecs setCode with
          | Some spec => buildGeneratedNumericCase spec v generated
          | None => buildCaseFromTruthRow rowByKey from_truth
          end
      | _, _ => buildCaseFromTruthRow rowByKey from_truth
      end
  | None =>
      match normalizeCode (Some selector) with
      | None => Throw (UnknownSingleSelector selector)
      | Some normalizedCode =>
          match rows_of bySetCode normalizedCode with
          | [] => Throw (NoCommandForSetCode selector)
          | first :: _ =>
              match JsMap.get numericSpecs normalizedCode with
              | Some spec =>
                  match value with
                  | None => Throw (NumericRequiresValue selector)
                  | Some v => buildGeneratedNumericCase spec v generated
                  end
              | None =>
                  match value with
                  | Some _ => Throw (ValueNotValidForNonNumeric selector)
                  | None => buildCaseFromTruthRow first from_truth
                  end
              end
          end
      end
  end.

(** [a ?? b] on the result of [find]. *)
Definition or_find {A : Type} (a b : option A) : option A :=
  match a with Some _ => a | None => b end.

Definition buildSanityCases (bySetCode : JsMap.t (list TruthCommandRow))
    (numericSpecs : JsMap.t NumericSpec) : result (list CertifyCase) :=
  let c213Rows := rows_of bySetCode "C213" in
  let androidRow :=
    or_find (find (fun row => Js.includes (Js.toLowerCase (row_description row)) "android") c213Rows)
      (or_find (find (fun row => Js.startsWith (Js.trim (row_description row)) "0") c213Rows)
         (hd_error c213Rows)) in
  match androidRow with
  | None => Throw (SanityRowMissing "C213")
  | Some androidRow =>
      first <- buildCaseFromTruthRow androidRow from_sanity ;;
      match JsMap.get numericSpecs "C203" with
      | None => Throw (SanityRowMissing "C203")
      | Some volumeSpec =>
          second <- buildGeneratedNumericCase volumeSpec 50 from_sanity ;;
          match JsMap.get numericSpecs "C21F" with
          | None => Throw (SanityRowMissing "C21F")
          | Some brightnessSpec =>
              third <- buildGeneratedNumericCase brightnessSpec 50 from_sanity ;;
              Ok [first; second; third]
          end
      end
  end.

(** *** Replay of issues *)

(** The three components of the de-duplication key
    [`${key}|${setCode ?? ''}|${value == null ? '' : value}`].  The key text
    determines them: a normalized code and the text of a number contain no
    ['|'], so the last two bars of the text are the separators. *)
Definition DedupeKey : Type := string * option string * option Js.JsNumber.

Definition opt_number_eqb (a b : option Js.JsNumber) : bool :=
  match a, b with
  | Some x, Some y => Js.number_eqb x y
  | None, None => true
  | _, _ => false
  end.

Definition dedupe_eqb (a b : DedupeKey) : bool :=
  let '(k1, c1, v1) := a in
  let '(k2, c2, v2) := b in
  String.eqb k1 k2 && opt_string_eqb c1 c2 && opt_number_eqb v1 v2.

Definition isIssue (record : IssueRecord) : bool :=
  let status := Js.toUpperCase (opt_text (issue_status record)) in
  let matchText := Js.toUpperCase (opt_text (issue_matchType record)) in
  set_has ISSUE_STATUSES status
  || String.eqb matchText "MISMATCH"
  || Js.includes matchText "NO_REPLY".

(** [record.setCode ?? record.command ?? null] *)
Definition issueSetCodeRaw (record : IssueRecord) : option string :=
  match issue_setCode record with
  | Some code => Some code
  | None => issue_command record
  end.

(** [Math.max(0, Math.min(100, Math.round(value)))] *)
Definition boundedValue (q : Q) : Z := Z.max 0 (Z.min 100 (Js.round q)).

(** The loop of [buildIssuesCases] over the filtered records; an issue that
    maps to no truth command is only logged. *)
Fixpoint issuesLoop (byKey : JsMap.t TruthCommandRow)
    (bySetCode : JsMap.t (list TruthCommandRow)) (numericSpecs : JsMap.t NumericSpec)
    (records : list IssueRecord) (seen : list DedupeKey) : result (list CertifyCase) :=
  match records with
  | [] => Ok []
  | record :: rest =>
      let key := if Js.truthy_opt (issue_commandKey record)
                 then opt_text (issue_commandKey record) else "" in
      let setCodeRaw := issueSetCodeRaw record in
      let setCode := normalizeCode setCodeRaw in
      let value := issue_value record in
      let dedupeKey := (key, setCode, value) in
      if existsb (dedupe_eqb dedupeKey) seen
      then issuesLoop byKey bySetCode numericSpecs rest seen
      else
        let seen' := dedupeKey :: seen in
        let fromTruth :=
          (* the two fall-back branches and the final warning *)
          match (if Js.truthy key then JsMap.get byKey key else None) with
          | Some row =>
              item <- buildCaseFromTruthRow row from_truth ;;
              later <- issuesLoop byKey bySetCode numericSpecs rest seen' ;;
              Ok (item :: later)
          | None =>
              match setCode with
              | Some code =>
                  match JsMap.get bySetCode code with
                  | Some group =>
                      match group with
                      | row :: _ =>
                          item <- buildCaseFromTruthRow row from_truth ;;
                          later <- issuesLoop byKey bySetCode numericSpecs rest seen' ;;
                          Ok (item :: later)
                      | [] => Throw (TypeError "row")
                      end
                  | None => issuesLoop byKey bySetCode numericSpecs rest seen'
                  end
              | None => issuesLoop byKey bySetCode numericSpecs rest seen'
              end
          end in
        match setCode, value with
        | Some code, Some (Js.Finite q) =>
            match JsMap.get numericSpecs code with
            | Some spec =>
                item <- buildGeneratedNumericCase spec (boundedValue q) generated ;;
                later <- issuesLoop byKey bySetCode numericSpecs rest seen' ;;
                Ok (item :: later)
            | None => fromTruth
            end
        | _, _ => fromTruth
        end
  end.

(** [buildIssuesCases] on the records read from the issues file. *)
Definition buildIssuesCases (issueRecords : list IssueRecord)
    (byKey : JsMap.t TruthCommandRow) (bySetCode : JsMap.t (list TruthCommandRow))
    (numericSpecs : JsMap.t NumericSpec) : result (list CertifyCase) :=
  let filtered := filter isIssue issueRecords in
  cases <- issuesLoop byKey bySetCode numericSpecs filtered [] ;;
  Ok (powerLast cases).

(** ** Semantic parsers *)

Definition failedParse (parsed : option JsObject) (meaning : string) : ParseResult :=
  {| ok := false; parsed := parsed; meaning := meaning; value := None; note := None |}.

Definition parseRangeValue (label : string) (data : list Z) (min max : Z) : ParseResult :=
  match data with
  | [] => failedParse None (label +++ ": missing payload")
  | value :: _ =>
      let ok := (min <=? value) && (value <=? max) in
      {| ok := ok;
         parsed := Some [(label, VNum value)];
         meaning := label +++ "=" +++ Js.of_int value;
         value := Some value;
         note := if ok then None
                 else Some (label +++ " out of range (" +++ Js.of_int value +++ ", expected "
                            +++ Js.of_int min +++ "-" +++ Js.of_int max +++ ")") |}
  end.

Definition parseEnumValue (label : string) (data : list Z) (table : EnumTable) : ParseResult :=
  match data with
  | [] => failedParse None (label +++ ": missing payload")
  | first :: rest =>
      let value :=
        match rest with
        | second :: _ => if (first =? 0x00) && negb (second =? 0x00) then second else first
        | [] => first
        end in
      match enum_get table value with
      | None =>
          {| ok := false;
             parsed := Some [(label, VNum value)];
             meaning := label +++ "=unknown(" +++ Js.of_int value +++ ")";
             value := Some value;
             note := Some (label +++ " value is outside enum set") |}
      | Some text =>
          {| ok := true;
             parsed := Some [(label, VNum value); (label +++ "Text", VStr text)];
             meaning := label +++ "=" +++ text +++ "(" +++ Js.of_int value +++ ")";
             value := Some value;
             note := None |}
      end
  end.

Record HdmiMatch : Type := {
  hm_index : Z;
  hm_len : Z;
  hm_payload : list Z
}.

(** The body of the forward scan of [parseHdmiPresenceFromFrame]. *)
Definition hdmiScanStep (bytes : list Z) (index : Z) : list HdmiMatch :=
  let len := Js.bor (Js.shl (Js.int_of (Js.js_get bytes index)) 8)
                    (Js.int_of (Js.js_get bytes (index + 1))) in
  if negb (Js.get_is bytes (index + 2) 0x00) then []
  else
    let payloadStart := index + 3 in
    let payloadEnd := payloadStart + len in
    if negb (payloadEnd =? Js.len bytes - 1) then []
    else [ {| hm_index := index; hm_len := len;
              hm_payload := Js.slice bytes payloadStart payloadEnd |} ].

Fixpoint hdmiScan (bytes : list Z) (index : Z) (steps : nat) : list HdmiMatch :=
  match steps with
  | O => []
  | S k => hdmiScanStep bytes index ++ hdmiScan bytes (index + 1) k
  end.

(** [items.reduce((best, item) => (item.index > best.index ? item : best))] *)
Definition laterMatch (best item : HdmiMatch) : HdmiMatch :=
  if hm_index best <? hm_index item then item else best.

Definition isFlag (item : Z) : bool := (item =? 0) || (item =? 1).

(** [flags[i] ? 'signal' : 'no-signal'] *)
Definition signalText (flag : option Z) : string :=
  match flag with
  | Some f => if f =? 0 then "no-signal" else "signal"
  | None => "no-signal"
  end.

(** [names.filter((_, index) => flags[index] === 1)] *)
Fixpoint activeInputs (names : list string) (flags : list Z) (index : Z) : list string :=
  match names with
  | [] => []
  | name :: rest =>
      if Js.get_is flags index 1 then name :: activeInputs rest flags (index + 1)
      else activeInputs rest flags (index + 1)
  end.

Definition parseHdmiPresenceFromFrame (bytes : list Z) : ParseResult :=
  let matches := hdmiScan bytes 0 (Z.to_nat (Js.len bytes - 4 + 1)) in
  match matches with
  | [] =>
      failedParse (Some [("raw", VStr (bytesToHex bytes))])
        "hdmiPresence: tail length marker not found"
  | firstMatch :: otherMatches =>
      let len4Matches := filter (fun item => hm_len item =? 4) matches in
      let selected :=
        match len4Matches with
        | first4 :: other4 => fold_left laterMatch other4 first4
        | [] => fold_left laterMatch otherMatches firstMatch
        end in
      if negb (hm_len selected =? 4) then
        failedParse
          (Some [("tailLength", VNum (hm_len selected)); ("payload", VNums (hm_payload selected))])
          ("hdmiPresence payload length=" +++ Js.of_int (hm_len selected) +++ ", expected=4")
      else
        let flags := hm_payload selected in
        if existsb (fun item => negb (isFlag item)) flags then
          {| ok := false;
             parsed := Some [("payload", VNums flags)];
             meaning := "hdmiPresence raw=" +++ Js.join "," (map Js.of_int flags);
             value := None;
             note := Some "Expected each HDMI flag to be 0 or 1" |}
        else
          {| ok := true;
             parsed := Some
               [ ("hdmi1", val_of (Js.js_get flags 0));
                 ("hdmi2", val_of (Js.js_get flags 1));
                 ("hdmi3", val_of (Js.js_get flags 2));
                 ("hdmi4", val_of (Js.js_get flags 3));
                 ("payloadHex", VStr (bytesToHex flags));
                 ("activeInputs",
                  VStrs (activeInputs ["HDMI1"; "HDMI2"; "HDMI3"; "HDMI4"] flags 0)) ];
             meaning :=
               "HDMI1=" +++ signalText (Js.js_get flags 0)
               +++ ", HDMI2=" +++ signalText (Js.js_get flags 1)
               +++ ", HDMI3=" +++ signalText (Js.js_get flags 2)
               +++ ", HDMI4=" +++ signalText (Js.js_get flags 3);
             value := None;
             note := None |}
  end.

(** [{ ok: false, parsed: { raw: data }, meaning: `${what} payload
    length=${data.length}, expected=${expected}`, value: null }] *)
Definition wrongLength (what : string) (data : list Z) (expected : Z) : ParseResult :=
  failedParse (Some [("raw", VNums data)])
    (what +++ " payload length=" +++ Js.of_int (Js.len data) +++ ", expected="
     +++ Js.of_int expected).

Definition hex4 (n : Z) : string := Js.padStart 4 "0" (Js.toUpperCase (Js.toString16 n)).

Definition unknownText (o : option string) : string :=
  match o with Some text => text | None => "unknown" end.

Definition is_none {A : Type} (o : option A) : bool :=
  match o with Some _ => false | None => true end.

Definition parseSleepWake (data : list Z) : ParseResult :=
  match data with
  | [flag] =>
      if flag =? 0x80 then
        {| ok := true;
           parsed := Some [("sleepWakeFlag", VNum flag); ("state", VStr "Awake")];
           meaning := "sleepWake=Awake(0x80)";
           value := Some flag; note := None |}
      else if flag =? 0x00 then
        {| ok := true;
           parsed := Some [("sleepWakeFlag", VNum flag); ("state", VStr "Blackout")];
           meaning := "sleepWake=Blackout(0x00)";
           value := Some flag; note := None |}
      else
        {| ok := false;
           parsed := Some [("sleepWakeFlag", VNum flag)];
           meaning := "sleepWake=unknown(0x"
                      +++ Js.padStart 2 "0" (Js.toUpperCase (Js.toString16 flag)) +++ ")";
           value := Some flag;
           note := Some "Expected 0x80 (awake) or 0x00 (blackout)" |}
  | _ => failedParse None "sleepWake: missing payload"
  end.

Definition parseHdmiPayload (data : list Z) : ParseResult :=
  if negb (Js.len data =? 4) then wrongLength "hdmiPresence" data 4
  else
    let flags := Js.slice data 0 4 in
    if existsb (fun item => negb (isFlag item)) flags then
      {| ok := false;
         parsed := Some [("raw", VNums flags)];
         meaning := "hdmiPresence raw=" +++ Js.join "," (map Js.of_int flags);
         value := None;
         note := Some "Expected each HDMI flag to be 0 or 1" |}
    else
      let flagText (i : Z) : string :=
        match Js.js_get flags i with Some f => Js.of_int f | None => "undefined" end in
      {| ok := true;
         parsed := Some
           [ ("hdmi1", val_of (Js.js_get flags 0));
             ("hdmi2", val_of (Js.js_get flags 1));
             ("hdmi3", val_of (Js.js_get flags 2));
             ("hdmi4", val_of (Js.js_get flags 3)) ];
         meaning := "hdmi1=" +++ flagText 0 +++ " hdmi2=" +++ flagText 1
                    +++ " hdmi3=" +++ flagText 2 +++ " hdmi4=" +++ flagText 3;
         value := None;
         note := None |}.

Definition parseVideoCombo (data : list Z) : ParseResult :=
  match data with
  | [brightness; colorTemp; displayMode; videoSource; volume; contrast; sceneMode] =>
      let errors :=
        (if (brightness <? 0) || (100 <? brightness) then ["brightness out of range"] else [])
        ++ (if is_none (enum_get COLOR_TEMP_ENUM colorTemp) then ["colorTemp invalid"] else [])
        ++ (if is_none (enum_get DISPLAY_MODE_ENUM displayMode) then ["displayMode invalid"] else [])
        ++ (if is_none (enum_get VIDEO_SOURCE_ENUM videoSource) then ["videoSource invalid"] else [])
        ++ (if (volume <? 0) || (100 <? volume) then ["volume out of range"] else [])
        ++ (if (contrast <? 0) || (100 <? contrast) then ["contrast out of range"] else [])
        ++ (if is_none (enum_get SCENE_MODE_ENUM sceneMode) then ["sceneMode invalid"] else []) in
      let videoSourceText := unknownText (enum_get VIDEO_SOURCE_ENUM videoSource) in
      {| ok := Js.len errors =? 0;
         parsed := Some
           [ ("brightness", VNum brightness);
             ("colorTemp", VNum colorTemp);
             ("colorTempText", VStr (unknownText (enum_get COLOR_TEMP_ENUM colorTemp)));
             ("displayMode", VNum displayMode);
             ("displayModeText", VStr (unknownText (enum_get DISPLAY_MODE_ENUM displayMode)));
             ("videoSource", VNum videoSource);
             ("videoSourceText", VStr videoSourceText);
             ("volume", VNum volume);
             ("contrast", VNum contrast);
             ("sceneMode", VNum sceneMode);
             ("sceneModeText", VStr (unknownText (enum_get SCENE_MODE_ENUM sceneMode))) ];
         meaning := "brightness=" +++ Js.of_int brightness +++ " source=" +++ videoSourceText
                    +++ " volume=" +++ Js.of_int volume +++ " contrast=" +++ Js.of_int contrast;
         value := None;
         note := if Js.len errors =? 0 then None else Some (Js.join "; " errors) |}
  | _ => wrongLength "videoCombo" data 7
  end.

Definition parseScreenMonitoring (data : list Z) : ParseResult :=
  match data with
  | d0 :: d1 :: dataSource :: numPorts :: d4 :: d5 :: _ =>
      let status := Js.bor d0 (Js.shl d1 8) in
      let totalCabinets := Js.bor d4 (Js.shl d5 8) in
      let requiredLength := 6 + numPorts + totalCabinets * 6 in
      let okStatus := (status =? 0x0001) || (status =? 0x0002) in
      let plausibleCounts := (numPorts <=? 64) && (totalCabinets <=? 4096) in
      let okLength := requiredLength <=? Js.len data in
      let perPortCounts := Js.slice data 6 (6 + numPorts) in
      let plausible := okStatus && plausibleCounts in
      let notes :=
        (if negb okStatus then ["status not in {0x0001,0x0002}: 0x" +++ hex4 status] else [])
        ++ (if negb plausibleCounts
            then ["implausible counts: ports=" +++ Js.of_int numPorts +++ ", cabinets="
                  +++ Js.of_int totalCabinets]
            else [])
        ++ (if negb okLength
            then ["payload shorter than declared structure: " +++ Js.of_int (Js.len data)
                  +++ " < " +++ Js.of_int requiredLength]
            else []) in
      {| ok := plausible;
         parsed := Some
           [ ("status", VNum status);
             ("dataSource", VNum dataSource);
             ("numPorts", VNum numPorts);
             ("totalCabinets", VNum totalCabinets);
             ("requiredLength", VNum requiredLength);
             ("payloadLength", VNum (Js.len data));
             ("perPortCounts", VNums perPortCounts) ];
         meaning := "status=0x" +++ hex4 status +++ " ports=" +++ Js.of_int numPorts
                    +++ " totalCabinets=" +++ Js.of_int totalCabinets;
         value := None;
         note := if Js.len notes =? 0 then None else Some (Js.join "; " notes) |}
  | _ =>
      failedParse None
        ("screenMonitoring: payload too short (" +++ Js.of_int (Js.len data) +++ ")")
  end.

Definition parseUptime (data : list Z) : ParseResult :=
  match data with
  | [d0; d1; d2; d3] =>
      let minutes :=
        Js.ushr0 (Js.bor (Js.bor (Js.bor d0 (Js.shl d1 8)) (Js.shl d2 16)) (Js.shl d3 24)) in
      {| ok := true;
         parsed := Some [("minutes", VNum minutes)];
         meaning := "uptimeMinutes=" +++ Js.of_int minutes;
         value := Some minutes;
         note := None |}
  | _ => wrongLength "uptime" data 4
  end.

Definition parseSemanticByCode (parserCode : string) (data : list Z) : ParseResult :=
  if String.eqb parserCode "C201" then
    if negb (Js.len data =? 1) then wrongLength "volume" data 1
    else parseRangeValue "volume" data 0 100
  else if String.eqb parserCode "C215" then
    if negb (Js.len data =? 1) then wrongLength "contrast" data 1
    else parseRangeValue "contrast" data 0 100
  else if String.eqb parserCode "C221" then
    if negb (Js.len data =? 1) then wrongLength "redGain" data 1
    else parseRangeValue "redGain" data 0 100
  else if String.eqb parserCode "C211" then
    if negb (Js.len data =? 1) then wrongLength "videoSource" data 1
    else parseEnumValue "videoSource" data VIDEO_SOURCE_ENUM
  else if String.eqb parserCode "C243" then
    if negb (Js.len data =? 1) then wrongLength "sceneMode" data 1
    else parseEnumValue "sceneMode" data SCENE_MODE_ENUM
  else if String.eqb parserCode "C20D" then parseEnumValue "displayMode" data DISPLAY_MODE_ENUM
  else if String.eqb parserCode "C020" then parseEnumValue "trueStandby" data TRUE_STANDBY_ENUM
  else if String.eqb parserCode "C005" then parseSleepWake data
  else if String.eqb parserCode "C25B" then parseHdmiPayload data
  else if String.eqb parserCode "C241" then parseVideoCombo data
  else if String.eqb parserCode "C131" then parseScreenMonitoring data
  else if String.eqb parserCode "C33D" then parseUptime data
  else failedParse None ("No semantic parser for " +++ parserCode).

(** ** Policy resolver *)

Definition resolvePolicy (caseItem : CertifyCase) (_profile : ProfileName) : ResolvedPolicy :=
  let setCode := normalizeCode (case_setCode caseItem) in
  let base :=
    match setCode with
    | Some code => JsMap.get COMMAND_POLICY_BY_CODE code
    | None => None
    end in
  let validationMode :=
    match base with Some b => cp_validationMode b | None => STRICT_EXACT end in
  let parserCode :=
    match base with
    | Some b => match cp_parserCode b with Some p => Some p | None => setCode end
    | None => setCode
    end in
  let note := match base with Some b => cp_note b | None => None end in
  let acceptAnyReplyCode :=
    match base with
    | Some b => match cp_acceptAnyReplyCode b with Some f => f | None => false end
    | None => false
    end in
  let allowNoReplyQuirk :=
    match base with
    | Some b => match cp_allowNoReplyQuirk b with Some f => f | None => false end
    | None => false
    end in
  let allowedReplyCodes :=
    match base with
    | Some b => match cp_allowedReplyCodes b with Some l => l | None => [] end
    | None => []
    end in
  let text := Js.toLowerCase (case_category caseItem +++ " " +++ case_description caseItem) in
  let heuristic := is_none base && Js.includes text "query scene mode" in
  {| validationMode := if heuristic then PARSED_RANGE else validationMode;
     parserCode := if heuristic then Some "C243" else parserCode;
     policy_note := note;
     acceptAnyReplyCode := acceptAnyReplyCode;
     allowNoReplyQuirk := allowNoReplyQuirk;
     allowedReplyCodes := allowedReplyCodes |}.

(** The set [accepted] of [isReplyCodeAccepted], as the list of its members. *)
Definition acceptedCodes (expected : option string) (allowed : list string) : list string :=
  (match normalizeCode expected with Some code => [code] | None => [] end)
  ++ flat_map (fun item => match normalizeCode (Some item) with
                           | Some code => [code]
                           | None => []
                           end) allowed.

Definition isReplyCodeAccepted (expected actualNormalized : option string)
    (allowed : list string) : bool :=
  let accepted := acceptedCodes expected allowed in
  if Js.len accepted =? 0 then true
  else if negb (Js.truthy_opt actualNormalized) then false
  else set_has accepted (opt_text actualNormalized).

Definition inferExpectedQueryValue (caseItem : CertifyCase) : option Z :=
  match case_expectedQueryValue caseItem with
  | Some v => Some v
  | None =>
      match case_generatedValue caseItem with
      | Some v => Some v
      | None =>
          match normalizeCode (case_setCode caseItem) with
          | None => None
          | Some setCode =>
              let c20f :=
                if String.eqb setCode "C20F" && (38 <? Js.len (case_txBytes caseItem))
                then Js.js_get (case_txBytes caseItem) 38 else None in
              match JsMap.get NUMERIC_VALUE_INDEX_BY_SET setCode with
              | Some (index, _) =>
                  if index <? Js.len (case_txBytes caseItem)
                  then Js.js_get (case_txBytes caseItem) index
                  else c20f
              | None => c20f
              end
          end
      end
  end.

(** ** Result records *)

Definition statusColorFromStatus (status : ResultStatus) : StatusColor :=
  match status with
  | PASS => GREEN
  | SKIPPED => GRAY
  | _ => RED
  end.

(** [a ?? b] *)
Definition nullish (a : option string) (b : string) : string :=
  match a with Some s => s | None => b end.

Definition buildSkippedRecord (caseItem : CertifyCase) (reason : string) : CertifyRecord :=
  {| rec_stage := case_stage caseItem;
     rec_source := case_source caseItem;
     rec_category := case_category caseItem;
     rec_command := nullish (case_setCode caseItem) (case_commandKey caseItem);
     rec_variant := case_description caseItem;
     rec_commandKey := case_commandKey caseItem;
     rec_setCode := case_setCode caseItem;
     rec_replyCode := case_replyCode caseItem;
     rec_txHex := if 0 <? Js.len (case_txBytes caseItem)
                  then Some (bytesToHex (case_txBytes caseItem)) else None;
     rec_rxHex := None;
     rec_expectedHex := option_map bytesToHex (case_expectedReplyBytes caseItem);
     rec_latencyMs := None;
     rec_transportStatus := TS_NO_REPLY;
     rec_status := SKIPPED;
     rec_statusColor := statusColorFromStatus SKIPPED;
     rec_validationMode := STRICT_EXACT;
     rec_matchType := "SKIPPED";
     rec_meaning := None;
     rec_parsed := None;
     rec_note := Some reason;
     rec_skipReason := Some reason;
     rec_value := case_generatedValue caseItem;
     rec_queryTxHex := None;
     rec_queryRxHex := None;
     rec_queryLatencyMs := None;
     rec_queryTransportStatus := None;
     rec_queryValue := None;
     rec_expectedValue := case_expectedQueryValue caseItem;
     rec_notes := [reason] |}.

Definition makeBaseRecord (caseItem : CertifyCase) (policy : ResolvedPolicy)
    (sendResult : SendResult) : CertifyRecord :=
  {| rec_stage := case_stage caseItem;
     rec_source := case_source caseItem;
     rec_category := case_category caseItem;
     rec_command := nullish (case_setCode caseItem) (case_commandKey caseItem);
     rec_variant := case_description caseItem;
     rec_commandKey := case_commandKey caseItem;
     rec_setCode := case_setCode caseItem;
     rec_replyCode := case_replyCode caseItem;
     rec_txHex := Some (bytesToHex (case_txBytes caseItem));
     rec_rxHex := option_map bytesToHex (rxBytes sendResult);
     rec_expectedHex := option_map bytesToHex (case_expectedReplyBytes caseItem);
     rec_latencyMs := latencyMs sendResult;
     rec_transportStatus := match rxBytes sendResult with Some _ => REPLY | None => TS_NO_REPLY end;
     rec_status := FAIL;
     rec_statusColor := RED;
     rec_validationMode := validationMode policy;
     rec_matchType := "UNSET";
     rec_meaning := None;
     rec_parsed := None;
     rec_note := policy_note policy;
     rec_skipReason := None;
     rec_value := case_generatedValue caseItem;
     rec_queryTxHex := None;
     rec_queryRxHex := None;
     rec_queryLatencyMs := None;
     rec_queryTransportStatus := None;
     rec_queryValue := None;
     rec_expectedValue := inferExpectedQueryValue caseItem;
     rec_notes := [] |}.

(** The fields of a record that [executeCase] and [setOutcome] assign after
    [makeBaseRecord]; all the others are copied. *)
Definition update (record : CertifyRecord) (status : ResultStatus) (statusColor : StatusColor)
    (matchType : string) (meaning : option string) (parsed : option JsObject)
    (note skipReason : option string) (value : option Z) (notes : list string)
    : CertifyRecord :=
  {| rec_stage := rec_stage record;
     rec_source := rec_source record;
     rec_category := rec_category record;
     rec_command := rec_command record;
     rec_variant := rec_variant record;
     rec_commandKey := rec_commandKey record;
     rec_setCode := rec_setCode record;
     rec_replyCode := rec_replyCode record;
     rec_txHex := rec_txHex record;
     rec_rxHex := rec_rxHex record;
     rec_expectedHex := rec_expectedHex record;
     rec_latencyMs := rec_latencyMs record;
     rec_transportStatus := rec_transportStatus record;
     rec_status := status;
     rec_statusColor := statusColor;
     rec_validationMode := rec_validationMode record;
     rec_matchType := matchType;
     rec_meaning := meaning;
     rec_parsed := parsed;
     rec_note := note;
     rec_skipReason := skipReason;
     rec_value := value;
     rec_queryTxHex := rec_queryTxHex record;
     rec_queryRxHex := rec_queryRxHex record;
     rec_queryLatencyMs := rec_queryLatencyMs record;
     rec_queryTransportStatus := rec_queryTransportStatus record;
     rec_queryValue := rec_queryValue record;
     rec_expectedValue := rec_expectedValue record;
     rec_notes := notes |}.

(** [record.note = record.note ? `${record.note} | ${text}` : text] *)
Definition appendNote (current : option string) (text : string) : option string :=
  if Js.truthy_opt current then Some (opt_text current +++ " | " +++ text) else Some text.

(** [record.notes.push(...more)] *)
Definition pushNotes (record : CertifyRecord) (more : list string) : CertifyRecord :=
  update record (rec_status record) (rec_statusColor record) (rec_matchType record)
    (rec_meaning record) (rec_parsed record) (rec_note record) (rec_skipReason record)
    (rec_value record) (rec_notes record ++ more).

(** [record.note = appendNote(...); record.notes.push(text)] *)
Definition addObserved (record : CertifyRecord) (text : string) : CertifyRecord :=
  update record (rec_status record) (rec_statusColor record) (rec_matchType record)
    (rec_meaning record) (rec_parsed record) (appendNote (rec_note record) text)
    (rec_skipReason record) (rec_value record) (rec_notes record ++ [text]).

Definition setSkipReason (record : CertifyRecord) (reason : string) : CertifyRecord :=
  update record (rec_status record) (rec_statusColor record) (rec_matchType record)
    (rec_meaning record) (rec_parsed record) (rec_note record) (Some reason)
    (rec_value record) (rec_notes record).

(** [record.parsed = p.parsed; record.meaning = p.meaning;
     if (p.note) record.notes.push(p.note)] *)
Definition recordParse (record : CertifyRecord) (p : ParseResult) : CertifyRecord :=
  update record (rec_status record) (rec_statusColor record) (rec_matchType record)
    (Some (meaning p)) (parsed p) (rec_note record) (rec_skipReason record)
    (rec_value record)
    (rec_notes record ++ (if Js.truthy_opt (note p) then [opt_text (note p)] else [])).

Definition setValue (record : CertifyRecord) (v : option Z) : CertifyRecord :=
  update record (rec_status record) (rec_statusColor record) (rec_matchType record)
    (rec_meaning record) (rec_parsed record) (rec_note record) (rec_skipReason record)
    v (rec_notes record).

Definition setOutcome (record : CertifyRecord) (status : ResultStatus) (matchType : string)
    (meaning note : option string) : CertifyRecord :=
  update record status (statusColorFromStatus status) matchType
    (if Js.truthy_opt meaning then meaning else rec_meaning record)
    (rec_parsed record)
    (if Js.truthy_opt note then appendNote (rec_note record) (opt_text note)
     else rec_note record)
    (rec_skipReason record) (rec_value record)
    (if Js.truthy_opt note then rec_notes record ++ [opt_text note] else rec_notes record).

(** ** Checksum self-check of a generated case *)

Record ChecksumCheck : Type := {
  computedPdf : option Z;
  actual : option Z;
  formula : option Z;
  warnings : list string
}.

(** [x.toString(16).toUpperCase().padStart(2, '0')]; throws on [undefined]. *)
Definition upperHex2 (what : string) (x : option Z) : result string :=
  match x with
  | Some x => Ok (Js.padStart 2 "0" (Js.toUpperCase (Js.toString16 x)))
  | None => Throw (TypeError what)
  end.

Definition verifyGeneratedChecksum (caseItem : CertifyCase) : result ChecksumCheck :=
  match case_generatedValue caseItem with
  | None => Ok {| computedPdf := None; actual := None; formula := None; warnings := [] |}
  | Some generatedValue =>
      let txBytes := case_txBytes caseItem in
      let computedPdf := computePdfChecksum txBytes in
      let actual := Js.js_get txBytes (Js.len txBytes - 1) in
      selfCheck <-
        (if negb (opt_Z_eqb (Some computedPdf) actual) then
           last <- upperHex2 "actual" actual ;;
           computed <- upperHex2 "computedPdf" (Some computedPdf) ;;
           Ok ["Self-check mismatch: checksum(last=0x" +++ last +++ ", computed=0x"
               +++ computed +++ ")"]
         else Ok []) ;;
      let setCode := normalizeCode (case_setCode caseItem) in
      let base :=
        match setCode with
        | Some code => JsMap.get FORMULA_CHECKSUM_BASE code
        | None => None
        end in
      match base with
      | Some formulaBase =>
          let formula := Js.band (formulaBase + generatedValue) 0xff in
          formulaCheck <-
            (if negb (opt_Z_eqb (Some formula) actual) then
               f <- upperHex2 "formula" (Some formula) ;;
               a <- upperHex2 "actual" actual ;;
               Ok ["Formula mismatch for " +++ opt_text (toCode setCode) +++ ": formula=0x"
                   +++ f +++ " actual=0x" +++ a]
             else Ok []) ;;
          Ok {| computedPdf := Some computedPdf; actual := actual; formula := Some formula;
                warnings := selfCheck ++ formulaCheck |}
      | None =>
          Ok {| computedPdf := Some computedPdf; actual := actual; formula := None;
                warnings := selfCheck |}
      end
  end.

(** ** Execution of one case *)

Inductive Event : Type :=
| EvSend (txBytes : list Z)
| EvPrompt (text : string).

(** What the environment does with a request: the promise of
    [sendAndAwaitReply] resolves with a reply or a time-out, or [socket.send]
    fails (a port the socket refuses, a host that does not resolve, a network
    error) and the promise is rejected. *)
Inductive Exchange : Type :=
| Resolves (answer : SendResult)
| Rejects (error : Error).

(** The environment of a run: the exchanges the socket will still give, one
    per request, and what the run has done so far. *)
Record World : Type := {
  script : list Exchange;
  trace : list Event
}.

Definition noReply : SendResult := {| rxBytes := None; latencyMs := None |}.

(** [sendAndAwaitReply]: the request goes out and the next scripted answer
    (a reply, or a time-out) comes back, or the send fails and nothing goes
    out.  A script that is used up answers with time-outs. *)
Definition sendAndAwaitReply (txBytes : list Z) (w : World) : World * result SendResult :=
  match script w with
  | Resolves answer :: rest =>
      ({| script := rest; trace := trace w ++ [EvSend txBytes] |}, Ok answer)
  | Rejects error :: rest => ({| script := rest; trace := trace w |}, Throw error)
  | [] => ({| script := []; trace := trace w ++ [EvSend txBytes] |}, Ok noReply)
  end.

Definition waitForEnter (prompt : string) (w : World) : World :=
  {| script := script w; trace := trace w ++ [EvPrompt prompt] |}.

Record CliOptions : Type := {
  opt_mode : RunMode;
  opt_profile : ProfileName;
  opt_singleSelector : option string;
  opt_issuesFile : option string;
  opt_value : option Z;
  opt_targetHost : string;
  opt_targetPort : Js.JsNumber;
  opt_localPort : Js.JsNumber;
  opt_timeoutMs : Js.JsNumber;
  opt_rate : Js.JsNumber;
  opt_settleSetMs : Js.JsNumber;
  opt_settleModeMs : Js.JsNumber;
  opt_includePower : bool;
  opt_debugHex : bool;
  opt_promptEach : bool;
  opt_columns : list string
}.

Definition decodedReplyCode (decoded : option ReplyDecode) : option string :=
  match decoded with
  | Some d => if Js.truthy_opt (replyCode d) then replyCode d else None
  | None => None
  end.

Definition decodedPayload (decoded : option ReplyDecode) : option PayloadDecode :=
  match decoded with Some d => payload d | None => None end.

Definition codeText (code : option string) : string :=
  match code with Some c => "0x" +++ c | None => "unknown" end.

(** The part of [executeCase] that follows [makeBaseRecord]: the notes, then
    the classification of the answer. *)
Definition classifyReply (caseItem : CertifyCase) (profile : ProfileName)
    (policy : ResolvedPolicy) (checksumWarnings : list string)
    (primary : SendResult) (decoded : option ReplyDecode) : CertifyRecord :=
  let record0 := makeBaseRecord caseItem policy primary in
  let record1 := pushNotes record0 checksumWarnings in
  let record2 :=
    match decodedPayload decoded with
    | Some p =>
        if ambiguous p && negb (opt_string_eqb (parserCode policy) (Some "C25B"))
        then pushNotes record1 ["Ambiguous payload marker in reply; used last marker"]
        else record1
    | None => record1
    end in
  let record :=
    match decodedReplyCode decoded with
    | Some code =>
        if acceptAnyReplyCode policy
        then addObserved record2 ("Observed reply code: 0x" +++ code)
        else record2
    | None => record2
    end in
  if ValidationMode_eqb (validationMode policy) EXPECTED_NO_REPLY then
    match rxBytes primary with
    | None =>
        setOutcome record PASS "EXPECTED_NO_REPLY"
          (Some (nullish (policy_note policy) "No reply expected for this command")) None
    | Some _ =>
        match decodedPayload decoded, Js.truthy_opt (parserCode policy) with
        | Some p, true =>
            let parsedUnexpected := parseSemanticByCode (opt_text (parserCode policy)) (data p) in
            setOutcome (recordParse record parsedUnexpected) PASS "EXPECTED_NO_REPLY_WITH_REPLY"
              (Some "Reply received; treated as pass for expected-no-reply mode") None
        | _, _ =>
            setOutcome record PASS "EXPECTED_NO_REPLY_WITH_REPLY"
              (Some "Reply received even though no-reply was expected") None
        end
    end
  else
    match rxBytes primary with
    | None =>
        let setCode := normalizeCode (case_setCode caseItem) in
        match profile, opt_string_eqb setCode (Some "C211") with
        | exview_aio, true =>
            let reason := "No reply in split-screen mode (FW limitation)" in
            setOutcome (setSkipReason record reason) SKIPPED "SKIPPED" (Some reason) (Some reason)
        | _, _ =>
            if allowNoReplyQuirk policy then
              setOutcome record NO_REPLY "NO_REPLY_QUIRK"
                (Some (nullish (policy_note policy) "Known device quirk: no reply")) None
            else
              setOutcome record NO_REPLY "NO_REPLY" (Some "No reply within timeout") None
        end
    | Some rx =>
        if negb (acceptAnyReplyCode policy)
           && negb (isReplyCodeAccepted (case_replyCode caseItem)
                      (match decoded with Some d => replyCode d | None => None end)
                      (allowedReplyCodes policy))
        then
          let actualCode := codeText (decodedReplyCode decoded) in
          let expectedCode := nullish (case_replyCode caseItem) "unknown" in
          setOutcome record FAIL "REPLY_CODE_MISMATCH"
            (Some ("replyCode=" +++ actualCode +++ ", expected=" +++ expectedCode)) None
        else if ValidationMode_eqb (validationMode policy) STRICT_EXACT then
          let exact :=
            match case_expectedReplyBytes caseItem with
            | Some expected => equalBytes expected rx
            | None => false
            end in
          let checksumDiff :=
            match case_expectedReplyBytes caseItem with
            | Some expected => equalIgnoringChecksum expected rx
            | None => false
            end in
          if exact then
            setOutcome record PASS "EXACT" (Some "Reply matches expected template") None
          else if checksumDiff then
            setOutcome record PASS "CHECKSUM_DIFF"
              (Some "Reply matches expected template except checksum") None
          else
            let ack := parseAckStatus decoded in
            if opt_Z_eqb ack (Some 0x0001) then
              setOutcome record PASS "ACK_SUCCESS" (ackMeaning ack) None
            else if is_none (case_expectedReplyBytes caseItem) then
              setOutcome record PASS "RX_WITHOUT_TEMPLATE"
                (Some "Reply received (no expected template)") None
            else
              setOutcome record FAIL "MISMATCH"
                (Some "Reply did not match expected template") None
        else if negb (Js.truthy_opt (parserCode policy)) then
          setOutcome record FAIL "PARSER_NOT_CONFIGURED"
            (Some "Semantic parser not configured for command") None
        else
          let parsedReply : option ParseResult :=
            if opt_string_eqb (parserCode policy) (Some "C25B")
            then Some (parseHdmiPresenceFromFrame rx)
            else match decodedPayload decoded with
                 | None => None
                 | Some p => Some (parseSemanticByCode (opt_text (parserCode policy)) (data p))
                 end in
          match parsedReply with
          | None =>
              setOutcome record FAIL "PAYLOAD_NOT_FOUND"
                (Some "Could not locate payload marker in reply") None
          | Some p =>
              let withParse := recordParse record p in
              let withValue :=
                match value p, case_generatedValue caseItem with
                | Some v, None => setValue withParse (Some v)
                | _, _ => withParse
                end in
              if ok p then
                setOutcome withValue PASS (ValidationMode_text (validationMode policy))
                  (Some (meaning p)) None
              else
                setOutcome withValue FAIL "SEMANTIC_PARSE_FAIL" (Some (meaning p)) (note p)
          end
    end.

(** [executeCase]: the self-check, the policy, the exchange with the device
    and the classification.  An exception leaves the world as it was when it
    was thrown. *)
Definition executeCase (caseItem : CertifyCase) (options : CliOptions) (w : World)
    : World * result CertifyRecord :=
  match verifyGeneratedChecksum caseItem with
  | Throw e => (w, Throw e)
  | Ok checksumCheck =>
      let policy := resolvePolicy caseItem (opt_profile options) in
      let (w', sent) := sendAndAwaitReply (case_txBytes caseItem) w in
      match sent with
      | Throw e => (w', Throw e)
      | Ok primary =>
          let decoded :=
            match rxBytes primary with
            | Some rx => d <- decodeReply rx ;; Ok (Some d)
            | None => Ok None
            end in
          match decoded with
          | Throw e => (w', Throw e)
          | Ok decoded =>
              (w', Ok (classifyReply caseItem (opt_profile options) policy
                         (warnings checksumCheck) primary decoded))
          end
      end
  end.

(** ** The run loop *)

Definition isSuiteOrIssues (mode : RunMode) : bool :=
  RunMode_eqb mode suite || RunMode_eqb mode issues.

(** The loop of [loadSuiteExclusions] over the entries of the profile's
    exclusion file; [config] is [None] when the file is absent or does not
    hold a list. *)
Definition addExclusion (exclusions : JsMap.t string) (item : SuiteExclusionEntry)
    : JsMap.t string :=
  match normalizeCode (excl_code item) with
  | None => exclusions
  | Some code =>
      let reason := Js.trim (opt_text (excl_reason item)) in
      if negb (Js.truthy reason) then exclusions
      else JsMap.set exclusions code reason
  end.

Definition loadSuiteExclusions (profile : ProfileName)
    (config : option (list SuiteExclusionEntry)) : JsMap.t string :=
  match profile with
  | generic => []
  | exview_aio =>
      match config with
      | None => []
      | Some entries => fold_left addExclusion entries []
      end
  end.

(** One round of the loop of [verifyTruthChecksumCoverage]. *)
Definition coverageStep (counts : Z * Z) (row : TruthCommandRow) : result (Z * Z) :=
  request <- parseHexBytes (row_requestHex row) ;;
  if negb (isUdpLike request) then Ok counts
  else
    let expected := computePdfChecksum request in
    let actual := Js.js_get request (Js.len request - 1) in
    Ok (fst counts + 1,
        if negb (opt_Z_eqb (Some expected) actual) then snd counts + 1 else snd counts).

Fixpoint coverageLoop (rows : list TruthCommandRow) (counts : Z * Z) : result (Z * Z) :=
  match rows with
  | [] => Ok counts
  | row :: rest =>
      counts' <- coverageStep counts row ;;
      coverageLoop rest counts'
  end.

Definition verifyTruthChecksumCoverage (rows : list TruthCommandRow) : result (Z * Z) :=
  coverageLoop rows (0, 0).

Definition powerStageExcluded (options : CliOptions) (caseItem : CertifyCase) : bool :=
  case_isPowerCommand caseItem && isSuiteOrIssues (opt_mode options)
  && negb (opt_includePower options).

(** [options.mode === 'suite' ? suiteExclusions.get(normalizeCode(setCode)) : undefined] *)
Definition exclusionReasonOf (options : CliOptions) (suiteExclusions : JsMap.t string)
    (caseItem : CertifyCase) : option string :=
  if RunMode_eqb (opt_mode options) suite then
    match normalizeCode (case_setCode caseItem) with
    | Some setCode => JsMap.get suiteExclusions setCode
    | None => None
    end
  else None.

(** The body of the loop of [run] for one case. *)
Definition runCase (options : CliOptions) (suiteExclusions : JsMap.t string)
    (caseItem : CertifyCase) (w : World) : World * result CertifyRecord :=
  if powerStageExcluded options caseItem then
    (w, Ok (buildSkippedRecord caseItem "Power stage excluded (add --include-power)"))
  else if case_serialOnly caseItem then
    (w, Ok (buildSkippedRecord caseItem "Serial-only or non-UDP request frame"))
  else
    let exclusionReason := exclusionReasonOf options suiteExclusions caseItem in
    if Js.truthy_opt exclusionReason then
      (w, Ok (buildSkippedRecord caseItem (opt_text exclusionReason)))
    else
      let disruptivePromptMode :=
        opt_promptEach options && isSuiteOrIssues (opt_mode options)
        && opt_includePower options in
      let promptEveryCommand := opt_promptEach options && negb disruptivePromptMode in
      let promptDisruptiveOnly :=
        disruptivePromptMode && case_isPowerCommand caseItem
        && case_isDisruptiveCommand caseItem in
      let w1 :=
        if promptEveryCommand
        then waitForEnter ("Ready to run " +++ case_commandKey caseItem
                           +++ ". Set screen/device state as needed, then press Enter.") w
        else w in
      let w2 :=
        if promptDisruptiveOnly
        then waitForEnter ("Manual stage: press Enter to execute disruptive command "
                           +++ case_commandKey caseItem) w1
        else w1 in
      executeCase caseItem options w2.

(** [for (const caseItem of runCases)]: the records pushed, unless a case
    throws. *)
Fixpoint runCases (options : CliOptions) (suiteExclusions : JsMap.t string)
    (cases : list CertifyCase) (w : World) : World * result (list CertifyRecord) :=
  match cases with
  | [] => (w, Ok [])
  | caseItem :: rest =>
      match runCase options suiteExclusions caseItem w with
      | (w1, Throw e) => (w1, Throw e)
      | (w1, Ok record) =>
          match runCases options suiteExclusions rest w1 with
          | (w2, Throw e) => (w2, Throw e)
          | (w2, Ok records) => (w2, Ok (record :: records))
          end
      end
  end.

(** ** Command line *)

(** The local variables of [parseOptions]. *)
Record ParseState : Type := {
  ps_mode : option RunMode;
  ps_profile : ProfileName;
  ps_singleSelector : option string;
  ps_issuesFile : option string;
  ps_value : option Z;
  ps_targetHost : string;
  ps_targetPort : Js.JsNumber;
  ps_localPort : Js.JsNumber;
  ps_timeoutMs : Js.JsNumber;
  ps_rate : Js.JsNumber;
  ps_settleSetMs : Js.JsNumber;
  ps_settleModeMs : Js.JsNumber;
  ps_includePower : bool;
  ps_debugHex : bool;
  ps_promptEach : bool;
  ps_columns : list string
}.

(** An assignment to one of them. *)
Inductive Assignment : Type :=
| set_mode (v : option RunMode)
| set_profile (v : ProfileName)
| set_singleSelector (v : option string)
| set_issuesFile (v : option string)
| set_value (v : option Z)
| set_targetHost (v : string)
| set_targetPort (v : Js.JsNumber)
| set_localPort (v : Js.JsNumber)
| set_timeoutMs (v : Js.JsNumber)
| set_rate (v : Js.JsNumber)
| set_settleSetMs (v : Js.JsNumber)
| set_settleModeMs (v : Js.JsNumber)
| set_includePower (v : bool)
| set_debugHex (v : bool)
| set_promptEach (v : bool)
| set_columns (v : list string).

Definition assign (st : ParseState) (a : Assignment) : ParseState :=
  {| ps_mode := match a with set_mode v => v | _ => ps_mode st end;
     ps_profile := match a with set_profile v => v | _ => ps_profile st end;
     ps_singleSelector := match a with set_singleSelector v => v | _ => ps_singleSelector st end;
     ps_issuesFile := match a with set_issuesFile v => v | _ => ps_issuesFile st end;
     ps_value := match a with set_value v => v | _ => ps_value st end;
     ps_targetHost := match a with set_targetHost v => v | _ => ps_targetHost st end;
     ps_targetPort := match a with set_targetPort v => v | _ => ps_targetPort st end;
     ps_localPort := match a with set_localPort v => v | _ => ps_localPort st end;
     ps_timeoutMs := match a with set_timeoutMs v => v | _ => ps_timeoutMs st end;
     ps_rate := match a with set_rate v => v | _ => ps_rate st end;
     ps_settleSetMs := match a with set_settleSetMs v => v | _ => ps_settleSetMs st end;
     ps_settleModeMs := match a with set_settleModeMs v => v | _ => ps_settleModeMs st end;
     ps_includePower := match a with set_includePower v => v | _ => ps_includePower st end;
     ps_debugHex := match a with set_debugHex v => v | _ => ps_debugHex st end;
     ps_promptEach := match a with set_promptEach v => v | _ => ps_promptEach st end;
     ps_columns := match a with set_columns v => v | _ => ps_columns st end |}.

Definition DEFAULT_COLUMNS : list string :=
  [ "time"; "category"; "command"; "variant"; "tx"; "rx"; "latency"; "status"; "match";
    "meaning"; "validationMode"; "transportStatus"; "note" ].

(** The keys of [AVAILABLE_COLUMNS]. *)
Definition AVAILABLE_COLUMN_KEYS : list string :=
  [ "time"; "stage"; "source"; "category"; "command"; "variant"; "commandKey"; "setCode";
    "replyCode"; "tx"; "rx"; "expected"; "latency"; "transportStatus"; "status";
    "statusColor"; "validationMode"; "match"; "meaning"; "parsed"; "note"; "skipReason";
    "value"; "queryTx"; "queryRx"; "queryLatency"; "queryTransportStatus"; "queryValue";
    "expectedValue"; "notes" ].

(** [AVAILABLE_COLUMNS] is a plain object, so a look-up also finds what it
    inherits from [Object.prototype]. *)
Definition OBJECT_PROTOTYPE_KEYS : list string :=
  [ "constructor"; "hasOwnProperty"; "isPrototypeOf"; "propertyIsEnumerable";
    "toLocaleString"; "toString"; "valueOf"; "__proto__"; "__defineGetter__";
    "__defineSetter__"; "__lookupGetter__"; "__lookupSetter__" ].

Definition isAvailableColumn (col : string) : bool :=
  set_has AVAILABLE_COLUMN_KEYS col || set_has OBJECT_PROTOTYPE_KEYS col.

Definition parseColumnList (input : string) : result (list string) :=
  let columns := filter Js.truthy (map Js.trim (Js.split "," input)) in
  match columns with
  | [] => Throw (OptionError "No columns provided to --cols")
  | _ =>
      match find (fun col => negb (isAvailableColumn col)) columns with
      | Some col =>
          Throw (OptionError ("Unknown column " +++ String "034" (col +++ String "034"
                                (". Available columns: "
                                 +++ Js.join "," AVAILABLE_COLUMN_KEYS))))
      | None => Ok columns
      end
  end.

Definition initialState : ParseState :=
  {| ps_mode := None;
     ps_profile := exview_aio;
     ps_singleSelector := None;
     ps_issuesFile := None;
     ps_value := None;
     ps_targetHost := "192.168.0.20";
     ps_targetPort := Js.Finite (inject_Z 8600);
     ps_localPort := Js.Finite (inject_Z 8600);
     ps_timeoutMs := Js.Finite (inject_Z 1200);
     ps_rate := Js.Finite (inject_Z 1);
     ps_settleSetMs := Js.Finite (inject_Z 400);
     ps_settleModeMs := Js.Finite (inject_Z 1200);
     ps_includePower := false;
     ps_debugHex := false;
     ps_promptEach := false;
     ps_columns := DEFAULT_COLUMNS |}.

Definition setMode (st : ParseState) (next : RunMode) : result ParseState :=
  match ps_mode st with
  | Some mode =>
      if negb (RunMode_eqb mode next)
      then Throw (OptionError "Choose only one mode: --single, --suite, --sanity-test, or --issues-file")
      else Ok (assign st (set_mode (Some next)))
  | None => Ok (assign st (set_mode (Some next)))
  end.


Section CommandLine.

(** [Number(text)]: the number a piece of text denotes, NaN when it denotes
    none. *)
Variable toNumber : string -> Js.JsNumber.

Definition parseTarget (value : string) : result (string * Js.JsNumber) :=
  match Js.split ":" value with
  | host :: portText :: _ =>
      if negb (Js.truthy host) || negb (Js.truthy portText)
      then Throw (OptionError ("Invalid --target value: " +++ value))
      else
        let port := toNumber portText in
        if negb (Js.isFinite port) || Js.lt_int port 1 || Js.gt_int port 65535
        then Throw (OptionError ("Invalid target port: " +++ portText))
        else Ok (host, port)
  | _ => Throw (OptionError ("Invalid --target value: " +++ value))
  end.

(** The [--value] branch of [parseOptions], given its argument. *)
Definition parseValueOption (next : string) : result Z :=
  let numeric := toNumber next in
  match numeric with
  | Js.Finite q =>
      if Js.lt_int numeric 0 || Js.gt_int numeric 100
      then Throw (OptionError ("Invalid --value: " +++ next))
      else Ok (Js.round q)
  | _ => Throw (OptionError ("Invalid --value: " +++ next))
  end.

(** A numeric option whose argument must be finite and not [rejected]. *)
Definition parseNumberOption (name next : string) (rejected : Js.JsNumber -> bool)
    : result Js.JsNumber :=
  let numeric := toNumber next in
  if negb (Js.isFinite numeric) || rejected numeric
  then Throw (OptionError ("Invalid " +++ name +++ ": " +++ next))
  else Ok numeric.

(** [n <= 0] *)
Definition notPositive (n : Js.JsNumber) : bool := negb (Js.gt_int n 0).

(** The argument [argv[index + 1]] of an option, which must be present and
    not empty. *)
Definition argumentOf (rest : list string) (missing : string) : result (string * list string) :=
  match rest with
  | next :: rest' => if Js.truthy next then Ok (next, rest') else Throw (OptionError missing)
  | [] => Throw (OptionError missing)
  end.

(** The option at the head of the arguments: the updated variables and the
    arguments left.  [--help] prints the usage and ends the process with
    [process.exit(0)]: nothing is thrown, and nothing that stands after it is
    read. *)
Definition parseOption (st : ParseState) (arg : string) (rest : list string)
    : result (ParseState * list string) :=
  if String.eqb arg "--help" then Throw (ProcessExit 0)
  else if String.eqb arg "--single" then
    a <- argumentOf rest "--single requires a commandKey or setCommandCode" ;;
    st' <- setMode st single ;;
    Ok (assign st' (set_singleSelector (Some (fst a))), snd a)
  else if String.eqb arg "--suite" then
    st' <- setMode st suite ;; Ok (st', rest)
  else if String.eqb arg "--sanity-test" then
    st' <- setMode st sanity ;; Ok (st', rest)
  else if String.eqb arg "--issues-file" || String.eqb arg "--issues-only" then
    a <- argumentOf rest (arg +++ " requires a file path") ;;
    st' <- setMode st issues ;;
    Ok (assign st' (set_issuesFile (Some (fst a))), snd a)
  else if String.eqb arg "--value" then
    a <- argumentOf rest "--value requires a number" ;;
    v <- parseValueOption (fst a) ;;
    Ok (assign st (set_value (Some v)), snd a)
  else if String.eqb arg "--target" then
    a <- argumentOf rest "--target requires host:port" ;;
    target <- parseTarget (fst a) ;;
    Ok (assign (assign st (set_targetHost (fst target))) (set_targetPort (snd target)), snd a)
  else if String.eqb arg "--local-port" then
    a <- argumentOf rest "--local-port requires a port" ;;
    n <- parseNumberOption "--local-port" (fst a)
           (fun n => Js.lt_int n 1 || Js.gt_int n 65535) ;;
    Ok (assign st (set_localPort n), snd a)
  else if String.eqb arg "--timeout" then
    a <- argumentOf rest "--timeout requires milliseconds" ;;
    n <- parseNumberOption "--timeout" (fst a) notPositive ;;
    Ok (assign st (set_timeoutMs n), snd a)
  else if String.eqb arg "--rate" then
    a <- argumentOf rest "--rate requires commands/sec" ;;
    n <- parseNumberOption "--rate" (fst a) notPositive ;;
    Ok (assign st (set_rate n), snd a)
  else if String.eqb arg "--settle-set" then
    a <- argumentOf rest "--settle-set requires ms" ;;
    n <- parseNumberOption "--settle-set" (fst a) (fun n => Js.lt_int n 0) ;;
    Ok (assign st (set_settleSetMs n), snd a)
  else if String.eqb arg "--settle-mode" then
    a <- argumentOf rest "--settle-mode requires ms" ;;
    n <- parseNumberOption "--settle-mode" (fst a) (fun n => Js.lt_int n 0) ;;
    Ok (assign st (set_settleModeMs n), snd a)
  else if String.eqb arg "--profile" then
    a <- argumentOf rest "--profile requires a name" ;;
    if String.eqb (fst a) "exview-aio" then Ok (assign st (set_profile exview_aio), snd a)
    else if String.eqb (fst a) "generic" then Ok (assign st (set_profile generic), snd a)
    else Throw (OptionError ("Invalid --profile: " +++ fst a
                             +++ " (supported: exview-aio, generic)"))
  else if String.eqb arg "--include-power" then Ok (assign st (set_includePower true), rest)
  else if String.eqb arg "--debug-hex" then Ok (assign st (set_debugHex true), rest)
  else if String.eqb arg "--prompt-each" then Ok (assign st (set_promptEach true), rest)
  else if String.eqb arg "--cols" then
    a <- argumentOf rest "--cols requires a comma-separated list" ;;
    columns <- parseColumnList (fst a) ;;
    Ok (assign st (set_columns columns), snd a)
  else Throw (OptionError ("Unknown argument: " +++ arg)).

(** The loop over [argv]; every round consumes one or two arguments, so
    [fuel] = the number of arguments is enough. *)
Fixpoint parseLoop (fuel : nat) (st : ParseState) (argv : list string) : result ParseState :=
  match argv with
  | [] => Ok st
  | arg :: rest =>
      match fuel with
      | O => Ok st
      | S k =>
          next <- parseOption st arg rest ;;
          parseLoop k (fst next) (snd next)
      end
  end.

Definition parseOptions (argv : list string) : result CliOptions :=
  st <- parseLoop (List.length argv) initialState argv ;;
  match ps_mode st with
  | None =>
      Throw (OptionError "One mode is required: --single, --suite, --sanity-test, or --issues-file")
  | Some mode =>
      if RunMode_eqb mode single && negb (Js.truthy_opt (ps_singleSelector st))
      then Throw (OptionError "--single requires a commandKey or setCommandCode")
      else if RunMode_eqb mode issues && negb (Js.truthy_opt (ps_issuesFile st))
      then Throw (OptionError "--issues-file requires a path")
      else
        Ok {| opt_mode := mode;
              opt_profile := ps_profile st;
              opt_singleSelector := ps_singleSelector st;
              opt_issuesFile := ps_issuesFile st;
              opt_value := ps_value st;
              opt_targetHost := ps_targetHost st;
              opt_targetPort := ps_targetPort st;
              opt_localPort := ps_localPort st;
              opt_timeoutMs := ps_timeoutMs st;
              opt_rate := ps_rate st;
              opt_settleSetMs := ps_settleSetMs st;
              opt_settleModeMs := ps_settleModeMs st;
              opt_includePower := ps_includePower st;
              opt_debugHex := ps_debugHex st;
              opt_promptEach := ps_promptEach st;
              opt_columns := ps_columns st |}
  end.

(** ** The whole run *)

(** What [run] takes from its environment before the loop: what
    [loadTruth] returns or throws, the exclusion entries of the profile
    ([None] when the file is absent or unreadable), what [loadIssueRecords]
    returns or throws, and the error of [bindSocket] when the local port
    cannot be bound. *)
Record Inputs : Type := {
  in_rows : result (list TruthCommandRow);
  in_exclusions : option (list SuiteExclusionEntry);
  in_issueRecords : result (list IssueRecord);
  in_bindError : option Error
}.

Definition buildRunCases (options : CliOptions) (inputs : Inputs)
    (rows : list TruthCommandRow)
    (byKey : JsMap.t TruthCommandRow) (bySetCode : JsMap.t (list TruthCommandRow))
    (numericSpecs : JsMap.t NumericSpec) : result (list CertifyCase) :=
  match opt_mode options with
  | suite => buildSuiteCases rows numericSpecs
  | single =>
      item <- buildSingleCase byKey bySetCode numericSpecs
                (opt_text (opt_singleSelector options)) (opt_value options) ;;
      Ok [item]
  | issues =>
      issueRecords <- in_issueRecords inputs ;;
      buildIssuesCases issueRecords byKey bySetCode numericSpecs
  | sanity => buildSanityCases bySetCode numericSpecs
  end.

(** Everything [run] does before it creates the socket. *)
Definition prepareRun (argv : list string) (inputs : Inputs)
    : result (CliOptions * JsMap.t string * list CertifyCase) :=
  options <- parseOptions argv ;;
  rows <- in_rows inputs ;;
  let suiteExclusions :=
    if RunMode_eqb (opt_mode options) suite
    then loadSuiteExclusions (opt_profile options) (in_exclusions inputs)
    else [] in
  let maps := indexRows rows in
  _ <- verifyTruthChecksumCoverage rows ;;
  numericSpecs <- deriveNumericSpecs (snd maps) ;;
  runCases <- buildRunCases options inputs rows (fst maps) (snd maps) numericSpecs ;;
  Ok (options, suiteExclusions, runCases).

Definition run (argv : list string) (inputs : Inputs) (w : World)
    : World * result (list CertifyRecord) :=
  match prepareRun argv inputs with
  | Throw e => (w, Throw e)
  | Ok (options, suiteExclusions, cases) =>
      match in_bindError inputs with
      | Some e => (w, Throw e)
      | None => runCases options suiteExclusions cases w
      end
  end.

End CommandLine.

(** ** Vocabulary of the statements *)

Definition is_byte (b : Z) : Prop := 0 <= b < 256.

(** [m + k - 1], ..., [m + 1], [m]: the offsets a backward scan of [k] rounds
    that ends at [m] visits, in the order of the visits. *)
Fixpoint descending (m : Z) (k : nat) : list Z :=
  match k with
  | O => []
  | S j => (m + Z.of_nat j) :: descending m j
  end.

(** The offsets from [length - 4] down to [max(0, length - 96)]. *)
Definition tailWindow (bytes : list Z) : list Z :=
  let minIndex := Z.max 0 (Js.len bytes - 96) in
  descending minIndex (Z.to_nat (Js.len bytes - 4 - minIndex + 1)).

(** The marker [00 <len> 00] stands at [index] and its payload ends just
    before the last byte. *)
Definition isTailMarker (bytes : list Z) (index : Z) : bool :=
  Js.get_is bytes index 0 && Js.get_is bytes (index + 2) 0
  && match Js.js_get bytes (index + 1) with
     | Some length => index + 3 + length =? Js.len bytes - 1
     | None => false
     end.

(** The candidates of the backward scan, nearest the tail first. *)
Definition tailCandidates (bytes : list Z) : list Z :=
  filter (isTailMarker bytes) (tailWindow bytes).

(** The decode that selects the marker at [index], with the given flag. *)
Definition decodeAt (bytes : list Z) (index : Z) (flag : bool) : PayloadDecode :=
  {| markerIndex := index;
     dataLength := Js.int_of (Js.js_get bytes (index + 1));
     data := Js.slice bytes (index + 3) (Js.len bytes - 1);
     ambiguous := flag |}.

Definition sumZ (l : list Z) : Z := fold_right Z.add 0 l.

(** The bytes at offsets 8 through length-2. *)
Definition checksumRegion (bytes : list Z) : list Z :=
  firstn (List.length bytes - 9) (skipn 8 bytes).

(** The last byte of a frame. *)
Definition lastByte (bytes : list Z) : option Z := Js.js_get bytes (Js.len bytes - 1).

(** What [deriveNumericSpecs] has checked of a spec it stores under [code]. *)
Definition derivedSpec (code : string) (spec : NumericSpec) (template : list Z) : Prop :=
  spec_setCode spec = code /\
  JsMap.get NUMERIC_VALUE_INDEX_BY_SET code = Some (spec_valueIndex spec, spec_checksumIndex spec) /\
  parseHexBytes (row_requestHex (spec_baseRow spec)) = Ok template /\
  spec_valueIndex spec < Js.len template /\
  spec_checksumIndex spec = Js.len template - 1.

(** A truth row with the given code and request, and nothing else. *)
Definition plainRow (key category : string) (setCode : option string) (requestHex : string)
    : TruthCommandRow :=
  {| row_rowNumber := 1;
     row_commandKey := key;
     row_category := category;
     row_description := "";
     row_requestHex := requestHex;
     row_replyHex := None;
     row_setCommandCode := setCode;
     row_replyCommandCode := None;
     row_instruction := "";
     row_remark := "";
     row_transport := None;
     row_excludedReason := None |}.

(** A 40-byte volume template whose bytes 8..37 are all zero, so that it
    does not agree with the formula base 0x5B of C203. *)
Definition driftedVolumeRow : TruthCommandRow :=
  plainRow "volume" "Set volume level" (Some "0xC203")
    ("55 55 55 55 55 55 55 00 00 00 00 00 00 00 00 00 00 00 00 00 "
     +++ "00 00 00 00 00 00 00 00 00 00 00 00 00 00 00 00 00 00 00 00").

(** A 40-byte contrast template (C217 has no formula). *)
Definition contrastRow : TruthCommandRow :=
  plainRow "contrast" "Set contrast" (Some "C217")
    ("55 55 55 55 55 55 55 00 01 02 03 04 05 06 07 08 09 0A 0B 0C "
     +++ "0D 0E 0F 10 11 12 13 14 15 16 17 18 19 1A 1B 1C 1D 1E 00 00").

(** Two frames that agree everywhere except, possibly, in their last byte. *)
Definition sameExceptLast (expected rx : list Z) : Prop :=
  List.length expected = List.length rx /\ expected <> [] /\
  removelast expected = removelast rx.

(** The decoded payload starts with the little-endian status word 0x0001. *)
Definition ackSuccess (rx : list Z) : Prop :=
  exists p rest, extractTailPayload rx = Some p /\ data p = 1 :: 0 :: rest.

(** The reply code found in a frame, if any. *)
Definition replyCodeOf (rx : list Z) : option string :=
  match decodeReplyCode rx with
  | Ok code => rc_code code
  | Throw _ => None
  end.

(** The reply code of [rx] passes the check of [executeCase]. *)
Definition replyCodeAccepted (caseItem : CertifyCase) (policy : ResolvedPolicy)
    (rx : list Z) : bool :=
  acceptAnyReplyCode policy
  || isReplyCodeAccepted (case_replyCode caseItem) (replyCodeOf rx) (allowedReplyCodes policy).

(** What the builders guarantee of a case: a generated case has request
    bytes. *)
Definition wellFormed (caseItem : CertifyCase) : Prop :=
  case_generatedValue caseItem = None \/ case_txBytes caseItem <> [].

(** A case with the given codes, request and expected reply, and nothing
    else. *)
Definition plainCase (category : string) (setCode replyCode : option string)
    (txBytes : list Z) (expected : option (list Z)) : CertifyCase :=
  {| case_id := "case";
     case_stage := AUTO;
     case_source := from_truth;
     case_category := category;
     case_description := "";
     case_commandKey := "case";
     case_setCode := setCode;
     case_replyCode := replyCode;
     case_txBytes := txBytes;
     case_expectedReplyBytes := expected;
     case_generatedValue := None;
     case_serialOnly := false;
     case_isSetCommand := false;
     case_isModeChangeCommand := false;
     case_isPowerCommand := false;
     case_isDisruptiveCommand := false;
     case_closedLoopQueryRow := None;
     case_expectedQueryValue := None |}.

Definition plainOptions (mode : RunMode) (profile : ProfileName) : CliOptions :=
  {| opt_mode := mode;
     opt_profile := profile;
     opt_singleSelector := None;
     opt_issuesFile := None;
     opt_value := None;
     opt_targetHost := "192.168.0.20";
     opt_targetPort := Js.Finite (inject_Z 8600);
     opt_localPort := Js.Finite (inject_Z 8600);
     opt_timeoutMs := Js.Finite (inject_Z 1200);
     opt_rate := Js.Finite (inject_Z 1);
     opt_settleSetMs := Js.Finite (inject_Z 400);
     opt_settleModeMs := Js.Finite (inject_Z 1200);
     opt_includePower := false;
     opt_debugHex := false;
     opt_promptEach := false;
     opt_columns := DEFAULT_COLUMNS |}.

(** A world whose socket answers the next request with [rx]. *)
Definition answering (rx : list Z) : World :=
  {| script := [ Resolves {| rxBytes := Some rx; latencyMs := Some 5 |} ]; trace := [] |}.

(** A 12-byte request and two replies that differ in their last byte only. *)
Definition sampleRequest : list Z :=
  [0x55; 0x55; 0x55; 0x55; 0x55; 0x55; 0x55; 0; 1; 2; 3; 6].
Definition sampleReply : list Z :=
  [0x55; 0x55; 0x55; 0x55; 0x55; 0x55; 0x55; 0; 0xD0; 0x14; 0xC2; 0; 1; 0; 7; 0x11].
Definition sampleReplyOtherChecksum : list Z :=
  [0x55; 0x55; 0x55; 0x55; 0x55; 0x55; 0x55; 0; 0xD0; 0x14; 0xC2; 0; 1; 0; 7; 0x99].

(** The integers [n - 1], ..., 0. *)
Fixpoint bytesBelow (n : nat) : list Z :=
  match n with
  | O => []
  | S k => Z.of_nat k :: bytesBelow k
  end.


(** A query whose set code has no policy entry; its expected reply is
    [sampleReply]. *)
Definition strictCase : CertifyCase :=
  plainCase "Query video source" (Some "0xC213") (Some "0xC214") sampleRequest
    (Some sampleReply).

(** The sleep/wake query, whose policy is [EXPECTED_NO_REPLY], with its reply
    code 0xC006. *)
Definition sleepQueryCase : CertifyCase :=
  plainCase "Query sleep state" (Some "0xC005") (Some "0xC006") sampleRequest None.

(** A reply without the marker byte 0xD0. *)
Definition replyWithoutMarker : list Z :=
  [0x55; 0x55; 0x55; 0x55; 0x55; 0x55; 0x55; 0; 0x10; 0x14; 0xC2; 0; 1; 0; 7; 0x11].

(** A frame that ends with the tail marker [00 04 00], a 4-byte HDMI
    presence payload and a checksum byte. *)
Definition hdmiFrame (header : list Z) (p0 p1 p2 p3 cs : Z) : list Z :=
  header ++ [0; 4; 0; p0; p1; p2; p3; cs].

(** The sends of a trace. *)
Definition sends (events : list Event) : list (list Z) :=
  flat_map (fun e => match e with EvSend tx => [tx] | EvPrompt _ => [] end) events.




Definition sleepRow : TruthCommandRow :=
  plainRow "sleep" "Set sleep" (Some "0xC003") "55 55 55 55 55 55 55 00 01 02 03 06".

Definition suiteOptions : CliOptions := plainOptions suite exview_aio.

Definition idle : World := {| script := []; trace := [] |}.

(** The de-duplication key that [buildIssuesCases] computes for a record. *)
Definition dedupeKeyOf (record : IssueRecord) : DedupeKey :=
  (if Js.truthy_opt (issue_commandKey record) then opt_text (issue_commandKey record) else "",
   normalizeCode (issueSetCodeRaw record), issue_value record).


(** A failed contrast record with the value 150. *)
Definition contrastIssue : IssueRecord :=
  {| issue_commandKey := Some "contrast:gen-150";
     issue_setCode := Some "0xC217";
     issue_command := None;
     issue_value := Some (Js.Finite (inject_Z 150));
     issue_status := Some "FAIL";
     issue_matchType := Some "MISMATCH" |}.

(** A reading of numbers that knows the text "150" only. *)
Definition toNumber150 (text : string) : Js.JsNumber :=
  if String.eqb text "150" then Js.Finite (inject_Z 150) else Js.NaN.

(** The row carries the set code [code]. *)
Definition hasCode (code : string) (row : TruthCommandRow) : bool :=
  opt_string_eqb (normalizeCode (row_setCommandCode row)) (Some code).

(** The row carries one of the eight numeric set codes. *)
Definition isNumericRow (row : TruthCommandRow) : bool :=
  match normalizeCode (row_setCommandCode row) with
  | Some code => set_has NUMERIC_SET_CODES code
  | None => false
  end.

(** The case was synthesized, for the set code [code]. *)
Definition generatedFor (code : string) (item : CertifyCase) : bool :=
  negb (is_none (case_generatedValue item))
  && opt_string_eqb (case_setCode item) (toCode (Some code)).

(** The case was built from a truth row as it stands. *)
Definition isTruthCase (item : CertifyCase) : bool := is_none (case_generatedValue item).

(** The request and reply templates of the row are well-formed hex text. *)
Definition rowParses (row : TruthCommandRow) : Prop :=
  (exists txBytes, parseHexBytes (row_requestHex row) = Ok txBytes) /\
  (exists reply, parseOptionalHex (row_replyHex row) = Ok reply).

(** The 101 cases of a spec. *)
Definition sweepOf (spec : NumericSpec) : result (list CertifyCase) :=
  mapM (fun value => buildGeneratedNumericCase spec value generated) sweepValues.

(** A query whose text mentions standby but whose code is not a power code,
    followed by a plain query. *)
Definition standbyQueryRow : TruthCommandRow :=
  plainRow "standby-query" "Query standby state" (Some "0xC005")
    "55 55 55 55 55 55 55 00 01 02 03 06".
Definition sourceQueryRow : TruthCommandRow :=
  plainRow "source-query" "Query video source" (Some "0xC211")
    "55 55 55 55 55 55 55 00 01 02 03 06".

(** The set code of the case is one of the power codes. *)
Definition hasPowerCode (item : CertifyCase) : Prop :=
  exists code,
    normalizeCode (case_setCode item) = Some code /\ In code ["C003"; "C007"; "C009"].

(** The request of [item] is the one synthesized for [value] from
    [template]: 40 bytes, those of the template up to offset 37, the value at
    offset 38 and, at offset 39, the byte of the formula for a code that has
    one and the checksum of the request otherwise. *)
Definition synthesizedFrom (code : string) (template : list Z) (value : Z)
    (item : CertifyCase) : Prop :=
  Js.len (case_txBytes item) = 40 /\
  firstn 38 (case_txBytes item) = firstn 38 template /\
  Js.js_get (case_txBytes item) 38 = Some value /\
  lastByte (case_txBytes item)
  = Some (match JsMap.get FORMULA_CHECKSUM_BASE code with
          | Some formulaBase => Js.band (formulaBase + value) 0xff
          | None => computePdfChecksum (case_txBytes item)
          end).


(** ** Vocabulary of the text properties *)

(** The class [[0-9A-F]]. *)
Definition is_upper_hex (c : ascii) : bool :=
  Js.is_digit c || ((65 <=? Js.char_code c) && (Js.char_code c <=? 70)).

(** Every character of [s] passes [p]. *)
Fixpoint all_chars (p : ascii -> bool) (s : string) : bool :=
  match s with
  | EmptyString => true
  | String c rest => p c && all_chars p rest
  end.

(** The characters of a normalized hex text: upper-case hex digits and the
    space that separates the tokens. *)
Definition is_hex_text (c : ascii) : bool := is_upper_hex c || Ascii.eqb c " ".

(** A token of two upper-case hex digits. *)
Definition is_hex_pair (token : string) : bool :=
  match token with
  | String c1 (String c2 EmptyString) => is_upper_hex c1 && is_upper_hex c2
  | _ => false
  end.

Definition upperHexDigits : list ascii :=
  [ "0"; "1"; "2"; "3"; "4"; "5"; "6"; "7"; "8"; "9"; "A"; "B"; "C"; "D"; "E"; "F" ]%char.

(** ** Vocabulary of the frame properties *)

(** The request bytes of a truth row whose hex text is well formed. *)
Definition requestBytes (row : TruthCommandRow) : list Z :=
  match parseHexBytes (row_requestHex row) with
  | Ok bytes => bytes
  | Throw _ => []
  end.

(** The row counts in the checksum self-check of the truth file. *)
Definition isCheckedRow (row : TruthCommandRow) : bool := isUdpLike (requestBytes row).

(** The row is counted and its last byte is not the checksum of the rest. *)
Definition isMismatchRow (row : TruthCommandRow) : bool :=
  isCheckedRow row
  && negb (opt_Z_eqb (Some (computePdfChecksum (requestBytes row))) (lastByte (requestBytes row))).

(** ** Vocabulary of the parser properties *)

(** The parser codes that [parseSemanticByCode] knows. *)
Definition SEMANTIC_PARSER_CODES : list string :=
  [ "C201"; "C215"; "C221"; "C211"; "C243"; "C20D"; "C020"; "C005"; "C25B"; "C241";
    "C131"; "C33D" ].

(** The query codes whose policy selects a parser of one value in 0..100. *)
Definition NUMERIC_QUERY_CODES : list string :=
  [ "C201"; "C215"; "C221"; "C225"; "C229"; "C21D"; "C257"; "C264" ].

(** ** Vocabulary of the execution properties *)

(** A volume query whose reply code is the one of [sampleReply]. *)
Definition volumeQueryCase : CertifyCase :=
  plainCase "Query volume" (Some "0xC201") (Some "0xC214") sampleRequest None.

(** The loop of [run] skips the case without executing it. *)
Definition skippedByRun (options : CliOptions) (suiteExclusions : JsMap.t string)
    (caseItem : CertifyCase) : bool :=
  powerStageExcluded options caseItem
  || case_serialOnly caseItem
  || Js.truthy_opt (exclusionReasonOf options suiteExclusions caseItem).

(** The fields that describe the exchange with the device are those of
    [base]. *)
Definition sameExchange (record base : CertifyRecord) : Prop :=
  rec_commandKey record = rec_commandKey base /\
  rec_txHex record = rec_txHex base /\
  rec_rxHex record = rec_rxHex base /\
  rec_transportStatus record = rec_transportStatus base /\
  rec_skipReason record = rec_skipReason base /\
  rec_queryTxHex record = rec_queryTxHex base /\
  rec_queryRxHex record = rec_queryRxHex base /\
  rec_queryLatencyMs record = rec_queryLatencyMs base /\
  rec_queryTransportStatus record = rec_queryTransportStatus base /\
  rec_queryValue record = rec_queryValue base.

(** The match types that a record can carry. *)
Definition MATCH_TYPES : list string :=
  [ "SKIPPED"; "EXPECTED_NO_REPLY"; "EXPECTED_NO_REPLY_WITH_REPLY"; "NO_REPLY";
    "REPLY_CODE_MISMATCH"; "EXACT"; "CHECKSUM_DIFF"; "ACK_SUCCESS"; "RX_WITHOUT_TEMPLATE";
    "MISMATCH"; "PAYLOAD_NOT_FOUND"; "PARSED_RANGE"; "STRUCTURE_ONLY";
    "SEMANTIC_PARSE_FAIL" ].

(** The outcome of a case whose request is not answered, by set code and
    profile. *)
Definition unansweredOutcome (setCode : option string) (profile : ProfileName)
    : ResultStatus * string :=
  if opt_string_eqb setCode (Some "C005") then (PASS, "EXPECTED_NO_REPLY")
  else if opt_string_eqb setCode (Some "C211")
          && match profile with exview_aio => true | generic => false end
       then (SKIPPED, "SKIPPED")
       else (NO_REPLY, "NO_REPLY").




(** ** Vocabulary of the option properties *)

(** A finite number within two integers, above an integer, or not below
    one. *)
Definition numberBetween (lo hi : Z) (n : Js.JsNumber) : Prop :=
  exists q, n = Js.Finite q /\ (inject_Z lo <= q)%Q /\ (q <= inject_Z hi)%Q.
Definition numberAbove (lo : Z) (n : Js.JsNumber) : Prop :=
  exists q, n = Js.Finite q /\ (inject_Z lo < q)%Q.
Definition numberAtLeast (lo : Z) (n : Js.JsNumber) : Prop :=
  exists q, n = Js.Finite q /\ (inject_Z lo <= q)%Q.

(** What holds of the settings that [parseOptions] has read. *)
Definition validSettings (mode : option RunMode) (singleSelector issuesFile : option string)
    (value : option Z) (targetHost : string)
    (targetPort localPort timeoutMs rate settleSetMs settleModeMs : Js.JsNumber)
    (columns : list string) : Prop :=
  (mode = Some single -> Js.truthy_opt singleSelector = true) /\
  (mode = Some issues -> Js.truthy_opt issuesFile = true) /\
  (forall v, value = Some v -> 0 <= v <= 100) /\
  Js.truthy targetHost = true /\
  numberBetween 1 65535 targetPort /\
  numberBetween 1 65535 localPort /\
  numberAbove 0 timeoutMs /\
  numberAbove 0 rate /\
  numberAtLeast 0 settleSetMs /\
  numberAtLeast 0 settleModeMs /\
  columns <> [] /\
  Forall (fun col => In col AVAILABLE_COLUMN_KEYS \/ In col OBJECT_PROTOTYPE_KEYS) columns.

Definition validState (st : ParseState) : Prop :=
  validSettings (ps_mode st) (ps_singleSelector st) (ps_issuesFile st) (ps_value st)
    (ps_targetHost st) (ps_targetPort st) (ps_localPort st) (ps_timeoutMs st) (ps_rate st)
    (ps_settleSetMs st) (ps_settleModeMs st) (ps_columns st).

Definition validOptions (options : CliOptions) : Prop :=
  validSettings (Some (opt_mode options)) (opt_singleSelector options)
    (opt_issuesFile options) (opt_value options) (opt_targetHost options)
    (opt_targetPort options) (opt_localPort options) (opt_timeoutMs options)
    (opt_rate options) (opt_settleSetMs options) (opt_settleModeMs options)
    (opt_columns options).

(** A reading of numbers that knows the texts of a table. *)
Definition toNumberOf (table : list (string * Js.JsNumber)) (text : string) : Js.JsNumber :=
  match JsMap.get table text with
  | Some n => n
  | None => Js.NaN
  end.

(** A single run with a value, a target whose port is not an integer and
    two columns, one of them a name that [AVAILABLE_COLUMNS] only inherits. *)
Definition sampleArguments : list string :=
  [ "--single"; "0xC217"; "--value"; "42"; "--target"; "10.0.0.5:80.5";
    "--cols"; "status, constructor" ].
Definition sampleNumbers : list (string * Js.JsNumber) :=
  [ ("42", Js.Finite (inject_Z 42)); ("80.5", Js.Finite (161 # 2)) ].

(** The arguments that select a mode. *)
Definition modeArguments (mode : RunMode) (argument : string) : list string :=
  match mode with
  | single => ["--single"; argument]
  | suite => ["--suite"]
  | sanity => ["--sanity-test"]
  | issues => ["--issues-file"; argument]
  end.

(** ** Reports *)

Definition quoteChar : ascii := "034"%char.
Definition newlineChar : ascii := "010"%char.

(** The [replace] of [sanitizeForCsv]: every quote is doubled. *)
Fixpoint doubleQuotes (value : string) : string :=
  match value with
  | EmptyString => EmptyString
  | String c rest =>
      if Ascii.eqb c quoteChar
      then String quoteChar (String quoteChar (doubleQuotes rest))
      else String c (doubleQuotes rest)
  end.

Definition sanitizeForCsv (value : string) : string :=
  if Js.includes value ","
     || Js.includes value (String quoteChar EmptyString)
     || Js.includes value (String newlineChar EmptyString)
  then String quoteChar (doubleQuotes value +++ String quoteChar EmptyString)
  else value.

Definition ResultStatus_eqb (a b : ResultStatus) : bool :=
  match a, b with
  | PASS, PASS | FAIL, FAIL | NO_REPLY, NO_REPLY | SKIPPED, SKIPPED => true
  | _, _ => false
  end.

(** The text of a status, as the records hold it. *)
Definition ResultStatus_text (status : ResultStatus) : string :=
  match status with
  | PASS => "PASS"
  | FAIL => "FAIL"
  | NO_REPLY => "NO_REPLY"
  | SKIPPED => "SKIPPED"
  end.

Record Summary : Type := {
  sum_pass : Z;
  sum_fail : Z;
  sum_noReply : Z;
  sum_skipped : Z
}.

(** [records.filter(record => record.status === status).length] *)
Definition countStatus (status : ResultStatus) (records : list CertifyRecord) : Z :=
  Js.len (filter (fun record => ResultStatus_eqb (rec_status record) status) records).

Definition buildSummary (records : list CertifyRecord) : Summary :=
  {| sum_pass := countStatus PASS records;
     sum_fail := countStatus FAIL records;
     sum_noReply := countStatus NO_REPLY records;
     sum_skipped := countStatus SKIPPED records |}.

(** The issues that [writeArtifacts] writes beside the report, and the
    summary it gives of them. *)
Definition issuesOf (records : list CertifyRecord) : list CertifyRecord :=
  filter (fun record => set_has ISSUE_STATUSES (ResultStatus_text (rec_status record))) records.

Record IssuesSummary : Type := {
  iss_total : Z;
  iss_fail : Z;
  iss_noReply : Z;
  iss_skipped : Z
}.

Definition issuesSummary (records : list CertifyRecord) : IssuesSummary :=
  let issues := issuesOf records in
  {| iss_total := Js.len issues;
     iss_fail := countStatus FAIL issues;
     iss_noReply := countStatus NO_REPLY issues;
     iss_skipped := countStatus SKIPPED issues |}.

(** The value that a CSV field stands for: a field that starts with a quote
    loses its first and last character and has its doubled quotes undone. *)
Fixpoint undoubleQuotes (field : string) : string :=
  match field with
  | EmptyString => EmptyString
  | String c rest =>
      if Ascii.eqb c quoteChar then
        match rest with
        | String c' rest' =>
            if Ascii.eqb c' quoteChar then String quoteChar (undoubleQuotes rest')
            else String c (undoubleQuotes rest)
        | EmptyString => EmptyString
        end
      else String c (undoubleQuotes rest)
  end.

Definition csvFieldValue (field : string) : string :=
  match field with
  | String c rest => if Ascii.eqb c quoteChar then undoubleQuotes rest else field
  | EmptyString => EmptyString
  end.

(** ** Vocabulary of the exclusion properties *)

(** The reason that an entry of the exclusion file gives for [code], when
    it is an entry for that code with a reason that is not blank. *)
Definition entryReason (code : string) (item : SuiteExclusionEntry) : option string :=
  if opt_string_eqb (normalizeCode (excl_code item)) (Some code)
     && Js.truthy (Js.trim (opt_text (excl_reason item)))
  then Some (Js.trim (opt_text (excl_reason item)))
  else None.

(** The reason of the last entry for [code]. *)
Definition lastReason (code : string) (entries : list SuiteExclusionEntry) : option string :=
  fold_left (fun found item =>
               match entryReason code item with
               | Some reason => Some reason
               | None => found
               end) entries None.

(** ** Vocabulary of the text properties: ASCII text *)

Definition is_ascii (c : ascii) : bool := Js.char_code c <? 128.

(** The codes of the characters of a text. *)
Fixpoint char_codes (s : string) : list Z :=
  match s with
  | EmptyString => []
  | String c rest => Js.char_code c :: char_codes rest
  end.

(** What [toUpperCase], [toLowerCase] and [trim] do on a text of ASCII
    characters. *)
Definition asciiUpper : string -> string := Js.map_chars Js.upper_char.
Definition asciiLower : string -> string := Js.map_chars Js.lower_char.

Fixpoint asciiTrimStart (s : string) : string :=
  match s with
  | EmptyString => EmptyString
  | String c rest => if Js.is_space c then asciiTrimStart rest else s
  end.

Definition asciiTrimEnd (s : string) : string :=
  Js.rev_string (asciiTrimStart (Js.rev_string s EmptyString)) EmptyString.

Definition asciiTrim (s : string) : string := asciiTrimEnd (asciiTrimStart s).

(** ** Vocabulary of the exchange properties *)

(** What the environment does with the next request: the scripted exchange,
    a time-out when the script is used up. *)
Definition nextExchange (w : World) : Exchange := hd (Resolves noReply) (script w).



(** * Properties *)

(** ** Arithmetic of the JavaScript operators *)

Lemma to_int32_small : forall z, - 2 ^ 31 <= z < 2 ^ 31 -> Js.to_int32 z = z.
Proof.
  intros z Hz. unfold Js.to_int32, Js.to_uint32.
  destruct (Z_lt_le_dec z 0) as [Hneg | Hpos].
  - assert (Hm : z mod 2 ^ 32 = z + 2 ^ 32).
    { symmetry. apply Z.mod_unique with (q := -1); lia. }
    rewrite Hm. destruct (Z.ltb_spec (z + 2 ^ 32) (2 ^ 31)); lia.
  - rewrite Z.mod_small by lia.
    destruct (Z.ltb_spec z (2 ^ 31)); lia.
Qed.

Lemma to_int32_mod256 : forall z, Js.to_int32 z mod 256 = z mod 256.
Proof.
  intros z. unfold Js.to_int32, Js.to_uint32.
  assert (H : (z mod 2 ^ 32) mod 256 = z mod 256).
  { apply Z.mod_mod_divide. exists (2 ^ 24). reflexivity. }
  destruct (Z.ltb_spec (z mod 2 ^ 32) (2 ^ 31)); [exact H |].
  replace (z mod 2 ^ 32 - 2 ^ 32) with (z mod 2 ^ 32 + (- 2 ^ 24) * 256) by lia.
  rewrite Z_mod_plus_full. exact H.
Qed.

(** [x & 0xff] is the residue of [x] modulo 256. *)
Lemma band_0xff : forall x, Js.band x 0xff = x mod 256.
Proof.
  intros x. unfold Js.band.
  rewrite (to_int32_small 255) by lia.
  change 255 with (Z.ones 8). rewrite Z.land_ones by lia.
  change (2 ^ 8) with 256. rewrite to_int32_mod256.
  apply to_int32_small.
  pose proof (Z.mod_pos_bound x 256). lia.
Qed.

Lemma band_0xff_byte : forall x, is_byte (Js.band x 0xff).
Proof.
  intros x. rewrite band_0xff. unfold is_byte.
  pose proof (Z.mod_pos_bound x 256). lia.
Qed.

Lemma band_0xff_small : forall x, is_byte x -> Js.band x 0xff = x.
Proof.
  intros x Hx. rewrite band_0xff. apply Z.mod_small. exact Hx.
Qed.

(** ** Arrays *)

Lemma len_nonneg : forall (A : Type) (l : list A), 0 <= Js.len l.
Proof. intros. unfold Js.len. lia. Qed.

Lemma len_app : forall (A : Type) (l1 l2 : list A), Js.len (l1 ++ l2) = Js.len l1 + Js.len l2.
Proof. intros. unfold Js.len. rewrite length_app. lia. Qed.

Lemma len_cons : forall (A : Type) (a : A) (l : list A), Js.len (a :: l) = 1 + Js.len l.
Proof. intros. unfold Js.len. simpl List.length. lia. Qed.

Lemma js_get_inside : forall (A : Type) (l : list A) i,
  0 <= i < Js.len l -> exists x, Js.js_get l i = Some x.
Proof.
  intros A l i Hi. unfold Js.js_get, Js.len in *.
  destruct (Z.ltb_spec i 0); [lia |].
  destruct (nth_error l (Z.to_nat i)) eqn:E; [eauto |].
  apply nth_error_None in E. lia.
Qed.

Lemma js_get_outside : forall (A : Type) (l : list A) i,
  i < 0 \/ Js.len l <= i -> Js.js_get l i = None.
Proof.
  intros A l i Hi. unfold Js.js_get, Js.len in *.
  destruct (Z.ltb_spec i 0); [reflexivity |].
  apply nth_error_None. lia.
Qed.

Lemma js_get_some_inside : forall (A : Type) (l : list A) i x,
  Js.js_get l i = Some x -> 0 <= i < Js.len l.
Proof.
  intros A l i x H. unfold Js.js_get, Js.len in *.
  destruct (Z.ltb_spec i 0); [discriminate |].
  assert (nth_error l (Z.to_nat i) <> None) as Hn by congruence.
  apply nth_error_Some in Hn. lia.
Qed.

Lemma js_get_cons : forall (A : Type) (a : A) (l : list A) i,
  0 <= i -> Js.js_get (a :: l) (i + 1) = Js.js_get l i.
Proof.
  intros A a l i Hi. unfold Js.js_get.
  destruct (Z.ltb_spec (i + 1) 0); [lia |].
  destruct (Z.ltb_spec i 0); [lia |].
  replace (Z.to_nat (i + 1)) with (S (Z.to_nat i)) by lia. reflexivity.
Qed.

Lemma js_get_app_left : forall (A : Type) (l1 l2 : list A) i,
  i < Js.len l1 -> Js.js_get (l1 ++ l2) i = Js.js_get l1 i.
Proof.
  intros A l1 l2 i Hi. unfold Js.js_get, Js.len in *.
  destruct (Z.ltb_spec i 0); [reflexivity |].
  apply nth_error_app1. lia.
Qed.

Lemma js_get_app_right : forall (A : Type) (l1 l2 : list A) i,
  0 <= i -> Js.js_get (l1 ++ l2) (Js.len l1 + i) = Js.js_get l2 i.
Proof.
  intros A l1 l2 i Hi. unfold Js.js_get, Js.len.
  destruct (Z.ltb_spec (Z.of_nat (List.length l1) + i) 0); [lia |].
  destruct (Z.ltb_spec i 0); [lia |].
  rewrite nth_error_app2 by lia.
  f_equal. lia.
Qed.

Lemma In_descending : forall m k i,
  In i (descending m k) <-> m <= i < m + Z.of_nat k.
Proof.
  intros m k. induction k as [| k IH]; intros i; simpl descending.
  - simpl. lia.
  - simpl In. rewrite IH. lia.
Qed.

(** The first element that a filter keeps of a descending run is the
    greatest one that passes, and the others it keeps are smaller. *)
Lemma filter_descending_head : forall (p : Z -> bool) m k x rest,
  filter p (descending m k) = x :: rest ->
  p x = true /\ m <= x < m + Z.of_nat k /\
  (forall j, In j rest -> j < x) /\
  (forall j, m <= j < m + Z.of_nat k -> p j = true -> j <= x).
Proof.
  intros p m k. induction k as [| k IH]; intros x rest H; simpl in H.
  - discriminate.
  - destruct (p (m + Z.of_nat k)) eqn:Hp.
    + injection H as Hx Hrest. subst x.
      split; [assumption |]. split; [lia |]. split.
      * intros j Hj. subst rest. apply filter_In in Hj as [Hj _].
        apply In_descending in Hj. lia.
      * intros j Hj _. lia.
    + destruct (IH _ _ H) as (Hpx & Hx & Hlt & Hmax).
      split; [assumption |]. split; [lia |]. split; [assumption |].
      intros j Hj Hpj.
      destruct (Z.eq_dec j (m + Z.of_nat k)) as [-> | Hne]; [congruence |].
      apply Hmax; [lia | assumption].
Qed.

(** ** Text *)

Lemma all_chars_app : forall p a b, all_chars p (a +++ b) = all_chars p a && all_chars p b.
Proof.
  intros p a b. induction a as [| c a IH]; simpl; [reflexivity |].
  rewrite IH. apply andb_assoc.
Qed.

Lemma all_chars_repeat : forall p c n, p c = true -> all_chars p (Js.repeat_char c n) = true.
Proof. intros p c n H. induction n; simpl; [reflexivity | now rewrite H]. Qed.


Lemma append_assoc : forall a b c, (a +++ b) +++ c = a +++ (b +++ c).
Proof. intros a b c. induction a as [| x a IH]; simpl; [reflexivity | now rewrite IH]. Qed.

Lemma append_nil_r : forall a, a +++ "" = a.
Proof. induction a as [| x a IH]; simpl; [reflexivity | now rewrite IH]. Qed.

Lemma rev_string_acc : forall s acc, Js.rev_string s acc = Js.rev_string s "" +++ acc.
Proof.
  induction s as [| c s IH]; intros acc; simpl; [reflexivity |].
  rewrite IH, (IH (String c "")), append_assoc. reflexivity.
Qed.

Lemma rev_string_app : forall a b,
  Js.rev_string (a +++ b) "" = Js.rev_string b "" +++ Js.rev_string a "".
Proof.
  induction a as [| c a IH]; intros b; simpl.
  - now rewrite append_nil_r.
  - rewrite (rev_string_acc (a +++ b) (String c "")), IH,
      (rev_string_acc a (String c "")), append_assoc. reflexivity.
Qed.

Lemma rev_string_involutive : forall s, Js.rev_string (Js.rev_string s "") "" = s.
Proof.
  induction s as [| c s IH]; simpl; [reflexivity |].
  rewrite (rev_string_acc s (String c "")), rev_string_app, IH. reflexivity.
Qed.

Lemma all_chars_rev : forall p s acc,
  all_chars p (Js.rev_string s acc) = all_chars p s && all_chars p acc.
Proof.
  intros p. induction s as [| c s IH]; intros acc; simpl; [reflexivity |].
  rewrite IH. simpl. rewrite !andb_assoc. f_equal. apply andb_comm.
Qed.

Lemma all_chars_asciiTrimStart : forall p s, all_chars p s = true -> all_chars p (asciiTrimStart s) = true.
Proof.
  intros p. induction s as [| c s IH]; simpl; [reflexivity |].
  intros H. destruct (Js.is_space c); [| exact H].
  apply andb_prop in H as [_ H]. auto.
Qed.

Lemma all_chars_asciiTrim : forall p s, all_chars p s = true -> all_chars p (asciiTrim s) = true.
Proof.
  intros p s H. unfold asciiTrim, asciiTrimEnd.
  rewrite all_chars_rev, andb_true_r. apply all_chars_asciiTrimStart.
  rewrite all_chars_rev, andb_true_r. now apply all_chars_asciiTrimStart.
Qed.

Lemma all_chars_weaken : forall (p q : ascii -> bool) s,
  (forall c, p c = true -> q c = true) -> all_chars p s = true -> all_chars q s = true.
Proof.
  intros p q s Hpq. induction s as [| c s IH]; simpl; [reflexivity |].
  intros H. apply andb_prop in H as [Hc Hs]. rewrite (Hpq _ Hc). auto.
Qed.

(** A text that ends with a character that is no white space has nothing
    to trim at its end. *)
Lemma asciiTrimEnd_ends : forall s c,
  Js.is_space c = false -> asciiTrimEnd (s +++ String c "") = s +++ String c "".
Proof.
  intros s c Hc. unfold asciiTrimEnd. rewrite rev_string_app.
  cbn [Js.rev_string append asciiTrimStart]. rewrite Hc.
  change (String c (Js.rev_string s "")) with (String c "" +++ Js.rev_string s "").
  rewrite rev_string_app, rev_string_involutive. reflexivity.
Qed.

(** *** [split] and [join] *)

Lemma join_cons : forall sep p q rest,
  Js.join sep (p :: q :: rest) = p +++ sep +++ Js.join sep (q :: rest).
Proof. reflexivity. Qed.

Lemma split_acc_nonempty : forall sep s cur, Js.split_acc sep s cur <> [].
Proof.
  intros sep. induction s as [| c s IH]; intros cur; simpl; [discriminate |].
  destruct (Ascii.eqb c sep); [discriminate | apply IH].
Qed.

Lemma join_split_acc : forall sep s cur,
  Js.join (String sep "") (Js.split_acc sep s cur) = Js.rev_string cur "" +++ s.
Proof.
  intros sep. induction s as [| c s IH]; intros cur; simpl.
  - now rewrite append_nil_r.
  - destruct (Ascii.eqb_spec c sep) as [-> | Hne].
    + destruct (Js.split_acc sep s "") as [| q rest] eqn:E.
      * now apply split_acc_nonempty in E.
      * rewrite join_cons, <- E, IH. reflexivity.
    + rewrite IH. cbn [Js.rev_string].
      rewrite (rev_string_acc cur (String c "")), append_assoc. reflexivity.
Qed.

(** Joining what [split] returns gives the text back. *)
Lemma join_split : forall sep s, Js.join (String sep "") (Js.split sep s) = s.
Proof. intros sep s. unfold Js.split. now rewrite join_split_acc. Qed.

Lemma split_acc_chars : forall (p : ascii -> bool) sep s cur,
  all_chars p s = true ->
  all_chars (fun c => p c && negb (Ascii.eqb c sep)) cur = true ->
  Forall (fun token => all_chars (fun c => p c && negb (Ascii.eqb c sep)) token = true)
    (Js.split_acc sep s cur).
Proof.
  intros p sep. induction s as [| c s IH]; intros cur Hs Hcur; simpl.
  - constructor; [| constructor]. now rewrite all_chars_rev, Hcur.
  - cbn [all_chars] in Hs. apply andb_prop in Hs as [Hc Hs].
    destruct (Ascii.eqb c sep) eqn:E.
    + constructor; [now rewrite all_chars_rev, Hcur | now apply IH].
    + apply IH; [exact Hs |]. cbn [all_chars]. now rewrite Hc, E, Hcur.
Qed.

Lemma split_acc_app : forall sep token rest cur,
  all_chars (fun c => negb (Ascii.eqb c sep)) token = true ->
  Js.split_acc sep (token +++ rest) cur = Js.split_acc sep rest (Js.rev_string token cur).
Proof.
  intros sep. induction token as [| c token IH]; intros rest cur H; [reflexivity |].
  cbn [all_chars] in H. apply andb_prop in H as [Hc H].
  cbn [append Js.split_acc Js.rev_string].
  destruct (Ascii.eqb c sep); [discriminate |]. now apply IH.
Qed.

Lemma split_acc_join : forall sep tokens token cur,
  Forall (fun t => all_chars (fun c => negb (Ascii.eqb c sep)) t = true) (token :: tokens) ->
  Js.split_acc sep (Js.join (String sep "") (token :: tokens)) cur
  = (Js.rev_string cur "" +++ token) :: tokens.
Proof.
  intros sep. induction tokens as [| next tokens IH]; intros token cur H.
  - inversion H as [| ? ? Ht _]; subst. cbn [Js.join].
    rewrite <- (append_nil_r token) at 1. rewrite split_acc_app by exact Ht.
    cbn [Js.split_acc]. rewrite (rev_string_acc token cur), rev_string_app,
      rev_string_involutive. reflexivity.
  - inversion H as [| ? ? Ht Hrest]; subst. rewrite join_cons.
    rewrite split_acc_app by exact Ht. cbn [append Js.split_acc].
    rewrite Ascii.eqb_refl, (IH next "" Hrest).
    rewrite (rev_string_acc token cur), rev_string_app, rev_string_involutive.
    reflexivity.
Qed.

(** Splitting a joined list of tokens that do not contain the separator
    gives the tokens back. *)
Lemma split_join : forall sep tokens,
  tokens <> [] ->
  Forall (fun t => all_chars (fun c => negb (Ascii.eqb c sep)) t = true) tokens ->
  Js.split sep (Js.join (String sep "") tokens) = tokens.
Proof.
  intros sep [| token tokens] Hne H; [contradiction |].
  unfold Js.split. now rewrite split_acc_join.
Qed.


(** ** ASCII text

    On a text of ASCII characters, [trim], [toUpperCase] and [toLowerCase]
    are the operations on the bytes. *)

Lemma char_of_char_code : forall c, Js.char_of (Js.char_code c) = c.
Proof.
  intros c. unfold Js.char_of, Js.char_code. rewrite N2Z.id. apply ascii_N_embedding.
Qed.

Lemma is_ascii_code : forall c, is_ascii c = true -> 0 <= Js.char_code c < 128.
Proof.
  intros c H. unfold is_ascii in H. apply Z.ltb_lt in H.
  unfold Js.char_code in *. lia.
Qed.

Lemma decode_loop_ascii : forall s fuel,
  (String.length s <= fuel)%nat -> all_chars is_ascii s = true ->
  Js.decode_loop fuel s = char_codes s.
Proof.
  induction s as [| c s IH]; intros fuel Hfuel H.
  - destruct fuel; reflexivity.
  - destruct fuel as [| fuel]; [simpl in Hfuel; lia |].
    cbn [all_chars] in H. apply andb_prop in H as [Hc Hs].
    cbn [Js.decode_loop Js.next_code_point char_codes].
    unfold is_ascii in Hc. cbv zeta. rewrite Hc.
    rewrite IH; [reflexivity | simpl in Hfuel; lia | exact Hs].
Qed.

Lemma decode_ascii : forall s, all_chars is_ascii s = true -> Js.decode s = char_codes s.
Proof. intros s H. unfold Js.decode. now apply decode_loop_ascii. Qed.

Lemma encode_char_codes : forall s, all_chars is_ascii s = true -> Js.encode (char_codes s) = s.
Proof.
  induction s as [| c s IH]; intros H; [reflexivity |].
  cbn [all_chars] in H. apply andb_prop in H as [Hc Hs].
  cbn [char_codes Js.encode]. unfold Js.encode_code_point.
  pose proof (is_ascii_code c Hc) as Hcode.
  destruct (Js.char_code c <? 0) eqn:E0; [apply Z.ltb_lt in E0; lia |].
  destruct (Js.char_code c <? 128) eqn:E1; [| apply Z.ltb_ge in E1; lia].
  rewrite char_of_char_code. cbn [append]. now rewrite IH.
Qed.

Lemma char_codes_rev : forall s acc,
  char_codes (Js.rev_string s acc) = rev (char_codes s) ++ char_codes acc.
Proof.
  induction s as [| c s IH]; intros acc; [reflexivity |].
  cbn [Js.rev_string char_codes rev]. rewrite IH. cbn [char_codes].
  rewrite <- app_assoc. reflexivity.
Qed.

Lemma ascii_char_facts : forall c,
  is_ascii c = true ->
  is_ascii (Js.upper_char c) = true /\ is_ascii (Js.lower_char c) = true /\
  Js.upper_code_point (Js.char_code c) = [Js.char_code (Js.upper_char c)] /\
  Js.lower_code_point (Js.char_code c) = [Js.char_code (Js.lower_char c)] /\
  (Js.char_code c =? 0x3A3) = false /\
  Js.is_white_space (Js.char_code c) = Js.is_space c.
Proof.
  intros [[] [] [] [] [] [] [] []]; vm_compute; intros H;
    first [discriminate | repeat split].
Qed.

Lemma all_chars_map_ascii : forall (f : ascii -> ascii) s,
  (forall c, is_ascii c = true -> is_ascii (f c) = true) ->
  all_chars is_ascii s = true -> all_chars is_ascii (Js.map_chars f s) = true.
Proof.
  intros f s Hf. induction s as [| c s IH]; intros H; [reflexivity |].
  cbn [all_chars] in H. apply andb_prop in H as [Hc Hs].
  cbn [Js.map_chars all_chars]. now rewrite (Hf c Hc), (IH Hs).
Qed.

Lemma toUpperCase_ascii : forall s,
  all_chars is_ascii s = true -> Js.toUpperCase s = asciiUpper s.
Proof.
  intros s H. unfold Js.toUpperCase. rewrite (decode_ascii s H).
  assert (Hmap : flat_map Js.upper_code_point (char_codes s) = char_codes (asciiUpper s)).
  { clear - H. induction s as [| c s IH]; [reflexivity |].
    cbn [all_chars] in H. apply andb_prop in H as [Hc Hs].
    destruct (ascii_char_facts c Hc) as (_ & _ & Hup & _).
    cbn [char_codes flat_map]. rewrite Hup, (IH Hs). reflexivity. }
  rewrite Hmap. apply encode_char_codes. apply all_chars_map_ascii; [| exact H].
  intros c Hc. apply (ascii_char_facts c Hc).
Qed.

Lemma toLowerCase_ascii : forall s,
  all_chars is_ascii s = true -> Js.toLowerCase s = asciiLower s.
Proof.
  intros s H. unfold Js.toLowerCase. rewrite (decode_ascii s H).
  assert (Hmap : forall after_cased,
            Js.lower_code_points after_cased (char_codes s) = char_codes (asciiLower s)).
  { clear - H. induction s as [| c s IH]; intros after_cased; [reflexivity |].
    cbn [all_chars] in H. apply andb_prop in H as [Hc Hs].
    destruct (ascii_char_facts c Hc) as (_ & _ & _ & Hlow & Hsigma & _).
    cbn [char_codes Js.lower_code_points]. rewrite Hsigma, Hlow, (IH Hs). reflexivity. }
  rewrite Hmap. apply encode_char_codes. apply all_chars_map_ascii; [| exact H].
  intros c Hc. apply (ascii_char_facts c Hc).
Qed.

Lemma drop_white_space_ascii : forall s,
  all_chars is_ascii s = true ->
  Js.drop_white_space (char_codes s) = char_codes (asciiTrimStart s).
Proof.
  induction s as [| c s IH]; intros H; [reflexivity |].
  cbn [all_chars] in H. apply andb_prop in H as [Hc Hs].
  destruct (ascii_char_facts c Hc) as (_ & _ & _ & _ & _ & Hwhite).
  cbn [char_codes Js.drop_white_space asciiTrimStart]. rewrite Hwhite.
  destruct (Js.is_space c); [apply IH; exact Hs | reflexivity].
Qed.

Lemma trim_ascii : forall s, all_chars is_ascii s = true -> Js.trim s = asciiTrim s.
Proof.
  intros s H. unfold Js.trim, asciiTrim, asciiTrimEnd.
  pose proof (all_chars_asciiTrimStart is_ascii s H) as H1.
  assert (H2 : all_chars is_ascii (Js.rev_string (asciiTrimStart s) "") = true)
    by now rewrite all_chars_rev, H1.
  pose proof (all_chars_asciiTrimStart is_ascii _ H2) as H3.
  assert (H4 : all_chars is_ascii
                 (Js.rev_string (asciiTrimStart (Js.rev_string (asciiTrimStart s) "")) "") = true)
    by now rewrite all_chars_rev, H3.
  rewrite (decode_ascii s H), (drop_white_space_ascii s H).
  rewrite <- (app_nil_r (rev (char_codes (asciiTrimStart s)))).
  change (@nil Z) with (char_codes "") at 1. rewrite <- char_codes_rev.
  rewrite (drop_white_space_ascii _ H2).
  rewrite <- (app_nil_r (rev (char_codes _))).
  change (@nil Z) with (char_codes "") at 1. rewrite <- char_codes_rev.
  now apply encode_char_codes.
Qed.

Lemma all_chars_trim : forall p s,
  all_chars is_ascii s = true -> all_chars p s = true -> all_chars p (Js.trim s) = true.
Proof. intros p s Ha H. rewrite (trim_ascii s Ha). now apply all_chars_asciiTrim. Qed.

Lemma hex_is_ascii : forall c, Js.is_hex c = true -> is_ascii c = true.
Proof. intros [[] [] [] [] [] [] [] []]; vm_compute; intros H; first [reflexivity | discriminate]. Qed.

Lemma filter_hex_ascii : forall s, all_chars is_ascii (Js.filter_chars Js.is_hex s) = true.
Proof.
  induction s as [| c s IH]; [reflexivity |]. cbn [Js.filter_chars].
  destruct (Js.is_hex c) eqn:E; [| exact IH].
  cbn [all_chars]. now rewrite (hex_is_ascii c E), IH.
Qed.

(** ** Command codes *)

Lemma upper_char_hex : forall c, Js.is_hex c = true -> is_upper_hex (Js.upper_char c) = true.
Proof. intros [[] [] [] [] [] [] [] []]; vm_compute; intros H; first [reflexivity | discriminate]. Qed.

Lemma upper_hex_fixed : forall c,
  is_upper_hex c = true -> Js.is_hex c = true /\ Js.upper_char c = c /\ is_x c = false.
Proof.
  intros [[] [] [] [] [] [] [] []]; vm_compute; intros H;
    first [discriminate | repeat split].
Qed.



Lemma toUpperCase_filter_hex : forall s,
  all_chars is_upper_hex (Js.toUpperCase (Js.filter_chars Js.is_hex s)) = true.
Proof.
  intros s. rewrite toUpperCase_ascii by apply filter_hex_ascii.
  induction s as [| c s IH]; simpl; [reflexivity |].
  destruct (Js.is_hex c) eqn:E; [| exact IH].
  unfold asciiUpper in *. cbn [Js.map_chars all_chars].
  rewrite (upper_char_hex _ E). exact IH.
Qed.

Lemma upper_hex_filter : forall s,
  all_chars is_upper_hex s = true -> Js.filter_chars Js.is_hex s = s.
Proof.
  induction s as [| c s IH]; simpl; [reflexivity |].
  intros H. apply andb_prop in H as [Hc Hs].
  destruct (upper_hex_fixed _ Hc) as (-> & _ & _). now rewrite IH.
Qed.

Lemma upper_hex_ascii : forall s,
  all_chars is_upper_hex s = true -> all_chars is_ascii s = true.
Proof.
  intros s H. apply (all_chars_weaken is_upper_hex is_ascii s); [| exact H].
  intros c Hc. apply hex_is_ascii. now destruct (upper_hex_fixed c Hc).
Qed.

Lemma upper_hex_upper : forall s,
  all_chars is_upper_hex s = true -> Js.toUpperCase s = s.
Proof.
  intros s H. rewrite toUpperCase_ascii by now apply upper_hex_ascii.
  induction s as [| c s IH]; simpl; [reflexivity |].
  cbn [all_chars] in H. apply andb_prop in H as [Hc Hs].
  destruct (upper_hex_fixed _ Hc) as (_ & E & _).
  unfold asciiUpper in *. cbn [Js.map_chars]. now rewrite E, IH.
Qed.

Lemma upper_hex_strip : forall s,
  all_chars is_upper_hex s = true -> strip_leading_0x s = s.
Proof.
  intros [| c1 [| c2 s]] H; [reflexivity | |].
  { destruct c1 as [[] [] [] [] [] [] [] []]; reflexivity. }
  cbn [all_chars] in H. apply andb_prop in H as [_ H']. apply andb_prop in H' as [H2 _].
  destruct (upper_hex_fixed _ H2) as (_ & _ & E).
  unfold strip_leading_0x.
  destruct c1 as [[] [] [] [] [] [] [] []]; try reflexivity. now rewrite E.
Qed.

Lemma truthy_spec : forall s, Js.truthy s = true <-> s <> "".
Proof.
  intros s. unfold Js.truthy. destruct (String.eqb_spec s ""); simpl; split; intros; congruence.
Qed.

Lemma length_append : forall a b, String.length (a +++ b) = (String.length a + String.length b)%nat.
Proof. intros a b. induction a; simpl; auto. Qed.

Lemma length_repeat_char : forall c n, String.length (Js.repeat_char c n) = n.
Proof. intros c n. induction n; simpl; auto. Qed.

Lemma padStart_long : forall n c s, (n <= String.length s)%nat -> Js.padStart n c s = s.
Proof.
  intros n c s H. unfold Js.padStart.
  replace (n - String.length s)%nat with 0%nat by lia. reflexivity.
Qed.

Lemma padStart_length : forall n c s, (n <= String.length (Js.padStart n c s))%nat.
Proof.
  intros n c s. unfold Js.padStart. rewrite length_append, length_repeat_char. lia.
Qed.

(** What [normalizeCode] returns: at least four characters, all of them
    upper-case hex digits. *)
Lemma normalized_code_shape : forall input code,
  normalizeCode input = Some code ->
  (4 <= String.length code)%nat /\ all_chars is_upper_hex code = true.
Proof.
  intros [input |] code; [| discriminate]. unfold normalizeCode.
  destruct (Js.truthy input); cbn [negb]; [| discriminate].
  destruct (Js.truthy _); cbn [negb]; [| discriminate].
  intros H. injection H as <-. split; [apply padStart_length |].
  unfold Js.padStart. rewrite all_chars_app, toUpperCase_filter_hex.
  rewrite all_chars_repeat by reflexivity. reflexivity.
Qed.

Lemma normalizeCode_fixed : forall code,
  (4 <= String.length code)%nat -> all_chars is_upper_hex code = true ->
  normalizeCode (Some code) = Some code.
Proof.
  intros code Hlen Hhex. unfold normalizeCode.
  assert (Hne : code <> "") by (intros ->; simpl in Hlen; lia).
  rewrite (proj2 (truthy_spec code) Hne). cbn [negb].
  rewrite upper_hex_strip, upper_hex_filter, upper_hex_upper by assumption.
  rewrite (proj2 (truthy_spec code) Hne). cbn [negb].
  now rewrite padStart_long.
Qed.

Lemma normalizeCode_0x : forall code,
  (4 <= String.length code)%nat -> all_chars is_upper_hex code = true ->
  normalizeCode (Some ("0x" +++ code)) = Some code.
Proof.
  intros code Hlen Hhex. unfold normalizeCode.
  assert (Hne : code <> "") by (intros ->; simpl in Hlen; lia).
  change (Js.truthy ("0x" +++ code)) with true. cbn [negb].
  change (strip_leading_0x ("0x" +++ code)) with code.
  rewrite upper_hex_filter, upper_hex_upper by assumption.
  rewrite (proj2 (truthy_spec code) Hne). cbn [negb].
  now rewrite padStart_long.
Qed.


(** ** Frame codec: payload extraction *)

Section TailPayload.

Variable bytes : list Z.

Let inside (r : Z) : Prop := 0 <= r < Js.len bytes.

Lemma get_is_true : forall i v, Js.get_is bytes i v = true -> Js.js_get bytes i = Some v.
Proof.
  intros i v H. unfold Js.get_is in H.
  destruct (Js.js_get bytes i) as [b |]; [| discriminate].
  apply Z.eqb_eq in H. now subst.
Qed.

(** What one round of the scan pushes. *)
Lemma tailScanStep_pushes : forall index,
  fst (tailScanStep bytes index) =
  if isTailMarker bytes index
  then [ {| cand_index := index;
            cand_length := Js.int_of (Js.js_get bytes (index + 1));
            cand_data := Js.slice bytes (index + 3) (Js.len bytes - 1) |} ]
  else [].
Proof.
  intros index. unfold tailScanStep, isTailMarker.
  destruct (Js.get_is bytes index 0); simpl; [| reflexivity].
  destruct (Js.get_is bytes (index + 2) 0); simpl; [| reflexivity].
  destruct (Js.js_get bytes (index + 1)) as [length |]; simpl; [| reflexivity].
  destruct (Z.eqb_spec (index + 3 + length) (Js.len bytes - 1)) as [E | E]; simpl.
  - rewrite E. reflexivity.
  - reflexivity.
Qed.

(** What one round of the scan reads. *)
Lemma tailScanStep_reads : forall index,
  incl (snd (tailScanStep bytes index)) [index; index + 2; index + 1].
Proof.
  intros index. unfold tailScanStep.
  destruct (Js.get_is bytes index 0); simpl.
  2: { intros r [<- | []]; simpl; auto. }
  destruct (Js.get_is bytes (index + 2) 0); simpl.
  2: { intros r [<- | [<- | []]]; simpl; auto. }
  destruct (Js.js_get bytes (index + 1)) as [length |]; simpl.
  2: { apply incl_refl. }
  destruct (Z.eqb_spec (index + 3 + length) (Js.len bytes - 1)); simpl; apply incl_refl.
Qed.

Lemma tailScan_pushes : forall minIndex steps,
  map cand_index (fst (tailScan bytes minIndex steps)) =
  filter (isTailMarker bytes) (descending minIndex steps).
Proof.
  intros minIndex steps. induction steps as [| k IH]; [reflexivity |].
  cbn [tailScan descending fst filter]. rewrite map_app, IH, tailScanStep_pushes.
  destruct (isTailMarker bytes (minIndex + Z.of_nat k)); reflexivity.
Qed.

Lemma tailScan_candidates : forall minIndex steps c,
  In c (fst (tailScan bytes minIndex steps)) ->
  cand_length c = Js.int_of (Js.js_get bytes (cand_index c + 1)) /\
  cand_data c = Js.slice bytes (cand_index c + 3) (Js.len bytes - 1).
Proof.
  intros minIndex steps. induction steps as [| k IH]; intros c Hc; [destruct Hc |].
  cbn [tailScan fst] in Hc. apply in_app_or in Hc as [Hc | Hc]; [| now apply IH].
  rewrite tailScanStep_pushes in Hc.
  destruct (isTailMarker bytes (minIndex + Z.of_nat k)); [| destruct Hc].
  destruct Hc as [<- | []]. split; reflexivity.
Qed.

Lemma tailScan_reads : forall minIndex steps,
  0 <= minIndex -> minIndex + Z.of_nat steps + 2 <= Js.len bytes ->
  Forall inside (snd (tailScan bytes minIndex steps)).
Proof.
  intros minIndex steps Hmin. induction steps as [| k IH]; intros Hmax.
  - constructor.
  - cbn [tailScan snd]. apply Forall_app. split.
    + apply Forall_forall. intros r Hr.
      apply tailScanStep_reads in Hr. unfold inside.
      simpl in Hr. lia.
    + apply IH. lia.
Qed.

Lemma extractTailPayload_short : Js.len bytes < 6 -> extractTailPayload bytes = None.
Proof.
  intros H. unfold extractTailPayload, extractTailPayload_traced.
  destruct (Z.ltb_spec (Js.len bytes) 6); [reflexivity | lia].
Qed.

Lemma extractTailPayload_long :
  6 <= Js.len bytes ->
  extractTailPayload bytes =
  match tailCandidates bytes with
  | [] => None
  | first :: others =>
      Some (decodeAt bytes first (1 <? Js.len (tailCandidates bytes)))
  end.
Proof.
  intros H. unfold extractTailPayload, extractTailPayload_traced.
  destruct (Z.ltb_spec (Js.len bytes) 6); [lia |].
  unfold tailCandidates, tailWindow. cbv zeta.
  set (minIndex := Z.max 0 (Js.len bytes - 96)).
  set (steps := Z.to_nat (Js.len bytes - 4 - minIndex + 1)).
  rewrite <- tailScan_pushes.
  pose proof (tailScan_candidates minIndex steps) as Hc.
  destruct (fst (tailScan bytes minIndex steps)) as [| selected others]; [reflexivity |].
  destruct (Hc selected (or_introl eq_refl)) as [Hl Hd].
  cbn [map fst]. unfold decodeAt. rewrite Hl, Hd.
  unfold Js.len. simpl List.length. rewrite length_map. reflexivity.
Qed.

Lemma tailCandidates_spec : forall i,
  In i (tailCandidates bytes) <->
  (Z.max 0 (Js.len bytes - 96) <= i <= Js.len bytes - 4 /\ isTailMarker bytes i = true).
Proof.
  intros i. unfold tailCandidates, tailWindow. cbv zeta.
  rewrite filter_In, In_descending.
  pose proof (len_nonneg _ bytes).
  split; intros [Hw Hm]; (split; [lia | exact Hm]).
Qed.

Lemma extractTailPayload_reads_inside :
  Forall inside (snd (extractTailPayload_traced bytes)).
Proof.
  unfold extractTailPayload_traced.
  destruct (Z.ltb_spec (Js.len bytes) 6); [constructor |].
  cbv zeta.
  set (minIndex := Z.max 0 (Js.len bytes - 96)).
  set (steps := Z.to_nat (Js.len bytes - 4 - minIndex + 1)).
  assert (Forall inside (snd (tailScan bytes minIndex steps))) as Hr.
  { apply tailScan_reads; subst steps minIndex; lia. }
  destruct (fst (tailScan bytes minIndex steps)); exact Hr.
Qed.

End TailPayload.

(** C3, as stated, fails on a short frame: in [00 01 00 07 09] the scan the
    claim describes (from offset 1 down to offset 0) meets the marker at 0,
    whose payload ends at offset 4 = length - 1, and yet no payload is
    selected. *)
Lemma extractTailPayload_short_frame_has_candidate :
  tailCandidates [0; 1; 0; 7; 9] = [0] /\ extractTailPayload [0; 1; 0; 7; 9] = None.
Proof. split; reflexivity. Qed.

(** C3 (amended): on a sequence of at least 6 bytes, the candidates are the
    offsets from length-4 down to max(0, length-96) that carry a marker
    [00 <len> 00] whose payload end (offset + 3 + len) is length-1; the decode
    is null when there is none, and otherwise selects the first one met going
    backward, which is the greatest offset, with [ambiguous] set exactly when
    there is more than one candidate. *)
Theorem extractTailPayload_selects_nearest_tail : forall bytes,
  6 <= Js.len bytes ->
  (forall i, In i (tailCandidates bytes) <->
             (Z.max 0 (Js.len bytes - 96) <= i <= Js.len bytes - 4
              /\ isTailMarker bytes i = true)) /\
  match tailCandidates bytes with
  | [] => extractTailPayload bytes = None
  | first :: others =>
      (forall j, In j others -> j < first) /\
      (forall j, In j (tailCandidates bytes) -> j <= first) /\
      extractTailPayload bytes =
        Some (decodeAt bytes first (negb (Nat.eqb (List.length others) 0)))
  end.
Proof.
  intros bytes Hlen. split; [apply tailCandidates_spec |].
  rewrite (extractTailPayload_long bytes Hlen).
  destruct (tailCandidates bytes) as [| first others] eqn:E; [reflexivity |].
  unfold tailCandidates, tailWindow in E. cbv zeta in E.
  apply filter_descending_head in E as (_ & _ & Hlt & _).
  split; [exact Hlt |]. split.
  - intros j [<- | Hj]; [lia |]. apply Hlt in Hj. lia.
  - do 2 f_equal. unfold Js.len.
    destruct others as [| second others]; [reflexivity |].
    simpl List.length. simpl negb.
    destruct (Z.ltb_spec 1 (Z.of_nat (S (S (List.length others))))); [reflexivity | lia].
Qed.

Lemma extractTailPayload_selects_nearest_tail_witness :
  6 <= Js.len [5; 5; 0; 2; 0; 0; 0; 9] /\
  tailCandidates [5; 5; 0; 2; 0; 0; 0; 9] = [4; 2] /\
  extractTailPayload [5; 5; 0; 2; 0; 0; 0; 9] =
    Some {| markerIndex := 4; dataLength := 0; data := []; ambiguous := true |}.
Proof.
  assert (6 <= Js.len [5; 5; 0; 2; 0; 0; 0; 9]) as H by (vm_compute; discriminate).
  split; [exact H |]. split; [reflexivity |].
  destruct (extractTailPayload_selects_nearest_tail _ H) as [_ P].
  change (tailCandidates [5; 5; 0; 2; 0; 0; 0; 9]) with [4; 2] in P.
  destruct P as (_ & _ & P). exact P.
Defined.

(** C9: a sequence shorter than 6 bytes decodes to null, even the 5-byte
    [00 01 00 xx cs] whose marker at offset 0 satisfies the length
    constraint; and on every sequence each position the scan reads lies
    inside the sequence. *)
Theorem extractTailPayload_short_is_null_and_reads_inside :
  (forall bytes, Js.len bytes < 6 -> extractTailPayload bytes = None) /\
  (forall xx cs, isTailMarker [0; 1; 0; xx; cs] 0 = true
                 /\ extractTailPayload [0; 1; 0; xx; cs] = None) /\
  (forall bytes,
     Forall (fun r => 0 <= r < Js.len bytes) (snd (extractTailPayload_traced bytes))).
Proof.
  split; [exact extractTailPayload_short |].
  split; [intros xx cs; split; reflexivity |].
  exact extractTailPayload_reads_inside.
Qed.

(** ** Maps *)

Lemma JsMap_get_set : forall (V : Type) (m : JsMap.t V) k v k',
  JsMap.get (JsMap.set m k v) k' = if String.eqb k k' then Some v else JsMap.get m k'.
Proof.
  intros V m k v k'. induction m as [| [k0 v0] rest IH]; simpl.
  - reflexivity.
  - destruct (String.eqb_spec k0 k) as [-> | Hne]; simpl.
    + destruct (String.eqb k k'); reflexivity.
    + rewrite IH. destruct (String.eqb_spec k0 k') as [-> | Hne'].
      * destruct (String.eqb_spec k k'); [congruence | reflexivity].
      * reflexivity.
Qed.

(** ** Checksum *)

Lemma mod256_eq_iff : forall a b, a mod 256 = b mod 256 <-> (a - b) mod 256 = 0.
Proof.
  intros a b. split; intros H.
  - rewrite Zminus_mod, H, Z.sub_diag. reflexivity.
  - replace a with (b + ((a - b) / 256) * 256).
    + apply Z_mod_plus_full.
    + pose proof (Z.div_mod (a - b) 256). lia.
Qed.

Lemma checksumLoop_sum : forall steps bytes index sum,
  0 <= index -> is_byte sum ->
  (Z.to_nat index + steps <= List.length bytes)%nat ->
  checksumLoop bytes index steps sum =
  (sum + sumZ (firstn steps (skipn (Z.to_nat index) bytes))) mod 256.
Proof.
  induction steps as [| k IH]; intros bytes index sum Hi Hs Hlen.
  - simpl. rewrite Z.add_0_r. symmetry. apply Z.mod_small. exact Hs.
  - cbn [checksumLoop].
    assert (exists b, Js.js_get bytes index = Some b) as [b Hb].
    { apply js_get_inside. unfold Js.len. lia. }
    rewrite Hb. cbn [checksumStep]. rewrite band_0xff.
    rewrite IH.
    + assert (skipn (Z.to_nat index) bytes = b :: skipn (Z.to_nat (index + 1)) bytes) as Hskip.
      { unfold Js.js_get in Hb. destruct (Z.ltb_spec index 0); [lia |].
        replace (Z.to_nat (index + 1)) with (S (Z.to_nat index)) by lia.
        clear - Hb. revert Hb. generalize (Z.to_nat index) as n.
        induction bytes as [| x rest IHb]; intros [| n] H; try discriminate.
        - injection H as ->. reflexivity.
        - simpl in H. apply IHb in H. exact H. }
      rewrite Hskip, firstn_cons.
      change (sumZ (b :: ?l)) with (b + sumZ l).
      rewrite Zplus_mod_idemp_l, Z.add_assoc. reflexivity.
    + lia.
    + pose proof (Z.mod_pos_bound (sum + b) 256). unfold is_byte. lia.
    + lia.
Qed.

(** The checksum rule: the sum of the bytes at offsets 8 through length-2,
    modulo 256. *)
Lemma computePdfChecksum_sum : forall bytes,
  10 <= Js.len bytes ->
  computePdfChecksum bytes = sumZ (checksumRegion bytes) mod 256.
Proof.
  intros bytes H. unfold computePdfChecksum, checksumRegion.
  destruct (Z.ltb_spec (Js.len bytes) 10); [lia |].
  unfold Js.len in *.
  rewrite checksumLoop_sum; try (unfold is_byte; lia).
  rewrite Z.add_0_l. change (Z.to_nat 8) with 8%nat.
  replace (Z.to_nat (Z.of_nat (List.length bytes) - 2 - 8 + 1))
    with (List.length bytes - 9)%nat by lia.
  reflexivity.
Qed.

Lemma computePdfChecksum_short : forall bytes,
  Js.len bytes < 10 -> computePdfChecksum bytes = 0.
Proof.
  intros bytes H. unfold computePdfChecksum.
  destruct (Z.ltb_spec (Js.len bytes) 10); [reflexivity | lia].
Qed.

(** ** Numeric specs *)

Lemma numeric_index_table : forall code valueIndex checksumIndex,
  JsMap.get NUMERIC_VALUE_INDEX_BY_SET code = Some (valueIndex, checksumIndex) ->
  In code NUMERIC_SET_CODES /\ valueIndex = 38 /\ checksumIndex = 39.
Proof.
  intros code valueIndex checksumIndex H.
  unfold NUMERIC_VALUE_INDEX_BY_SET in H. cbn [JsMap.get] in H.
  unfold NUMERIC_SET_CODES.
  repeat match type of H with
  | (if String.eqb ?k code then _ else _) = _ =>
      destruct (String.eqb_spec k code) as [<- | _];
      [ injection H as <- <-; simpl; intuition auto | ]
  end.
  discriminate.
Qed.

Lemma deriveNumericSpec_sound : forall bySetCode specs setCode specs',
  (forall code spec, JsMap.get specs code = Some spec ->
                     exists template, derivedSpec code spec template) ->
  deriveNumericSpec bySetCode specs setCode = Ok specs' ->
  forall code spec, JsMap.get specs' code = Some spec ->
                    exists template, derivedSpec code spec template.
Proof.
  intros bySetCode specs setCode specs' Hinv H code spec Hget.
  unfold deriveNumericSpec in H.
  destruct (rows_of bySetCode setCode) as [| baseRow others].
  { injection H as <-. eauto. }
  destruct (JsMap.get NUMERIC_VALUE_INDEX_BY_SET setCode) as [[valueIndex checksumIndex] |] eqn:Htab;
    [| discriminate].
  destruct (parseHexBytes (row_requestHex baseRow)) as [txBytes |] eqn:Hparse;
    [| discriminate].
  cbn [bind] in H.
  destruct ((Js.len txBytes <=? valueIndex) || (Js.len txBytes <=? checksumIndex)) eqn:Hbounds;
    [discriminate |].
  destruct (Z.eqb_spec checksumIndex (Js.len txBytes - 1)) as [Hlast | Hlast];
    [| discriminate].
  cbn [negb] in H. injection H as <-.
  rewrite JsMap_get_set in Hget.
  destruct (String.eqb_spec setCode code) as [<- | Hne]; [| eauto].
  injection Hget as <-.
  apply orb_false_iff in Hbounds as [Hb1 Hb2].
  apply Z.leb_gt in Hb1.
  exists txBytes. unfold derivedSpec. cbn. auto.
Qed.

Lemma deriveNumericLoop_sound : forall bySetCode codes specs specs',
  (forall code spec, JsMap.get specs code = Some spec ->
                     exists template, derivedSpec code spec template) ->
  deriveNumericLoop bySetCode codes specs = Ok specs' ->
  forall code spec, JsMap.get specs' code = Some spec ->
                    exists template, derivedSpec code spec template.
Proof.
  intros bySetCode codes. induction codes as [| setCode rest IH]; intros specs specs' Hinv H.
  - injection H as <-. exact Hinv.
  - cbn [deriveNumericLoop] in H.
    destruct (deriveNumericSpec bySetCode specs setCode) as [specs1 |] eqn:Hstep;
      [| discriminate].
    cbn [bind] in H. eapply IH; [| exact H].
    eapply deriveNumericSpec_sound; eassumption.
Qed.

(** Every spec of [deriveNumericSpecs] is for one of the eight codes, with
    the value at offset 38 and the checksum at offset 39 of a 40-byte
    template. *)
Lemma deriveNumericSpecs_sound : forall bySetCode specs code spec,
  deriveNumericSpecs bySetCode = Ok specs ->
  JsMap.get specs code = Some spec ->
  exists template,
    derivedSpec code spec template /\ In code NUMERIC_SET_CODES /\
    spec_valueIndex spec = 38 /\ spec_checksumIndex spec = 39 /\
    List.length template = 40%nat.
Proof.
  intros bySetCode specs code spec H Hget.
  destruct (deriveNumericLoop_sound bySetCode NUMERIC_SET_CODES [] specs
              (fun c s (E : JsMap.get [] c = Some s) =>
                 match E in (_ = o) return (match o with None => True | Some _ => _ end)
                 with eq_refl => I end)
              H code spec Hget) as [template Hd].
  exists template. pose proof Hd as (_ & Htab & _ & _ & Hlast).
  apply numeric_index_table in Htab as (Hin & Hv & Hc).
  split; [exact Hd |]. split; [exact Hin |]. split; [exact Hv |]. split; [exact Hc |].
  unfold Js.len in Hlast. lia.
Qed.

(** The formula table: C203 and C21F have a base, the six other numeric
    codes have none. *)
Lemma formula_bases :
  map (JsMap.get FORMULA_CHECKSUM_BASE) NUMERIC_SET_CODES =
  [Some 0x5B; Some 0x77; None; None; None; None; None; None].
Proof. reflexivity. Qed.

(** Reduces the array writes on a list given by its elements. *)
Ltac compute_writes :=
  repeat match goal with
  | |- context [Js.js_set ?l ?i ?x] =>
      is_var x;
      let r := eval cbv in (Js.js_set l i x) in
      change (Js.js_set l i x) with r
  end.

(** C1, as stated, fails for a code with a formula: on the drifted volume
    template the request synthesized for 50 ends in 0x8D = 0x5B + 50 while the
    checksum of that request is 0x32. *)
Lemma generated_checksum_drifts_from_formula :
  exists specs spec caseItem,
    deriveNumericSpecs (snd (indexRows [driftedVolumeRow])) = Ok specs /\
    JsMap.get specs "C203" = Some spec /\
    buildGeneratedNumericCase spec 50 generated = Ok caseItem /\
    lastByte (case_txBytes caseItem) = Some 0x8D /\
    computePdfChecksum (case_txBytes caseItem) = 0x32.
Proof.
  do 3 eexists. split; [vm_compute; reflexivity |].
  split; [reflexivity |]. split; [vm_compute; reflexivity |].
  split; reflexivity.
Qed.

(** C1 (amended): for each of the eight numeric set codes and each value
    0..100, the request synthesized from the code's 40-byte baseline template
    carries the value at offset 38, and its last byte is [computePdfChecksum]
    of the request (the sum of the bytes at offsets 8 through length-2, modulo
    256) when the code has no formula; when it has one (C203 base 0x5B, C21F
    base 0x77) the last byte is [(formulaBase + value) & 0xFF], and it equals
    [computePdfChecksum] of the request exactly when the template's bytes at
    offsets 8..37 sum to the formula base modulo 256.  For C203 and 50 the
    last byte is 0x8D. *)
Theorem generated_checksum : forall bySetCode specs code spec value source reply,
  deriveNumericSpecs bySetCode = Ok specs ->
  JsMap.get specs code = Some spec ->
  0 <= value <= 100 ->
  parseOptionalHex (row_replyHex (spec_baseRow spec)) = Ok reply ->
  exists template caseItem,
    parseHexBytes (row_requestHex (spec_baseRow spec)) = Ok template /\
    buildGeneratedNumericCase spec value source = Ok caseItem /\
    In code NUMERIC_SET_CODES /\
    Js.len (case_txBytes caseItem) = 40 /\
    Js.js_get (case_txBytes caseItem) 38 = Some value /\
    computePdfChecksum (case_txBytes caseItem)
      = sumZ (checksumRegion (case_txBytes caseItem)) mod 256 /\
    match JsMap.get FORMULA_CHECKSUM_BASE code with
    | None => lastByte (case_txBytes caseItem) = Some (computePdfChecksum (case_txBytes caseItem))
    | Some formulaBase =>
        lastByte (case_txBytes caseItem) = Some (Js.band (formulaBase + value) 0xFF) /\
        (lastByte (case_txBytes caseItem) = Some (computePdfChecksum (case_txBytes caseItem))
         <-> (sumZ (firstn 30 (skipn 8 template)) - formulaBase) mod 256 = 0)
    end /\
    (code = "C203" -> value = 50 -> lastByte (case_txBytes caseItem) = Some 0x8D).
Proof.
  intros bySetCode specs code spec value source reply Hderive Hget Hvalue Hreply.
  destruct (deriveNumericSpecs_sound _ _ _ _ Hderive Hget)
    as (template & Hds & Hin & Hvi & Hci & Hlen).
  destruct Hds as (Hcode & _ & Hparse & _ & _).
  exists template.
  unfold buildGeneratedNumericCase.
  rewrite Hparse, Hvi, Hci, Hcode. cbn [bind]. rewrite Hreply. cbn [bind].
  eexists. split; [reflexivity |]. split; [reflexivity |]. split; [exact Hin |].
  cbn [case_txBytes].
  rewrite (band_0xff_small value) by (unfold is_byte; lia).
  do 40 (destruct template as [| ? template]; [discriminate Hlen |]).
  destruct template; [| discriminate Hlen].
  clear Hparse Hlen.
  compute_writes.
  destruct (JsMap.get FORMULA_CHECKSUM_BASE code) as [formulaBase |] eqn:Hformula.
  - (* a formula gives the checksum byte *)
    pose proof (band_0xff (formulaBase + value)) as Hcs.
    remember (Js.band (formulaBase + value) 255) as cs eqn:Ecs.
    compute_writes.
    split; [reflexivity |]. split; [reflexivity |].
    split; [apply computePdfChecksum_sum; vm_compute; discriminate |].
    split; [split; [reflexivity |] |].
    + change (lastByte ?l) with (Some cs).
      rewrite computePdfChecksum_sum by (vm_compute; discriminate).
      cbv [checksumRegion List.length Nat.sub firstn skipn sumZ fold_right].
      rewrite Hcs.
      split; intros H.
      * injection H as H. symmetry in H. apply mod256_eq_iff in H.
        rewrite <- H. f_equal. lia.
      * f_equal. symmetry. apply mod256_eq_iff.
        rewrite <- H. f_equal. lia.
    + intros -> ->. vm_compute in Hformula. injection Hformula as <-.
      subst cs. reflexivity.
  - (* no formula: the generic rule *)
    match goal with
    | |- context [Js.js_set ?l ?i (computePdfChecksum ?w)] =>
        remember (computePdfChecksum w) as cs eqn:Ecs
    end.
    compute_writes.
    split; [reflexivity |]. split; [reflexivity |].
    split; [apply computePdfChecksum_sum; vm_compute; discriminate |].
    split.
    + change (lastByte ?l) with (Some cs). f_equal.
      rewrite Ecs. rewrite !computePdfChecksum_sum by (vm_compute; discriminate).
      reflexivity.
    + intros -> _. vm_compute in Hformula. discriminate Hformula.
Qed.

Lemma generated_checksum_witness :
  exists specs spec caseItem,
    deriveNumericSpecs (snd (indexRows [contrastRow])) = Ok specs /\
    JsMap.get specs "C217" = Some spec /\
    buildGeneratedNumericCase spec 7 generated = Ok caseItem /\
    lastByte (case_txBytes caseItem) = Some (computePdfChecksum (case_txBytes caseItem)).
Proof.
  eexists. eexists.
  match goal with
  | |- exists c, ?D = Ok ?s /\ _ =>
      assert (H1 : D = Ok s) by (vm_compute; reflexivity)
  end.
  match goal with
  | |- exists c, _ /\ ?G = Some ?sp /\ _ =>
      assert (H2 : G = Some sp) by reflexivity
  end.
  destruct (generated_checksum _ _ _ _ 7 generated None H1 H2
              ltac:(lia) eq_refl)
    as (template & caseItem & _ & Hbuild & _ & _ & _ & _ & Hlast & _).
  exists caseItem.
  split; [exact H1 |]. split; [exact H2 |]. split; [exact Hbuild | exact Hlast].
Defined.

(** ** Comparison of frames *)

Lemma skipn_js_get : forall (bytes : list Z) index b,
  Js.js_get bytes index = Some b ->
  skipn (Z.to_nat index) bytes = b :: skipn (Z.to_nat (index + 1)) bytes.
Proof.
  intros bytes index b Hb. unfold Js.js_get in Hb.
  destruct (Z.ltb_spec index 0); [discriminate |].
  replace (Z.to_nat (index + 1)) with (S (Z.to_nat index)) by lia.
  revert Hb. generalize (Z.to_nat index) as n. clear.
  induction bytes as [| x rest IH]; intros [| n] H; try discriminate.
  - injection H as ->. reflexivity.
  - simpl in H. apply IH in H. exact H.
Qed.

Lemma opt_Z_eqb_eq : forall a b, opt_Z_eqb a b = true <-> a = b.
Proof.
  intros [x |] [y |]; simpl; split; intros H; try discriminate; try reflexivity.
  - apply Z.eqb_eq in H. now subst.
  - injection H as ->. apply Z.eqb_refl.
Qed.

Lemma equalLoop_spec : forall steps a b index,
  0 <= index ->
  (Z.to_nat index + steps <= List.length a)%nat ->
  (Z.to_nat index + steps <= List.length b)%nat ->
  (equalLoop a b index steps = true <->
   firstn steps (skipn (Z.to_nat index) a) = firstn steps (skipn (Z.to_nat index) b)).
Proof.
  induction steps as [| k IH]; intros a b index Hi Ha Hb.
  - simpl. split; reflexivity.
  - cbn [equalLoop].
    destruct (js_get_inside _ a index) as [x Hx]; [unfold Js.len; lia |].
    destruct (js_get_inside _ b index) as [y Hy]; [unfold Js.len; lia |].
    rewrite (skipn_js_get _ _ _ Hx), (skipn_js_get _ _ _ Hy), !firstn_cons.
    rewrite Hx, Hy. cbn [opt_Z_eqb].
    destruct (Z.eqb_spec x y) as [-> | Hne]; cbn [negb].
    + rewrite IH by lia. split; intros H; [now rewrite H | now injection H].
    + split; intros H; [discriminate | injection H as H _; contradiction].
Qed.

Lemma equalBytes_spec : forall a b, equalBytes a b = true <-> a = b.
Proof.
  intros a b. unfold equalBytes, Js.len.
  destruct (Z.eqb_spec (Z.of_nat (List.length a)) (Z.of_nat (List.length b))) as [E | E];
    cbn [negb].
  - rewrite Nat2Z.id. rewrite equalLoop_spec by (simpl; lia).
    change (Z.to_nat 0) with 0%nat. cbn [skipn].
    rewrite firstn_all.
    replace (List.length a) with (List.length b) by lia. rewrite firstn_all.
    reflexivity.
  - split; [discriminate |]. intros ->. contradiction.
Qed.

Lemma equalIgnoringChecksum_spec : forall a b,
  equalIgnoringChecksum a b = true <-> sameExceptLast a b.
Proof.
  intros a b. unfold equalIgnoringChecksum, sameExceptLast, Js.len.
  rewrite !removelast_firstn_len.
  destruct (Z.eqb_spec (Z.of_nat (List.length a)) (Z.of_nat (List.length b))) as [E | E];
    cbn [negb orb].
  - destruct (Z.eqb_spec (Z.of_nat (List.length a)) 0) as [E0 | E0].
    + split; [discriminate |]. intros (_ & Hne & _).
      destruct a; [contradiction | simpl in E0; lia].
    + rewrite equalLoop_spec by (simpl; lia).
      change (Z.to_nat 0) with 0%nat. cbn [skipn].
      replace (Z.to_nat (Z.of_nat (List.length a) - 1)) with (Nat.pred (List.length a)) by lia.
      replace (Nat.pred (List.length b)) with (Nat.pred (List.length a)) by lia.
      split.
      * intros H. split; [lia |]. split; [| exact H].
        intros ->. simpl in E0. lia.
      * intros (_ & _ & H). exact H.
  - split; [discriminate |]. intros (Hlen & _). lia.
Qed.

Lemma sameExceptLast_final_byte : forall body c c',
  sameExceptLast (body ++ [c]) (body ++ [c']).
Proof.
  intros body c c'. unfold sameExceptLast.
  rewrite !removelast_last, !length_app. simpl.
  split; [reflexivity |]. split; [| reflexivity].
  destruct body; discriminate.
Qed.

(** ** Reply code and status word *)

Lemma replyCodeScan_total : forall bytes steps index,
  0 <= index -> index + Z.of_nat steps + 2 <= Js.len bytes ->
  exists code, replyCodeScan bytes index steps = Ok code.
Proof.
  intros bytes steps. induction steps as [| k IH]; intros index Hi Hmax.
  - simpl. eauto.
  - cbn [replyCodeScan].
    destruct (Js.get_is bytes index 208); cbn [negb].
    + destruct (js_get_inside _ bytes (index + 1)) as [low Hlow]; [lia |].
      destruct (js_get_inside _ bytes (index + 2)) as [high Hhigh]; [lia |].
      rewrite Hlow, Hhigh. cbn. eauto.
    + apply IH; lia.
Qed.

(** [decodeReplyCode] never throws. *)
Lemma decodeReplyCode_total : forall bytes, exists code, decodeReplyCode bytes = Ok code.
Proof.
  intros bytes. unfold decodeReplyCode.
  destruct (Z_le_gt_dec 8 (Z.min (Js.len bytes - 3) 40)) as [H | H].
  - apply replyCodeScan_total; lia.
  - replace (Z.to_nat (Z.min (Js.len bytes - 3) 40 - 8 + 1)) with 0%nat by lia.
    simpl. eauto.
Qed.

Lemma decodeReply_total : forall bytes,
  decodeReply bytes = Ok {| replyCode := replyCodeOf bytes;
                            replyCodeIndex :=
                              match decodeReplyCode bytes with
                              | Ok code => rc_index code
                              | Throw _ => None
                              end;
                            payload := extractTailPayload bytes |}.
Proof.
  intros bytes. unfold decodeReply, replyCodeOf.
  destruct (decodeReplyCode_total bytes) as [code ->]. reflexivity.
Qed.

Lemma bytesBelow_In : forall n b, 0 <= b < Z.of_nat n -> In b (bytesBelow n).
Proof.
  induction n as [| k IH]; intros b Hb; [lia |].
  cbn [bytesBelow]. destruct (Z.eq_dec b (Z.of_nat k)) as [-> | Hne].
  - left. reflexivity.
  - right. apply IH. lia.
Qed.

(** On two bytes, [d0 | (d1 << 8)] is 1 only for the word [01 00]. *)
Lemma status_word_one : forall d0 d1,
  is_byte d0 -> is_byte d1 ->
  (Js.bor d0 (Js.shl d1 8) =? 1) = (d0 =? 1) && (d1 =? 0).
Proof.
  assert (forallb (fun d1 => forallb (fun d0 =>
            Bool.eqb (Js.bor d0 (Js.shl d1 8) =? 1) ((d0 =? 1) && (d1 =? 0)))
            (bytesBelow 256)) (bytesBelow 256) = true) as H by (vm_compute; reflexivity).
  intros d0 d1 H0 H1.
  rewrite forallb_forall in H. specialize (H d1 (bytesBelow_In 256 d1 H1)).
  rewrite forallb_forall in H. specialize (H d0 (bytesBelow_In 256 d0 H0)).
  apply Bool.eqb_prop in H. exact H.
Qed.

Lemma Forall_firstn : forall (A : Type) (P : A -> Prop) n (l : list A),
  Forall P l -> Forall P (firstn n l).
Proof.
  intros A P n. induction n as [| k IH]; intros l H; [constructor |].
  destruct H; simpl; constructor; auto.
Qed.

Lemma Forall_skipn : forall (A : Type) (P : A -> Prop) n (l : list A),
  Forall P l -> Forall P (skipn n l).
Proof.
  intros A P n. induction n as [| k IH]; intros l H; [exact H |].
  destruct H; simpl; [constructor | auto].
Qed.

Lemma Forall_slice : forall (A : Type) (P : A -> Prop) (l : list A) start stop,
  Forall P l -> Forall P (Js.slice l start stop).
Proof.
  intros. unfold Js.slice. apply Forall_firstn, Forall_skipn. assumption.
Qed.

Lemma extractTailPayload_data : forall bytes p,
  extractTailPayload bytes = Some p ->
  exists start stop, data p = Js.slice bytes start stop.
Proof.
  intros bytes p H.
  destruct (Z_lt_le_dec (Js.len bytes) 6) as [Hs | Hl].
  - rewrite extractTailPayload_short in H by assumption. discriminate.
  - rewrite extractTailPayload_long in H by assumption.
    destruct (tailCandidates bytes); [discriminate |].
    injection H as <-. unfold decodeAt. cbn [data]. eauto.
Qed.

(** On a frame of bytes, the status word of the decoded payload is 0x0001
    exactly when the payload starts with [01 00]. *)
Lemma parseAckStatus_success : forall rx decoded,
  Forall is_byte rx ->
  payload decoded = extractTailPayload rx ->
  (opt_Z_eqb (parseAckStatus (Some decoded)) (Some 1) = true <-> ackSuccess rx).
Proof.
  intros rx decoded Hbytes Hp. unfold parseAckStatus, ackSuccess. rewrite Hp.
  destruct (extractTailPayload rx) as [p |] eqn:Hext.
  2: { split; [discriminate |]. intros (p & rest & H & _). discriminate. }
  assert (Forall is_byte (data p)) as Hdata.
  { destruct (extractTailPayload_data _ _ Hext) as (start & stop & ->).
    apply Forall_slice. exact Hbytes. }
  destruct (data p) as [| d0 [| d1 rest]] eqn:Hd.
  - split; [discriminate |]. intros (q & r & H & Hq).
    injection H as <-. rewrite Hd in Hq. discriminate.
  - split; [discriminate |]. intros (q & r & H & Hq).
    injection H as <-. rewrite Hd in Hq. discriminate.
  - replace (Js.len (d0 :: d1 :: rest) <? 2) with false.
    2: { symmetry. apply Z.ltb_ge. rewrite !len_cons. pose proof (len_nonneg _ rest). lia. }
    change (Js.int_of (Js.js_get (d0 :: d1 :: rest) 0)) with d0.
    change (Js.int_of (Js.js_get (d0 :: d1 :: rest) 1)) with d1.
    cbn [opt_Z_eqb].
    inversion Hdata as [| ? ? H0 Hrest]; subst.
    inversion Hrest as [| ? ? H1 _]; subst.
    rewrite status_word_one by assumption.
    rewrite andb_true_iff, !Z.eqb_eq.
    split.
    + intros [-> ->]. exists p, rest. split; [reflexivity | exact Hd].
    + intros (q & r & H & Hq). injection H as <-. rewrite Hd in Hq.
      injection Hq as -> -> _. split; reflexivity.
Qed.

(** ** Outcome of a case *)

Lemma status_setOutcome : forall record status matchType meaning note,
  rec_status (setOutcome record status matchType meaning note) = status.
Proof. reflexivity. Qed.

Lemma matchType_setOutcome : forall record status matchType meaning note,
  rec_matchType (setOutcome record status matchType meaning note) = matchType.
Proof. reflexivity. Qed.

Lemma verifyGeneratedChecksum_wellFormed : forall caseItem,
  wellFormed caseItem -> exists check, verifyGeneratedChecksum caseItem = Ok check.
Proof.
  intros caseItem Hwf. unfold verifyGeneratedChecksum.
  destruct (case_generatedValue caseItem) as [generatedValue |] eqn:Hgen; [| eauto].
  destruct Hwf as [Hwf | Hwf]; [congruence |].
  destruct (js_get_inside _ (case_txBytes caseItem) (Js.len (case_txBytes caseItem) - 1))
    as [last Hlast].
  { unfold Js.len. destruct (case_txBytes caseItem); [contradiction | simpl List.length; lia]. }
  rewrite Hlast. cbn [upperHex2 bind].
  destruct (negb (opt_Z_eqb (Some (computePdfChecksum (case_txBytes caseItem))) (Some last)));
    cbn [bind];
    (destruct (match normalizeCode (case_setCode caseItem) with
               | Some code => JsMap.get FORMULA_CHECKSUM_BASE code
               | None => None
               end) as [formulaBase |]; [| eauto]);
    (destruct (negb (opt_Z_eqb (Some (Js.band (formulaBase + generatedValue) 255)) (Some last)));
     cbn [bind]; eauto).
Qed.

(** The exchange of [executeCase] when the socket answers with [rx]. *)
Lemma executeCase_reply : forall caseItem options w answer rest rx,
  wellFormed caseItem ->
  script w = Resolves answer :: rest -> rxBytes answer = Some rx ->
  exists check decoded,
    verifyGeneratedChecksum caseItem = Ok check /\
    replyCode decoded = replyCodeOf rx /\
    payload decoded = extractTailPayload rx /\
    executeCase caseItem options w =
      ({| script := rest; trace := trace w ++ [EvSend (case_txBytes caseItem)] |},
       Ok (classifyReply caseItem (opt_profile options)
             (resolvePolicy caseItem (opt_profile options))
             (warnings check) answer (Some decoded))).
Proof.
  intros caseItem options w answer rest rx Hwf Hscript Hrx.
  destruct (verifyGeneratedChecksum_wellFormed _ Hwf) as [check Hcheck].
  exists check.
  exists {| replyCode := replyCodeOf rx;
            replyCodeIndex := match decodeReplyCode rx with
                              | Ok code => rc_index code
                              | Throw _ => None
                              end;
            payload := extractTailPayload rx |}.
  split; [exact Hcheck |]. split; [reflexivity |]. split; [reflexivity |].
  unfold executeCase, sendAndAwaitReply.
  rewrite Hcheck, Hscript, Hrx, decodeReply_total. reflexivity.
Qed.

(** The classification of an accepted reply under [STRICT_EXACT]. *)
Lemma classifyReply_strict : forall caseItem profile policy notes answer decoded rx,
  validationMode policy = STRICT_EXACT ->
  rxBytes answer = Some rx ->
  replyCode decoded = replyCodeOf rx ->
  replyCodeAccepted caseItem policy rx = true ->
  let record := classifyReply caseItem profile policy notes answer (Some decoded) in
  let exact := match case_expectedReplyBytes caseItem with
               | Some expected => equalBytes expected rx
               | None => false
               end in
  let checksumDiff := match case_expectedReplyBytes caseItem with
                      | Some expected => equalIgnoringChecksum expected rx
                      | None => false
                      end in
  let ack := opt_Z_eqb (parseAckStatus (Some decoded)) (Some 1) in
  rec_status record =
    (if exact || checksumDiff || ack || is_none (case_expectedReplyBytes caseItem)
     then PASS else FAIL) /\
  rec_matchType record =
    (if exact then "EXACT" else if checksumDiff then "CHECKSUM_DIFF"
     else if ack then "ACK_SUCCESS"
     else if is_none (case_expectedReplyBytes caseItem) then "RX_WITHOUT_TEMPLATE"
     else "MISMATCH").
Proof.
  intros caseItem profile policy notes answer decoded rx Hmode Hrx Hcode Hacc.
  unfold replyCodeAccepted in Hacc. rewrite <- Hcode in Hacc.
  cbv zeta. unfold classifyReply. cbv zeta.
  rewrite Hmode, Hrx. cbn [ValidationMode_eqb].
  replace (negb (acceptAnyReplyCode policy)
           && negb (isReplyCodeAccepted (case_replyCode caseItem) (replyCode decoded)
                      (allowedReplyCodes policy))) with false.
  2: { symmetry. rewrite <- negb_orb, Hacc. reflexivity. }
  destruct (match case_expectedReplyBytes caseItem with
            | Some expected => equalBytes expected rx
            | None => false
            end); [split; reflexivity |].
  destruct (match case_expectedReplyBytes caseItem with
            | Some expected => equalIgnoringChecksum expected rx
            | None => false
            end); [split; reflexivity |].
  destruct (opt_Z_eqb (parseAckStatus (Some decoded)) (Some 1)); [split; reflexivity |].
  destruct (is_none (case_expectedReplyBytes caseItem)); split; reflexivity.
Qed.

(** C2: under [STRICT_EXACT], for a received reply whose reply code is
    accepted, the outcome is PASS exactly when the reply equals the expected
    template, or differs from it in the final byte alone, or the decoded
    payload starts with the status word 0x0001, or there is no template; it
    is FAIL otherwise.  A difference confined to the final byte still
    passes. *)
Theorem strict_exact_outcome : forall caseItem options w answer rest rx,
  wellFormed caseItem ->
  script w = Resolves answer :: rest -> rxBytes answer = Some rx -> Forall is_byte rx ->
  validationMode (resolvePolicy caseItem (opt_profile options)) = STRICT_EXACT ->
  replyCodeAccepted caseItem (resolvePolicy caseItem (opt_profile options)) rx = true ->
  exists record,
    executeCase caseItem options w =
      ({| script := rest; trace := trace w ++ [EvSend (case_txBytes caseItem)] |}, Ok record) /\
    (rec_status record = PASS <->
       (exists expected, case_expectedReplyBytes caseItem = Some expected
                         /\ (rx = expected \/ sameExceptLast expected rx))
       \/ ackSuccess rx
       \/ case_expectedReplyBytes caseItem = None) /\
    (rec_status record = PASS \/ rec_status record = FAIL) /\
    (forall body c c',
       case_expectedReplyBytes caseItem = Some (body ++ [c]) -> rx = body ++ [c'] ->
       rec_status record = PASS).
Proof.
  intros caseItem options w answer rest rx Hwf Hscript Hrx Hbytes Hmode Hacc.
  destruct (executeCase_reply caseItem options w answer rest rx Hwf Hscript Hrx)
    as (check & decoded & _ & Hcode & Hpayload & Hexec).
  eexists. split; [exact Hexec |].
  destruct (classifyReply_strict caseItem (opt_profile options) _ (warnings check)
              answer decoded rx Hmode Hrx Hcode Hacc) as [Hstatus _].
  cbv zeta in Hstatus.
  pose proof (parseAckStatus_success rx decoded Hbytes Hpayload) as Hack.
  assert (rec_status
            (classifyReply caseItem (opt_profile options)
               (resolvePolicy caseItem (opt_profile options)) (warnings check) answer
               (Some decoded)) = PASS <->
          (exists expected, case_expectedReplyBytes caseItem = Some expected
                            /\ (rx = expected \/ sameExceptLast expected rx))
          \/ ackSuccess rx \/ case_expectedReplyBytes caseItem = None) as Hiff.
  { rewrite Hstatus.
    destruct (case_expectedReplyBytes caseItem) as [expected |] eqn:Hexp.
    - cbn [is_none]. rewrite orb_false_r.
      destruct (equalBytes expected rx) eqn:Heq.
      { apply equalBytes_spec in Heq. subst rx. cbn [orb].
        split; [intros _ | reflexivity]. left. eauto. }
      destruct (equalIgnoringChecksum expected rx) eqn:Hdiff.
      { apply equalIgnoringChecksum_spec in Hdiff. cbn [orb].
        split; [intros _ | reflexivity]. left. eauto. }
      cbn [orb].
      destruct (opt_Z_eqb (parseAckStatus (Some decoded)) (Some 1)) eqn:Hopt.
      { split; [intros _ | reflexivity]. right. left. apply Hack. reflexivity. }
      split; [discriminate |].
      intros [(e & He & [Hsame | Hsame]) | [Hsucc | Hnone]].
      + injection He as <-. subst rx.
        assert (equalBytes expected expected = true) by (apply equalBytes_spec; reflexivity).
        congruence.
      + injection He as <-. apply equalIgnoringChecksum_spec in Hsame. congruence.
      + apply Hack in Hsucc. discriminate.
      + discriminate.
    - cbn [is_none]. rewrite orb_true_r. split; [intros _ | reflexivity].
      right. right. reflexivity. }
  split; [exact Hiff |]. split.
  - rewrite Hstatus.
    match goal with |- (if ?c then _ else _) = _ \/ _ => destruct c end; auto.
  - intros body c c' Hexp ->. apply Hiff. left. exists (body ++ [c]).
    split; [exact Hexp |]. right. apply sameExceptLast_final_byte.
Qed.

Lemma strict_exact_outcome_witness :
  exists record,
    executeCase strictCase (plainOptions single generic) (answering sampleReplyOtherChecksum)
      = ({| script := []; trace := [EvSend sampleRequest] |}, Ok record) /\
    rec_status record = PASS.
Proof.
  destruct (strict_exact_outcome strictCase (plainOptions single generic)
              (answering sampleReplyOtherChecksum)
              {| rxBytes := Some sampleReplyOtherChecksum; latencyMs := Some 5 |}
              [] sampleReplyOtherChecksum)
    as (record & Hexec & _ & _ & Hfinal).
  - left. reflexivity.
  - reflexivity.
  - reflexivity.
  - repeat constructor; discriminate.
  - reflexivity.
  - reflexivity.
  - exists record. split; [exact Hexec |].
    apply (Hfinal (removelast sampleReply) 0x11 0x99); reflexivity.
Defined.

(** ** Reply code mismatch *)

Lemma replyCodeScan_not_found : forall bytes steps index,
  (forall i, index <= i < index + Z.of_nat steps -> Js.js_get bytes i <> Some 0xD0) ->
  replyCodeScan bytes index steps = Ok {| rc_code := None; rc_index := None |}.
Proof.
  intros bytes steps. induction steps as [| k IH]; intros index Hno; [reflexivity |].
  cbn [replyCodeScan].
  destruct (Js.get_is bytes index 208) eqn:Hget.
  - exfalso. apply (Hno index); [lia |].
    unfold Js.get_is in Hget. destruct (Js.js_get bytes index) as [b |]; [| discriminate].
    apply Z.eqb_eq in Hget. now subst.
  - cbn [negb]. apply IH. intros i Hi. apply Hno. lia.
Qed.

Lemma decodeReplyCode_not_found : forall bytes,
  (forall i, 8 <= i <= Z.min (Js.len bytes - 3) 40 -> Js.js_get bytes i <> Some 0xD0) ->
  decodeReplyCode bytes = Ok {| rc_code := None; rc_index := None |}.
Proof.
  intros bytes Hno. unfold decodeReplyCode.
  apply replyCodeScan_not_found. intros i Hi. apply Hno. lia.
Qed.

Lemma isReplyCodeAccepted_not_found : forall expected allowed,
  acceptedCodes expected allowed <> [] ->
  isReplyCodeAccepted expected None allowed = false.
Proof.
  intros expected allowed Hne. unfold isReplyCodeAccepted.
  destruct (acceptedCodes expected allowed) as [| code others]; [contradiction |].
  rewrite len_cons.
  destruct (Z.eqb_spec (1 + Js.len others) 0) as [E | _]; [| reflexivity].
  pose proof (len_nonneg _ others). lia.
Qed.

(** The classification of a reply whose code is not accepted. *)
Lemma classifyReply_mismatch : forall caseItem profile policy notes answer decoded rx,
  validationMode policy <> EXPECTED_NO_REPLY ->
  rxBytes answer = Some rx ->
  acceptAnyReplyCode policy = false ->
  isReplyCodeAccepted (case_replyCode caseItem) (replyCode decoded)
    (allowedReplyCodes policy) = false ->
  let record := classifyReply caseItem profile policy notes answer (Some decoded) in
  rec_status record = FAIL /\ rec_matchType record = "REPLY_CODE_MISMATCH".
Proof.
  intros caseItem profile policy notes answer decoded rx Hmode Hrx Hany Hacc.
  cbv zeta. unfold classifyReply. cbv zeta.
  rewrite Hrx, Hany, Hacc.
  destruct (validationMode policy); try contradiction; split; reflexivity.
Qed.

(** C5, as stated, fails under [EXPECTED_NO_REPLY]: the sleep/wake query
    requires the reply code 0xC006 and does not accept any code, the reply
    carries no marker, and yet the case passes. *)
Lemma reply_code_unchecked_when_no_reply_expected :
  let policy := resolvePolicy sleepQueryCase generic in
  decodeReplyCode replyWithoutMarker = Ok {| rc_code := None; rc_index := None |} /\
  acceptAnyReplyCode policy = false /\
  acceptedCodes (case_replyCode sleepQueryCase) (allowedReplyCodes policy) = ["C006"] /\
  exists record,
    snd (executeCase sleepQueryCase (plainOptions suite generic) (answering replyWithoutMarker))
      = Ok record /\
    rec_status record = PASS /\ rec_matchType record = "EXPECTED_NO_REPLY_WITH_REPLY".
Proof.
  cbv zeta. split; [reflexivity |]. split; [reflexivity |]. split; [reflexivity |].
  eexists. split; [vm_compute; reflexivity |]. split; reflexivity.
Qed.

(** C5 (amended): when no marker byte 0xD0 stands at an offset in
    8..min(length-3, 40) of a received reply, [decodeReplyCode] returns
    not-found without throwing, and every executed case whose validation mode
    is not [EXPECTED_NO_REPLY] and whose policy requires an exact reply-code
    match (a non-empty accepted set, no accept-any flag) is classified FAIL
    with match type REPLY_CODE_MISMATCH. *)
Theorem missing_reply_code_is_mismatch : forall caseItem options w answer rest rx,
  wellFormed caseItem ->
  script w = Resolves answer :: rest -> rxBytes answer = Some rx ->
  (forall i, 8 <= i <= Z.min (Js.len rx - 3) 40 -> Js.js_get rx i <> Some 0xD0) ->
  decodeReplyCode rx = Ok {| rc_code := None; rc_index := None |} /\
  (let policy := resolvePolicy caseItem (opt_profile options) in
   validationMode policy <> EXPECTED_NO_REPLY ->
   acceptAnyReplyCode policy = false ->
   acceptedCodes (case_replyCode caseItem) (allowedReplyCodes policy) <> [] ->
   exists record,
     executeCase caseItem options w =
       ({| script := rest; trace := trace w ++ [EvSend (case_txBytes caseItem)] |}, Ok record) /\
     rec_status record = FAIL /\ rec_matchType record = "REPLY_CODE_MISMATCH").
Proof.
  intros caseItem options w answer rest rx Hwf Hscript Hrx Hno.
  pose proof (decodeReplyCode_not_found rx Hno) as Hcode.
  split; [exact Hcode |].
  intros policy Hmode Hany Hset.
  destruct (executeCase_reply caseItem options w answer rest rx Hwf Hscript Hrx)
    as (check & decoded & _ & Hdecoded & _ & Hexec).
  eexists. split; [exact Hexec |].
  apply (classifyReply_mismatch _ _ _ _ _ _ rx); try assumption.
  rewrite Hdecoded. unfold replyCodeOf. rewrite Hcode. cbn [rc_code].
  apply isReplyCodeAccepted_not_found. exact Hset.
Qed.

Lemma missing_reply_code_is_mismatch_witness :
  decodeReplyCode replyWithoutMarker = Ok {| rc_code := None; rc_index := None |} /\
  exists record,
    executeCase strictCase (plainOptions single generic) (answering replyWithoutMarker)
      = ({| script := []; trace := [EvSend sampleRequest] |}, Ok record) /\
    rec_status record = FAIL /\ rec_matchType record = "REPLY_CODE_MISMATCH".
Proof.
  destruct (missing_reply_code_is_mismatch strictCase (plainOptions single generic)
              (answering replyWithoutMarker)
              {| rxBytes := Some replyWithoutMarker; latencyMs := Some 5 |}
              [] replyWithoutMarker) as [Hcode Hcase].
  - left. reflexivity.
  - reflexivity.
  - reflexivity.
  - intros i Hi.
    assert (In i [8; 9; 10; 11; 12; 13]) as Hin.
    { change (Z.min (Js.len replyWithoutMarker - 3) 40) with 13 in Hi. simpl. lia. }
    simpl in Hin.
    repeat (destruct Hin as [<- | Hin]; [discriminate |]). destruct Hin.
  - split; [exact Hcode |].
    apply Hcase; [discriminate | reflexivity | discriminate].
Defined.

(** ** Policy resolver *)

(** Every entry of the policy table names its parser. *)
Lemma policy_table_parsers : forall code entry,
  JsMap.get COMMAND_POLICY_BY_CODE code = Some entry ->
  exists parser, cp_parserCode entry = Some parser.
Proof.
  intros code entry H.
  unfold COMMAND_POLICY_BY_CODE in H. cbn [JsMap.get] in H.
  repeat match type of H with
  | (if String.eqb ?k code then _ else _) = _ =>
      destruct (String.eqb k code); [injection H as <-; cbn; eauto |]
  end.
  discriminate.
Qed.

(** C4, as stated, fails: the set code 0xC213 is absent from the policy
    table and the text has no scene-mode query, yet the resolved policy
    carries a parser selector, the normalized set code itself. *)
Lemma unregistered_code_keeps_parser_selector :
  normalizeCode (case_setCode strictCase) = Some "C213" /\
  JsMap.get COMMAND_POLICY_BY_CODE "C213" = None /\
  validationMode (resolvePolicy strictCase generic) = STRICT_EXACT /\
  parserCode (resolvePolicy strictCase generic) = Some "C213".
Proof. repeat split. Qed.

(** C4 (amended): for a case whose normalized set code is absent from the
    policy table (or that has no set code), the resolver falls back to
    [STRICT_EXACT] with the parser selector defaulting to the normalized set
    code (null only when there is none), no note, no accepted-code override
    and no no-reply tolerance, except that a category/description text
    containing "query scene mode" upgrades it to [PARSED_RANGE] with parser
    C243; for a registered code the table's validation mode, parser selector,
    accepted-reply-code override, no-reply tolerance and note are returned. *)
Theorem resolvePolicy_table_or_fallback : forall caseItem profile,
  let setCode := normalizeCode (case_setCode caseItem) in
  let text := Js.toLowerCase (case_category caseItem +++ " " +++ case_description caseItem) in
  let policy := resolvePolicy caseItem profile in
  (forall code entry,
     setCode = Some code -> JsMap.get COMMAND_POLICY_BY_CODE code = Some entry ->
     validationMode policy = cp_validationMode entry /\
     parserCode policy = cp_parserCode entry /\
     policy_note policy = cp_note entry /\
     acceptAnyReplyCode policy
       = match cp_acceptAnyReplyCode entry with Some flag => flag | None => false end /\
     allowNoReplyQuirk policy
       = match cp_allowNoReplyQuirk entry with Some flag => flag | None => false end /\
     allowedReplyCodes policy
       = match cp_allowedReplyCodes entry with Some codes => codes | None => [] end) /\
  ((setCode = None \/
    exists code, setCode = Some code /\ JsMap.get COMMAND_POLICY_BY_CODE code = None) ->
   policy_note policy = None /\ acceptAnyReplyCode policy = false /\
   allowNoReplyQuirk policy = false /\ allowedReplyCodes policy = [] /\
   if Js.includes text "query scene mode"
   then validationMode policy = PARSED_RANGE /\ parserCode policy = Some "C243"
   else validationMode policy = STRICT_EXACT /\ parserCode policy = setCode).
Proof.
  intros caseItem profile setCode text policy. split.
  - intros code entry Hcode Hentry.
    destruct (policy_table_parsers _ _ Hentry) as [parser Hparser].
    subst policy. unfold resolvePolicy. fold setCode. rewrite Hcode, Hentry, Hparser.
    cbn. repeat split; reflexivity.
  - intros Hunregistered.
    assert (match setCode with
            | Some code => JsMap.get COMMAND_POLICY_BY_CODE code
            | None => None
            end = None) as Hbase.
    { destruct Hunregistered as [-> | (code & -> & Hnone)]; [reflexivity | exact Hnone]. }
    subst policy. unfold resolvePolicy. fold setCode. rewrite Hbase. fold text.
    cbn. destruct (Js.includes text "query scene mode"); repeat split; reflexivity.
Qed.

(** ** HDMI presence *)

Lemma skipn_app_exact : forall (A : Type) (l1 l2 : list A) n,
  skipn (List.length l1 + n) (l1 ++ l2) = skipn n l2.
Proof.
  intros A l1 l2 n. induction l1 as [| x rest IH]; [reflexivity | exact IH].
Qed.

Section HdmiFrame.

Variables (header : list Z) (p0 p1 p2 p3 cs : Z).

Let frame : list Z := hdmiFrame header p0 p1 p2 p3 cs.
Let at_marker : Z := Js.len header.

Lemma hdmiFrame_len : Js.len frame = Js.len header + 8.
Proof. unfold frame, hdmiFrame. rewrite len_app. reflexivity. Qed.

Lemma hdmiFrame_get : forall i,
  0 <= i -> Js.js_get frame (at_marker + i) = Js.js_get [0; 4; 0; p0; p1; p2; p3; cs] i.
Proof. intros i Hi. unfold frame, hdmiFrame, at_marker. apply js_get_app_right. exact Hi. Qed.

Lemma hdmiFrame_payload :
  Js.slice frame (at_marker + 3) (at_marker + 3 + 4) = [p0; p1; p2; p3].
Proof.
  unfold Js.slice, Js.slice_pos. rewrite hdmiFrame_len. unfold at_marker.
  pose proof (len_nonneg _ header) as Hpos.
  destruct (Z.ltb_spec (Js.len header + 3) 0); [lia |].
  destruct (Z.ltb_spec (Js.len header + 3 + 4) 0); [lia |].
  rewrite !Z.min_l by lia.
  replace (Z.to_nat (Js.len header + 3 + 4 - (Js.len header + 3))) with 4%nat by lia.
  replace (Z.to_nat (Js.len header + 3)) with (List.length header + 3)%nat
    by (unfold Js.len; lia).
  unfold frame, hdmiFrame. rewrite skipn_app_exact. reflexivity.
Qed.

(** The one match of length 4 is the marker in front of the payload. *)
Lemma hdmiScanStep_len4 : forall index,
  filter (fun item => hm_len item =? 4) (hdmiScanStep frame index) =
  if index =? at_marker
  then [ {| hm_index := at_marker; hm_len := 4; hm_payload := [p0; p1; p2; p3] |} ]
  else [].
Proof.
  intros index. unfold hdmiScanStep.
  destruct (Z.eqb_spec index at_marker) as [-> | Hne].
  - assert (Js.js_get frame at_marker = Some 0) as G0.
    { replace at_marker with (at_marker + 0) by lia. now rewrite hdmiFrame_get by lia. }
    assert (Js.js_get frame (at_marker + 1) = Some 4) as G1.
    { now rewrite hdmiFrame_get by lia. }
    assert (Js.js_get frame (at_marker + 2) = Some 0) as G2.
    { now rewrite hdmiFrame_get by lia. }
    unfold Js.get_is. rewrite G0, G1, G2.
    change (Js.bor (Js.shl (Js.int_of (Some 0)) 8) (Js.int_of (Some 4))) with 4.
    cbn [Z.eqb negb]. rewrite hdmiFrame_len.
    replace (at_marker + 3 + 4 =? Js.len header + 8 - 1) with true
      by (symmetry; apply Z.eqb_eq; unfold at_marker; lia).
    cbn [negb filter hm_len Z.eqb Pos.eqb]. rewrite hdmiFrame_payload. reflexivity.
  - destruct (negb (Js.get_is frame (index + 2) 0)); [reflexivity |].
    match goal with
    | |- context [negb (?a =? ?b)] => destruct (Z.eqb_spec a b) as [E | E]
    end; cbn [negb filter]; [| reflexivity].
    cbn [hm_len].
    match goal with
    | |- context [?l =? 4] => destruct (Z.eqb_spec l 4) as [E4 | E4]
    end; [| reflexivity].
    exfalso. rewrite E4, hdmiFrame_len in E. unfold at_marker in Hne. lia.
Qed.

Lemma hdmiScan_len4 : forall steps index,
  filter (fun item => hm_len item =? 4) (hdmiScan frame index steps) =
  if (index <=? at_marker) && (at_marker <? index + Z.of_nat steps)
  then [ {| hm_index := at_marker; hm_len := 4; hm_payload := [p0; p1; p2; p3] |} ]
  else [].
Proof.
  induction steps as [| k IH]; intros index.
  - cbn [hdmiScan filter].
    destruct (Z.leb_spec index at_marker), (Z.ltb_spec at_marker (index + Z.of_nat 0));
      try reflexivity; lia.
  - cbn [hdmiScan]. rewrite filter_app, hdmiScanStep_len4, IH.
    destruct (Z.eqb_spec index at_marker) as [-> | Hne].
    + destruct (Z.leb_spec (at_marker + 1) at_marker); [lia |].
      destruct (Z.leb_spec at_marker at_marker); [| lia].
      destruct (Z.ltb_spec at_marker (at_marker + Z.of_nat (S k))); [| lia].
      reflexivity.
    + destruct (Z.leb_spec (index + 1) at_marker), (Z.ltb_spec at_marker (index + 1 + Z.of_nat k)),
        (Z.leb_spec index at_marker), (Z.ltb_spec at_marker (index + Z.of_nat (S k)));
        try reflexivity; lia.
Qed.

(** The frame parser on a frame that carries a 4-byte payload: it selects
    that payload. *)
Lemma parseHdmiPresenceFromFrame_payload :
  parseHdmiPresenceFromFrame frame =
  if existsb (fun item => negb (isFlag item)) [p0; p1; p2; p3] then
    {| ok := false;
       parsed := Some [("payload", VNums [p0; p1; p2; p3])];
       meaning := "hdmiPresence raw=" +++ Js.join "," (map Js.of_int [p0; p1; p2; p3]);
       value := None;
       note := Some "Expected each HDMI flag to be 0 or 1" |}
  else
    {| ok := true;
       parsed := Some
         [ ("hdmi1", VNum p0); ("hdmi2", VNum p1); ("hdmi3", VNum p2); ("hdmi4", VNum p3);
           ("payloadHex", VStr (bytesToHex [p0; p1; p2; p3]));
           ("activeInputs",
            VStrs (activeInputs ["HDMI1"; "HDMI2"; "HDMI3"; "HDMI4"] [p0; p1; p2; p3] 0)) ];
       meaning := "HDMI1=" +++ signalText (Some p0) +++ ", HDMI2=" +++ signalText (Some p1)
                  +++ ", HDMI3=" +++ signalText (Some p2) +++ ", HDMI4=" +++ signalText (Some p3);
       value := None;
       note := None |}.
Proof.
  unfold parseHdmiPresenceFromFrame.
  pose proof (hdmiScan_len4 (Z.to_nat (Js.len frame - 4 + 1)) 0) as Hlen4.
  replace ((0 <=? at_marker) && (at_marker <? 0 + Z.of_nat (Z.to_nat (Js.len frame - 4 + 1))))
    with true in Hlen4.
  2: { symmetry. apply andb_true_iff. rewrite hdmiFrame_len. unfold at_marker.
       pose proof (len_nonneg _ header). split; [apply Z.leb_le | apply Z.ltb_lt]; lia. }
  destruct (hdmiScan frame 0 (Z.to_nat (Js.len frame - 4 + 1))) as [| firstMatch others].
  { discriminate Hlen4. }
  rewrite Hlen4. cbn [fold_left hm_len hm_payload Z.eqb Pos.eqb negb].
  reflexivity.
Qed.

End HdmiFrame.

Lemma existsb_not_flag : forall data b,
  In b data -> b <> 0 -> b <> 1 -> existsb (fun item => negb (isFlag item)) data = true.
Proof.
  intros data b Hin H0 H1. apply existsb_exists. exists b. split; [exact Hin |].
  unfold isFlag. destruct (Z.eqb_spec b 0), (Z.eqb_spec b 1); try contradiction.
  reflexivity.
Qed.

(** C8: the payload [01 00 01 00] parses to ok with hdmi1=1, hdmi2=0,
    hdmi3=1, hdmi4=0, and the frame parser, which derives the active inputs,
    lists HDMI1 and HDMI3 for every frame that carries it; a payload with a
    byte other than 0 or 1 parses to not-ok, in the payload parser whatever
    its length and in the frame parser for every frame that carries it as its
    4-byte payload. *)
Theorem hdmi_presence_bitmap :
  (ok (parseSemanticByCode "C25B" [1; 0; 1; 0]) = true /\
   parsed (parseSemanticByCode "C25B" [1; 0; 1; 0]) =
     Some [("hdmi1", VNum 1); ("hdmi2", VNum 0); ("hdmi3", VNum 1); ("hdmi4", VNum 0)]) /\
  (forall header cs,
     let result := parseHdmiPresenceFromFrame (hdmiFrame header 1 0 1 0 cs) in
     ok result = true /\
     exists fields,
       parsed result = Some fields /\
       obj_get fields "hdmi1" = Some (VNum 1) /\ obj_get fields "hdmi2" = Some (VNum 0) /\
       obj_get fields "hdmi3" = Some (VNum 1) /\ obj_get fields "hdmi4" = Some (VNum 0) /\
       obj_get fields "activeInputs" = Some (VStrs ["HDMI1"; "HDMI3"])) /\
  (forall data b,
     In b data -> b <> 0 -> b <> 1 -> ok (parseSemanticByCode "C25B" data) = false) /\
  (forall header p0 p1 p2 p3 cs b,
     In b [p0; p1; p2; p3] -> b <> 0 -> b <> 1 ->
     ok (parseHdmiPresenceFromFrame (hdmiFrame header p0 p1 p2 p3 cs)) = false).
Proof.
  split; [split; reflexivity |]. split; [| split].
  - intros header cs result. subst result.
    rewrite parseHdmiPresenceFromFrame_payload. cbn [existsb isFlag Z.eqb orb negb ok parsed].
    split; [reflexivity |]. eexists. split; [reflexivity |].
    repeat split; reflexivity.
  - intros data b Hin H0 H1.
    change (parseSemanticByCode "C25B" data) with (parseHdmiPayload data).
    unfold parseHdmiPayload.
    destruct (Z.eqb_spec (Js.len data) 4) as [Hlen | Hlen]; cbn [negb]; [| reflexivity].
    assert (Js.slice data 0 4 = data) as Hslice.
    { unfold Js.slice, Js.slice_pos. rewrite Hlen.
      change (Z.to_nat ((if 4 <? 0 then Z.max (4 + 4) 0 else Z.min 4 4)
                        - (if 0 <? 0 then Z.max (4 + 0) 0 else Z.min 0 4))) with 4%nat.
      change (Z.to_nat (if 0 <? 0 then Z.max (4 + 0) 0 else Z.min 0 4)) with 0%nat.
      cbn [skipn]. unfold Js.len in Hlen.
      replace 4%nat with (List.length data) by lia.
      apply firstn_all. }
    rewrite Hslice, (existsb_not_flag data b Hin H0 H1). reflexivity.
  - intros header p0 p1 p2 p3 cs b Hin H0 H1.
    rewrite parseHdmiPresenceFromFrame_payload.
    rewrite (existsb_not_flag _ b Hin H0 H1). reflexivity.
Qed.

(** ** Suite exclusions *)






Lemma waitForEnter_sends : forall prompt w,
  sends (trace (waitForEnter prompt w)) = sends (trace w).
Proof.
  intros prompt w. unfold waitForEnter, sends. cbn [trace].
  rewrite flat_map_app. cbn [flat_map]. apply app_nil_r.
Qed.

Lemma executeCase_sends : forall caseItem options w w' outcome,
  executeCase caseItem options w = (w', outcome) ->
  sends (trace w') = sends (trace w)
  \/ sends (trace w') = sends (trace w) ++ [case_txBytes caseItem].
Proof.
  intros caseItem options w w' outcome. unfold executeCase.
  destruct (verifyGeneratedChecksum caseItem).
  - unfold sendAndAwaitReply.
    destruct (script w) as [| [answer | error] rest];
      [| | intros H; injection H as <- _; left; reflexivity];
      match goal with
      | |- context [match ?d with Ok _ => _ | Throw _ => _ end] => destruct d
      end;
      intros H; injection H as <- _; right; cbn [trace];
      unfold sends; rewrite flat_map_app; reflexivity.
  - intros H. injection H as <- _. left. reflexivity.
Qed.

(** A round of the loop sends the request of its case, or nothing. *)
Lemma runCase_sends : forall options suiteExclusions caseItem w w' outcome,
  runCase options suiteExclusions caseItem w = (w', outcome) ->
  sends (trace w') = sends (trace w)
  \/ sends (trace w') = sends (trace w) ++ [case_txBytes caseItem].
Proof.
  intros options suiteExclusions caseItem w w' outcome. unfold runCase.
  destruct (powerStageExcluded options caseItem); [intros H; injection H as <- _; auto |].
  destruct (case_serialOnly caseItem); [intros H; injection H as <- _; auto |].
  destruct (Js.truthy_opt (exclusionReasonOf options suiteExclusions caseItem));
    [intros H; injection H as <- _; auto |].
  cbv zeta. intros H. apply executeCase_sends in H.
  repeat match type of H with
  | context [if ?b then waitForEnter _ _ else _] => destruct b
  end;
  rewrite ?waitForEnter_sends in H; exact H.
Qed.

(** ** Case builders *)

Lemma replace_at_length : forall (A : Type) (l : list A) i v,
  List.length (Js.replace_at l i v) = List.length l.
Proof.
  intros A l. induction l as [| x rest IH]; intros [| i] v; simpl; auto.
Qed.

Lemma js_set_length : forall (A : Type) (l : list A) i v,
  List.length (Js.js_set l i v) = List.length l.
Proof.
  intros A l i v. unfold Js.js_set.
  destruct ((0 <=? i) && (i <? Js.len l)); [apply replace_at_length | reflexivity].
Qed.

(** A derived spec builds a case for every value as soon as the reply
    template of its base row parses. *)
Lemma buildGeneratedNumericCase_ok : forall spec code template value source reply,
  derivedSpec code spec template ->
  parseOptionalHex (row_replyHex (spec_baseRow spec)) = Ok reply ->
  exists item,
    buildGeneratedNumericCase spec value source = Ok item /\
    case_generatedValue item = Some value /\
    case_isPowerCommand item = false /\
    case_setCode item = toCode (Some code) /\
    case_source item = source /\
    List.length (case_txBytes item) = List.length template.
Proof.
  intros spec code template value source reply (Hcode & _ & Hparse & _ & _) Hreply.
  unfold buildGeneratedNumericCase. rewrite Hparse, Hreply, Hcode. cbn [bind].
  eexists. split; [reflexivity |].
  cbn [case_generatedValue case_isPowerCommand case_setCode case_source case_txBytes].
  do 4 (split; [reflexivity |]).
  destruct (JsMap.get FORMULA_CHECKSUM_BASE code); rewrite !js_set_length; reflexivity.
Qed.

Lemma buildGeneratedNumericCase_wellFormed : forall bySetCode specs code spec value source item,
  deriveNumericSpecs bySetCode = Ok specs ->
  JsMap.get specs code = Some spec ->
  buildGeneratedNumericCase spec value source = Ok item ->
  wellFormed item.
Proof.
  intros bySetCode specs code spec value source item Hderive Hget Hbuild.
  destruct (deriveNumericSpecs_sound _ _ _ _ Hderive Hget) as (template & Hd & _ & _ & _ & Hlen).
  destruct (parseOptionalHex (row_replyHex (spec_baseRow spec))) as [reply |] eqn:Hreply.
  - destruct (buildGeneratedNumericCase_ok _ _ _ value source _ Hd Hreply)
      as (item' & Hbuild' & _ & _ & _ & _ & Hlen').
    rewrite Hbuild in Hbuild'. injection Hbuild' as <-.
    right. intros Hnil. rewrite Hnil, Hlen in Hlen'. discriminate.
  - destruct Hd as (_ & _ & Hparse & _). unfold buildGeneratedNumericCase in Hbuild.
    rewrite Hparse, Hreply in Hbuild. discriminate.
Qed.

Lemma buildCaseFromTruthRow_wellFormed : forall row source item,
  buildCaseFromTruthRow row source = Ok item -> wellFormed item.
Proof.
  intros row source item H. unfold buildCaseFromTruthRow in H.
  destruct (parseHexBytes (row_requestHex row)); [| discriminate].
  destruct (parseOptionalHex (row_replyHex row)); [| discriminate].
  injection H as <-. left. reflexivity.
Qed.

Lemma In_powerLast : forall cases item, In item (powerLast cases) <-> In item cases.
Proof.
  intros cases item. unfold powerLast. rewrite in_app_iff, !filter_In.
  destruct (case_isPowerCommand item); cbn; intuition congruence.
Qed.

(** ** Replay of issues *)

Lemma boundedValue_range : forall q, 0 <= boundedValue q <= 100.
Proof. intros q. unfold boundedValue. lia. Qed.

Lemma boundedValue_below : forall q, (q < 0)%Q -> boundedValue q = 0.
Proof.
  intros q Hq. unfold boundedValue, Js.round.
  assert (Qfloor (q + (1 # 2)) <= Qfloor (1 # 2)) as H.
  { apply Qfloor_resp_le.
    setoid_replace (1 # 2)%Q with (0 + (1 # 2))%Q at 2 by ring.
    apply Qplus_le_compat; [apply Qlt_le_weak; exact Hq | apply Qle_refl]. }
  change (Qfloor (1 # 2)) with 0 in H. lia.
Qed.

Lemma boundedValue_above : forall q, (100 < q)%Q -> boundedValue q = 100.
Proof.
  intros q Hq. unfold boundedValue, Js.round.
  assert (Qfloor (inject_Z 100) <= Qfloor (q + (1 # 2))) as H.
  { apply Qfloor_resp_le.
    setoid_replace (inject_Z 100) with (inject_Z 100 + 0)%Q by ring.
    apply Qplus_le_compat; [apply Qlt_le_weak; exact Hq | discriminate]. }
  rewrite Qfloor_Z in H. lia.
Qed.

Lemma boundedValue_comp : forall p q, (p == q)%Q -> boundedValue p = boundedValue q.
Proof.
  intros p q H. unfold boundedValue, Js.round.
  rewrite (Qfloor_comp (p + (1 # 2)) (q + (1 # 2))); [reflexivity |].
  rewrite H. reflexivity.
Qed.

Lemma opt_string_eqb_eq : forall a b, opt_string_eqb a b = true <-> a = b.
Proof.
  intros [x |] [y |]; simpl; split; intros H; try discriminate; try reflexivity.
  - apply String.eqb_eq in H. now subst.
  - injection H as ->. apply String.eqb_refl.
Qed.

Lemma dedupe_eqb_refl : forall k, dedupe_eqb k k = true.
Proof.
  intros [[key code] v]. unfold dedupe_eqb.
  rewrite String.eqb_refl. cbn [andb].
  assert (opt_string_eqb code code = true) as -> by (apply opt_string_eqb_eq; reflexivity).
  cbn [andb]. destruct v as [[| negative | q] |]; cbn.
  - reflexivity.
  - apply Bool.eqb_reflx.
  - apply Qeq_bool_refl.
  - reflexivity.
Qed.

(** A record with the key of a numeric record is numeric too, with the same
    code and an equal value. *)
Lemma dedupe_eqb_numeric : forall key code q key' code' v',
  dedupe_eqb (key, Some code, Some (Js.Finite q)) (key', code', v') = true ->
  code' = Some code /\ exists q', v' = Some (Js.Finite q') /\ (q == q')%Q.
Proof.
  intros key code q key' code' v' H. unfold dedupe_eqb in H.
  apply andb_true_iff in H as [H Hv]. apply andb_true_iff in H as [_ Hc].
  apply opt_string_eqb_eq in Hc. split; [now symmetry |].
  destruct v' as [[| negative | q'] |]; try discriminate.
  exists q'. split; [reflexivity |]. apply Qeq_bool_eq. exact Hv.
Qed.

Section IssuesLoop.

Variables (byKey : JsMap.t TruthCommandRow) (bySetCode : JsMap.t (list TruthCommandRow))
          (numericSpecs : JsMap.t NumericSpec).

(** A record already seen is skipped. *)
Lemma issuesLoop_seen : forall record rest seen,
  existsb (dedupe_eqb (dedupeKeyOf record)) seen = true ->
  issuesLoop byKey bySetCode numericSpecs (record :: rest) seen =
  issuesLoop byKey bySetCode numericSpecs rest seen.
Proof.
  intros record rest seen H. cbn [issuesLoop]. unfold dedupeKeyOf in H.
  rewrite H. reflexivity.
Qed.

(** A new numeric record with a finite value pushes the case synthesized
    from the rounded and clamped value, and the loop goes on. *)
Lemma issuesLoop_numeric : forall record rest seen code spec q,
  existsb (dedupe_eqb (dedupeKeyOf record)) seen = false ->
  normalizeCode (issueSetCodeRaw record) = Some code ->
  JsMap.get numericSpecs code = Some spec ->
  issue_value record = Some (Js.Finite q) ->
  issuesLoop byKey bySetCode numericSpecs (record :: rest) seen =
  (item <- buildGeneratedNumericCase spec (boundedValue q) generated ;;
   later <- issuesLoop byKey bySetCode numericSpecs rest (dedupeKeyOf record :: seen) ;;
   Ok (item :: later)).
Proof.
  intros record rest seen code spec q Hseen Hcode Hspec Hvalue.
  cbn [issuesLoop]. unfold dedupeKeyOf in *.
  rewrite Hseen, Hcode, Hvalue, Hspec. reflexivity.
Qed.

(** Any new record leaves the loop going on the rest. *)
Lemma issuesLoop_new : forall record rest seen cases,
  existsb (dedupe_eqb (dedupeKeyOf record)) seen = false ->
  issuesLoop byKey bySetCode numericSpecs (record :: rest) seen = Ok cases ->
  exists later,
    issuesLoop byKey bySetCode numericSpecs rest (dedupeKeyOf record :: seen) = Ok later /\
    (cases = later \/ exists item, cases = item :: later).
Proof.
  intros record rest seen cases Hseen H.
  cbn [issuesLoop] in H. unfold dedupeKeyOf in *. rewrite Hseen in H.
  set (seen' := _ :: seen) in *.
  set (loop := issuesLoop byKey bySetCode numericSpecs rest seen') in *.
  assert (forall (built : result CertifyCase),
            (item <- built ;; later <- loop ;; Ok (item :: later)) = Ok cases ->
            exists later, loop = Ok later /\ (cases = later \/ exists item, cases = item :: later))
    as Hpush.
  { intros [item |] Hb; [| discriminate]. cbn [bind] in Hb.
    destruct loop as [later |]; [| discriminate]. injection Hb as <-. eauto. }
  assert (loop = Ok cases ->
          exists later, loop = Ok later /\ (cases = later \/ exists item, cases = item :: later))
    as Hskip by eauto.
  assert (match (if Js.truthy (if Js.truthy_opt (issue_commandKey record)
                               then opt_text (issue_commandKey record) else "")
                 then JsMap.get byKey (if Js.truthy_opt (issue_commandKey record)
                                       then opt_text (issue_commandKey record) else "")
                 else None) with
          | Some row =>
              item <- buildCaseFromTruthRow row from_truth ;;
              later <- loop ;; Ok (item :: later)
          | None =>
              match normalizeCode (issueSetCodeRaw record) with
              | Some code =>
                  match JsMap.get bySetCode code with
                  | Some group =>
                      match group with
                      | row :: _ =>
                          item <- buildCaseFromTruthRow row from_truth ;;
                          later <- loop ;; Ok (item :: later)
                      | [] => Throw (TypeError "row")
                      end
                  | None => loop
                  end
              | None => loop
              end
          end = Ok cases ->
          exists later, loop = Ok later /\ (cases = later \/ exists item, cases = item :: later))
    as Htruth.
  { destruct (if Js.truthy _ then _ else None) as [row |]; [apply Hpush |].
    destruct (normalizeCode (issueSetCodeRaw record)) as [code |]; [| apply Hskip].
    destruct (JsMap.get bySetCode code) as [[| row group] |];
      [discriminate | apply Hpush | apply Hskip]. }
  destruct (normalizeCode (issueSetCodeRaw record)) as [code |]; [| apply Htruth; exact H].
  destruct (issue_value record) as [[| negative | q] |]; try (apply Htruth; exact H).
  destruct (JsMap.get numericSpecs code) as [spec |]; [| apply Htruth; exact H].
  apply Hpush in H. exact H.
Qed.

(** Every numeric record with a finite value has its clamped case among the
    cases of the loop, whether it is new or repeats an earlier record. *)
Lemma issuesLoop_numeric_In : forall records seen cases record code spec q,
  issuesLoop byKey bySetCode numericSpecs records seen = Ok cases ->
  In record records ->
  existsb (dedupe_eqb (dedupeKeyOf record)) seen = false ->
  normalizeCode (issueSetCodeRaw record) = Some code ->
  JsMap.get numericSpecs code = Some spec ->
  issue_value record = Some (Js.Finite q) ->
  exists item,
    buildGeneratedNumericCase spec (boundedValue q) generated = Ok item /\ In item cases.
Proof.
  induction records as [| first rest IH];
    intros seen cases record code spec q Hloop Hin Hnew Hcode Hspec Hvalue; [destruct Hin |].
  destruct (existsb (dedupe_eqb (dedupeKeyOf first)) seen) eqn:Hfirst.
  - (* the first record repeats an earlier one: it is not [record] *)
    rewrite issuesLoop_seen in Hloop by exact Hfirst.
    destruct Hin as [-> | Hin]; [congruence |].
    eapply IH; eassumption.
  - destruct (dedupe_eqb (dedupeKeyOf record) (dedupeKeyOf first)) eqn:Hsame.
    + (* the first record has the key of [record]: same code, equal value *)
      unfold dedupeKeyOf in Hsame. rewrite Hcode, Hvalue in Hsame.
      apply dedupe_eqb_numeric in Hsame as (Hcode' & q' & Hvalue' & Hq).
      rewrite (issuesLoop_numeric first rest seen code spec q') in Hloop by assumption.
      rewrite (boundedValue_comp q q' Hq).
      destruct (buildGeneratedNumericCase spec (boundedValue q') generated) as [item |];
        [| discriminate].
      cbn [bind] in Hloop.
      destruct (issuesLoop byKey bySetCode numericSpecs rest (dedupeKeyOf first :: seen));
        [| discriminate].
      injection Hloop as <-. exists item. split; [reflexivity | left; reflexivity].
    + destruct Hin as [-> | Hin].
      { rewrite dedupe_eqb_refl in Hsame. discriminate. }
      destruct (issuesLoop_new _ _ _ _ Hfirst Hloop) as (later & Hlater & Hcases).
      destruct (IH _ _ record code spec q Hlater Hin) as (item & Hbuild & Hitem);
        try assumption.
      { cbn [existsb]. rewrite Hsame, Hnew. reflexivity. }
      exists item. split; [exact Hbuild |].
      destruct Hcases as [-> | (x & ->)]; [exact Hitem | right; exact Hitem].
Qed.

End IssuesLoop.

Lemma buildGeneratedNumericCase_value : forall spec value source item,
  buildGeneratedNumericCase spec value source = Ok item ->
  case_generatedValue item = Some value.
Proof.
  intros spec value source item H. unfold buildGeneratedNumericCase in H.
  destruct (parseHexBytes (row_requestHex (spec_baseRow spec))); [| discriminate].
  cbn [bind] in H.
  destruct (parseOptionalHex (row_replyHex (spec_baseRow spec))); [| discriminate].
  injection H as <-. reflexivity.
Qed.

(** ** The value option of a single run *)

Section SingleValue.

Variable toNumber : string -> Js.JsNumber.

Lemma parseValueOption_rejects : forall next q,
  toNumber next = Js.Finite q -> (q < 0 \/ 100 < q)%Q ->
  parseValueOption toNumber next = Throw (OptionError ("Invalid --value: " +++ next)).
Proof.
  intros next q Hn Hq. unfold parseValueOption. rewrite Hn. unfold Js.lt_int, Js.gt_int.
  destruct Hq as [Hq | Hq].
  - destruct (Qle_bool (inject_Z 0) q) eqn:E; [| reflexivity].
    apply Qle_bool_iff in E. exfalso. exact (Qlt_not_le _ _ Hq E).
  - destruct (Qle_bool q (inject_Z 100)) eqn:E; [| rewrite orb_true_r; reflexivity].
    apply Qle_bool_iff in E. exfalso. exact (Qlt_not_le _ _ Hq E).
Qed.

Lemma parseOptions_single_rejects_value : forall selector next q rest,
  Js.truthy selector = true -> Js.truthy next = true ->
  toNumber next = Js.Finite q -> (q < 0 \/ 100 < q)%Q ->
  parseOptions toNumber ("--single" :: selector :: "--value" :: next :: rest)
    = Throw (OptionError ("Invalid --value: " +++ next)).
Proof.
  intros selector next q rest Hsel Hnext Hn Hq.
  unfold parseOptions. cbn [List.length parseLoop].
  change (parseOption toNumber initialState "--single" (selector :: "--value" :: next :: rest))
    with (a <- argumentOf (selector :: "--value" :: next :: rest)
                 "--single requires a commandKey or setCommandCode" ;;
          st' <- setMode initialState single ;;
          Ok (assign st' (set_singleSelector (Some (fst a))), snd a)).
  unfold argumentOf at 1. rewrite Hsel. cbn [bind setMode initialState ps_mode fst snd].
  match goal with
  | |- context [parseOption toNumber ?st "--value" ?args] =>
      change (parseOption toNumber st "--value" args)
        with (a <- argumentOf args "--value requires a number" ;;
              v <- parseValueOption toNumber (fst a) ;;
              Ok (assign st (set_value (Some v)), snd a))
  end.
  unfold argumentOf. rewrite Hnext. cbn [bind fst].
  rewrite (parseValueOption_rejects next q Hn Hq). reflexivity.
Qed.

End SingleValue.

(** ** The value option, wherever it stands *)

Section OptionsPrefix.

Variable toNumber : string -> Js.JsNumber.

Lemma argumentOf_more : forall rest missing next rest' more,
  argumentOf rest missing = Ok (next, rest') ->
  argumentOf (rest ++ more) missing = Ok (next, rest' ++ more).
Proof.
  intros [| first rest] missing next rest' more H; [discriminate |].
  cbn [argumentOf app] in *. destruct (Js.truthy first); [| discriminate].
  injection H as <- <-. reflexivity.
Qed.

Lemma argumentOf_shrinks : forall rest missing next rest',
  argumentOf rest missing = Ok (next, rest') ->
  (List.length rest' < List.length rest)%nat.
Proof.
  intros [| first rest] missing next rest' H; [discriminate |].
  cbn [argumentOf] in H. destruct (Js.truthy first); [| discriminate].
  injection H as _ <-. simpl. lia.
Qed.

(** Resolves one layer of an option's branch, in the hypothesis [H] about
    the short argument list and in the goal about the longer one. *)
Ltac option_step H more :=
  match type of H with
  | context [argumentOf ?r ?m] =>
      let Ha := fresh "Ha" in
      destruct (argumentOf r m) as [[? ?] |] eqn:Ha;
      [ rewrite ?(argumentOf_more _ _ _ _ more Ha) | discriminate H ]
  | Ok _ = Ok _ => injection H as <- <-; reflexivity
  | Throw _ = Ok _ => discriminate H
  | context [match ?x with _ => _ end] =>
      lazymatch x with
      | context [argumentOf] => fail
      | _ => destruct x; try discriminate H
      end
  end; cbn [bind fst snd] in H |- *.

Lemma parseOption_more : forall st arg rest st' rest' more,
  parseOption toNumber st arg rest = Ok (st', rest') ->
  parseOption toNumber st arg (rest ++ more) = Ok (st', rest' ++ more).
Proof.
  intros st arg rest st' rest' more H.
  unfold parseOption in *.
  repeat match type of H with
  | (if ?c then _ else _) = _ =>
      lazymatch c with
      | context [String.eqb arg] => destruct c
      end
  end;
  unfold bind in H |- *; repeat option_step H more.
Qed.

Lemma parseOption_shrinks : forall st arg rest st' rest',
  parseOption toNumber st arg rest = Ok (st', rest') ->
  (List.length rest' <= List.length rest)%nat.
Proof.
  intros st arg rest st' rest' H.
  unfold parseOption in H.
  repeat match type of H with
  | (if ?c then _ else _) = _ =>
      lazymatch c with
      | context [String.eqb arg] => destruct c
      end
  end;
  unfold bind in H;
  repeat match type of H with
  | context [argumentOf ?r ?m] =>
      let Ha := fresh "Ha" in
      destruct (argumentOf r m) as [[? ?] |] eqn:Ha;
      [ apply argumentOf_shrinks in Ha | discriminate H ]
  | Ok _ = Ok _ => injection H as _ <-; cbn [snd]; lia
  | Throw _ = Ok _ => discriminate H
  | context [match ?x with _ => _ end] => destruct x; try discriminate H
  end.
Qed.

Lemma parseLoop_enough : forall fuel argv st fuel',
  (List.length argv <= fuel)%nat -> (List.length argv <= fuel')%nat ->
  parseLoop toNumber fuel st argv = parseLoop toNumber fuel' st argv.
Proof.
  induction fuel as [| k IH]; intros argv st fuel' Hf Hf'.
  - destruct argv; [destruct fuel'; reflexivity | simpl in Hf; lia].
  - destruct argv as [| arg rest]; [destruct fuel'; reflexivity |].
    destruct fuel' as [| k']; [simpl in Hf'; lia |].
    cbn [parseLoop].
    destruct (parseOption toNumber st arg rest) as [[st1 rest1] |] eqn:Hstep; [| reflexivity].
    cbn [bind fst snd]. apply parseOption_shrinks in Hstep.
    apply IH; simpl in Hf, Hf'; lia.
Qed.

(** Options in front of others are parsed as they are on their own. *)
Lemma parseLoop_app : forall fuel pre st st' more fuel',
  (List.length pre <= fuel)%nat ->
  parseLoop toNumber fuel st pre = Ok st' ->
  (List.length (pre ++ more) <= fuel')%nat ->
  parseLoop toNumber fuel' st (pre ++ more) = parseLoop toNumber fuel' st' more.
Proof.
  induction fuel as [| k IH]; intros pre st st' more fuel' Hf H Hf'.
  - destruct pre; [| simpl in Hf; lia]. cbn in H. injection H as <-. reflexivity.
  - destruct pre as [| arg rest].
    { cbn in H. injection H as <-. reflexivity. }
    destruct fuel' as [| k']; [simpl in Hf'; lia |].
    cbn [parseLoop] in H.
    destruct (parseOption toNumber st arg rest) as [[st1 rest1] |] eqn:Hstep; [| discriminate].
    cbn [bind fst snd] in H.
    pose proof (parseOption_shrinks _ _ _ _ _ Hstep) as Hshrink.
    change ((arg :: rest) ++ more) with (arg :: (rest ++ more)).
    simpl in Hf, Hf'. rewrite length_app in Hf'.
    rewrite (parseLoop_enough (S k') more st' k') by lia.
    cbn [parseLoop]. rewrite (parseOption_more _ _ _ _ _ more Hstep). cbn [bind fst snd].
    apply (IH rest1 st1 st' more k'); [lia | exact H | rewrite length_app; lia].
Qed.

(** An out-of-range value is refused wherever the option stands after
    well-formed options. *)
Lemma parseOptions_rejects_value : forall pre st next q rest,
  parseLoop toNumber (List.length pre) initialState pre = Ok st ->
  Js.truthy next = true ->
  toNumber next = Js.Finite q -> (q < 0 \/ 100 < q)%Q ->
  parseOptions toNumber (pre ++ "--value" :: next :: rest)
    = Throw (OptionError ("Invalid --value: " +++ next)).
Proof.
  intros pre st next q rest Hpre Hnext Hn Hq. unfold parseOptions.
  rewrite (parseLoop_app (List.length pre) pre initialState st) by (assumption || lia).
  rewrite length_app. cbn [List.length]. rewrite Nat.add_succ_r. cbn [parseLoop].
  change (parseOption toNumber st "--value" (next :: rest))
    with (a <- argumentOf (next :: rest) "--value requires a number" ;;
          v <- parseValueOption toNumber (fst a) ;;
          Ok (assign st (set_value (Some v)), snd a)).
  unfold argumentOf. rewrite Hnext. cbn [bind fst].
  rewrite (parseValueOption_rejects toNumber next q Hn Hq). reflexivity.
Qed.

End OptionsPrefix.

(** The request of a case synthesized from a derived spec. *)
Lemma buildGeneratedNumericCase_request :
  forall bySetCode specs code spec value source item,
  deriveNumericSpecs bySetCode = Ok specs ->
  JsMap.get specs code = Some spec ->
  0 <= value <= 100 ->
  buildGeneratedNumericCase spec value source = Ok item ->
  exists template,
    parseHexBytes (row_requestHex (spec_baseRow spec)) = Ok template /\
    synthesizedFrom code template value item.
Proof.
  intros bySetCode specs code spec value source item Hderive Hget Hvalue Hbuild.
  destruct (deriveNumericSpecs_sound _ _ _ _ Hderive Hget)
    as (template & Hds & Hin & Hvi & Hci & Hlen).
  destruct Hds as (Hcode & _ & Hparse & _ & _).
  exists template. split; [exact Hparse |].
  unfold buildGeneratedNumericCase in Hbuild.
  rewrite Hparse, Hvi, Hci, Hcode in Hbuild. cbn [bind] in Hbuild.
  destruct (parseOptionalHex (row_replyHex (spec_baseRow spec))); [| discriminate].
  cbn [bind] in Hbuild.
  apply (f_equal (fun built => match built with
                               | Ok case => case_txBytes case
                               | Throw _ => []
                               end)) in Hbuild.
  cbn [case_txBytes] in Hbuild.
  unfold synthesizedFrom. rewrite <- Hbuild. clear Hbuild.
  rewrite (band_0xff_small value) by (unfold is_byte; lia).
  do 40 (destruct template as [| ? template]; [discriminate Hlen |]).
  destruct template; [| discriminate Hlen].
  clear Hparse Hlen.
  compute_writes.
  destruct (JsMap.get FORMULA_CHECKSUM_BASE code) as [formulaBase |].
  - remember (Js.band (formulaBase + value) 255) as cs eqn:Ecs.
    compute_writes.
    split; [reflexivity |]. split; [reflexivity |]. split; reflexivity.
  - match goal with
    | |- context [Js.js_set ?l ?i (computePdfChecksum ?w)] =>
        remember (computePdfChecksum w) as cs eqn:Ecs
    end.
    compute_writes.
    split; [reflexivity |]. split; [reflexivity |]. split; [reflexivity |].
    change (lastByte ?l) with (Some cs). f_equal.
    rewrite Ecs. rewrite !computePdfChecksum_sum by (vm_compute; discriminate).
    reflexivity.
Qed.

(** C10: a numeric issue record with a finite value outside 0..100 is not
    rejected: the value is rounded and clamped into [0, 100], a case is
    synthesized from the clamped value (its request carries the clamped value
    at offset 38 and the checksum byte that goes with it) and the loop goes on
    with the next record; the case is among the cases of the replay.  An
    out-of-range [--value], as in a single run, throws while the options are
    parsed, wherever it stands after well-formed options, before anything is
    sent. *)
Theorem issue_value_clamped_single_value_rejected :
  (forall q, 0 <= boundedValue q <= 100
             /\ ((q < 0)%Q -> boundedValue q = 0)
             /\ ((100 < q)%Q -> boundedValue q = 100)) /\
  (forall byKey bySetCode specs record rest seen code spec q,
     existsb (dedupe_eqb (dedupeKeyOf record)) seen = false ->
     normalizeCode (issueSetCodeRaw record) = Some code ->
     JsMap.get specs code = Some spec ->
     issue_value record = Some (Js.Finite q) ->
     issuesLoop byKey bySetCode specs (record :: rest) seen =
     (item <- buildGeneratedNumericCase spec (boundedValue q) generated ;;
      later <- issuesLoop byKey bySetCode specs rest (dedupeKeyOf record :: seen) ;;
      Ok (item :: later))) /\
  (forall bySetCode specs code spec q reply,
     deriveNumericSpecs bySetCode = Ok specs ->
     JsMap.get specs code = Some spec ->
     parseOptionalHex (row_replyHex (spec_baseRow spec)) = Ok reply ->
     exists item template,
       buildGeneratedNumericCase spec (boundedValue q) generated = Ok item /\
       case_generatedValue item = Some (boundedValue q) /\
       parseHexBytes (row_requestHex (spec_baseRow spec)) = Ok template /\
       synthesizedFrom code template (boundedValue q) item) /\
  (forall byKey bySetCode specs records cases record code spec q,
     buildIssuesCases records byKey bySetCode specs = Ok cases ->
     In record records -> isIssue record = true ->
     normalizeCode (issueSetCodeRaw record) = Some code ->
     JsMap.get specs code = Some spec ->
     issue_value record = Some (Js.Finite q) ->
     exists item,
       buildGeneratedNumericCase spec (boundedValue q) generated = Ok item /\
       case_generatedValue item = Some (boundedValue q) /\
       In item cases /\
       (deriveNumericSpecs bySetCode = Ok specs ->
        exists template,
          parseHexBytes (row_requestHex (spec_baseRow spec)) = Ok template /\
          synthesizedFrom code template (boundedValue q) item)) /\
  (forall toNumber pre st next q rest inputs w,
     parseLoop toNumber (List.length pre) initialState pre = Ok st ->
     Js.truthy next = true ->
     toNumber next = Js.Finite q -> (q < 0 \/ 100 < q)%Q ->
     run toNumber (pre ++ "--value" :: next :: rest) inputs w
       = (w, Throw (OptionError ("Invalid --value: " +++ next)))) /\
  (forall toNumber selector next q rest inputs w,
     Js.truthy selector = true -> Js.truthy next = true ->
     toNumber next = Js.Finite q -> (q < 0 \/ 100 < q)%Q ->
     run toNumber ("--single" :: selector :: "--value" :: next :: rest) inputs w
       = (w, Throw (OptionError ("Invalid --value: " +++ next)))).
Proof.
  split; [| split; [| split; [| split; [| split]]]].
  - intros q. split; [apply boundedValue_range |].
    split; [apply boundedValue_below | apply boundedValue_above].
  - intros. eapply issuesLoop_numeric; eassumption.
  - intros bySetCode specs code spec q reply Hderive Hget Hreply.
    destruct (deriveNumericSpecs_sound _ _ _ _ Hderive Hget) as (template & Hd & _).
    destruct (buildGeneratedNumericCase_ok _ _ _ (boundedValue q) generated _ Hd Hreply)
      as (item & Hbuild & Hvalue & _).
    destruct (buildGeneratedNumericCase_request _ _ _ _ _ _ _ Hderive Hget
                (boundedValue_range q) Hbuild) as (template' & Hparse & Hrequest).
    exists item, template'. auto.
  - intros byKey bySetCode specs records cases record code spec q
      Hbuild Hin Hissue Hcode Hspec Hvalue.
    unfold buildIssuesCases in Hbuild.
    destruct (issuesLoop byKey bySetCode specs (filter isIssue records) []) as [loop |] eqn:Hloop;
      [| discriminate].
    injection Hbuild as <-.
    destruct (issuesLoop_numeric_In byKey bySetCode specs _ _ _ record code spec q Hloop)
      as (item & Hitem & Hmember); try assumption.
    + apply filter_In. split; assumption.
    + reflexivity.
    + exists item. split; [exact Hitem |].
      split; [exact (buildGeneratedNumericCase_value _ _ _ _ Hitem) |].
      split; [apply In_powerLast; exact Hmember |].
      intros Hderive.
      exact (buildGeneratedNumericCase_request _ _ _ _ _ _ _ Hderive Hspec
               (boundedValue_range q) Hitem).
  - intros toNumber pre st next q rest inputs w Hpre Hnext Hn Hq.
    unfold run, prepareRun.
    rewrite (parseOptions_rejects_value toNumber pre st next q rest Hpre Hnext Hn Hq).
    reflexivity.
  - intros toNumber selector next q rest inputs w Hsel Hnext Hn Hq.
    unfold run, prepareRun.
    rewrite (parseOptions_single_rejects_value toNumber selector next q rest Hsel Hnext Hn Hq).
    reflexivity.
Qed.

Lemma issue_value_clamped_single_value_rejected_witness :
  (exists specs cases item,
     deriveNumericSpecs (snd (indexRows [contrastRow])) = Ok specs /\
     buildIssuesCases [contrastIssue] (fst (indexRows [contrastRow]))
       (snd (indexRows [contrastRow])) specs = Ok cases /\
     In item cases /\ case_generatedValue item = Some 100 /\
     Js.js_get (case_txBytes item) 38 = Some 100 /\
     lastByte (case_txBytes item) = Some (computePdfChecksum (case_txBytes item))) /\
  run toNumber150 ["--single"; "0xC217"; "--value"; "150"]
    {| in_rows := Ok [contrastRow]; in_exclusions := None; in_issueRecords := Ok [];
         in_bindError := None |} idle
    = (idle, Throw (OptionError "Invalid --value: 150")).
Proof.
  pose proof issue_value_clamped_single_value_rejected as (_ & _ & _ & Hreplay & _ & Hsingle).
  split.
  - eexists. eexists.
    match goal with
    | |- exists item, ?D = Ok ?s /\ _ =>
        assert (H1 : D = Ok s) by (vm_compute; reflexivity)
    end.
    match goal with
    | |- exists item, _ /\ ?B = Ok ?c /\ _ =>
        assert (H2 : B = Ok c) by (vm_compute; reflexivity)
    end.
    match type of H1 with
    | _ = Ok [(_, ?sp)] =>
        destruct (Hreplay _ _ _ _ _ contrastIssue "C217" sp (inject_Z 150) H2)
          as (item & _ & Hvalue & Hmember & Hrequest)
    end.
    + left. reflexivity.
    + reflexivity.
    + reflexivity.
    + reflexivity.
    + reflexivity.
    + exists item. split; [exact H1 |]. split; [exact H2 |].
      split; [exact Hmember |]. split; [exact Hvalue |].
      destruct (Hrequest H1) as (template & _ & _ & _ & Hbyte & Hlast).
      split; [exact Hbyte | exact Hlast].
  - apply (Hsingle toNumber150 "0xC217" "150" (inject_Z 150)); try reflexivity.
    right. reflexivity.
Defined.

(** ** The suite *)

Lemma set_has_In : forall codes code, set_has codes code = true <-> In code codes.
Proof.
  intros codes code. unfold set_has. rewrite existsb_exists. split.
  - intros (x & Hx & E). apply String.eqb_eq in E. now subst.
  - intros H. exists code. split; [exact H | apply String.eqb_refl].
Qed.

Lemma rows_of_set : forall bySetCode setCode group code,
  rows_of (JsMap.set bySetCode setCode group) code =
  if String.eqb setCode code then group else rows_of bySetCode code.
Proof.
  intros. unfold rows_of. rewrite JsMap_get_set.
  destruct (String.eqb setCode code); reflexivity.
Qed.

Lemma indexRow_rows_of : forall maps row code,
  rows_of (snd (indexRow maps row)) code =
  rows_of (snd maps) code ++ (if hasCode code row then [row] else []).
Proof.
  intros maps row code. unfold indexRow, hasCode.
  destruct (normalizeCode (row_setCommandCode row)) as [setCode |]; cbn [snd opt_string_eqb].
  - rewrite rows_of_set. fold (rows_of (snd maps) setCode).
    destruct (String.eqb_spec setCode code) as [-> | Hne]; [reflexivity |].
    symmetry. apply app_nil_r.
  - symmetry. apply app_nil_r.
Qed.

(** The rows indexed under a code are the rows that carry it, in order. *)
Lemma indexRows_rows_of : forall rows code,
  rows_of (snd (indexRows rows)) code = filter (hasCode code) rows.
Proof.
  intros rows code. unfold indexRows.
  assert (forall maps,
            rows_of (snd (fold_left indexRow rows maps)) code =
            rows_of (snd maps) code ++ filter (hasCode code) rows) as H.
  { induction rows as [| row rest IH]; intros maps; cbn [fold_left filter].
    - symmetry. apply app_nil_r.
    - rewrite IH, indexRow_rows_of, <- app_assoc.
      destruct (hasCode code row); reflexivity. }
  apply H.
Qed.

Lemma find_filter : forall (A : Type) (p : A -> bool) (l : list A),
  find p l = hd_error (filter p l).
Proof.
  intros A p l. induction l as [| x rest IH]; [reflexivity |].
  cbn [find filter]. destruct (p x); [reflexivity | exact IH].
Qed.

(** *** What [deriveNumericSpecs] stores *)

Lemma deriveNumericSpec_get : forall bySetCode specs setCode specs',
  deriveNumericSpec bySetCode specs setCode = Ok specs' ->
  (forall code, code <> setCode -> JsMap.get specs' code = JsMap.get specs code) /\
  match rows_of bySetCode setCode with
  | [] => specs' = specs
  | baseRow :: _ =>
      exists spec, JsMap.get specs' setCode = Some spec /\ spec_baseRow spec = baseRow
  end.
Proof.
  intros bySetCode specs setCode specs' H. unfold deriveNumericSpec in H.
  destruct (rows_of bySetCode setCode) as [| baseRow others].
  { injection H as <-. split; [reflexivity | reflexivity]. }
  destruct (JsMap.get NUMERIC_VALUE_INDEX_BY_SET setCode) as [[valueIndex checksumIndex] |];
    [| discriminate].
  destruct (parseHexBytes (row_requestHex baseRow)) as [txBytes |]; [| discriminate].
  cbn [bind] in H.
  destruct ((Js.len txBytes <=? valueIndex) || (Js.len txBytes <=? checksumIndex));
    [discriminate |].
  destruct (negb (checksumIndex =? Js.len txBytes - 1)); [discriminate |].
  injection H as <-. split.
  - intros code Hne. rewrite JsMap_get_set.
    destruct (String.eqb_spec setCode code); [congruence | reflexivity].
  - eexists. rewrite JsMap_get_set, String.eqb_refl. split; reflexivity.
Qed.

Lemma deriveNumericLoop_get : forall bySetCode codes specs specs',
  deriveNumericLoop bySetCode codes specs = Ok specs' ->
  forall code,
    (~ In code codes -> JsMap.get specs' code = JsMap.get specs code) /\
    (rows_of bySetCode code = [] -> JsMap.get specs' code = JsMap.get specs code) /\
    (In code codes ->
     forall baseRow others, rows_of bySetCode code = baseRow :: others ->
     exists spec, JsMap.get specs' code = Some spec /\ spec_baseRow spec = baseRow).
Proof.
  intros bySetCode codes. induction codes as [| setCode rest IH]; intros specs specs' H code.
  - injection H as <-. repeat split; try reflexivity. intros [].
  - cbn [deriveNumericLoop] in H.
    destruct (deriveNumericSpec bySetCode specs setCode) as [specs1 |] eqn:Hstep;
      [| discriminate].
    cbn [bind] in H.
    destruct (deriveNumericSpec_get _ _ _ _ Hstep) as [Hother Hsame].
    destruct (IH _ _ H code) as (IHout & IHempty & IHin).
    split; [| split].
    + intros Hnot. rewrite IHout by (intros Hin; apply Hnot; right; exact Hin).
      apply Hother. intros ->. apply Hnot. left. reflexivity.
    + intros Hempty. rewrite IHempty by exact Hempty.
      destruct (String.eqb_spec code setCode) as [-> | Hne]; [| apply Hother; exact Hne].
      rewrite Hempty in Hsame. now subst.
    + intros Hin baseRow others Hrows.
      destruct (in_dec String.string_dec code rest) as [Hrest | Hrest].
      * eapply IHin; eassumption.
      * destruct Hin as [-> | Hin]; [| contradiction].
        rewrite IHout by exact Hrest.
        rewrite Hrows in Hsame. exact Hsame.
Qed.

(** The specs of a truth data set: one for each numeric code that some row
    carries, based on the first such row; none for any other code. *)
Lemma deriveNumericSpecs_get : forall rows specs code,
  deriveNumericSpecs (snd (indexRows rows)) = Ok specs ->
  match find (hasCode code) rows with
  | Some baseRow =>
      if set_has NUMERIC_SET_CODES code
      then exists spec, JsMap.get specs code = Some spec /\ spec_baseRow spec = baseRow
      else JsMap.get specs code = None
  | None => JsMap.get specs code = None
  end.
Proof.
  intros rows specs code H. unfold deriveNumericSpecs in H.
  destruct (deriveNumericLoop_get _ _ _ _ H code) as (Hout & Hempty & Hin).
  rewrite indexRows_rows_of in Hempty, Hin. rewrite find_filter.
  destruct (filter (hasCode code) rows) as [| baseRow others]; cbn [hd_error].
  - apply Hempty. reflexivity.
  - destruct (set_has NUMERIC_SET_CODES code) eqn:Hnum.
    + apply (Hin (proj1 (set_has_In _ _) Hnum) baseRow others eq_refl).
    + apply Hout. intros Hmem.
      apply set_has_In in Hmem. congruence.
Qed.

(** *** The cases that the builders return *)

Lemma mapM_ok : forall (A B : Type) (f : A -> result B) (P : A -> B -> Prop) (l : list A),
  (forall a, In a l -> exists b, f a = Ok b /\ P a b) ->
  exists bs, mapM f l = Ok bs /\ Forall2 P l bs.
Proof.
  intros A B f P l. induction l as [| a rest IH]; intros H.
  - exists []. split; [reflexivity | constructor].
  - destruct (H a (or_introl eq_refl)) as (b & Hb & Hp).
    destruct IH as (bs & Hbs & Hall); [intros x Hx; apply H; right; exact Hx |].
    exists (b :: bs). cbn [mapM]. rewrite Hb, Hbs. split; [reflexivity | constructor; assumption].
Qed.

Lemma toCode_numeric_inj : forall c c',
  In c NUMERIC_SET_CODES -> In c' NUMERIC_SET_CODES ->
  toCode (Some c) = toCode (Some c') -> c = c'.
Proof.
  intros c c' Hc Hc' H.
  assert (forall x, In x NUMERIC_SET_CODES -> toCode (Some x) = Some ("0x" +++ x)) as Hcode.
  { intros x Hx. unfold NUMERIC_SET_CODES in Hx. simpl in Hx.
    repeat (destruct Hx as [<- | Hx]; [reflexivity |]). destruct Hx. }
  rewrite (Hcode c Hc), (Hcode c' Hc') in H. injection H as H. exact H.
Qed.

Lemma generatedFor_other : forall c c' item,
  In c NUMERIC_SET_CODES -> In c' NUMERIC_SET_CODES -> c <> c' ->
  generatedFor c item = true -> generatedFor c' item = false.
Proof.
  intros c c' item Hc Hc' Hne H. unfold generatedFor in *.
  apply andb_true_iff in H as [Hgen Hcode]. rewrite Hgen. cbn [andb].
  apply opt_string_eqb_eq in Hcode. rewrite Hcode.
  destruct (opt_string_eqb (toCode (Some c)) (toCode (Some c'))) eqn:E; [| reflexivity].
  apply opt_string_eqb_eq in E. apply toCode_numeric_inj in E; congruence.
Qed.

(** The sweep of a derived spec: 101 cases, for the values 0..100 in order,
    all generated for its code and none of them a power case. *)
Lemma sweepOf_ok : forall spec code template reply,
  derivedSpec code spec template ->
  parseOptionalHex (row_replyHex (spec_baseRow spec)) = Ok reply ->
  exists sweep,
    sweepOf spec = Ok sweep /\
    List.length sweep = 101%nat /\
    map case_generatedValue sweep = map Some sweepValues /\
    Forall (fun item => generatedFor code item = true /\ case_isPowerCommand item = false)
      sweep.
Proof.
  intros spec code template reply Hd Hreply.
  destruct (mapM_ok _ _ (fun value => buildGeneratedNumericCase spec value generated)
              (fun value item =>
                 case_generatedValue item = Some value /\
                 generatedFor code item = true /\ case_isPowerCommand item = false)
              sweepValues) as (sweep & Hsweep & Hall).
  { intros value _.
    destruct (buildGeneratedNumericCase_ok _ _ _ value generated _ Hd Hreply)
      as (item & Hbuild & Hvalue & Hpower & Hcode & _).
    exists item. split; [exact Hbuild |]. split; [exact Hvalue |]. split; [| exact Hpower].
    unfold generatedFor. rewrite Hvalue, Hcode. cbn [is_none negb andb].
    apply opt_string_eqb_eq. reflexivity. }
  exists sweep. split; [exact Hsweep |].
  split; [rewrite <- (Forall2_length Hall); reflexivity |].
  clear Hsweep. induction Hall as [| value item values items (Hv & Hg & Hp) _ IH].
  - split; [reflexivity | constructor].
  - destruct IH as [IHmap IHall]. split.
    + cbn [map]. rewrite Hv, IHmap. reflexivity.
    + constructor; [split; assumption | exact IHall].
Qed.

Lemma buildCaseFromTruthRow_ok : forall row source,
  rowParses row ->
  exists item, buildCaseFromTruthRow row source = Ok item /\ isTruthCase item = true.
Proof.
  intros row source [[txBytes Htx] [reply Hreply]].
  unfold buildCaseFromTruthRow. rewrite Htx, Hreply. cbn [bind].
  eexists. split; reflexivity.
Qed.

Lemma filter_all : forall (A : Type) (p : A -> bool) (l : list A),
  Forall (fun x => p x = true) l -> filter p l = l.
Proof.
  intros A p l H. induction H as [| x rest Hx _ IH]; [reflexivity |].
  cbn [filter]. rewrite Hx, IH. reflexivity.
Qed.

Lemma filter_none : forall (A : Type) (p : A -> bool) (l : list A),
  Forall (fun x => p x = false) l -> filter p l = [].
Proof.
  intros A p l H. induction H as [| x rest Hx _ IH]; [reflexivity |].
  cbn [filter]. rewrite Hx. exact IH.
Qed.

Lemma filter_comm : forall (A : Type) (p q : A -> bool) (l : list A),
  filter p (filter q l) = filter q (filter p l).
Proof.
  intros A p q l. induction l as [| x rest IH]; [reflexivity |].
  cbn [filter]. destruct (p x) eqn:Hp, (q x) eqn:Hq; cbn [filter];
    rewrite ?Hp, ?Hq, IH; reflexivity.
Qed.

Lemma filter_powerLast : forall (p : CertifyCase -> bool) cases,
  filter p (powerLast cases) = powerLast (filter p cases).
Proof.
  intros p cases. unfold powerLast. rewrite filter_app.
  f_equal; apply filter_comm.
Qed.

Lemma powerLast_no_power : forall cases,
  Forall (fun item => case_isPowerCommand item = false) cases -> powerLast cases = cases.
Proof.
  intros cases H. unfold powerLast.
  rewrite filter_all, filter_none; [apply app_nil_r | exact H |].
  eapply Forall_impl; [| exact H]. intros item Hi. cbn beta. rewrite Hi. reflexivity.
Qed.

Section SuiteLoop.

Variable specs : JsMap.t NumericSpec.

(** What the derivation guarantees of the specs. *)
Hypothesis specs_numeric : forall code spec,
  JsMap.get specs code = Some spec ->
  In code NUMERIC_SET_CODES /\
  exists sweep,
    sweepOf spec = Ok sweep /\
    Forall (fun item => generatedFor code item = true /\ case_isPowerCommand item = false)
      sweep.

(** A row whose templates parse and whose numeric code, if it has one, has a
    spec. *)
Let known (row : TruthCommandRow) : Prop :=
  rowParses row /\
  forall code, normalizeCode (row_setCommandCode row) = Some code ->
               In code NUMERIC_SET_CODES -> JsMap.get specs code <> None.

Let fromTruth (row : TruthCommandRow) : result CertifyCase :=
  buildCaseFromTruthRow row from_truth.

Let accounted (item : CertifyCase) : Prop :=
  isTruthCase item = true
  \/ exists code, JsMap.get specs code <> None /\ In code NUMERIC_SET_CODES
                  /\ generatedFor code item = true.

Lemma truth_not_generated : forall code item,
  isTruthCase item = true -> generatedFor code item = false.
Proof.
  intros code item H. unfold generatedFor, isTruthCase in *. rewrite H. reflexivity.
Qed.

Lemma generated_not_truth : forall code item,
  generatedFor code item = true -> isTruthCase item = false.
Proof.
  intros code item H. unfold generatedFor, isTruthCase in *.
  apply andb_true_iff in H as [H _]. destruct (is_none (case_generatedValue item));
    [discriminate | reflexivity].
Qed.

(** The step of the loop on a row that is not numeric. *)
Lemma suiteLoop_truth_row : forall row rest seen,
  known row ->
  match normalizeCode (row_setCommandCode row) with
  | Some code => JsMap.get specs code = None
  | None => True
  end ->
  isNumericRow row = false /\
  (forall code spec, JsMap.get specs code = Some spec -> hasCode code row = false) /\
  exists item,
    fromTruth row = Ok item /\ isTruthCase item = true /\
    suiteLoop specs (row :: rest) seen =
    (later <- suiteLoop specs rest seen ;; Ok (item :: later)).
Proof.
  intros row rest seen [Hparse Hspec] Hnone.
  destruct (buildCaseFromTruthRow_ok row from_truth Hparse) as (item & Hitem & Htruth).
  split; [| split].
  - unfold isNumericRow.
    destruct (normalizeCode (row_setCommandCode row)) as [code |]; [| reflexivity].
    destruct (set_has NUMERIC_SET_CODES code) eqn:Hnum; [| reflexivity].
    apply set_has_In in Hnum. exfalso. exact (Hspec code eq_refl Hnum Hnone).
  - intros code spec Hget. unfold hasCode.
    destruct (normalizeCode (row_setCommandCode row)) as [code' |]; [| reflexivity].
    cbn [opt_string_eqb]. destruct (String.eqb_spec code' code); [congruence | reflexivity].
  - exists item. split; [exact Hitem |]. split; [exact Htruth |].
    cbn [suiteLoop]. rewrite Hitem.
    destruct (normalizeCode (row_setCommandCode row)) as [code |]; [| reflexivity].
    rewrite Hnone. reflexivity.
Qed.

Lemma suiteLoop_spec : forall rows seen,
  Forall known rows ->
  exists cases,
    suiteLoop specs rows seen = Ok cases /\
    (forall code spec sweep,
       JsMap.get specs code = Some spec -> sweepOf spec = Ok sweep ->
       filter (generatedFor code) cases =
       if set_has seen code || negb (existsb (hasCode code) rows) then [] else sweep) /\
    (exists truthCases,
       mapM fromTruth (filter (fun row => negb (isNumericRow row)) rows) = Ok truthCases /\
       filter isTruthCase cases = truthCases) /\
    Forall accounted cases.
Proof.
  induction rows as [| row rest IH]; intros seen Hknown.
  { exists []. split; [reflexivity |]. split; [| split].
    - intros code spec sweep _ _. cbn. rewrite orb_true_r. reflexivity.
    - exists []. split; reflexivity.
    - constructor. }
  inversion Hknown as [| ? ? Hrow Hrest]; subst.
  assert (forall later truthLater item,
            fromTruth row = Ok item -> isTruthCase item = true ->
            isNumericRow row = false ->
            (forall code spec, JsMap.get specs code = Some spec -> hasCode code row = false) ->
            suiteLoop specs rest seen = Ok later ->
            (forall code spec sweep,
               JsMap.get specs code = Some spec -> sweepOf spec = Ok sweep ->
               filter (generatedFor code) later =
               if set_has seen code || negb (existsb (hasCode code) rest) then [] else sweep) ->
            mapM fromTruth (filter (fun row => negb (isNumericRow row)) rest) = Ok truthLater ->
            filter isTruthCase later = truthLater ->
            Forall accounted later ->
            (forall code spec sweep,
               JsMap.get specs code = Some spec -> sweepOf spec = Ok sweep ->
               filter (generatedFor code) (item :: later) =
               if set_has seen code || negb (existsb (hasCode code) (row :: rest))
               then [] else sweep) /\
            (exists truthCases,
               mapM fromTruth (filter (fun row => negb (isNumericRow row)) (row :: rest))
                 = Ok truthCases /\
               filter isTruthCase (item :: later) = truthCases) /\
            Forall accounted (item :: later)) as Htruth.
  { intros later truthLater item Hitem Hti Hnum Hcode Hloop Hgen Hmap Hfilter Hacc.
    split; [| split].
    - intros code spec sweep Hget Hsweep. cbn [filter existsb].
      rewrite (truth_not_generated code item Hti), (Hcode code spec Hget).
      cbn [orb]. eapply Hgen; eassumption.
    - exists (item :: truthLater). cbn [filter]. rewrite Hnum, Hti. cbn [negb mapM].
      rewrite Hitem, Hmap, Hfilter. split; reflexivity.
    - constructor; [left; exact Hti | exact Hacc]. }
  destruct (normalizeCode (row_setCommandCode row)) as [rowCode |] eqn:Hcode.
  2: { (* a row without set code *)
    destruct (IH seen Hrest) as (later & Hloop & Hgen & (truthLater & Hmap & Hfilter) & Hacc).
    destruct (suiteLoop_truth_row row rest seen Hrow) as (Hnum & Hother & item & Hitem & Hti & Hstep).
    { rewrite Hcode. exact I. }
    exists (item :: later). rewrite Hstep, Hloop. split; [reflexivity |].
    eapply Htruth; eassumption. }
  destruct (JsMap.get specs rowCode) as [spec |] eqn:Hspec.
  2: { (* a row whose code has no spec *)
    destruct (IH seen Hrest) as (later & Hloop & Hgen & (truthLater & Hmap & Hfilter) & Hacc).
    destruct (suiteLoop_truth_row row rest seen Hrow) as (Hnum & Hother & item & Hitem & Hti & Hstep).
    { rewrite Hcode. exact Hspec. }
    exists (item :: later). rewrite Hstep, Hloop. split; [reflexivity |].
    eapply Htruth; eassumption. }
  (* a numeric row *)
  destruct (specs_numeric _ _ Hspec) as (HrowNumeric & rowSweep & HrowSweep & HrowAll).
  assert (isNumericRow row = true) as Hnum.
  { unfold isNumericRow. rewrite Hcode. apply set_has_In. exact HrowNumeric. }
  assert (forall code, hasCode code row = String.eqb rowCode code) as Hhas.
  { intros code. unfold hasCode. rewrite Hcode. reflexivity. }
  destruct (set_has seen rowCode) eqn:Hseen.
  - (* its sweep is already there *)
    destruct (IH seen Hrest) as (later & Hloop & Hgen & (truthLater & Hmap & Hfilter) & Hacc).
    exists later. split; [| split; [| split]].
    + cbn [suiteLoop]. rewrite Hcode, Hspec, Hseen. exact Hloop.
    + intros code spec' sweep Hget Hsweep. rewrite (Hgen code spec' sweep Hget Hsweep).
      cbn [existsb]. rewrite Hhas.
      destruct (String.eqb_spec rowCode code) as [<- | Hne]; [| reflexivity].
      rewrite Hseen. reflexivity.
    + exists truthLater. cbn [filter]. rewrite Hnum. split; assumption.
    + exact Hacc.
  - (* its sweep is pushed *)
    destruct (IH (rowCode :: seen) Hrest)
      as (later & Hloop & Hgen & (truthLater & Hmap & Hfilter) & Hacc).
    exists (rowSweep ++ later). split; [| split; [| split]].
    + cbn [suiteLoop]. rewrite Hcode, Hspec, Hseen. cbn [negb].
      change (mapM _ sweepValues) with (sweepOf spec). rewrite HrowSweep, Hloop. reflexivity.
    + intros code spec' sweep Hget Hsweep. rewrite filter_app.
      rewrite (Hgen code spec' sweep Hget Hsweep).
      cbn [existsb]. rewrite Hhas. unfold set_has at 1. cbn [existsb].
      fold (set_has seen code).
      destruct (String.eqb_spec rowCode code) as [<- | Hne].
      * rewrite String.eqb_refl, Hseen. cbn [orb negb].
        assert (spec' = spec) as -> by congruence.
        assert (sweep = rowSweep) as -> by congruence.
        rewrite app_nil_r. apply filter_all.
        eapply Forall_impl; [| exact HrowAll]. intros item [Hi _]. exact Hi.
      * destruct (String.eqb_spec code rowCode) as [E | _]; [congruence |].
        cbn [orb]. rewrite filter_none; [reflexivity |].
        eapply Forall_impl; [| exact HrowAll]. intros item [Hi _]. cbn beta.
        destruct (specs_numeric _ _ Hget) as [HcodeNumeric _].
        eapply generatedFor_other; [exact HrowNumeric | exact HcodeNumeric | exact Hne | exact Hi].
    + exists truthLater. cbn [filter]. rewrite Hnum. cbn [negb]. split; [exact Hmap |].
      rewrite filter_app, filter_none; [exact Hfilter |].
      eapply Forall_impl; [| exact HrowAll]. intros item [Hi _]. cbn beta.
      eapply generated_not_truth. exact Hi.
    + apply Forall_app. split; [| exact Hacc].
      eapply Forall_impl; [| exact HrowAll]. intros item [Hi _].
      right. exists rowCode. split; [congruence |]. split; assumption.
Qed.

End SuiteLoop.

(** C6, as stated, fails for a case that is disruptive without being a
    power case: the standby query (text "standby", code 0xC005) stays in
    front of the plain query that follows it in the truth data. *)
Lemma disruptive_case_is_not_moved :
  exists first second,
    deriveNumericSpecs (snd (indexRows [standbyQueryRow; sourceQueryRow])) = Ok [] /\
    buildSuiteCases [standbyQueryRow; sourceQueryRow] [] = Ok [first; second] /\
    case_isDisruptiveCommand first = true /\ case_isPowerCommand first = false /\
    case_isDisruptiveCommand second = false /\ case_isPowerCommand second = false.
Proof.
  do 2 eexists. split; [reflexivity |]. split; [vm_compute; reflexivity |].
  repeat split.
Qed.

(** The cases of a suite: the sweeps, the truth cases and the order by the
    power flag. *)
Lemma suite_cases_parts : forall rows specs,
  deriveNumericSpecs (snd (indexRows rows)) = Ok specs ->
  Forall rowParses rows ->
  exists cases,
    buildSuiteCases rows specs = Ok cases /\
    (forall code, In code NUMERIC_SET_CODES ->
       match find (hasCode code) rows with
       | Some baseRow =>
           exists spec sweep,
             JsMap.get specs code = Some spec /\ spec_baseRow spec = baseRow /\
             sweepOf spec = Ok sweep /\ List.length sweep = 101%nat /\
             map case_generatedValue sweep = map Some sweepValues /\
             filter (generatedFor code) cases = sweep
       | None => filter (generatedFor code) cases = []
       end) /\
    (exists truthCases,
       mapM (fun row => buildCaseFromTruthRow row from_truth)
         (filter (fun row => negb (isNumericRow row)) rows) = Ok truthCases /\
       filter isTruthCase cases = powerLast truthCases) /\
    Forall (fun item => isTruthCase item = true
                        \/ exists code, In code NUMERIC_SET_CODES
                                        /\ generatedFor code item = true) cases /\
    (exists normal power,
       cases = normal ++ power /\
       Forall (fun item => case_isPowerCommand item = false) normal /\
       Forall (fun item => case_isPowerCommand item = true) power).
Proof.
  intros rows specs Hderive Hparse.
  rewrite Forall_forall in Hparse.
  (* the base row of a spec is a row of the truth data *)
  assert (forall code spec, JsMap.get specs code = Some spec ->
            find (hasCode code) rows = Some (spec_baseRow spec)) as Hbase.
  { intros code spec Hget. pose proof (deriveNumericSpecs_get rows specs code Hderive) as H.
    destruct (find (hasCode code) rows) as [baseRow |]; [| congruence].
    destruct (set_has NUMERIC_SET_CODES code); [| congruence].
    destruct H as (spec' & Hget' & <-). congruence. }
  assert (forall code spec, JsMap.get specs code = Some spec ->
            In code NUMERIC_SET_CODES /\
            exists sweep,
              sweepOf spec = Ok sweep /\ List.length sweep = 101%nat /\
              map case_generatedValue sweep = map Some sweepValues /\
              Forall (fun item => generatedFor code item = true
                                  /\ case_isPowerCommand item = false) sweep) as Hsweep.
  { intros code spec Hget.
    destruct (deriveNumericSpecs_sound _ _ _ _ Hderive Hget) as (template & Hd & Hin & _).
    split; [exact Hin |].
    destruct (Hparse (spec_baseRow spec)) as [_ [reply Hreply]].
    { apply Hbase in Hget. apply find_some in Hget. apply Hget. }
    exact (sweepOf_ok spec code template reply Hd Hreply). }
  destruct (suiteLoop_spec specs) with (rows := rows) (seen := @nil string)
    as (loop & Hloop & Hgen & (truthCases & Hmap & Htruth) & Hacc).
  { intros code spec Hget. destruct (Hsweep code spec Hget) as (Hin & sweep & Hs & _ & _ & Hall).
    split; [exact Hin |]. exists sweep. split; assumption. }
  { apply Forall_forall. intros row Hrow. split; [apply Hparse; exact Hrow |].
    intros code Hcode Hnum.
    pose proof (deriveNumericSpecs_get rows specs code Hderive) as H.
    destruct (find (hasCode code) rows) as [baseRow |] eqn:Hfind.
    - apply set_has_In in Hnum. rewrite Hnum in H. destruct H as (spec & -> & _). discriminate.
    - exfalso. apply (find_none _ _ Hfind) in Hrow.
      unfold hasCode in Hrow. rewrite Hcode in Hrow. cbn in Hrow.
      rewrite String.eqb_refl in Hrow. discriminate. }
  exists (powerLast loop). unfold buildSuiteCases. rewrite Hloop. cbn [bind].
  split; [reflexivity |]. split; [| split; [| split]].
  - intros code Hnum. rewrite filter_powerLast.
    pose proof (deriveNumericSpecs_get rows specs code Hderive) as H.
    destruct (find (hasCode code) rows) as [baseRow |] eqn:Hfind.
    + apply set_has_In in Hnum. rewrite Hnum in H. destruct H as (spec & Hget & Hrow).
      destruct (Hsweep code spec Hget) as (_ & sweep & Hs & Hlen & Hvalues & Hall).
      exists spec, sweep. do 5 (split; [assumption |]).
      rewrite (Hgen code spec sweep Hget Hs).
      replace (existsb (hasCode code) rows) with true.
      2: { symmetry. apply existsb_exists. apply find_some in Hfind. eauto. }
      cbn [set_has existsb orb negb]. apply powerLast_no_power.
      eapply Forall_impl; [| exact Hall]. intros item [_ Hp]. exact Hp.
    + rewrite filter_none; [reflexivity |].
      eapply Forall_impl; [| exact Hacc]. intros item [Hi | (code' & Hget & Hnum' & Hi)]; cbn beta.
      * apply truth_not_generated. exact Hi.
      * eapply generatedFor_other; [exact Hnum' | exact Hnum | | exact Hi].
        intros ->. contradiction.
  - exists truthCases. split; [exact Hmap |]. rewrite filter_powerLast, Htruth. reflexivity.
  - apply Forall_forall. intros item Hitem. apply (proj1 (In_powerLast _ _)) in Hitem.
    rewrite Forall_forall in Hacc. destruct (Hacc item Hitem) as [Hi | (code & _ & Hnum & Hi)];
      [left; exact Hi | right; eauto].
  - exists (filter (fun item => negb (case_isPowerCommand item)) loop),
           (filter (fun item => case_isPowerCommand item) loop).
    split; [reflexivity |]. split; apply Forall_forall; intros item Hitem;
      apply filter_In in Hitem as [_ Hitem].
    + destruct (case_isPowerCommand item); [discriminate | reflexivity].
    + exact Hitem.
Qed.

Lemma mapM_In : forall (A B : Type) (f : A -> result B) (l : list A) (bs : list B) (b : B),
  mapM f l = Ok bs -> In b bs -> exists a, In a l /\ f a = Ok b.
Proof.
  intros A B f. induction l as [| a rest IH]; intros bs b H Hin.
  - injection H as <-. contradiction.
  - cbn [mapM] in H. destruct (f a) as [b0 |] eqn:Ea; [| discriminate].
    cbn [bind] in H. destruct (mapM f rest) as [bs0 |] eqn:Erest; [| discriminate].
    injection H as <-. destruct Hin as [<- | Hin].
    + exists a. split; [now left | exact Ea].
    + destruct (IH bs0 b eq_refl Hin) as (a' & Ha' & Hf). exists a'. split; [now right | exact Hf].
Qed.

(** The power flag of a case built from a truth row tells that the set code
    of the case is a power code. *)
Lemma truth_case_power_code : forall row source item,
  buildCaseFromTruthRow row source = Ok item ->
  (case_isPowerCommand item = true <-> hasPowerCode item).
Proof.
  intros row source item H. unfold buildCaseFromTruthRow in H.
  destruct (parseHexBytes (row_requestHex row)); [| discriminate]. cbn [bind] in H.
  destruct (parseOptionalHex (row_replyHex row)); [| discriminate]. cbn [bind] in H.
  injection H as <-. unfold hasPowerCode, isPowerCommand.
  cbn [case_isPowerCommand case_setCode].
  destruct (normalizeCode (row_setCommandCode row)) as [code |].
  - rewrite set_has_In. unfold DISRUPTIVE_SET_CODES. split.
    + intros Hin. exists code. split; [reflexivity | exact Hin].
    + intros (code' & Hcode & Hin). injection Hcode as ->. exact Hin.
  - split; [discriminate |]. intros (code & Hcode & _). discriminate.
Qed.

(** A synthesized case has a numeric set code, which is no power code. *)
Lemma generated_case_no_power_code : forall code item,
  In code NUMERIC_SET_CODES -> generatedFor code item = true -> ~ hasPowerCode item.
Proof.
  intros code item Hnum Hgen (power & Hcode & Hpower).
  unfold generatedFor in Hgen. apply andb_prop in Hgen as [_ Hset].
  apply opt_string_eqb_eq in Hset. rewrite Hset in Hcode.
  unfold NUMERIC_SET_CODES in Hnum. cbn [In] in Hnum, Hpower.
  repeat (destruct Hnum as [<- | Hnum];
          [vm_compute in Hcode; injection Hcode as <-;
           repeat (destruct Hpower as [Hpower | Hpower]; [discriminate Hpower |]);
           contradiction |]).
  contradiction.
Qed.

Lemma mapM_Forall2_In : forall (A B : Type) (f : A -> result B) (P : A -> B -> Prop)
    (l : list A) (bs : list B),
  mapM f l = Ok bs ->
  (forall a b, In a l -> f a = Ok b -> P a b) ->
  Forall2 P l bs.
Proof.
  intros A B f P. induction l as [| a rest IH]; intros bs H HP.
  - injection H as <-. constructor.
  - cbn [mapM] in H. destruct (f a) as [b |] eqn:Ea; [| discriminate].
    cbn [bind] in H. destruct (mapM f rest) as [bs0 |] eqn:Erest; [| discriminate].
    injection H as <-. constructor.
    + apply HP; [now left | exact Ea].
    + apply IH; [reflexivity |]. intros a' b' Hin. apply HP. now right.
Qed.

Lemma sweepValues_range : forall value, In value sweepValues -> 0 <= value <= 100.
Proof.
  intros value H. unfold sweepValues in H. apply in_map_iff in H as (n & <- & Hn).
  apply in_seq in Hn. lia.
Qed.

(** C6 (amended): in suite mode, for each of the eight numeric set codes
    that a truth row carries, exactly the 101 cases for the values 0..100 are
    synthesized, once, from the first row with that code (and none for a code
    no row carries): the request of the case for a value is the request of
    that row with the value at offset 38 and its checksum byte at offset 39.
    Every other truth row yields exactly one case; and all power cases, which
    are the cases whose set code is C003, C007 or C009, come after all other
    cases.  The text-derived disruptive flag plays no part in the order. *)
Theorem suite_cases : forall rows specs,
  deriveNumericSpecs (snd (indexRows rows)) = Ok specs ->
  Forall rowParses rows ->
  exists cases,
    buildSuiteCases rows specs = Ok cases /\
    (forall code, In code NUMERIC_SET_CODES ->
       match find (hasCode code) rows with
       | Some baseRow =>
           exists spec sweep template,
             JsMap.get specs code = Some spec /\ spec_baseRow spec = baseRow /\
             sweepOf spec = Ok sweep /\ List.length sweep = 101%nat /\
             map case_generatedValue sweep = map Some sweepValues /\
             parseHexBytes (row_requestHex baseRow) = Ok template /\
             Forall2 (synthesizedFrom code template) sweepValues sweep /\
             filter (generatedFor code) cases = sweep
       | None => filter (generatedFor code) cases = []
       end) /\
    (exists truthCases,
       mapM (fun row => buildCaseFromTruthRow row from_truth)
         (filter (fun row => negb (isNumericRow row)) rows) = Ok truthCases /\
       filter isTruthCase cases = powerLast truthCases) /\
    Forall (fun item => isTruthCase item = true
                        \/ exists code, In code NUMERIC_SET_CODES
                                        /\ generatedFor code item = true) cases /\
    (exists normal power,
       cases = normal ++ power /\
       Forall (fun item => case_isPowerCommand item = false /\ ~ hasPowerCode item) normal /\
       Forall (fun item => case_isPowerCommand item = true /\ hasPowerCode item) power).
Proof.
  intros rows specs Hderive Hparse.
  destruct (suite_cases_parts rows specs Hderive Hparse)
    as (cases & Hbuild & Hnumeric & Htruth & Hkinds & normal & power & Hsplit & Hnormal & Hpower).
  exists cases. split; [exact Hbuild |].
  split; [| do 2 (split; [assumption |])].
  { (* the requests of a sweep *)
    intros code Hnum. specialize (Hnumeric code Hnum).
    destruct (find (hasCode code) rows) as [baseRow |]; [| exact Hnumeric].
    destruct Hnumeric as (spec & sweep & Hget & Hrow & Hsweep & Hlen & Hvalues & Hfilter).
    destruct (deriveNumericSpecs_sound _ _ _ _ Hderive Hget) as (template & Hd & _).
    destruct Hd as (_ & _ & Htemplate & _).
    exists spec, sweep, template. rewrite <- Hrow.
    do 6 (split; [first [assumption | reflexivity] |]). split; [| exact Hfilter].
    unfold sweepOf in Hsweep.
    apply (mapM_Forall2_In _ _ _ _ _ _ Hsweep). intros value item Hvalue Hitem.
    destruct (buildGeneratedNumericCase_request _ _ _ _ _ _ _ Hderive Hget
                (sweepValues_range value Hvalue) Hitem) as (template' & Htemplate' & Hrequest).
    rewrite Htemplate in Htemplate'. injection Htemplate' as <-. exact Hrequest. }
  (* the flag of every case tells whether its set code is a power code *)
  assert (Hflag : forall item, In item cases ->
            (case_isPowerCommand item = true <-> hasPowerCode item)).
  { intros item Hitem. rewrite Forall_forall in Hkinds.
    destruct (Hkinds item Hitem) as [Hi | (code & Hnum & Hgen)].
    - destruct Htruth as (truthCases & Hmap & Hfilter).
      assert (Hin : In item (powerLast truthCases))
        by (rewrite <- Hfilter; apply filter_In; split; assumption).
      apply (proj1 (In_powerLast _ _)) in Hin.
      destruct (mapM_In _ _ _ _ _ _ Hmap Hin) as (row & _ & Hrow).
      exact (truth_case_power_code row from_truth item Hrow).
    - pose proof (generated_case_no_power_code code item Hnum Hgen) as Hno.
      assert (Hfalse : case_isPowerCommand item = false).
      { assert (Hin : In item (filter (generatedFor code) cases))
          by (apply filter_In; split; assumption).
        specialize (Hnumeric code Hnum).
        destruct (find (hasCode code) rows) as [baseRow |].
        - destruct Hnumeric as (spec & sweep & Hget & _ & Hsweep & _ & _ & Hfilter).
          rewrite Hfilter in Hin. unfold sweepOf in Hsweep.
          destruct (mapM_In _ _ _ _ _ _ Hsweep Hin) as (value & _ & Hitem').
          unfold buildGeneratedNumericCase in Hitem'.
          destruct (parseHexBytes (row_requestHex (spec_baseRow spec))); [| discriminate].
          cbn [bind] in Hitem'.
          destruct (parseOptionalHex (row_replyHex (spec_baseRow spec))); [| discriminate].
          injection Hitem' as <-. reflexivity.
        - rewrite Hnumeric in Hin. contradiction. }
      rewrite Hfalse. split; [discriminate | intros H; now elim Hno]. }
  exists normal, power. split; [exact Hsplit |].
  split; apply Forall_forall; intros item Hitem.
  - rewrite Forall_forall in Hnormal. pose proof (Hnormal item Hitem) as Hf.
    split; [exact Hf |]. intros Hcode.
    apply (Hflag item) in Hcode; [congruence |]. rewrite Hsplit. apply in_or_app. now left.
  - rewrite Forall_forall in Hpower. pose proof (Hpower item Hitem) as Hf.
    split; [exact Hf |]. apply (Hflag item); [| exact Hf].
    rewrite Hsplit. apply in_or_app. now right.
Qed.

Lemma suite_cases_witness :
  exists specs cases,
    deriveNumericSpecs (snd (indexRows [sleepRow; contrastRow; sourceQueryRow; contrastRow]))
      = Ok specs /\
    buildSuiteCases [sleepRow; contrastRow; sourceQueryRow; contrastRow] specs = Ok cases /\
    List.length (filter (generatedFor "C217") cases) = 101%nat /\
    List.length (filter isTruthCase cases) = 2%nat /\
    option_map case_isPowerCommand (hd_error (rev cases)) = Some true /\
    option_map case_setCode (hd_error (rev cases)) = Some (Some "0xC003").
Proof.
  eexists.
  match goal with
  | |- exists cases, ?D = Ok ?s /\ _ =>
      assert (H1 : D = Ok s) by (vm_compute; reflexivity)
  end.
  destruct (suite_cases [sleepRow; contrastRow; sourceQueryRow; contrastRow] _ H1)
    as (cases & Hbuild & Hnumeric & (truthCases & Hmap & Htruth) & _ & _).
  - repeat constructor; eexists; vm_compute; reflexivity.
  - exists cases. split; [exact H1 |]. split; [exact Hbuild |].
    specialize (Hnumeric "C217").
    change (find (hasCode "C217") [sleepRow; contrastRow; sourceQueryRow; contrastRow])
      with (Some contrastRow) in Hnumeric.
    destruct Hnumeric as (spec & sweep & template & _ & _ & _ & Hlen & _ & _ & _ & Hfilter).
    { vm_compute. tauto. }
    split; [rewrite Hfilter; exact Hlen |].
    assert (Hcases : buildSuiteCases [sleepRow; contrastRow; sourceQueryRow; contrastRow]
                       [("C217", {| spec_setCode := "C217"; spec_valueIndex := 38;
                                    spec_checksumIndex := 39; spec_baseRow := contrastRow;
                                    spec_queryCode := Some "C215"; spec_queryRow := None |})]
                     = Ok cases) by exact Hbuild.
    vm_compute in Hcases. injection Hcases as <-.
    repeat split; reflexivity.
Defined.

(** ** Command codes and hex text *)

(** X1: [normalizeCode] and [toCode] reach a fixed point after one step. *)
Theorem normalizeCode_toCode_idempotent : forall input,
  normalizeCode (normalizeCode input) = normalizeCode input /\
  normalizeCode (toCode input) = normalizeCode input /\
  toCode (toCode input) = toCode input /\
  toCode (normalizeCode input) = toCode input.
Proof.
  intros input. unfold toCode.
  destruct (normalizeCode input) as [code |] eqn:E.
  - destruct (normalized_code_shape _ _ E) as [Hlen Hhex].
    rewrite normalizeCode_0x, normalizeCode_fixed by assumption. repeat split.
  - repeat split.
Qed.

(** X2: a code that [normalizeCode] returns has at least four characters,
    all of them upper-case hex digits, and [toCode] returns that code
    behind the prefix 0x; [toCode] returns nothing exactly when
    [normalizeCode] returns nothing. *)
Theorem normalizeCode_shape : forall input,
  match normalizeCode input with
  | Some code =>
      (4 <= String.length code)%nat /\ all_chars is_upper_hex code = true /\
      toCode input = Some ("0x" +++ code)
  | None => toCode input = None
  end.
Proof.
  intros input. unfold toCode.
  destruct (normalizeCode input) as [code |] eqn:E; [| reflexivity].
  destruct (normalized_code_shape _ _ E) as [Hlen Hhex]. repeat split; assumption.
Qed.

(** ** Hex text *)

Lemma upper_hex_In : forall c, is_upper_hex c = true -> In c upperHexDigits.
Proof.
  intros [[] [] [] [] [] [] [] []]; vm_compute; intros H;
    first [discriminate | tauto].
Qed.

Lemma upper_hex_not_space : forall c,
  is_upper_hex c = true -> Js.is_space c = false /\ Ascii.eqb c " " = false.
Proof.
  intros c H. apply upper_hex_In in H. unfold upperHexDigits in H. cbn [In] in H.
  repeat (destruct H as [<- | H]; [split; reflexivity |]). contradiction.
Qed.

Lemma hex_text_cases : forall c,
  is_hex_text c = true -> is_upper_hex c = true \/ c = " "%char.
Proof.
  intros c H. unfold is_hex_text in H. apply orb_prop in H as [H | H]; [now left |].
  right. now apply Ascii.eqb_eq.
Qed.

Lemma hex_text_fixed : forall c,
  is_hex_text c = true ->
  is_x c = false /\ (if Js.is_hex c then c else " "%char) = c /\ Js.upper_char c = c.
Proof.
  intros c H. destruct (hex_text_cases _ H) as [Hc | ->].
  - destruct (upper_hex_fixed _ Hc) as (-> & -> & ->). repeat split.
  - repeat split.
Qed.

Lemma hex_text_remove_0x : forall s,
  all_chars is_hex_text s = true -> remove_all_0x s = s.
Proof.
  induction s as [| c1 s IH]; [reflexivity |]. intros H.
  cbn [all_chars] in H. apply andb_prop in H as [H1 Hs].
  cbn [remove_all_0x]. destruct s as [| c2 rest]; [reflexivity |].
  assert (Hx : is_x c2 = false).
  { cbn [all_chars] in Hs. apply andb_prop in Hs as [H2 _].
    now destruct (hex_text_fixed _ H2). }
  rewrite Hx, andb_false_r. now rewrite (IH Hs).
Qed.

Lemma hex_text_map : forall s,
  all_chars is_hex_text s = true ->
  Js.map_chars (fun c => if Js.is_hex c then c else " "%char) s = s.
Proof.
  induction s as [| c s IH]; [reflexivity |]. intros H.
  cbn [all_chars] in H. apply andb_prop in H as [Hc Hs].
  cbn [Js.map_chars]. destruct (hex_text_fixed _ Hc) as (_ & -> & _). now rewrite IH.
Qed.

Lemma hex_text_ascii : forall s,
  all_chars is_hex_text s = true -> all_chars is_ascii s = true.
Proof.
  intros s H. apply (all_chars_weaken is_hex_text is_ascii s); [| exact H].
  intros c Hc. destruct (hex_text_cases _ Hc) as [Hu | ->]; [| reflexivity].
  apply hex_is_ascii. now destruct (upper_hex_fixed c Hu).
Qed.

Lemma hex_text_upper : forall s,
  all_chars is_hex_text s = true -> Js.toUpperCase s = s.
Proof.
  intros s H. rewrite toUpperCase_ascii by now apply hex_text_ascii.
  induction s as [| c s IH]; [reflexivity |].
  cbn [all_chars] in H. apply andb_prop in H as [Hc Hs].
  unfold asciiUpper in *. cbn [Js.map_chars].
  destruct (hex_text_fixed _ Hc) as (_ & _ & ->). now rewrite IH.
Qed.

Lemma hex_pair_inv : forall token,
  is_hex_pair token = true ->
  exists c1 c2, token = String c1 (String c2 "")
                /\ is_upper_hex c1 = true /\ is_upper_hex c2 = true.
Proof.
  intros [| c1 [| c2 [| c3 rest]]] H; try discriminate.
  cbn [is_hex_pair] in H. apply andb_prop in H as [H1 H2]. eauto.
Qed.

(** The text of a list of hex pairs. *)
Lemma hex_pairs_chars : forall tokens,
  Forall (fun t => is_hex_pair t = true) tokens ->
  all_chars is_hex_text (Js.join " " tokens) = true.
Proof.
  induction tokens as [| token tokens IH]; intros H; [reflexivity |].
  inversion H as [| ? ? Ht Hrest]; subst.
  destruct (hex_pair_inv _ Ht) as (c1 & c2 & -> & H1 & H2).
  assert (Htoken : all_chars is_hex_text (String c1 (String c2 "")) = true).
  { cbn [all_chars]. unfold is_hex_text. now rewrite H1, H2. }
  destruct tokens as [| next tokens]; [exact Htoken |].
  rewrite join_cons, !all_chars_app, Htoken, (IH Hrest). reflexivity.
Qed.

Lemma hex_pairs_end : forall tokens,
  tokens <> [] -> Forall (fun t => is_hex_pair t = true) tokens ->
  exists s c, Js.join " " tokens = s +++ String c "" /\ is_upper_hex c = true.
Proof.
  induction tokens as [| token tokens IH]; intros Hne H; [contradiction |].
  inversion H as [| ? ? Ht Hrest]; subst.
  destruct (hex_pair_inv _ Ht) as (c1 & c2 & -> & H1 & H2).
  destruct tokens as [| next tokens].
  - exists (String c1 ""), c2. split; [reflexivity | exact H2].
  - destruct (IH ltac:(discriminate) Hrest) as (s & c & E & Hc).
    exists (String c1 (String c2 "") +++ " " +++ s), c.
    split; [| exact Hc]. rewrite join_cons, E, !append_assoc. reflexivity.
Qed.

Lemma hex_pairs_collapse : forall tokens in_run,
  tokens <> [] -> Forall (fun t => is_hex_pair t = true) tokens ->
  collapse_spaces in_run (Js.join " " tokens) = Js.join " " tokens.
Proof.
  induction tokens as [| token tokens IH]; intros in_run Hne H; [contradiction |].
  inversion H as [| ? ? Ht Hrest]; subst.
  destruct (hex_pair_inv _ Ht) as (c1 & c2 & -> & H1 & H2).
  destruct (upper_hex_not_space _ H1) as [S1 _].
  destruct (upper_hex_not_space _ H2) as [S2 _].
  destruct tokens as [| next tokens].
  - cbn [Js.join collapse_spaces]. now rewrite S1, S2.
  - rewrite join_cons. cbn [append collapse_spaces]. rewrite S1, S2.
    change (Js.is_space " ") with true. cbv iota.
    now rewrite (IH true ltac:(discriminate) Hrest).
Qed.

(** A text of hex pairs is in normal form. *)
Lemma hex_pairs_normal : forall tokens,
  tokens <> [] -> Forall (fun t => is_hex_pair t = true) tokens ->
  normalizeHex (Js.join " " tokens) = Js.join " " tokens.
Proof.
  intros tokens Hne H. unfold normalizeHex.
  pose proof (hex_pairs_chars _ H) as Hchars.
  rewrite hex_text_remove_0x, hex_text_map by exact Hchars.
  assert (Htrim : Js.trim (Js.join " " tokens) = Js.join " " tokens).
  { rewrite trim_ascii by now apply hex_text_ascii. unfold asciiTrim.
    assert (Hstart : asciiTrimStart (Js.join " " tokens) = Js.join " " tokens).
    { destruct tokens as [| token tokens]; [contradiction |].
      inversion H as [| ? ? Ht Hrest]; subst.
      destruct (hex_pair_inv _ Ht) as (c1 & c2 & -> & H1 & H2).
      destruct (upper_hex_not_space _ H1) as [S1 _].
      destruct tokens; cbn [Js.join append asciiTrimStart]; now rewrite S1. }
    rewrite Hstart.
    destruct (hex_pairs_end _ Hne H) as (s & c & -> & Hc).
    apply asciiTrimEnd_ends. now destruct (upper_hex_not_space _ Hc). }
  rewrite Htrim, hex_pairs_collapse by assumption.
  now apply hex_text_upper.
Qed.

(** Every byte is written as a hex pair that reads back as the byte. *)
Lemma byteToHex_pair : forall b,
  is_byte b -> is_hex_pair (byteToHex b) = true /\ parseHexToken (byteToHex b) = Ok b.
Proof.
  assert (forallb (fun b =>
            is_hex_pair (byteToHex b)
            && match parseHexToken (byteToHex b) with
               | Ok v => v =? b
               | Throw _ => false
               end) (bytesBelow 256) = true) as H by (vm_compute; reflexivity).
  intros b Hb. rewrite forallb_forall in H. specialize (H b (bytesBelow_In 256 b Hb)).
  apply andb_prop in H as [Hpair Hparse]. split; [exact Hpair |].
  destruct (parseHexToken (byteToHex b)) as [v |]; [| discriminate].
  apply Z.eqb_eq in Hparse. now subst.
Qed.

(** Every hex pair reads as a byte that is written as the pair. *)
Lemma parseHexToken_pair : forall c1 c2,
  is_upper_hex c1 = true -> is_upper_hex c2 = true ->
  exists v, parseHexToken (String c1 (String c2 "")) = Ok v
            /\ is_byte v /\ byteToHex v = String c1 (String c2 "").
Proof.
  assert (forallb (fun c1 => forallb (fun c2 =>
            match parseHexToken (String c1 (String c2 "")) with
            | Ok v => (0 <=? v) && (v <? 256)
                      && String.eqb (byteToHex v) (String c1 (String c2 ""))
            | Throw _ => false
            end) upperHexDigits) upperHexDigits = true) as H by (vm_compute; reflexivity).
  intros c1 c2 H1 H2. rewrite forallb_forall in H.
  specialize (H c1 (upper_hex_In _ H1)). rewrite forallb_forall in H.
  specialize (H c2 (upper_hex_In _ H2)).
  destruct (parseHexToken (String c1 (String c2 ""))) as [v |]; [| discriminate].
  apply andb_prop in H as [H Heq]. apply andb_prop in H as [Hlo Hhi].
  exists v. split; [reflexivity |]. split; [unfold is_byte; lia |].
  now apply String.eqb_eq.
Qed.

Lemma hex_pair_chars : forall token,
  is_hex_pair token = true ->
  all_chars (fun c => negb (Ascii.eqb c " ")) token = true.
Proof.
  intros token H. destruct (hex_pair_inv _ H) as (c1 & c2 & -> & H1 & H2).
  destruct (upper_hex_not_space _ H1) as [_ E1].
  destruct (upper_hex_not_space _ H2) as [_ E2].
  cbn [all_chars]. now rewrite E1, E2.
Qed.

Lemma bytesToHex_truthy : forall b bytes,
  is_byte b -> Js.truthy (bytesToHex (b :: bytes)) = true.
Proof.
  intros b bytes Hb. destruct (byteToHex_pair b Hb) as [Hpair _].
  destruct (hex_pair_inv _ Hpair) as (c1 & c2 & E & _).
  unfold bytesToHex. cbn [map]. rewrite E. destruct (map byteToHex bytes); reflexivity.
Qed.

Lemma mapM_parseHexToken_bytes : forall bytes,
  Forall is_byte bytes -> mapM parseHexToken (map byteToHex bytes) = Ok bytes.
Proof.
  induction bytes as [| b bytes IH]; intros H; [reflexivity |].
  inversion H as [| ? ? Hb Hrest]; subst. cbn [map mapM].
  destruct (byteToHex_pair b Hb) as [_ ->]. cbn [bind]. now rewrite (IH Hrest).
Qed.

(** X3: a list of bytes that is written as hex text reads back as the same
    list. *)
Theorem parseHexBytes_bytesToHex : forall bytes,
  Forall is_byte bytes -> parseHexBytes (bytesToHex bytes) = Ok bytes.
Proof.
  intros [| b bytes] H; [reflexivity |].
  assert (Hpairs : Forall (fun t => is_hex_pair t = true) (map byteToHex (b :: bytes))).
  { apply Forall_map. revert H. apply Forall_impl. intros x Hx.
    now destruct (byteToHex_pair x Hx). }
  unfold parseHexBytes, bytesToHex.
  rewrite hex_pairs_normal by (try exact Hpairs; discriminate).
  change (Js.join " " (map byteToHex (b :: bytes))) with (bytesToHex (b :: bytes)).
  rewrite bytesToHex_truthy by (now inversion H). cbn [negb]. unfold bytesToHex.
  rewrite split_join.
  - now apply mapM_parseHexToken_bytes.
  - discriminate.
  - revert Hpairs. apply Forall_impl. intros t. apply hex_pair_chars.
Qed.

Lemma parseHexBytes_bytesToHex_witness :
  parseHexBytes (bytesToHex [0; 10; 255]) = Ok [0; 10; 255].
Proof.
  apply parseHexBytes_bytesToHex.
  repeat constructor; unfold is_byte; lia.
Defined.

(** *** The normal form of any text *)

Lemma collapse_spaces_chars : forall (p : ascii -> bool) s in_run,
  p " "%char = true -> all_chars p s = true -> all_chars p (collapse_spaces in_run s) = true.
Proof.
  intros p s in_run Hsp. revert in_run. induction s as [| c s IH]; intros in_run H; [reflexivity |].
  cbn [all_chars] in H. apply andb_prop in H as [Hc Hs]. cbn [collapse_spaces].
  destruct (Js.is_space c).
  - destruct in_run; [now apply IH |]. cbn [all_chars]. rewrite Hsp. now apply IH.
  - cbn [all_chars]. rewrite Hc. now apply IH.
Qed.

Lemma normalizeHex_chars : forall input, all_chars is_hex_text (normalizeHex input) = true.
Proof.
  intros input. unfold normalizeHex.
  set (hs := fun c => Js.is_hex c || Ascii.eqb c " ").
  assert (Hmap : forall s,
            all_chars hs (Js.map_chars (fun c => if Js.is_hex c then c else " "%char) s) = true).
  { induction s as [| c s IH]; [reflexivity |]. cbn [Js.map_chars all_chars].
    rewrite IH, andb_true_r. unfold hs. destruct (Js.is_hex c) eqn:E; [now rewrite E | reflexivity]. }
  assert (Hascii : forall s, all_chars hs s = true -> all_chars is_ascii s = true).
  { intros s. apply all_chars_weaken. intros c Hc. unfold hs in Hc.
    apply orb_prop in Hc as [Hc | Hc]; [now apply hex_is_ascii |].
    apply Ascii.eqb_eq in Hc. subst c. reflexivity. }
  assert (Hup : forall s, all_chars hs s = true -> all_chars is_hex_text (Js.toUpperCase s) = true).
  { intros s H. rewrite toUpperCase_ascii by now apply Hascii.
    induction s as [| c s IH]; [reflexivity |].
    cbn [all_chars] in H. apply andb_prop in H as [Hc Hs].
    unfold asciiUpper in *. cbn [Js.map_chars all_chars]. rewrite (IH Hs), andb_true_r.
    unfold hs in Hc. unfold is_hex_text. apply orb_prop in Hc as [Hc | Hc].
    - now rewrite (upper_char_hex _ Hc).
    - apply Ascii.eqb_eq in Hc. subst c. reflexivity. }
  apply Hup, collapse_spaces_chars; [reflexivity |].
  apply all_chars_trim; [apply Hascii |]; apply Hmap.
Qed.

(** The tokens of a normal form consist of upper-case hex digits. *)
Lemma normalizeHex_tokens : forall input,
  Forall (fun token => all_chars is_upper_hex token = true)
    (Js.split " " (normalizeHex input)).
Proof.
  intros input.
  pose proof (split_acc_chars is_hex_text " " (normalizeHex input) ""
                (normalizeHex_chars input) eq_refl) as H.
  unfold Js.split. revert H. apply Forall_impl. intros token.
  apply all_chars_weaken. intros c Hc. apply andb_prop in Hc as [Hc Hne].
  destruct (hex_text_cases _ Hc) as [Hhex | ->]; [exact Hhex | discriminate].
Qed.

(** What [parseHexToken] makes of a token of upper-case hex digits. *)
Lemma parseHexToken_hex : forall token,
  all_chars is_upper_hex token = true ->
  match parseHexToken token with
  | Ok v => is_byte v /\ byteToHex v = token
  | Throw e => e = InvalidHexToken token /\ String.length token <> 2%nat
  end.
Proof.
  intros [| c1 [| c2 [| c3 rest]]] H; cbn [all_chars] in H.
  - split; [reflexivity | discriminate].
  - split; [reflexivity | discriminate].
  - apply andb_prop in H as [H1 H]. apply andb_prop in H as [H2 _].
    destruct (parseHexToken_pair c1 c2 H1 H2) as (v & -> & Hv & Htext). now split.
  - split; [reflexivity | discriminate].
Qed.

Lemma mapM_parseHexToken_hex : forall tokens,
  Forall (fun token => all_chars is_upper_hex token = true) tokens ->
  match mapM parseHexToken tokens with
  | Ok bytes => Forall is_byte bytes /\ map byteToHex bytes = tokens
  | Throw e => exists token,
      In token tokens /\ e = InvalidHexToken token /\ String.length token <> 2%nat
  end.
Proof.
  induction tokens as [| token tokens IH]; intros H.
  - split; [constructor | reflexivity].
  - inversion H as [| ? ? Ht Hrest]; subst. cbn [mapM].
    pose proof (parseHexToken_hex _ Ht) as Hhead.
    destruct (parseHexToken token) as [v | e]; cbn [bind].
    + specialize (IH Hrest). destruct (mapM parseHexToken tokens) as [bytes | e]; cbn [bind].
      * destruct Hhead as [Hv Htext], IH as [Hbytes Hmap].
        split; [now constructor | cbn [map]; congruence].
      * destruct IH as (bad & Hin & He & Hlen). exists bad. split; [now right | now split].
    + destruct Hhead as [-> Hlen]. exists token. split; [now left | now split].
Qed.

(** X4: [parseHexBytes] returns bytes, and it throws only for a token that
    does not have two characters. *)
Theorem parseHexBytes_outcome : forall input,
  match parseHexBytes input with
  | Ok bytes => Forall is_byte bytes
  | Throw e => exists token,
      In token (Js.split " " (normalizeHex input))
      /\ e = InvalidHexToken token /\ String.length token <> 2%nat
  end.
Proof.
  intros input. unfold parseHexBytes.
  destruct (Js.truthy (normalizeHex input)); cbn [negb]; [| constructor].
  pose proof (mapM_parseHexToken_hex _ (normalizeHex_tokens input)) as H.
  destruct (mapM parseHexToken (Js.split " " (normalizeHex input))); [apply H | exact H].
Qed.

(** X5: the bytes that [parseHexBytes] reads are written by [bytesToHex] as
    the normal form of the text. *)
Theorem bytesToHex_parseHexBytes : forall input bytes,
  parseHexBytes input = Ok bytes -> bytesToHex bytes = normalizeHex input.
Proof.
  intros input bytes. unfold parseHexBytes.
  destruct (Js.truthy (normalizeHex input)) eqn:E; cbn [negb].
  - intros H. pose proof (mapM_parseHexToken_hex _ (normalizeHex_tokens input)) as Htokens.
    rewrite H in Htokens. destruct Htokens as [_ Hmap].
    unfold bytesToHex. rewrite Hmap. apply join_split.
  - intros H. injection H as <-. unfold Js.truthy in E.
    destruct (String.eqb_spec (normalizeHex input) "") as [Hempty | _]; [| discriminate].
    rewrite Hempty. reflexivity.
Qed.

Lemma bytesToHex_parseHexBytes_witness :
  bytesToHex [85; 10; 255] = normalizeHex "0x55, 0a ff  ".
Proof. apply bytesToHex_parseHexBytes. reflexivity. Defined.

(** ** Frames *)

(** X6: [equalBytes] decides the equality of two frames, and an exact match
    of a frame that is not empty is also a match up to the checksum. *)
Theorem equalBytes_decides_equality : forall a b,
  (equalBytes a b = true <-> a = b) /\
  equalBytes a b = equalBytes b a /\
  (equalBytes a b = true -> a <> [] -> equalIgnoringChecksum a b = true) /\
  equalIgnoringChecksum [] [] = false.
Proof.
  intros a b. split; [apply equalBytes_spec |]. split.
  - destruct (equalBytes a b) eqn:E1, (equalBytes b a) eqn:E2; try reflexivity.
    + apply equalBytes_spec in E1. subst b.
      rewrite (proj2 (equalBytes_spec a a) eq_refl) in E2. discriminate.
    + apply equalBytes_spec in E2. subst b.
      rewrite (proj2 (equalBytes_spec a a) eq_refl) in E1. discriminate.
  - split; [| reflexivity]. intros Heq Hne. apply equalBytes_spec in Heq. subst b.
    apply equalIgnoringChecksum_spec. unfold sameExceptLast. auto.
Qed.

(** A frame is UDP-like exactly when it has at least ten bytes and starts
    with seven bytes 0x55. *)
Lemma isUdpLike_spec : forall bytes,
  isUdpLike bytes = true <-> 10 <= Js.len bytes /\ firstn 7 bytes = repeat 0x55 7%nat.
Proof.
  intros bytes. unfold isUdpLike.
  destruct (Z.ltb_spec (Js.len bytes) 10) as [Hshort | Hlong].
  - split; [discriminate | lia].
  - destruct bytes as [| b0 [| b1 [| b2 [| b3 [| b4 [| b5 [| b6 rest]]]]]]];
      try (unfold Js.len in Hlong; simpl in Hlong; lia).
    cbn [all_0x55 firstn repeat]. unfold Js.get_is, Js.js_get. simpl.
    split.
    + intros H. split; [exact Hlong |].
      repeat match type of H with
      | (if negb (?x =? 85) then _ else _) = true =>
          destruct (Z.eqb_spec x 85); cbn [negb] in H; [subst | discriminate]
      end.
      reflexivity.
    + intros [_ H]. injection H as -> -> -> -> -> -> ->. reflexivity.
Qed.

(** X7: a case built from a truth row whose request has fewer than ten
    bytes, or does not start with seven bytes 0x55, is serial-only, and the
    loop of [run] records it as skipped without sending anything. *)
Theorem non_udp_truth_case_is_skipped :
  forall row source item options suiteExclusions w,
  buildCaseFromTruthRow row source = Ok item ->
  Js.len (case_txBytes item) < 10 \/ firstn 7 (case_txBytes item) <> repeat 0x55 7%nat ->
  case_serialOnly item = true /\
  exists reason,
    runCase options suiteExclusions item w = (w, Ok (buildSkippedRecord item reason)) /\
    rec_status (buildSkippedRecord item reason) = SKIPPED.
Proof.
  intros row source item options suiteExclusions w Hbuild Hframe.
  assert (Hudp : isUdpLike (case_txBytes item) = false).
  { destruct (isUdpLike (case_txBytes item)) eqn:E; [| reflexivity].
    apply isUdpLike_spec in E. destruct E as [Hlen Hsync], Hframe; [lia | contradiction]. }
  assert (Hserial : case_serialOnly item = true).
  { unfold buildCaseFromTruthRow in Hbuild.
    destruct (parseHexBytes (row_requestHex row)) as [txBytes |]; [| discriminate].
    destruct (parseOptionalHex (row_replyHex row)); [| discriminate].
    cbn [bind] in Hbuild. injection Hbuild as <-.
    cbn [case_serialOnly case_txBytes] in *. unfold isSerialOnly. cbv zeta. rewrite Hudp.
    cbn [negb].
    repeat match goal with
    | |- (if ?c then true else _) = true =>
        lazymatch c with
        | true => reflexivity
        | _ => destruct c; [reflexivity |]
        end
    end.
    reflexivity. }
  split; [exact Hserial |]. unfold runCase.
  destruct (powerStageExcluded options item); [eauto |].
  rewrite Hserial. eauto.
Qed.

Lemma non_udp_truth_case_is_skipped_witness :
  exists item reason,
    buildCaseFromTruthRow (plainRow "short" "Query" None "01 02 03") from_truth = Ok item /\
    runCase suiteOptions [] item idle = (idle, Ok (buildSkippedRecord item reason)).
Proof.
  eexists.
  destruct (non_udp_truth_case_is_skipped (plainRow "short" "Query" None "01 02 03")
              from_truth _ suiteOptions [] idle eq_refl)
    as (_ & reason & Hrun & _).
  - left. vm_compute. reflexivity.
  - exists reason. split; [reflexivity | exact Hrun].
Defined.

(** ** Words of several bytes *)

Lemma to_int32_mod : forall z, Js.to_int32 z mod 2 ^ 32 = z mod 2 ^ 32.
Proof.
  intros z. unfold Js.to_int32, Js.to_uint32.
  destruct (Z.ltb_spec (z mod 2 ^ 32) (2 ^ 31)).
  - apply Z.mod_mod. lia.
  - replace (z mod 2 ^ 32 - 2 ^ 32) with (z mod 2 ^ 32 + (-1) * 2 ^ 32) by lia.
    rewrite Z_mod_plus_full. apply Z.mod_mod. lia.
Qed.

Lemma to_int32_range : forall z, - 2 ^ 31 <= Js.to_int32 z < 2 ^ 31.
Proof.
  intros z. unfold Js.to_int32, Js.to_uint32.
  pose proof (Z.mod_pos_bound z (2 ^ 32) ltac:(lia)).
  destruct (Z.ltb_spec (z mod 2 ^ 32) (2 ^ 31)); lia.
Qed.

Lemma lor_mod32 : forall a b, Z.lor a b mod 2 ^ 32 = Z.lor (a mod 2 ^ 32) (b mod 2 ^ 32).
Proof.
  intros a b. rewrite <- !Z.land_ones by lia. apply Z.land_lor_distr_l.
Qed.

Lemma bor_mod32 : forall x y,
  Js.bor x y mod 2 ^ 32 = Z.lor (x mod 2 ^ 32) (y mod 2 ^ 32).
Proof.
  intros x y. unfold Js.bor. now rewrite to_int32_mod, lor_mod32, !to_int32_mod.
Qed.

Lemma shl_mod32 : forall b n,
  0 <= n < 32 -> Js.shl b n mod 2 ^ 32 = (b * 2 ^ n) mod 2 ^ 32.
Proof.
  intros b n Hn. unfold Js.shl. rewrite to_int32_mod, (Z.mod_small n 32) by lia.
  rewrite Z.shiftl_mul_pow2 by lia.
  rewrite Z.mul_mod, to_int32_mod, <- Z.mul_mod by lia. reflexivity.
Qed.

(** A disjunction of two numbers that share no bit is their sum. *)
Lemma lor_disjoint : forall a b k,
  0 <= k -> 0 <= a < 2 ^ k -> Z.lor a (b * 2 ^ k) = a + b * 2 ^ k.
Proof.
  intros a b k Hk Ha. rewrite <- Z.add_lor_land.
  assert (Hland : Z.land a (b * 2 ^ k) = 0).
  { apply Z.bits_inj'. intros n Hn. rewrite Z.land_spec, Z.bits_0.
    destruct (Z_lt_le_dec n k) as [Hlow | Hhigh].
    - rewrite Z.mul_pow2_bits_low by lia. apply andb_false_r.
    - rewrite <- (Z.mod_small a (2 ^ k)) by lia.
      rewrite Z.mod_pow2_bits_high by lia. reflexivity. }
  rewrite Hland. lia.
Qed.

(** A 32-bit integer is determined by its residue. *)
Lemma int32_of_residue : forall x v,
  - 2 ^ 31 <= x < 2 ^ 31 -> 0 <= v < 2 ^ 31 -> x mod 2 ^ 32 = v -> x = v.
Proof.
  intros x v Hx Hv H. destruct (Z_lt_le_dec x 0) as [Hneg | Hpos].
  - assert (x mod 2 ^ 32 = x + 2 ^ 32).
    { symmetry. apply Z.mod_unique with (q := -1); lia. }
    lia.
  - rewrite Z.mod_small in H by lia. exact H.
Qed.

(** [d0 | (d1 << 8)] on two bytes is the little-endian word. *)
Lemma word16 : forall d0 d1,
  is_byte d0 -> is_byte d1 -> Js.bor d0 (Js.shl d1 8) = d0 + 256 * d1.
Proof.
  intros d0 d1 H0 H1. unfold is_byte in *.
  apply int32_of_residue; [apply to_int32_range | lia |].
  rewrite bor_mod32, shl_mod32 by lia.
  rewrite (Z.mod_small d0), (Z.mod_small (d1 * 2 ^ 8)) by lia.
  rewrite lor_disjoint by lia. lia.
Qed.

(** [(d0 | d1 << 8 | d2 << 16 | d3 << 24) >>> 0] on four bytes is the
    unsigned little-endian word. *)
Lemma word32 : forall d0 d1 d2 d3,
  is_byte d0 -> is_byte d1 -> is_byte d2 -> is_byte d3 ->
  Js.ushr0 (Js.bor (Js.bor (Js.bor d0 (Js.shl d1 8)) (Js.shl d2 16)) (Js.shl d3 24))
  = d0 + 256 * d1 + 65536 * d2 + 16777216 * d3.
Proof.
  intros d0 d1 d2 d3 H0 H1 H2 H3. unfold is_byte in *. unfold Js.ushr0, Js.to_uint32.
  rewrite !bor_mod32, !shl_mod32 by lia.
  rewrite (Z.mod_small d0), (Z.mod_small (d1 * 2 ^ 8)), (Z.mod_small (d2 * 2 ^ 16)),
    (Z.mod_small (d3 * 2 ^ 24)) by lia.
  rewrite (lor_disjoint d0) by lia.
  rewrite (lor_disjoint (d0 + d1 * 2 ^ 8)) by lia.
  rewrite (lor_disjoint (d0 + d1 * 2 ^ 8 + d2 * 2 ^ 16)) by lia.
  lia.
Qed.

(** X8: the status word of an acknowledgement is the little-endian word of
    the first two payload bytes, and every status word has a meaning. *)
Theorem parseAckStatus_word : forall decoded p,
  payload decoded = Some p -> Forall is_byte (data p) ->
  parseAckStatus (Some decoded)
  = match data p with
    | d0 :: d1 :: _ => Some (d0 + 256 * d1)
    | _ => None
    end
  /\ (forall status, parseAckStatus (Some decoded) = Some status ->
        0 <= status < 65536 /\ exists text, ackMeaning (Some status) = Some text).
Proof.
  intros decoded p Hp Hbytes.
  assert (Hword : parseAckStatus (Some decoded)
                  = match data p with
                    | d0 :: d1 :: _ => Some (d0 + 256 * d1)
                    | _ => None
                    end).
  { unfold parseAckStatus. rewrite Hp.
    destruct (data p) as [| d0 [| d1 rest]]; try reflexivity.
    inversion Hbytes as [| ? ? H0 Hrest]; subst. inversion Hrest as [| ? ? H1 _]; subst.
    replace (Js.len (d0 :: d1 :: rest) <? 2) with false
      by (symmetry; apply Z.ltb_ge; rewrite !len_cons;
          pose proof (len_nonneg _ rest); lia).
    cbn [Js.js_get Z.ltb Z.compare Z.to_nat nth_error Js.int_of].
    change (Js.js_get (d0 :: d1 :: rest) 0) with (Some d0).
    change (Js.js_get (d0 :: d1 :: rest) 1) with (Some d1).
    cbn [Js.int_of]. now rewrite word16. }
  split; [exact Hword |].
  intros status Hstatus. rewrite Hword in Hstatus.
  destruct (data p) as [| d0 [| d1 rest]]; try discriminate.
  inversion Hbytes as [| ? ? H0 Hrest]; subst. inversion Hrest as [| ? ? H1 _]; subst.
  assert (status = d0 + 256 * d1) as -> by congruence.
  unfold is_byte in *. split; [lia |].
  unfold ackMeaning. destruct (ACK_STATUS_MEANING (d0 + 256 * d1)); eauto.
Qed.

Lemma parseAckStatus_word_witness :
  parseAckStatus (Some {| replyCode := None; replyCodeIndex := None;
                          payload := Some {| markerIndex := 11; dataLength := 2;
                                             data := [2; 128]; ambiguous := false |} |})
  = Some 32770.
Proof.
  refine (proj1 (parseAckStatus_word
            {| replyCode := None; replyCodeIndex := None;
               payload := Some {| markerIndex := 11; dataLength := 2;
                                  data := [2; 128]; ambiguous := false |} |}
            {| markerIndex := 11; dataLength := 2; data := [2; 128]; ambiguous := false |}
            eq_refl _)).
  repeat constructor; unfold is_byte; lia.
Defined.

(** ** Checksum self-check of the truth file *)

Lemma coverageStep_parsed : forall counts row,
  coverageStep counts row
  = match parseHexBytes (row_requestHex row) with
    | Throw e => Throw e
    | Ok _ =>
        Ok (fst counts + (if isCheckedRow row then 1 else 0),
            snd counts + (if isMismatchRow row then 1 else 0))
    end.
Proof.
  intros [checked mismatches] row. unfold coverageStep, isMismatchRow, isCheckedRow, requestBytes, lastByte.
  destruct (parseHexBytes (row_requestHex row)) as [request |]; [| reflexivity].
  cbn [bind fst snd]. destruct (isUdpLike request); cbn [negb andb].
  - destruct (negb (opt_Z_eqb _ _)); f_equal; f_equal; lia.
  - f_equal. f_equal; lia.
Qed.

Lemma coverageLoop_counts : forall rows counts,
  match coverageLoop rows counts with
  | Ok (checked, mismatches) =>
      Forall (fun row => is_ok (parseHexBytes (row_requestHex row)) = true) rows /\
      checked = fst counts + Js.len (filter isCheckedRow rows) /\
      mismatches = snd counts + Js.len (filter isMismatchRow rows)
  | Throw e =>
      exists row, In row rows /\ parseHexBytes (row_requestHex row) = Throw e
  end.
Proof.
  induction rows as [| row rows IH]; intros counts.
  - cbn [coverageLoop filter]. destruct counts as [checked mismatches].
    split; [constructor |]. unfold Js.len. simpl. split; lia.
  - cbn [coverageLoop]. rewrite coverageStep_parsed.
    destruct (parseHexBytes (row_requestHex row)) as [request | e] eqn:Hparse; cbn [bind].
    + specialize (IH (fst counts + (if isCheckedRow row then 1 else 0),
                      snd counts + (if isMismatchRow row then 1 else 0))).
      destruct (coverageLoop rows _) as [[checked mismatches] | e].
      * destruct IH as (Hall & Hc & Hm). cbn [fst snd] in Hc, Hm.
        split; [constructor; [now rewrite Hparse | exact Hall] |].
        cbn [filter].
        destruct (isCheckedRow row), (isMismatchRow row); rewrite ?len_cons; split; lia.
      * destruct IH as (bad & Hin & Hbad). exists bad. split; [now right | exact Hbad].
    + exists row. split; [now left | exact Hparse].
Qed.

(** X9: the checksum self-check of the truth file counts the UDP-like rows
    and, among them, those whose last byte is not the checksum of the bytes
    before it; it throws exactly when the request text of some row is not
    well-formed hex. *)
Theorem verifyTruthChecksumCoverage_counts : forall rows,
  match verifyTruthChecksumCoverage rows with
  | Ok (checked, mismatches) =>
      checked = Js.len (filter isCheckedRow rows) /\
      mismatches = Js.len (filter isMismatchRow rows) /\
      0 <= mismatches <= checked /\ checked <= Js.len rows
  | Throw e =>
      exists row, In row rows /\ parseHexBytes (row_requestHex row) = Throw e
  end.
Proof.
  intros rows. unfold verifyTruthChecksumCoverage.
  pose proof (coverageLoop_counts rows (0, 0)) as H.
  destruct (coverageLoop rows (0, 0)) as [[checked mismatches] | e]; [| exact H].
  destruct H as (_ & Hc & Hm). cbn [fst snd] in Hc, Hm.
  split; [lia |]. split; [lia |].
  assert (Hsub : Js.len (filter isMismatchRow rows) <= Js.len (filter isCheckedRow rows)).
  { clear. unfold Js.len. induction rows as [| row rows IH]; [simpl; lia |].
    cbn [filter]. unfold isMismatchRow at 1.
    destruct (isCheckedRow row); cbn [andb].
    - destruct (negb _); simpl List.length; lia.
    - exact IH. }
  assert (Hle : Js.len (filter isCheckedRow rows) <= Js.len rows).
  { unfold Js.len. pose proof (filter_length_le isCheckedRow rows). lia. }
  pose proof (len_nonneg _ (filter isMismatchRow rows)). lia.
Qed.

Lemma verifyTruthChecksumCoverage_throws : forall rows row e,
  In row rows -> parseHexBytes (row_requestHex row) = Throw e ->
  exists bad e',
    In bad rows /\ parseHexBytes (row_requestHex bad) = Throw e' /\
    verifyTruthChecksumCoverage rows = Throw e'.
Proof.
  intros rows row e Hin Hparse. unfold verifyTruthChecksumCoverage.
  pose proof (coverageLoop_counts rows (0, 0)) as H.
  destruct (coverageLoop rows (0, 0)) as [[checked mismatches] | e'].
  - destruct H as (Hall & _). rewrite Forall_forall in Hall. specialize (Hall row Hin).
    rewrite Hparse in Hall. discriminate.
  - destruct H as (bad & Hbad & Hthrow). exists bad, e'. auto.
Qed.

Lemma mapM_parseHexToken_throws : forall tokens e,
  mapM parseHexToken tokens = Throw e -> exists token, e = InvalidHexToken token.
Proof.
  induction tokens as [| token tokens IH]; intros e H; [discriminate |].
  cbn [mapM] in H. unfold parseHexToken at 1 in H.
  destruct (negb (Nat.eqb (String.length token) 2)); [injection H as <-; eauto |].
  destruct (Js.parseInt16 token); [| injection H as <-; eauto].
  cbn [bind] in H. destruct (mapM parseHexToken tokens) as [values |] eqn:E; [discriminate |].
  injection H as <-. now apply IH.
Qed.

Lemma parseHexBytes_throws : forall input e,
  parseHexBytes input = Throw e -> exists token, e = InvalidHexToken token.
Proof.
  intros input e H. unfold parseHexBytes in H.
  destruct (negb (Js.truthy (normalizeHex input))); [discriminate |].
  now apply mapM_parseHexToken_throws in H.
Qed.

(** X10: with a truth file that holds a row whose request text is not
    well-formed hex, no run gets as far as the socket.  When the command line
    is accepted, the run throws the invalid-token error of such a row,
    whatever the mode and the command selected; otherwise it ends as
    [parseOptions] ends, with the error of the command line or with the exit
    of [--help].  Nothing is sent in either case. *)
Theorem malformed_truth_row_aborts_run : forall toNumber argv inputs w rows row e,
  in_rows inputs = Ok rows ->
  In row rows -> parseHexBytes (row_requestHex row) = Throw e ->
  match parseOptions toNumber argv with
  | Ok _ =>
      exists bad token,
        In bad rows /\
        parseHexBytes (row_requestHex bad) = Throw (InvalidHexToken token) /\
        run toNumber argv inputs w = (w, Throw (InvalidHexToken token))
  | Throw e' => run toNumber argv inputs w = (w, Throw e')
  end.
Proof.
  intros toNumber argv inputs w rows row e Hrows Hin Hparse. unfold run, prepareRun.
  destruct (parseOptions toNumber argv) as [options | e0]; cbn [bind]; [| reflexivity].
  rewrite Hrows. cbn [bind].
  destruct (verifyTruthChecksumCoverage_throws _ _ _ Hin Hparse) as (bad & e' & Hbad & Hthrow & ->).
  destruct (parseHexBytes_throws _ _ Hthrow) as [token ->].
  exists bad, token. cbn [bind]. auto.
Qed.

Lemma malformed_truth_row_aborts_run_witness :
  exists bad,
    In bad [contrastRow; plainRow "odd" "Query" None "5"] /\
    parseHexBytes (row_requestHex bad) = Throw (InvalidHexToken "5") /\
    run toNumber150 ["--single"; "0xC217"]
      {| in_rows := Ok [contrastRow; plainRow "odd" "Query" None "5"];
         in_exclusions := None; in_issueRecords := Ok [];
         in_bindError := None |} idle
    = (idle, Throw (InvalidHexToken "5")).
Proof.
  pose proof (malformed_truth_row_aborts_run toNumber150 ["--single"; "0xC217"]
                {| in_rows := Ok [contrastRow; plainRow "odd" "Query" None "5"];
                   in_exclusions := None; in_issueRecords := Ok [];
                   in_bindError := None |} idle
                [contrastRow; plainRow "odd" "Query" None "5"]
                (plainRow "odd" "Query" None "5") (InvalidHexToken "5")) as H.
  assert (Hoptions : exists options,
            parseOptions toNumber150 ["--single"; "0xC217"] = Ok options)
    by (eexists; reflexivity).
  destruct Hoptions as [options Hoptions]. rewrite Hoptions in H.
  destruct H as (bad & token & Hin & Hbad & Hrun).
  - reflexivity.
  - right. left. reflexivity.
  - reflexivity.
  - exists bad. assert (Htoken : token = "5").
    { cbn [In] in Hin. destruct Hin as [<- | [<- | []]].
      + discriminate Hbad.
      + vm_compute in Hbad. now injection Hbad as <-. }
    subst token. auto.
Defined.

(** ** Semantic parsers *)

(** X11: the uptime parser reads four payload bytes as an unsigned
    little-endian number of minutes, and rejects every other length. *)
Theorem uptime_little_endian : forall data,
  Forall is_byte data ->
  let r := parseSemanticByCode "C33D" data in
  match data with
  | [d0; d1; d2; d3] =>
      ok r = true /\ value r = Some (d0 + 256 * d1 + 65536 * d2 + 16777216 * d3)
      /\ 0 <= d0 + 256 * d1 + 65536 * d2 + 16777216 * d3 < 2 ^ 32
  | _ => ok r = false /\ value r = None
  end.
Proof.
  intros data Hbytes. cbv zeta.
  change (parseSemanticByCode "C33D" data) with (parseUptime data).
  destruct data as [| d0 [| d1 [| d2 [| d3 [| d4 rest]]]]]; try (split; reflexivity).
  inversion Hbytes as [| ? ? H0 Hb1]; subst. inversion Hb1 as [| ? ? H1 Hb2]; subst.
  inversion Hb2 as [| ? ? H2 Hb3]; subst. inversion Hb3 as [| ? ? H3 _]; subst.
  cbn [parseUptime ok value]. rewrite word32 by assumption.
  split; [reflexivity |]. split; [reflexivity |]. unfold is_byte in *. lia.
Qed.

Lemma uptime_little_endian_witness :
  value (parseSemanticByCode "C33D" [1; 0; 0; 255]) = Some 4278190081.
Proof.
  refine (proj1 (proj2 (uptime_little_endian [1; 0; 0; 255] _))).
  repeat constructor; unfold is_byte; lia.
Defined.

Lemma range_parser_ok : forall label data,
  let r := (if negb (Js.len data =? 1) then wrongLength label data 1
            else parseRangeValue label data 0 100) in
  (ok r = true <-> exists v, data = [v] /\ 0 <= v <= 100) /\
  (forall v, data = [v] -> value r = Some v).
Proof.
  intros label data. cbv zeta.
  destruct data as [| v [| v' rest]].
  - split; [| discriminate]. split; [discriminate |]. intros (v & H & _). discriminate.
  - change (Js.len [v] =? 1) with true. cbn [negb parseRangeValue ok value].
    split.
    + rewrite andb_true_iff, !Z.leb_le. split.
      * intros H. exists v. split; [reflexivity | exact H].
      * intros (v0 & H & Hv). injection H as <-. exact Hv.
    + intros v0 H. injection H as <-. reflexivity.
  - replace (Js.len (v :: v' :: rest) =? 1) with false.
    + split; [| discriminate]. split; [discriminate |]. intros (v0 & H & _). discriminate.
    + symmetry. apply Z.eqb_neq. rewrite !len_cons. pose proof (len_nonneg _ rest). lia.
Qed.

(** X12: a reply never passes semantic validation with an empty payload, and
    a parser code outside the twelve known ones never validates anything. *)
Theorem parser_rejects_empty_and_unknown : forall parserCode,
  ok (parseSemanticByCode parserCode []) = false /\
  value (parseSemanticByCode parserCode []) = None /\
  (~ In parserCode SEMANTIC_PARSER_CODES ->
   forall data, ok (parseSemanticByCode parserCode data) = false
                /\ parsed (parseSemanticByCode parserCode data) = None).
Proof.
  intros parserCode. unfold parseSemanticByCode.
  split; [| split].
  - repeat match goal with
    | |- context [String.eqb parserCode ?c] => destruct (String.eqb parserCode c)
    end; reflexivity.
  - repeat match goal with
    | |- context [String.eqb parserCode ?c] => destruct (String.eqb parserCode c)
    end; reflexivity.
  - intros Hnot data.
    repeat match goal with
    | |- context [String.eqb parserCode ?c] =>
        destruct (String.eqb_spec parserCode c) as [-> | _];
        [exfalso; apply Hnot; unfold SEMANTIC_PARSER_CODES; cbn [In]; tauto |]
    end.
    split; reflexivity.
Qed.

(** X13: the screen-monitoring parser accepts a payload of at least six
    bytes exactly when its little-endian status word is 1 or 2, it declares
    at most 64 ports and at most 4096 cabinets; whether the payload is as
    long as the structure it declares does not matter. *)
Theorem screen_monitoring_plausibility : forall d0 d1 dataSource numPorts d4 d5 rest,
  Forall is_byte [d0; d1; numPorts; d4; d5] ->
  let r := parseSemanticByCode "C131" (d0 :: d1 :: dataSource :: numPorts :: d4 :: d5 :: rest) in
  (ok r = true <->
     (d0 + 256 * d1 = 1 \/ d0 + 256 * d1 = 2) /\ numPorts <= 64 /\ d4 + 256 * d5 <= 4096) /\
  obj_get (match parsed r with Some o => o | None => [] end) "totalCabinets"
    = Some (VNum (d4 + 256 * d5)).
Proof.
  intros d0 d1 dataSource numPorts d4 d5 rest Hbytes. cbv zeta.
  inversion Hbytes as [| ? ? H0 Hb1]; subst. inversion Hb1 as [| ? ? H1 Hb2]; subst.
  inversion Hb2 as [| ? ? H2 Hb3]; subst. inversion Hb3 as [| ? ? H4 Hb4]; subst.
  inversion Hb4 as [| ? ? H5 _]; subst.
  change (parseSemanticByCode "C131" (d0 :: d1 :: dataSource :: numPorts :: d4 :: d5 :: rest))
    with (parseScreenMonitoring (d0 :: d1 :: dataSource :: numPorts :: d4 :: d5 :: rest)).
  cbn [parseScreenMonitoring ok parsed]. rewrite !word16 by assumption.
  split; [| reflexivity].
  rewrite !andb_true_iff, orb_true_iff, !Z.eqb_eq, !Z.leb_le. tauto.
Qed.

Lemma screen_monitoring_plausibility_witness :
  ok (parseSemanticByCode "C131" [1; 0; 0; 2; 9; 0]) = true.
Proof.
  apply (proj1 (screen_monitoring_plausibility 1 0 0 2 9 0 []
                  ltac:(repeat constructor; unfold is_byte; lia))).
  lia.
Defined.

(** ** Execution of a case *)

Lemma resolvePolicy_numeric_query : forall caseItem profile code,
  normalizeCode (case_setCode caseItem) = Some code -> In code NUMERIC_QUERY_CODES ->
  exists parser,
    In parser ["C201"; "C215"; "C221"] /\
    resolvePolicy caseItem profile
    = {| validationMode := PARSED_RANGE; parserCode := Some parser; policy_note := None;
         acceptAnyReplyCode := false; allowNoReplyQuirk := false; allowedReplyCodes := [] |}.
Proof.
  intros caseItem profile code Hcode Hin. unfold resolvePolicy. rewrite Hcode.
  unfold NUMERIC_QUERY_CODES in Hin. cbn [In] in Hin.
  repeat (destruct Hin as [<- | Hin];
          [eexists; split; [| reflexivity]; cbn [In]; tauto |]).
  contradiction.
Qed.

(** The classification of an accepted reply by a semantic parser other than
    the HDMI frame parser. *)
Lemma classifyReply_parsed : forall caseItem profile policy notes answer decoded rx parser,
  validationMode policy = PARSED_RANGE \/ validationMode policy = STRUCTURE_ONLY ->
  parserCode policy = Some parser -> Js.truthy parser = true ->
  String.eqb parser "C25B" = false ->
  rxBytes answer = Some rx ->
  replyCode decoded = replyCodeOf rx ->
  replyCodeAccepted caseItem policy rx = true ->
  let record := classifyReply caseItem profile policy notes answer (Some decoded) in
  match payload decoded with
  | None => rec_status record = FAIL /\ rec_matchType record = "PAYLOAD_NOT_FOUND"
  | Some p =>
      let r := parseSemanticByCode parser (data p) in
      rec_status record = (if ok r then PASS else FAIL) /\
      rec_matchType record
      = (if ok r then ValidationMode_text (validationMode policy) else "SEMANTIC_PARSE_FAIL") /\
      rec_parsed record = parsed r /\
      rec_value record
      = match value r, case_generatedValue caseItem with
        | Some v, None => Some v
        | _, _ => case_generatedValue caseItem
        end
  end.
Proof.
  intros caseItem profile policy notes answer decoded rx parser Hmode Hparser Htruthy Hne
    Hrx Hcode Hacc.
  unfold replyCodeAccepted in Hacc. rewrite <- Hcode in Hacc.
  cbv zeta. unfold classifyReply. cbv zeta.
  rewrite Hrx, Hparser. cbn [Js.truthy_opt opt_text opt_string_eqb]. rewrite Htruthy, Hne.
  replace (negb (acceptAnyReplyCode policy)
           && negb (isReplyCodeAccepted (case_replyCode caseItem) (replyCode decoded)
                      (allowedReplyCodes policy))) with false
    by (symmetry; rewrite <- negb_orb, Hacc; reflexivity).
  cbn [negb decodedPayload].
  assert (Hm : ValidationMode_eqb (validationMode policy) EXPECTED_NO_REPLY = false
               /\ ValidationMode_eqb (validationMode policy) STRICT_EXACT = false).
  { destruct Hmode as [-> | ->]; split; reflexivity. }
  destruct Hm as [-> ->].
  destruct (payload decoded) as [p |]; [| split; reflexivity].
  destruct (decodedReplyCode (Some decoded)), (acceptAnyReplyCode policy),
    (ambiguous p && true), (ok (parseSemanticByCode parser (data p)));
    destruct (value (parseSemanticByCode parser (data p))),
      (case_generatedValue caseItem) eqn:Hgen;
    (split; [reflexivity |]; split; [reflexivity |]; split; [reflexivity |]);
    cbn; rewrite ?Hgen; reflexivity.
Qed.

(** X14: the reply to a numeric query (volume, contrast, the gains,
    brightness, saturation, hue) passes exactly when its tail payload is a
    single byte between 0 and 100, and that byte becomes the value of the
    record. *)
Theorem numeric_query_outcome : forall caseItem options w answer rest rx code,
  wellFormed caseItem ->
  script w = Resolves answer :: rest -> rxBytes answer = Some rx ->
  normalizeCode (case_setCode caseItem) = Some code -> In code NUMERIC_QUERY_CODES ->
  replyCodeAccepted caseItem (resolvePolicy caseItem (opt_profile options)) rx = true ->
  exists record,
    executeCase caseItem options w =
      ({| script := rest; trace := trace w ++ [EvSend (case_txBytes caseItem)] |}, Ok record) /\
    (rec_status record = PASS <->
       exists p v, extractTailPayload rx = Some p /\ data p = [v] /\ 0 <= v <= 100) /\
    (rec_status record = PASS \/ rec_status record = FAIL) /\
    (forall p v, extractTailPayload rx = Some p -> data p = [v] ->
                 case_generatedValue caseItem = None -> rec_value record = Some v).
Proof.
  intros caseItem options w answer rest rx code Hwf Hscript Hrx Hcode Hin Hacc.
  destruct (executeCase_reply caseItem options w answer rest rx Hwf Hscript Hrx)
    as (check & decoded & _ & Hreply & Hpayload & Hexec).
  eexists. split; [exact Hexec |].
  destruct (resolvePolicy_numeric_query caseItem (opt_profile options) code Hcode Hin)
    as (parser & Hparser & Hpolicy).
  assert (Htruthy : Js.truthy parser = true /\ String.eqb parser "C25B" = false).
  { cbn [In] in Hparser. destruct Hparser as [<- | [<- | [<- | []]]]; split; reflexivity. }
  destruct Htruthy as [Htruthy Hne].
  assert (Hmode : validationMode (resolvePolicy caseItem (opt_profile options)) = PARSED_RANGE)
    by (rewrite Hpolicy; reflexivity).
  assert (Hpc : parserCode (resolvePolicy caseItem (opt_profile options)) = Some parser)
    by (rewrite Hpolicy; reflexivity).
  pose proof (classifyReply_parsed caseItem (opt_profile options)
                (resolvePolicy caseItem (opt_profile options)) (warnings check) answer
                decoded rx parser (or_introl Hmode) Hpc Htruthy Hne Hrx Hreply Hacc) as Hclass.
  cbv zeta in Hclass. rewrite Hpayload in Hclass.
  assert (Hrange : forall data,
            (ok (parseSemanticByCode parser data) = true
             <-> exists v, data = [v] /\ 0 <= v <= 100)
            /\ (forall v, data = [v] -> value (parseSemanticByCode parser data) = Some v)).
  { intros data. cbn [In] in Hparser.
    destruct Hparser as [<- | [<- | [<- | []]]].
    - exact (range_parser_ok "volume" data).
    - exact (range_parser_ok "contrast" data).
    - exact (range_parser_ok "redGain" data). }
  destruct (extractTailPayload rx) as [p |] eqn:Hp.
  - destruct Hclass as (Hstatus & _ & _ & Hvalue).
    destruct (Hrange (data p)) as [Hok Hval].
    split; [| split].
    + rewrite Hstatus. split.
      * intros H. destruct (ok (parseSemanticByCode parser (data p))); [| discriminate].
        destruct (proj1 Hok eq_refl) as (v & Hv & Hbound). exists p, v. auto.
      * intros (p' & v & Hp' & Hv & Hbound). injection Hp' as <-.
        rewrite (proj2 Hok) by eauto. reflexivity.
    + rewrite Hstatus. destruct (ok (parseSemanticByCode parser (data p))); auto.
    + intros p' v Hp' Hv Hgen. injection Hp' as <-.
      rewrite Hvalue, (Hval v Hv), Hgen. reflexivity.
  - destruct Hclass as [Hstatus _]. split; [| split].
    + rewrite Hstatus. split; [discriminate |]. intros (p & v & H & _). discriminate.
    + right. exact Hstatus.
    + intros p v H. discriminate.
Qed.

Lemma numeric_query_outcome_witness :
  exists record,
    executeCase volumeQueryCase (plainOptions single generic) (answering sampleReply)
      = ({| script := []; trace := [EvSend sampleRequest] |}, Ok record) /\
    rec_status record = PASS /\ rec_value record = Some 7.
Proof.
  destruct (numeric_query_outcome volumeQueryCase (plainOptions single generic)
              (answering sampleReply)
              {| rxBytes := Some sampleReply; latencyMs := Some 5 |} [] sampleReply "C201")
    as (record & Hexec & Hpass & _ & Hvalue).
  - left. reflexivity.
  - reflexivity.
  - reflexivity.
  - reflexivity.
  - left. reflexivity.
  - reflexivity.
  - exists record. split; [exact Hexec |]. split.
    + apply Hpass. exists (decodeAt sampleReply 11 false), 7.
      split; [reflexivity |]. split; [reflexivity | lia].
    + apply (Hvalue (decodeAt sampleReply 11 false) 7); reflexivity.
Defined.

(** *** What the policy table guarantees *)

Lemma resolvePolicy_table_facts : forall caseItem profile,
  let policy := resolvePolicy caseItem profile in
  (validationMode policy = EXPECTED_NO_REPLY
   <-> normalizeCode (case_setCode caseItem) = Some "C005") /\
  (allowNoReplyQuirk policy = true -> validationMode policy = EXPECTED_NO_REPLY) /\
  (validationMode policy <> STRICT_EXACT -> Js.truthy_opt (parserCode policy) = true).
Proof.
  intros caseItem profile. cbv zeta. unfold resolvePolicy.
  destruct (normalizeCode (case_setCode caseItem)) as [code |].
  - unfold COMMAND_POLICY_BY_CODE. cbn [JsMap.get].
    repeat match goal with
    | |- context [String.eqb ?k code] =>
        destruct (String.eqb_spec k code) as [<- | ?];
        [cbn; split; [split; intros H; first [reflexivity | discriminate H]
                     | split; intros H; first [reflexivity | discriminate H
                                               | exfalso; apply H; reflexivity]] |]
    end.
    cbn [is_none andb cp_validationMode cp_parserCode].
    destruct (Js.includes _ "query scene mode"); cbn.
    + split; [split; intros H; [discriminate H | congruence] |].
      split; [discriminate | reflexivity].
    + split; [split; intros H; [discriminate H | congruence] |].
      split; [discriminate | intros H; exfalso; apply H; reflexivity].
  - cbn [is_none andb].
    destruct (Js.includes _ "query scene mode"); cbn.
    + split; [split; discriminate |]. split; [discriminate | reflexivity].
    + split; [split; discriminate |].
      split; [discriminate | intros H; exfalso; apply H; reflexivity].
Qed.

(** *** The record of an executed case *)

Ltac outcome_step :=
  match goal with
  | |- context [if ?c then _ else _] => destruct c eqn:?
  | |- context [match ?x with Some _ => _ | None => _ end] => destruct x eqn:?
  | |- context [match ?x with exview_aio => _ | generic => _ end] => destruct x eqn:?
  end.

(** Every branch of the classification ends in [setOutcome], on a record
    whose exchange fields are still those of [makeBaseRecord]. *)
Lemma classifyReply_exchange : forall caseItem profile policy notes primary decoded,
  let record := classifyReply caseItem profile policy notes primary decoded in
  let base := makeBaseRecord caseItem policy primary in
  rec_commandKey record = rec_commandKey base /\
  rec_txHex record = rec_txHex base /\
  rec_rxHex record = rec_rxHex base /\
  rec_transportStatus record = rec_transportStatus base /\
  rec_queryTxHex record = None /\
  rec_queryRxHex record = None /\
  rec_queryLatencyMs record = None /\
  rec_queryTransportStatus record = None /\
  rec_queryValue record = None /\
  rec_statusColor record = statusColorFromStatus (rec_status record) /\
  (rec_status record = SKIPPED <-> rec_skipReason record <> None) /\
  (rec_status record = NO_REPLY -> rxBytes primary = None).
Proof.
  intros caseItem profile policy notes primary decoded. cbv zeta.
  unfold classifyReply. cbv zeta.
  lazymatch goal with
  | |- context [setOutcome ?r PASS "EXPECTED_NO_REPLY" _ _] => set (record := r) in *
  end.
  assert (Hframe : sameExchange record (makeBaseRecord caseItem policy primary)).
  { subst record. unfold sameExchange.
    destruct (decodedPayload decoded) as [p |];
      [destruct (ambiguous p && negb (opt_string_eqb (parserCode policy) (Some "C25B"))) |];
      (destruct (decodedReplyCode decoded); [destruct (acceptAnyReplyCode policy) |]);
      repeat split. }
  clearbody record.
  destruct Hframe as (K & T & R & TS & SK & Q1 & Q2 & Q3 & Q4 & Q5).
  cbn [makeBaseRecord rec_skipReason rec_queryTxHex rec_queryRxHex rec_queryLatencyMs
       rec_queryTransportStatus rec_queryValue] in SK, Q1, Q2, Q3, Q4, Q5.
  repeat outcome_step;
    cbn [setOutcome update recordParse setValue setSkipReason
         rec_commandKey rec_txHex rec_rxHex rec_transportStatus rec_skipReason
         rec_queryTxHex rec_queryRxHex rec_queryLatencyMs rec_queryTransportStatus
         rec_queryValue rec_status rec_statusColor statusColorFromStatus];
    rewrite ?SK;
    (do 9 (split; [assumption |]));
    (split; [reflexivity |]);
    (split; [split; intros; congruence | intros; congruence]).
Qed.

Ltac in_list := cbn [In]; solve [repeat (first [left; reflexivity | right])].

Lemma classifyReply_matchType : forall caseItem profile notes primary decoded,
  In (rec_matchType (classifyReply caseItem profile (resolvePolicy caseItem profile)
                       notes primary decoded)) MATCH_TYPES.
Proof.
  intros caseItem profile notes primary decoded.
  destruct (resolvePolicy_table_facts caseItem profile) as (_ & Hquirk & Hparser).
  cbv zeta in Hquirk, Hparser.
  set (policy := resolvePolicy caseItem profile) in *. clearbody policy.
  unfold classifyReply. cbv zeta.
  lazymatch goal with
  | |- context [setOutcome ?r PASS "EXPECTED_NO_REPLY" _ _] => set (record := r) in *
  end.
  clearbody record. unfold MATCH_TYPES.
  destruct (validationMode policy) eqn:Hmode; cbn [ValidationMode_eqb ValidationMode_text].
  - assert (Hq : allowNoReplyQuirk policy = false).
    { destruct (allowNoReplyQuirk policy); [| reflexivity]. discriminate (Hquirk eq_refl). }
    rewrite Hq. repeat outcome_step; cbn [setOutcome update rec_matchType]; in_list.
  - assert (Hq : allowNoReplyQuirk policy = false).
    { destruct (allowNoReplyQuirk policy); [| reflexivity]. discriminate (Hquirk eq_refl). }
    rewrite Hq, Hparser by discriminate. cbn [negb].
    repeat outcome_step; cbn [setOutcome update rec_matchType]; in_list.
  - assert (Hq : allowNoReplyQuirk policy = false).
    { destruct (allowNoReplyQuirk policy); [| reflexivity]. discriminate (Hquirk eq_refl). }
    rewrite Hq, Hparser by discriminate. cbn [negb].
    repeat outcome_step; cbn [setOutcome update rec_matchType]; in_list.
  - repeat outcome_step; cbn [setOutcome update rec_matchType]; in_list.
Qed.

Lemma executeCase_outcome : forall caseItem options w,
  wellFormed caseItem ->
  match nextExchange w with
  | Resolves answer =>
      exists check decoded,
        verifyGeneratedChecksum caseItem = Ok check /\
        executeCase caseItem options w
        = ({| script := tl (script w); trace := trace w ++ [EvSend (case_txBytes caseItem)] |},
           Ok (classifyReply caseItem (opt_profile options)
                 (resolvePolicy caseItem (opt_profile options)) (warnings check)
                 answer decoded)) /\
        (rxBytes answer = None -> decoded = None)
  | Rejects error =>
      executeCase caseItem options w
      = ({| script := tl (script w); trace := trace w |}, Throw error)
  end.
Proof.
  intros caseItem options w Hwf.
  destruct (verifyGeneratedChecksum_wellFormed _ Hwf) as [check Hcheck].
  unfold nextExchange, executeCase, sendAndAwaitReply. rewrite Hcheck.
  destruct (script w) as [| [answer | error] rest]; cbn [hd tl].
  - exists check, None. cbn [noReply rxBytes]. auto.
  - exists check. destruct (rxBytes answer) as [rx |] eqn:Hrx.
    + rewrite decodeReply_total. cbn [bind]. eexists. split; [reflexivity |].
      split; [reflexivity | discriminate].
    + exists None. auto.
  - reflexivity.
Qed.


(** X16: when the device does not answer, the case passes for the
    sleep/wake query 0xC005, is skipped for the video-source query 0xC211
    under the exview-aio profile, and is a NO_REPLY otherwise. *)
Theorem unanswered_case_outcome : forall caseItem options w answer,
  wellFormed caseItem ->
  nextExchange w = Resolves answer -> rxBytes answer = None ->
  exists record,
    executeCase caseItem options w
    = ({| script := tl (script w); trace := trace w ++ [EvSend (case_txBytes caseItem)] |},
       Ok record) /\
    rec_transportStatus record = TS_NO_REPLY /\ rec_rxHex record = None /\
    (rec_status record, rec_matchType record)
    = unansweredOutcome (normalizeCode (case_setCode caseItem)) (opt_profile options).
Proof.
  intros caseItem options w answer Hwf Hnext Hrx.
  pose proof (executeCase_outcome caseItem options w Hwf) as Hout. rewrite Hnext in Hout.
  destruct Hout as (check & decoded & _ & Hexec & Hnone).
  rewrite (Hnone Hrx) in Hexec. eexists. split; [exact Hexec |].
  pose proof (classifyReply_exchange caseItem (opt_profile options)
                (resolvePolicy caseItem (opt_profile options)) (warnings check)
                answer None) as H.
  cbv zeta in H. destruct H as (_ & _ & Hrxhex & Hts & _).
  rewrite Hrxhex, Hts. cbn [makeBaseRecord rec_rxHex rec_transportStatus]. rewrite Hrx.
  split; [reflexivity |]. split; [reflexivity |].
  destruct (resolvePolicy_table_facts caseItem (opt_profile options)) as (Henr & Hquirk & _).
  cbv zeta in Henr, Hquirk.
  unfold classifyReply, unansweredOutcome. cbv zeta. rewrite Hrx.
  cbn [decodedPayload decodedReplyCode].
  destruct (opt_string_eqb (normalizeCode (case_setCode caseItem)) (Some "C005")) eqn:Hsleep.
  - apply opt_string_eqb_eq in Hsleep. rewrite (proj2 Henr Hsleep). reflexivity.
  - assert (Hmode : ValidationMode_eqb (validationMode (resolvePolicy caseItem (opt_profile options)))
                      EXPECTED_NO_REPLY = false).
    { destruct (ValidationMode_eqb _ EXPECTED_NO_REPLY) eqn:E; [| reflexivity].
      assert (E' : validationMode (resolvePolicy caseItem (opt_profile options))
                   = EXPECTED_NO_REPLY).
      { clear - E. destruct (validationMode _); try discriminate E. reflexivity. }
      apply (proj1 Henr) in E'. rewrite E' in Hsleep. discriminate. }
    assert (Hq : allowNoReplyQuirk (resolvePolicy caseItem (opt_profile options)) = false).
    { destruct (allowNoReplyQuirk _); [| reflexivity].
      rewrite (Hquirk eq_refl) in Hmode. discriminate. }
    rewrite Hmode, Hq.
    destruct (opt_profile options),
      (opt_string_eqb (normalizeCode (case_setCode caseItem)) (Some "C211")); reflexivity.
Qed.

Lemma unanswered_case_outcome_witness :
  exists record,
    executeCase sleepQueryCase (plainOptions single generic) idle
    = ({| script := []; trace := [EvSend sampleRequest] |}, Ok record) /\
    rec_status record = PASS.
Proof.
  destruct (unanswered_case_outcome sleepQueryCase (plainOptions single generic) idle noReply)
    as (record & Hexec & _ & _ & Hout).
  - left. reflexivity.
  - reflexivity.
  - reflexivity.
  - exists record. split; [exact Hexec |]. now injection Hout.
Defined.

(** *** The loop of [run] *)

Lemma runCase_record : forall options suiteExclusions caseItem w w' record,
  runCase options suiteExclusions caseItem w = (w', Ok record) ->
  (skippedByRun options suiteExclusions caseItem = true /\ w' = w /\
   exists reason, record = buildSkippedRecord caseItem reason) \/
  (skippedByRun options suiteExclusions caseItem = false /\
   exists notes primary decoded,
     record = classifyReply caseItem (opt_profile options)
                (resolvePolicy caseItem (opt_profile options)) notes primary decoded).
Proof.
  intros options suiteExclusions caseItem w w' record. unfold runCase, skippedByRun.
  destruct (powerStageExcluded options caseItem).
  { intros H. injection H as <- <-. left. cbn [orb]. eauto. }
  destruct (case_serialOnly caseItem).
  { intros H. injection H as <- <-. left. cbn [orb]. eauto. }
  destruct (Js.truthy_opt (exclusionReasonOf options suiteExclusions caseItem)).
  { intros H. injection H as <- <-. left. cbn [orb]. eauto. }
  cbv zeta. cbn [orb]. intros H. right. split; [reflexivity |].
  unfold executeCase in H.
  destruct (verifyGeneratedChecksum caseItem) as [check |]; [| discriminate].
  match type of H with
  | context [sendAndAwaitReply ?tx ?w0] =>
      destruct (sendAndAwaitReply tx w0) as [w1 [primary |]]; [| discriminate]
  end.
  destruct (match rxBytes primary with
            | Some rx => d <- decodeReply rx;; Ok (Some d)
            | None => Ok None
            end) as [decoded |]; [| discriminate].
  injection H as _ <-. eauto.
Qed.



(** X17: every record that the loop of [run] produces is consistent: it
    names its case, its colour follows its status, it has a skip reason
    exactly when it is SKIPPED, a NO_REPLY has no reply, and its match type is
    one of fourteen (never UNSET, NO_REPLY_QUIRK or PARSER_NOT_CONFIGURED). *)
Theorem record_is_consistent : forall options suiteExclusions caseItem w w' record,
  runCase options suiteExclusions caseItem w = (w', Ok record) ->
  rec_commandKey record = case_commandKey caseItem /\
  rec_statusColor record = statusColorFromStatus (rec_status record) /\
  (rec_status record = SKIPPED <-> rec_skipReason record <> None) /\
  (rec_status record = NO_REPLY -> rec_transportStatus record = TS_NO_REPLY) /\
  (rec_transportStatus record = REPLY <-> rec_rxHex record <> None) /\
  In (rec_matchType record) MATCH_TYPES.
Proof.
  intros options suiteExclusions caseItem w w' record Hrun.
  destruct (runCase_record _ _ _ _ _ _ Hrun)
    as [(_ & _ & reason & ->) | (_ & notes & primary & decoded & ->)].
  - cbn. split; [reflexivity |]. split; [reflexivity |].
    split; [split; [discriminate | reflexivity] |].
    split; [discriminate |]. split; [split; [discriminate | intros H; now elim H] |].
    left. reflexivity.
  - pose proof (classifyReply_exchange caseItem (opt_profile options)
                  (resolvePolicy caseItem (opt_profile options)) notes primary decoded) as H.
    cbv zeta in H.
    destruct H as (K & _ & R & TS & _ & _ & _ & _ & _ & Hcolor & Hskip & Hnoreply).
    split; [rewrite K; reflexivity |]. split; [exact Hcolor |]. split; [exact Hskip |].
    split; [| split; [| apply classifyReply_matchType]].
    + intros Hs. rewrite TS. cbn [makeBaseRecord rec_transportStatus].
      now rewrite (Hnoreply Hs).
    + rewrite TS, R. cbn [makeBaseRecord rec_transportStatus rec_rxHex].
      destruct (rxBytes primary); cbn [option_map]; split; intros; congruence.
Qed.

Lemma record_is_consistent_witness :
  exists record,
    runCase (plainOptions single generic) [] sleepQueryCase idle
    = ({| script := []; trace := [EvSend sampleRequest] |}, Ok record) /\
    rec_statusColor record = statusColorFromStatus (rec_status record).
Proof.
  eexists. split; [reflexivity |].
  apply (record_is_consistent (plainOptions single generic) [] sleepQueryCase idle
           {| script := []; trace := [EvSend sampleRequest] |} _ eq_refl).
Defined.






(** ** Reply codes *)

Lemma In_acceptedCodes : forall expected allowed code,
  In code (acceptedCodes expected allowed) <->
  normalizeCode expected = Some code
  \/ exists item, In item allowed /\ normalizeCode (Some item) = Some code.
Proof.
  intros expected allowed code. unfold acceptedCodes.
  rewrite in_app_iff, in_flat_map. split.
  - intros [H | (item & Hin & H)].
    + left. destruct (normalizeCode expected) as [c |]; [| contradiction].
      destruct H as [-> | []]. reflexivity.
    + right. exists item. split; [exact Hin |].
      destruct (normalizeCode (Some item)) as [c |]; [| contradiction].
      destruct H as [-> | []]. reflexivity.
  - intros [H | (item & Hin & H)].
    + left. rewrite H. now left.
    + right. exists item. split; [exact Hin |]. rewrite H. now left.
Qed.

(** X20: a reply code is accepted when the case expects no code at all, or
    when it is the normal form of the expected code or of one of the allowed
    codes; an expectation is never met by a reply without a code. *)
Theorem isReplyCodeAccepted_spec : forall expected actual allowed,
  isReplyCodeAccepted expected actual allowed = true <->
  (normalizeCode expected = None
   /\ forall item, In item allowed -> normalizeCode (Some item) = None)
  \/ exists code,
       actual = Some code
       /\ (normalizeCode expected = Some code
           \/ exists item, In item allowed /\ normalizeCode (Some item) = Some code).
Proof.
  intros expected actual allowed. unfold isReplyCodeAccepted.
  destruct (acceptedCodes expected allowed) as [| first others] eqn:Hacc.
  - change (Js.len (@nil string) =? 0) with true. cbv iota.
    split; [intros _ | reflexivity]. left.
    assert (Hnone : forall code, ~ In code (acceptedCodes expected allowed))
      by (intros code; rewrite Hacc; intros []).
    split.
    + destruct (normalizeCode expected) as [code |] eqn:E; [| reflexivity].
      exfalso. apply (Hnone code), In_acceptedCodes. now left.
    + intros item Hin. destruct (normalizeCode (Some item)) as [code |] eqn:E; [| reflexivity].
      exfalso. apply (Hnone code), In_acceptedCodes. right. eauto.
  - replace (Js.len (first :: others) =? 0) with false
      by (symmetry; apply Z.eqb_neq; rewrite len_cons; pose proof (len_nonneg _ others); lia).
    assert (Hfirst : In first (acceptedCodes expected allowed)) by (rewrite Hacc; now left).
    rewrite <- Hacc.
    split.
    + intros H. right. destruct actual as [code |]; [| discriminate].
      cbn [Js.truthy_opt opt_text] in H.
      destruct (Js.truthy code); cbn [negb] in H; [| discriminate].
      apply set_has_In, In_acceptedCodes in H. exists code. split; [reflexivity | exact H].
    + intros [[Hexp Hall] | (code & -> & H)].
      * exfalso. apply In_acceptedCodes in Hfirst as [H | (item & Hin & H)].
        -- congruence.
        -- rewrite (Hall item Hin) in H. discriminate.
      * cbn [Js.truthy_opt opt_text].
        assert (Hin : In code (acceptedCodes expected allowed)) by (now apply In_acceptedCodes).
        assert (Htruthy : Js.truthy code = true).
        { assert (Hshape : exists input, normalizeCode input = Some code).
          { destruct H as [H | (item & _ & H)]; eauto. }
          destruct Hshape as [input Hshape].
          destruct (normalized_code_shape _ _ Hshape) as [Hlen _].
          apply truthy_spec. intros ->. simpl in Hlen. lia. }
        rewrite Htruthy. cbn [negb]. now apply set_has_In.
Qed.

(** ** Numeric specs and case builders *)





(** X21: the value of a single run is the value sent: a case selected by
    set code carries exactly the value given on the command line (and none
    for a code that is not numeric), and a case selected by command key
    carries that value or, for a command that is not numeric, none. *)
Theorem buildSingleCase_value : forall byKey bySetCode specs selector value item,
  buildSingleCase byKey bySetCode specs selector value = Ok item ->
  (case_generatedValue item = None \/ case_generatedValue item = value) /\
  (JsMap.get byKey selector = None -> case_generatedValue item = value) /\
  (case_generatedValue item = None -> case_source item = from_truth) /\
  (case_generatedValue item <> None -> case_source item = generated).
Proof.
  intros byKey bySetCode specs selector value item H.
  assert (Htruth : forall row,
            buildCaseFromTruthRow row from_truth = Ok item ->
            case_generatedValue item = None /\ case_source item = from_truth).
  { intros row Hrow. unfold buildCaseFromTruthRow in Hrow.
    destruct (parseHexBytes (row_requestHex row)); [| discriminate].
    destruct (parseOptionalHex (row_replyHex row)); [| discriminate].
    injection Hrow as <-. split; reflexivity. }
  assert (Hgen : forall spec v,
            buildGeneratedNumericCase spec v generated = Ok item ->
            case_generatedValue item = Some v /\ case_source item = generated).
  { intros spec v Hspec. split; [eapply buildGeneratedNumericCase_value; eassumption |].
    unfold buildGeneratedNumericCase in Hspec.
    destruct (parseHexBytes (row_requestHex (spec_baseRow spec))); [| discriminate].
    cbn [bind] in Hspec.
    destruct (parseOptionalHex (row_replyHex (spec_baseRow spec))); [| discriminate].
    injection Hspec as <-. reflexivity. }
  unfold buildSingleCase in H.
  destruct (JsMap.get byKey selector) as [rowByKey |].
  - assert (Hcases : (case_generatedValue item = None /\ case_source item = from_truth)
                     \/ (case_generatedValue item = value /\ case_source item = generated
                         /\ value <> None)).
    { destruct (normalizeCode (row_setCommandCode rowByKey)) as [setCode |];
        [| left; eapply Htruth; eassumption].
      destruct value as [v |]; [| left; eapply Htruth; eassumption].
      destruct (JsMap.get specs setCode) as [spec |]; [| left; eapply Htruth; eassumption].
      right. destruct (Hgen _ _ H) as [-> ->]. repeat split. discriminate. }
    destruct Hcases as [[Hnone Hsrc] | (Hval & Hsrc & Hsome)].
    + split; [now left |]. split; [discriminate |]. split; [auto | congruence].
    + split; [now right |]. split; [discriminate |]. split; [congruence | auto].
  - destruct (normalizeCode (Some selector)) as [normalizedCode |]; [| discriminate].
    destruct (rows_of bySetCode normalizedCode) as [| first others]; [discriminate |].
    destruct (JsMap.get specs normalizedCode) as [spec |].
    + destruct value as [v |]; [| discriminate].
      destruct (Hgen _ _ H) as [Hv Hsrc]. rewrite Hv.
      split; [now right |]. split; [reflexivity |]. split; [discriminate | auto].
    + destruct value as [v |]; [discriminate |].
      destruct (Htruth _ H) as [Hv Hsrc]. rewrite Hv.
      split; [now left |]. split; [reflexivity |]. split; [auto | congruence].
Qed.

Lemma buildSingleCase_value_witness :
  exists item,
    buildSingleCase [] (snd (indexRows [contrastRow]))
      (match deriveNumericSpecs (snd (indexRows [contrastRow])) with
       | Ok specs => specs
       | Throw _ => []
       end) "0xc217" (Some 7) = Ok item /\
    case_generatedValue item = Some 7.
Proof.
  eexists. split; [vm_compute; reflexivity |].
  refine (proj1 (proj2 (buildSingleCase_value [] (snd (indexRows [contrastRow]))
            (match deriveNumericSpecs (snd (indexRows [contrastRow])) with
             | Ok specs => specs
             | Throw _ => []
             end) "0xc217" (Some 7) _ _)) eq_refl).
  vm_compute. reflexivity.
Defined.




(** *** The outcome of [deriveNumericSpecs] *)

Lemma numeric_index_get : forall code,
  In code NUMERIC_SET_CODES -> JsMap.get NUMERIC_VALUE_INDEX_BY_SET code = Some (38, 39).
Proof.
  intros code H. unfold NUMERIC_SET_CODES in H. cbn [In] in H.
  repeat (destruct H as [<- | H]; [reflexivity |]). contradiction.
Qed.

Lemma deriveNumericSpec_throws : forall bySetCode specs code e,
  In code NUMERIC_SET_CODES ->
  deriveNumericSpec bySetCode specs code = Throw e ->
  exists baseRow,
    hd_error (rows_of bySetCode code) = Some baseRow /\
    (parseHexBytes (row_requestHex baseRow) = Throw e
     \/ List.length (requestBytes baseRow) <> 40%nat).
Proof.
  intros bySetCode specs code e Hin H. unfold deriveNumericSpec in H.
  destruct (rows_of bySetCode code) as [| baseRow others]; [discriminate |].
  exists baseRow. split; [reflexivity |].
  rewrite (numeric_index_get _ Hin) in H. unfold requestBytes.
  destruct (parseHexBytes (row_requestHex baseRow)) as [txBytes |];
    [| left; cbn [bind] in H; injection H as <-; reflexivity].
  right. cbn [bind] in H. unfold Js.len in H.
  destruct (Z.leb_spec (Z.of_nat (List.length txBytes)) 38); [lia |].
  destruct (Z.leb_spec (Z.of_nat (List.length txBytes)) 39); [lia |].
  cbn [orb] in H.
  destruct (Z.eqb_spec 39 (Z.of_nat (List.length txBytes) - 1)); [discriminate | lia].
Qed.

Lemma deriveNumericLoop_throws : forall bySetCode codes specs e,
  (forall code, In code codes -> In code NUMERIC_SET_CODES) ->
  deriveNumericLoop bySetCode codes specs = Throw e ->
  exists code baseRow,
    In code codes /\ hd_error (rows_of bySetCode code) = Some baseRow /\
    (parseHexBytes (row_requestHex baseRow) = Throw e
     \/ List.length (requestBytes baseRow) <> 40%nat).
Proof.
  intros bySetCode codes. induction codes as [| code rest IH]; intros specs e Hsub H;
    [discriminate |].
  cbn [deriveNumericLoop] in H.
  destruct (deriveNumericSpec bySetCode specs code) as [specs1 | e1] eqn:Hstep; cbn [bind] in H.
  - destruct (IH specs1 e (fun c Hc => Hsub c (or_intror Hc)) H) as (c & row & Hc & Hrow).
    exists c, row. split; [now right | exact Hrow].
  - injection H as <-.
    destruct (deriveNumericSpec_throws _ _ _ _ (Hsub code (or_introl eq_refl)) Hstep)
      as (row & Hrow). exists code, row. split; [now left | exact Hrow].
Qed.

(** X23: [deriveNumericSpecs] gives a spec to exactly the numeric set codes
    that some truth row carries, based on the first such row, whose request
    has 40 bytes with the value at offset 38 and the checksum at offset 39;
    it throws when the first row of a numeric code is not such a request. *)
Theorem deriveNumericSpecs_outcome : forall rows,
  match deriveNumericSpecs (snd (indexRows rows)) with
  | Ok specs =>
      forall code,
        match JsMap.get specs code with
        | Some spec =>
            In code NUMERIC_SET_CODES /\
            find (hasCode code) rows = Some (spec_baseRow spec) /\
            spec_valueIndex spec = 38 /\ spec_checksumIndex spec = 39 /\
            List.length (requestBytes (spec_baseRow spec)) = 40%nat
        | None => ~ In code NUMERIC_SET_CODES \/ find (hasCode code) rows = None
        end
  | Throw e =>
      exists code baseRow,
        In code NUMERIC_SET_CODES /\ find (hasCode code) rows = Some baseRow /\
        (parseHexBytes (row_requestHex baseRow) = Throw e
         \/ List.length (requestBytes baseRow) <> 40%nat)
  end.
Proof.
  intros rows.
  destruct (deriveNumericSpecs (snd (indexRows rows))) as [specs | e] eqn:H.
  - intros code. pose proof (deriveNumericSpecs_get rows specs code H) as Hget.
    destruct (JsMap.get specs code) as [spec |] eqn:Hspec.
    + destruct (deriveNumericSpecs_sound _ _ _ _ H Hspec)
        as (template & (_ & _ & Hparse & _) & Hin & Hv & Hc & Hlen).
      split; [exact Hin |].
      destruct (find (hasCode code) rows) as [baseRow |]; [| discriminate].
      rewrite (proj2 (set_has_In _ _) Hin) in Hget.
      destruct Hget as (spec' & Hsame & Hbase). injection Hsame as <-.
      split; [now rewrite Hbase |]. split; [exact Hv |]. split; [exact Hc |].
      unfold requestBytes. now rewrite Hparse.
    + destruct (find (hasCode code) rows) as [baseRow |]; [| now right].
      left. intros Hin. rewrite (proj2 (set_has_In _ _) Hin) in Hget.
      destruct Hget as (spec' & Hsame & _). discriminate.
  - unfold deriveNumericSpecs in H.
    destruct (deriveNumericLoop_throws _ _ _ _ (fun c Hc => Hc) H)
      as (code & baseRow & Hin & Hrow & Hbad).
    exists code, baseRow. split; [exact Hin |]. split; [| exact Hbad].
    rewrite indexRows_rows_of in Hrow. now rewrite find_filter.
Qed.

(** ** Replay of issues *)

Lemma issuesLoop_length : forall byKey bySetCode specs records seen cases,
  issuesLoop byKey bySetCode specs records seen = Ok cases ->
  (List.length cases <= List.length records)%nat.
Proof.
  intros byKey bySetCode specs. induction records as [| record rest IH]; intros seen cases H.
  - injection H as <-. simpl. lia.
  - destruct (existsb (dedupe_eqb (dedupeKeyOf record)) seen) eqn:Hseen.
    + rewrite issuesLoop_seen in H by exact Hseen. apply IH in H. simpl. lia.
    + destruct (issuesLoop_new _ _ _ _ _ _ _ Hseen H) as (later & Hlater & Hcases).
      apply IH in Hlater. destruct Hcases as [-> | (item & ->)]; simpl; lia.
Qed.

(** A record whose key is already seen, or is the key of an earlier record,
    changes nothing. *)
Lemma issuesLoop_duplicate : forall byKey bySetCode specs records seen record rest,
  existsb (dedupe_eqb (dedupeKeyOf record)) seen = true
  \/ (exists earlier, In earlier records /\ dedupeKeyOf earlier = dedupeKeyOf record) ->
  issuesLoop byKey bySetCode specs (records ++ record :: rest) seen
  = issuesLoop byKey bySetCode specs (records ++ rest) seen.
Proof.
  intros byKey bySetCode specs. induction records as [| first others IH];
    intros seen record rest Hdup.
  - destruct Hdup as [Hseen | (earlier & [] & _)].
    cbn [app]. now apply issuesLoop_seen.
  - change ((first :: others) ++ record :: rest) with (first :: (others ++ record :: rest)).
    change ((first :: others) ++ rest) with (first :: (others ++ rest)).
    destruct (existsb (dedupe_eqb (dedupeKeyOf first)) seen) eqn:Hfirst.
    + rewrite !issuesLoop_seen by exact Hfirst. apply IH.
      destruct Hdup as [Hseen | (earlier & [<- | Hin] & Hkey)].
      * now left.
      * left. now rewrite <- Hkey.
      * right. eauto.
    + assert (Hdup' : existsb (dedupe_eqb (dedupeKeyOf record)) (dedupeKeyOf first :: seen) = true
                      \/ (exists earlier, In earlier others
                                          /\ dedupeKeyOf earlier = dedupeKeyOf record)).
      { destruct Hdup as [Hseen | (earlier & [<- | Hin] & Hkey)].
        - left. cbn [existsb]. rewrite Hseen. apply orb_true_r.
        - left. cbn [existsb]. rewrite <- Hkey, dedupe_eqb_refl. reflexivity.
        - right. eauto. }
      cbn [issuesLoop]. cbv zeta. unfold dedupeKeyOf in Hfirst. rewrite Hfirst.
      match goal with
      | |- context [issuesLoop byKey bySetCode specs (others ++ record :: rest) ?s] =>
          rewrite (IH s record rest Hdup')
      end.
      reflexivity.
Qed.

(** X24: the replay of an issues file builds at most one case for each
    failing record, and a failing record that repeats the command key, set
    code and value of an earlier failing record adds nothing. *)
Theorem issue_replay_drops_duplicates :
  forall records record rest byKey bySetCode specs,
  (forall cases,
     buildIssuesCases (records ++ record :: rest) byKey bySetCode specs = Ok cases ->
     (List.length cases <= List.length (filter isIssue (records ++ record :: rest)))%nat) /\
  ((exists earlier, In earlier records /\ isIssue earlier = true
                    /\ dedupeKeyOf earlier = dedupeKeyOf record) ->
   buildIssuesCases (records ++ record :: rest) byKey bySetCode specs
   = buildIssuesCases (records ++ rest) byKey bySetCode specs).
Proof.
  intros records record rest byKey bySetCode specs. split.
  - intros cases H. unfold buildIssuesCases in H.
    destruct (issuesLoop byKey bySetCode specs (filter isIssue (records ++ record :: rest)) [])
      as [built |] eqn:Hloop; [| discriminate].
    cbn [bind] in H. injection H as <-.
    apply issuesLoop_length in Hloop. unfold powerLast.
    rewrite length_app.
    pose proof (filter_length (fun item => case_isPowerCommand item) built) as Hsplit.
    assert (Hneg : filter (fun x => negb (case_isPowerCommand x)) built
                   = filter (fun item => negb (case_isPowerCommand item)) built) by reflexivity.
    lia.
  - intros (earlier & Hin & Hissue & Hkey). unfold buildIssuesCases.
    rewrite !filter_app. cbn [filter].
    destruct (isIssue record); [| reflexivity].
    rewrite issuesLoop_duplicate; [reflexivity |].
    right. exists earlier. split; [| exact Hkey]. apply filter_In. now split.
Qed.

(** ** Command line *)

Lemma lt_int_false : forall q k,
  Js.lt_int (Js.Finite q) k = false -> (inject_Z k <= q)%Q.
Proof.
  intros q k H. unfold Js.lt_int in H. apply negb_false_iff in H.
  now apply Qle_bool_iff.
Qed.

Lemma gt_int_false : forall q k,
  Js.gt_int (Js.Finite q) k = false -> (q <= inject_Z k)%Q.
Proof.
  intros q k H. unfold Js.gt_int in H. apply negb_false_iff in H.
  now apply Qle_bool_iff.
Qed.

Lemma gt_int_true : forall q k,
  Js.gt_int (Js.Finite q) k = true -> (inject_Z k < q)%Q.
Proof.
  intros q k H. unfold Js.gt_int in H. apply negb_true_iff in H.
  apply Qnot_le_lt. intros Hle. apply Qle_bool_iff in Hle. congruence.
Qed.

Lemma round_range : forall q,
  (inject_Z 0 <= q)%Q -> (q <= inject_Z 100)%Q -> 0 <= Js.round q <= 100.
Proof.
  intros q Hlo Hhi. unfold Js.round. split.
  - change 0 with (Qfloor (1 # 2)). apply Qfloor_resp_le.
    rewrite <- (Qplus_0_l (1 # 2)) at 1. apply Qplus_le_compat; [exact Hlo | apply Qle_refl].
  - change 100 with (Qfloor (inject_Z 100 + (1 # 2))). apply Qfloor_resp_le.
    apply Qplus_le_compat; [exact Hhi | apply Qle_refl].
Qed.

Section Options.

Variable toNumber : string -> Js.JsNumber.

Lemma argumentOf_truthy : forall rest missing next rest',
  argumentOf rest missing = Ok (next, rest') -> Js.truthy next = true.
Proof.
  intros [| first rest] missing next rest' H; [discriminate |].
  cbn [argumentOf] in H. destruct (Js.truthy first) eqn:E; [| discriminate].
  injection H as <- _. exact E.
Qed.

Lemma parseValueOption_range : forall next v,
  parseValueOption toNumber next = Ok v -> 0 <= v <= 100.
Proof.
  intros next v H. unfold parseValueOption in H.
  destruct (toNumber next) as [| negative | q]; try discriminate.
  destruct (Js.lt_int (Js.Finite q) 0) eqn:Hlo; [discriminate |].
  destruct (Js.gt_int (Js.Finite q) 100) eqn:Hhi; [discriminate |].
  cbn [orb] in H. injection H as <-.
  apply round_range; [now apply lt_int_false | now apply gt_int_false].
Qed.

Lemma parseTarget_range : forall value host port,
  parseTarget toNumber value = Ok (host, port) ->
  Js.truthy host = true /\ numberBetween 1 65535 port.
Proof.
  intros value host port H. unfold parseTarget in H.
  destruct (Js.split ":" value) as [| h [| portText others]]; try discriminate.
  destruct (Js.truthy h) eqn:Hh; cbn [negb orb] in H; [| discriminate].
  destruct (Js.truthy portText); cbn [negb] in H; [| discriminate].
  destruct (toNumber portText) as [| negative | q]; try discriminate.
  cbn [Js.isFinite negb orb] in H.
  destruct (Js.lt_int (Js.Finite q) 1) eqn:Hlo; [discriminate |].
  destruct (Js.gt_int (Js.Finite q) 65535) eqn:Hhi; [discriminate |].
  cbn [orb] in H. injection H as <- <-. split; [exact Hh |].
  exists q. split; [reflexivity |].
  split; [now apply lt_int_false | now apply gt_int_false].
Qed.

Lemma parseNumberOption_ok : forall name next rejected n,
  parseNumberOption toNumber name next rejected = Ok n ->
  exists q, n = Js.Finite q /\ rejected (Js.Finite q) = false.
Proof.
  intros name next rejected n H. unfold parseNumberOption in H.
  destruct (toNumber next) as [| negative | q]; try discriminate.
  cbn [Js.isFinite negb orb] in H.
  destruct (rejected (Js.Finite q)) eqn:E; [discriminate |].
  injection H as <-. eauto.
Qed.

Lemma isAvailableColumn_spec : forall col,
  isAvailableColumn col = true
  <-> In col AVAILABLE_COLUMN_KEYS \/ In col OBJECT_PROTOTYPE_KEYS.
Proof.
  intros col. unfold isAvailableColumn. rewrite orb_true_iff, !set_has_In. reflexivity.
Qed.

Lemma parseColumnList_ok : forall input columns,
  parseColumnList input = Ok columns ->
  columns <> []
  /\ Forall (fun col => In col AVAILABLE_COLUMN_KEYS \/ In col OBJECT_PROTOTYPE_KEYS) columns
  /\ columns = filter Js.truthy (map Js.trim (Js.split "," input)).
Proof.
  intros input columns H. unfold parseColumnList in H.
  destruct (filter Js.truthy (map Js.trim (Js.split "," input))) as [| col others] eqn:E;
    [discriminate |].
  destruct (find (fun col => negb (isAvailableColumn col)) (col :: others)) eqn:F;
    [discriminate |].
  injection H as <-. split; [discriminate |]. split; [| reflexivity].
  apply Forall_forall. intros c Hc.
  pose proof (find_none _ _ F c Hc) as Hnone. cbv beta in Hnone.
  apply isAvailableColumn_spec. now apply negb_false_iff.
Qed.

Lemma setMode_ok : forall st next st',
  setMode st next = Ok st' -> st' = assign st (set_mode (Some next)).
Proof.
  intros st next st' H. unfold setMode in H.
  destruct (ps_mode st) as [mode |]; [| now injection H].
  destruct (negb (RunMode_eqb mode next)); [discriminate | now injection H].
Qed.

(** Every option keeps the settings valid. *)
Lemma parseOption_valid : forall st arg rest st' rest',
  validState st ->
  parseOption toNumber st arg rest = Ok (st', rest') ->
  validState st'.
Proof.
  intros st arg rest st' rest' Hvalid H.
  destruct Hvalid as (V1 & V2 & V3 & V4 & V5 & V6 & V7 & V8 & V9 & V10 & V11 & V12).
  unfold parseOption in H.
  repeat match type of H with
  | (if ?c then _ else _) = _ =>
      lazymatch c with
      | context [String.eqb arg] => destruct c
      end
  end;
  unfold bind in H;
  repeat match type of H with
  | context [argumentOf ?r ?m] =>
      let Ha := fresh "Ha" in
      destruct (argumentOf r m) as [[? ?] |] eqn:Ha;
      [apply argumentOf_truthy in Ha; cbn [fst snd] in H | discriminate H]
  | context [setMode ?s ?m] =>
      let Hm := fresh "Hm" in
      destruct (setMode s m) as [? |] eqn:Hm;
      [apply setMode_ok in Hm; subst | discriminate H]
  | context [parseValueOption toNumber ?x] =>
      let Hv := fresh "Hv" in
      destruct (parseValueOption toNumber x) as [? |] eqn:Hv;
      [apply parseValueOption_range in Hv | discriminate H]
  | context [parseTarget toNumber ?x] =>
      let Ht := fresh "Ht" in
      destruct (parseTarget toNumber x) as [[? ?] |] eqn:Ht;
      [apply parseTarget_range in Ht as [? ?]; cbn [fst snd] in H | discriminate H]
  | context [parseNumberOption toNumber ?a ?b ?c] =>
      let Hn := fresh "Hn" in
      destruct (parseNumberOption toNumber a b c) as [? |] eqn:Hn;
      [apply parseNumberOption_ok in Hn as (? & -> & Hn) | discriminate H]
  | context [parseColumnList ?x] =>
      let Hc := fresh "Hc" in
      destruct (parseColumnList x) as [? |] eqn:Hc;
      [apply parseColumnList_ok in Hc as (? & ? & _) | discriminate H]
  | (if ?c then _ else _) = _ => destruct c
  | Throw _ = Ok _ => discriminate H
  | Ok _ = Ok _ => injection H as <- <-
  end;
  unfold validState, validSettings, assign;
  cbn [ps_mode ps_singleSelector ps_issuesFile ps_value ps_targetHost ps_targetPort
       ps_localPort ps_timeoutMs ps_rate ps_settleSetMs ps_settleModeMs ps_columns
       Js.truthy_opt];
  repeat match goal with
  | |- _ /\ _ => split
  end;
  try assumption; try (intros; discriminate); try (intros; assumption).
  all: try (intros v0 Hv0; injection Hv0 as <-; assumption).
  all: try (apply orb_false_iff in Hn as [Hlo Hhi];
            eexists; split; [reflexivity |];
            split; [now apply lt_int_false | now apply gt_int_false]).
  all: try (eexists; split; [reflexivity |];
            apply gt_int_true; now apply negb_false_iff).
  all: try (eexists; split; [reflexivity |]; now apply lt_int_false).
Qed.

Lemma parseLoop_valid : forall fuel argv st st',
  validState st -> parseLoop toNumber fuel st argv = Ok st' -> validState st'.
Proof.
  induction fuel as [| k IH]; intros argv st st' Hvalid H.
  - destruct argv; cbn in H; injection H as <-; exact Hvalid.
  - destruct argv as [| arg rest]; [cbn in H; injection H as <-; exact Hvalid |].
    cbn [parseLoop] in H.
    destruct (parseOption toNumber st arg rest) as [[st1 rest1] |] eqn:Hstep; [| discriminate].
    cbn [bind fst snd] in H.
    eapply IH; [| exact H]. eapply parseOption_valid; eassumption.
Qed.

Lemma initialState_valid : validState initialState.
Proof.
  unfold validState, validSettings, initialState.
  cbn [ps_mode ps_singleSelector ps_issuesFile ps_value ps_targetHost ps_targetPort
       ps_localPort ps_timeoutMs ps_rate ps_settleSetMs ps_settleModeMs ps_columns].
  split; [discriminate |]. split; [discriminate |]. split; [discriminate |].
  split; [reflexivity |].
  split; [eexists; split; [reflexivity |]; split; discriminate |].
  split; [eexists; split; [reflexivity |]; split; discriminate |].
  split; [eexists; split; [reflexivity | reflexivity] |].
  split; [eexists; split; [reflexivity | reflexivity] |].
  split; [eexists; split; [reflexivity | discriminate] |].
  split; [eexists; split; [reflexivity | discriminate] |].
  split; [discriminate |].
  apply Forall_forall. intros col Hcol. apply isAvailableColumn_spec.
  revert col Hcol. apply Forall_forall. unfold DEFAULT_COLUMNS. repeat constructor.
Qed.

End Options.

(** X25: the options of a run are valid whenever [parseOptions] returns:
    a single run has its selector and a replay its file, a value is an
    integer from 0 to 100, the ports are numbers from 1 to 65535 (not
    necessarily integers), the time-out and the rate are positive, the settle
    times are not negative, and the columns are a non-empty list of names that
    the look-up in [AVAILABLE_COLUMNS] finds: its thirty keys, or a name that
    a plain object inherits, such as [constructor]. *)
Theorem parseOptions_returns_valid_options : forall toNumber argv options,
  parseOptions toNumber argv = Ok options -> validOptions options.
Proof.
  intros toNumber argv options H. unfold parseOptions in H.
  destruct (parseLoop toNumber (List.length argv) initialState argv) as [st |] eqn:Hloop;
    [| discriminate].
  cbn [bind] in H.
  pose proof (parseLoop_valid toNumber _ _ _ _ initialState_valid Hloop) as Hvalid.
  destruct (ps_mode st) as [mode |] eqn:Hmode; [| discriminate].
  destruct (RunMode_eqb mode single && negb (Js.truthy_opt (ps_singleSelector st)));
    [discriminate |].
  destruct (RunMode_eqb mode issues && negb (Js.truthy_opt (ps_issuesFile st)));
    [discriminate |].
  injection H as <-. unfold validOptions, validState in *.
  cbn [opt_mode opt_singleSelector opt_issuesFile opt_value opt_targetHost opt_targetPort
       opt_localPort opt_timeoutMs opt_rate opt_settleSetMs opt_settleModeMs opt_columns].
  rewrite <- Hmode. exact Hvalid.
Qed.

Lemma parseOptions_returns_valid_options_witness :
  exists options,
    parseOptions (toNumberOf sampleNumbers) sampleArguments = Ok options /\
    opt_value options = Some 42 /\
    opt_targetPort options = Js.Finite (161 # 2) /\
    opt_columns options = ["status"; "constructor"] /\
    validOptions options.
Proof.
  eexists. split; [vm_compute; reflexivity |].
  split; [reflexivity |]. split; [reflexivity |]. split; [reflexivity |].
  apply (parseOptions_returns_valid_options (toNumberOf sampleNumbers) sampleArguments).
  vm_compute. reflexivity.
Defined.

Lemma setMode_other : forall st mode next,
  ps_mode st = Some mode -> mode <> next ->
  setMode st next
  = Throw (OptionError "Choose only one mode: --single, --suite, --sanity-test, or --issues-file").
Proof.
  intros st mode next Hmode Hne. unfold setMode. rewrite Hmode.
  destruct mode, next; try contradiction; reflexivity.
Qed.

(** X26: the modes exclude each other: once well-formed options have chosen
    a mode, an option that chooses another one makes [parseOptions] throw,
    whatever follows. *)
Theorem modes_are_exclusive : forall toNumber pre st mode next argument rest,
  parseLoop toNumber (List.length pre) initialState pre = Ok st ->
  ps_mode st = Some mode -> mode <> next -> Js.truthy argument = true ->
  parseOptions toNumber (pre ++ modeArguments next argument ++ rest)
  = Throw (OptionError "Choose only one mode: --single, --suite, --sanity-test, or --issues-file").
Proof.
  intros toNumber pre st mode next argument rest Hpre Hmode Hne Harg. unfold parseOptions.
  rewrite (parseLoop_app toNumber (List.length pre) pre initialState st) by (assumption || lia).
  pose proof (setMode_other st mode next Hmode Hne) as Hset.
  destruct next; cbn [modeArguments app]; rewrite length_app; cbn [List.length];
    rewrite Nat.add_succ_r; cbn [parseLoop].
  - change (parseOption toNumber st "--single" (argument :: rest))
      with (a <- argumentOf (argument :: rest) "--single requires a commandKey or setCommandCode" ;;
            st' <- setMode st single ;;
            Ok (assign st' (set_singleSelector (Some (fst a))), snd a)).
    unfold argumentOf. rewrite Harg. cbn [bind]. rewrite Hset. reflexivity.
  - change (parseOption toNumber st "--suite" rest)
      with (st' <- setMode st suite ;; Ok (st', rest)).
    rewrite Hset. reflexivity.
  - change (parseOption toNumber st "--sanity-test" rest)
      with (st' <- setMode st sanity ;; Ok (st', rest)).
    rewrite Hset. reflexivity.
  - change (parseOption toNumber st "--issues-file" (argument :: rest))
      with (a <- argumentOf (argument :: rest) ("--issues-file" +++ " requires a file path") ;;
            st' <- setMode st issues ;;
            Ok (assign st' (set_issuesFile (Some (fst a))), snd a)).
    unfold argumentOf. rewrite Harg. cbn [bind]. rewrite Hset. reflexivity.
Qed.

Lemma modes_are_exclusive_witness :
  parseOptions toNumber150 ["--suite"; "--debug-hex"; "--single"; "0xC217"; "--value"; "150"]
  = Throw (OptionError "Choose only one mode: --single, --suite, --sanity-test, or --issues-file").
Proof.
  apply (modes_are_exclusive toNumber150 ["--suite"; "--debug-hex"]
           (assign (assign initialState (set_mode (Some suite))) (set_debugHex true))
           suite single "0xC217" ["--value"; "150"]).
  - reflexivity.
  - reflexivity.
  - discriminate.
  - reflexivity.
Defined.

(** ** Suite exclusions *)

Lemma addExclusion_get : forall exclusions item code,
  JsMap.get (addExclusion exclusions item) code
  = match entryReason code item with
    | Some reason => Some reason
    | None => JsMap.get exclusions code
    end.
Proof.
  intros exclusions item code. unfold addExclusion, entryReason.
  destruct (normalizeCode (excl_code item)) as [itemCode |]; [| reflexivity].
  cbn [opt_string_eqb].
  destruct (Js.truthy (Js.trim (opt_text (excl_reason item)))); cbn [negb].
  - rewrite JsMap_get_set. destruct (String.eqb itemCode code); reflexivity.
  - now rewrite andb_false_r.
Qed.

(** X27: the exclusions of a suite are those of the exview-aio profile
    only; the reason recorded for a code is the trimmed reason of the last
    entry of the file for that code, and entries without a code or with a
    blank reason are ignored. *)
Theorem loadSuiteExclusions_lookup : forall profile config code,
  JsMap.get (loadSuiteExclusions profile config) code
  = match profile, config with
    | exview_aio, Some entries => lastReason code entries
    | _, _ => None
    end.
Proof.
  intros profile config code. unfold loadSuiteExclusions, lastReason.
  destruct profile; [| reflexivity]. destruct config as [entries |]; [| reflexivity].
  change (@None string) with (JsMap.get (@nil (string * string)) code) at 1.
  generalize (@nil (string * string)) as exclusions.
  induction entries as [| item rest IH]; intros exclusions; [reflexivity |].
  cbn [fold_left]. rewrite IH, addExclusion_get. reflexivity.
Qed.

(** ** Reports *)

Lemma undoubleQuotes_doubleQuotes : forall text,
  undoubleQuotes (doubleQuotes text +++ String quoteChar "") = text.
Proof.
  induction text as [| c rest IH]; [reflexivity |].
  cbn [doubleQuotes]. destruct (Ascii.eqb_spec c quoteChar) as [-> | Hne].
  - cbn [append undoubleQuotes]. rewrite Ascii.eqb_refl. now rewrite IH.
  - cbn [append undoubleQuotes].
    destruct (Ascii.eqb_spec c quoteChar); [contradiction |]. now rewrite IH.
Qed.

Lemma includes_head : forall c rest, Js.includes (String c rest) (String c "") = true.
Proof.
  intros c rest. cbn [Js.includes String.prefix].
  destruct (ascii_dec c c) as [_ | Hne]; [| now elim Hne].
  destruct rest; reflexivity.
Qed.

(** X28: a CSV field stands for one value only: undoing the quoting of
    [sanitizeForCsv] gives the value back, so two values never share a
    field, and a value without comma, quote or line feed is written as it
    is. *)
Theorem sanitizeForCsv_is_reversible : forall a b,
  csvFieldValue (sanitizeForCsv a) = a /\
  (sanitizeForCsv a = sanitizeForCsv b -> a = b) /\
  (sanitizeForCsv a = a <->
   Js.includes a "," = false /\ Js.includes a (String quoteChar "") = false
   /\ Js.includes a (String newlineChar "") = false).
Proof.
  assert (Hback : forall v, csvFieldValue (sanitizeForCsv v) = v).
  { intros v. unfold sanitizeForCsv.
    destruct (Js.includes v "," || Js.includes v (String quoteChar "")
              || Js.includes v (String newlineChar "")) eqn:E.
    - cbn [csvFieldValue]. rewrite Ascii.eqb_refl. apply undoubleQuotes_doubleQuotes.
    - destruct v as [| c rest]; [reflexivity |]. cbn [csvFieldValue].
      destruct (Ascii.eqb_spec c quoteChar) as [-> | _]; [| reflexivity].
      rewrite includes_head, orb_true_r in E. discriminate. }
  intros a b. split; [apply Hback |]. split.
  - intros H. rewrite <- (Hback a), <- (Hback b), H. reflexivity.
  - unfold sanitizeForCsv.
    destruct (Js.includes a ",") eqn:E1, (Js.includes a (String quoteChar "")) eqn:E2,
      (Js.includes a (String newlineChar "")) eqn:E3; cbn [orb];
      try (split; [intros H | intros (? & ? & ?); discriminate];
           assert (Hlen : String.length (String quoteChar (doubleQuotes a +++ String quoteChar ""))
                          = String.length a) by (now rewrite H);
           exfalso; clear - Hlen; cbn [String.length] in Hlen;
           rewrite length_append in Hlen; cbn [String.length] in Hlen;
           assert (String.length a <= String.length (doubleQuotes a))%nat
             by (clear; induction a as [| c rest IH]; [simpl; lia |];
                 cbn [doubleQuotes]; destruct (Ascii.eqb c quoteChar);
                 cbn [String.length]; lia);
           lia).
    split; [intros _; repeat split | reflexivity].
Qed.

(** *** The summary of a run *)

Lemma countStatus_cons : forall status record records,
  countStatus status (record :: records)
  = (if ResultStatus_eqb (rec_status record) status then 1 else 0) + countStatus status records.
Proof.
  intros status record records. unfold countStatus. cbn [filter].
  destruct (ResultStatus_eqb (rec_status record) status); [rewrite len_cons |]; lia.
Qed.

(** X29: the summary of a run counts every record once: the four counts
    add up to the number of records, and the issues written beside the
    report are exactly the records that did not pass, with the same counts
    of failures, missing replies and skips. *)
Theorem summary_counts_every_record_once : forall records,
  let s := buildSummary records in
  let i := issuesSummary records in
  sum_pass s + sum_fail s + sum_noReply s + sum_skipped s = Js.len records /\
  issuesOf records
  = filter (fun record => negb (ResultStatus_eqb (rec_status record) PASS)) records /\
  iss_total i = sum_fail s + sum_noReply s + sum_skipped s /\
  iss_fail i = sum_fail s /\ iss_noReply i = sum_noReply s /\ iss_skipped i = sum_skipped s.
Proof.
  intros records. cbv zeta. unfold buildSummary, issuesSummary. cbv zeta.
  cbn [sum_pass sum_fail sum_noReply sum_skipped iss_total iss_fail iss_noReply iss_skipped].
  induction records as [| record records (IH1 & IH2 & IH3 & IH4 & IH5 & IH6)].
  - repeat split.
  - assert (Hissues : issuesOf (record :: records)
                      = if negb (ResultStatus_eqb (rec_status record) PASS)
                        then record :: issuesOf records else issuesOf records).
    { unfold issuesOf at 1. cbn [filter]. fold (issuesOf records).
      destruct (rec_status record); reflexivity. }
    rewrite Hissues, !countStatus_cons, len_cons. cbn [filter]. rewrite <- IH2.
    destruct (rec_status record) eqn:Hst; cbn [ResultStatus_eqb negb];
      rewrite ?countStatus_cons, ?len_cons, ?Hst; cbn [ResultStatus_eqb];
      (split; [lia |]); (split; [reflexivity |]); repeat split; lia.
Qed.
